(* ===== verification/_CoqProject ===== *)
-Q . S2P
Prelude.v
Slice.v
Primitives.v
Types.v
State.v
Authorizations.v
Blocks.v
Retention.v
Checks.v
Renewal.v
RenewalFacts.v
Hop.v
Extension.v
ExtensionFacts.v
Chain.v
ChainFacts.v
Ledger.v
Codec.v
Weights.v
Migrations.v
MigrationFacts.v
DryRuns.v
Sdk.v
SdkFacts.v
SdkClient.v
Stress.v
StressPlan.v
Submission.v
Upload.v
BulkStore.v
Monitor.v
Scenarios.v
ReadLoad.v
HopLoad.v
Bitswap.v
Telemetry.v
CommandLine.v
Currency.v
Runtime.v
Benchmarks.v
BenchmarkFacts.v
AuthorizeTool.v
Presets.v
BlockLimits.v
Mock.v
StorageTheorems.v
ChainTheorems.v
ExtensionTheorems.v
RenewalTheorems.v
LedgerTheorems.v
MigrationTheorems.v
SdkTheorems.v
WeightTheorems.v
DefaultWeights.v
Fees.v
StressTheorems.v
LoadTheorems.v
MonitorTheorems.v
ToolTheorems.v
BitswapTheorems.v
