(* ===== verification/Prelude.v ===== *)
(** * The Bulletin chain, verified

    The Bulletin chain keeps data on chain for a limited time and promises that
    whoever was authorized to store it can read it back until then.  This library
    models its pallets, the runtimes that configure them, their storage migrations and
    the Rust SDK that talks to them, from the sources under [src/], and proves what
    makes them correct.

    ** The program's parts, and the files that model them

    - [pallets/transaction-storage] keeps the entries of each block, the content index,
      authorizations and authorizer budgets, checks the storage proof of the block that
      leaves the retention window, and sweeps it.  Its primitives crate has content
      hashes, CIDs and pool tags.  [Primitives] and [Slice] hold the primitives and the
      slice functions they use; [Types] the data types with their methods; [State] the
      storage of all pallets ([StoragePallet], [RenewalPallet], the frame system's share)
      and the configuration traits; [Authorizations] grants, refreshes, budgets, removal
      and genesis; [Blocks] [do_store], the block accumulator, sealing, proofs and the
      hooks; [Checks] the calls and their validation.
    - [pallets/data-renewal] extends retention: one-off and recurring renewals, the
      pending queue and its mandatory drain, the hard caps.  [Renewal] is the pallet.
    - [pallets/hop-promotion] stores data of the HOP network without debiting an
      allowance.  [Hop] is the pallet.
    - [transaction-storage/src/extension.rs] and [data-renewal/src/extension.rs] are the
      transaction extensions: the walk through wrapper calls, charging, and the pool
      priority.  [Extension] models them with the wrapper inspection of
      [pallets/common], whose currency without money is [Currency].
    - [runtimes/bulletin-paseo] and [bulletin-westend] choose limits, pool parameters,
      authorizer origins, XCM filters, weights, migrations and runtime APIs.  [Runtime]
      models these, [Presets] the genesis presets and the machine types of everything
      stored, [Weights] the weight tables, [DefaultWeights] the tables the pallets ship
      with, [BlockLimits] the weight attributes and the sanity checks against a block's
      limits, [Fees] what Paseo charges and the shares of a block it reserves.
    - [transaction-storage/src/migrations.rs] and [data-renewal/src/migrations.rs]
      rewrite stored bytes.  [Codec] models the SCALE layouts, [Migrations] the
      migrations, [DryRuns] their [pre_upgrade] and [post_upgrade] hooks.
    - [sdk/rust/src]: [Sdk] models chunking, CIDs, DAG-PB manifests, batches, estimates and
      renewal tracking; [SdkClient] the transaction client against a node given by its
      answers.
    - [stress-test/src] loads a live node.  [Stress] models the parts that depend on what
      the pallets store and verify: the decoder of raw storage entries with the
      discovery of CIDs, and the payloads of HOP requests.  [StressPlan] models the plans
      of a run, the stream of work and its reader; [AuthorizeTool] the grants;
      [Submission] error classes, nonces and the pipeline's workers; [Upload] the
      sequential uploader and the limits it keeps to; [BulkStore] the one-shot uploader
      as a step relation over submitters, monitor and main task; [Monitor] the
      pipeline's monitor of best and finalized blocks beside its workers.  [Scenarios]
      models the steps, sizes and figures of the sweep, the sequential and the renewal
      scenario, latencies, and what the tool derives from a node's constants; [HopLoad]
      the HOP scenarios, the mixed load as a step relation; [ReadLoad] the bulk download
      and the levels of concurrent reads, again as steps; [Bitswap] the handler of the
      Bitswap protocol over commands and transport events; [Telemetry] the results and
      the metric families they are recorded in; [CommandLine] the commands, the delivery
      of results and the loop of runs.
    - The [benchmarking.rs] of the three pallets prepare states, make the calls whose
      weights the tables hold, and assert what they left.  [Benchmarks] models them.

    [Chain] puts the pallets together the way the executive runs them: a step relation
    [chain_step_if] over blocks being opened, extrinsics applied, inherents applied and blocks
    closed, and [reachable_if], the states it reaches from a genesis.  An inherent that
    fails makes its block invalid, so it is no step.  A wrapper of the utility pallet
    dispatches the calls inside it, with their own origins ([leads_to], [part_of]); what
    other pallets do to the state modelled here is that [dec_providers] may come to answer
    otherwise, and governance may set a parameter in storage ([set_parameter]), such as
    Paseo's cap on permanent storage.  The facts files
    ([Retention], [RenewalFacts], [ExtensionFacts], [ChainFacts], [Ledger],
    [MigrationFacts], [SdkFacts], [BenchmarkFacts]) hold the invariants and the lemmas; the theorems files
    state the properties.  [Ledger] is an abstract machine of the renewal books and the
    proof that the chain implements it.  [Mock] instantiates every parameter so that
    each property with hypotheses is applied at a concrete state.

    ** How code becomes definitions

    Dispatchables and checks are functions of the monad [M]: a state to a result and a
    state, with the state rolled back where FRAME's transactional layer rolls back.
    Integers are [Z] with the width's saturation, wrap-around or checked operation
    written out where the source has it.  Storage maps are [gmap]s, bytes are lists of
    [Byte.byte], events, calls to host functions and provider references taken or given
    back are logs in order; a reference [dec_providers] refuses to give back is logged as
    refused, which is the leak the source warns of.  A panic is
    [None] in hooks.  Where the pallets call one another through traits, the model has a
    class: [OnObsoleteTransactions] with its law [OnObsoleteFrame] is what the storage
    pallet may rely on of the renewal pallet, [LeafValidator] with [LeafLaws] what the
    extension relies on of a pallet's leaves.

    ** Parameters

    Code outside the repository is a class argument, with documented behaviour as laws
    in a separate class: [Host]/[HostLaws] (digests, the Merkle proof check, the random
    chunk, the [cid] crate, the encoding of pool tags), [HopHost] (signatures),
    [RuntimeHost]/[RuntimeLaws] (how [pallet_utility] and other pallets dispatch: a wrapper
    acts through the calls inside it, other pallets write their own storage), [XcmHost]
    (location conversion), [ScaleHost]/[ScaleLaws] (fixed-width and compact integers),
    [WeightHost]/[WeightLaws] ([sp_weights]), [StorageKeys] (order of hashed keys),
    [CidLayout] (length of CID bytes), [FrameLimits] (the block limits [frame_system]
    derives), [GenesisHost] (the keyring and imported constants), [ReaderHost]/[ReaderLaws]
    ([Compact<u64>] and [cid::Cid]), [KeyHost] (keys from secret URIs), [FigureHost] (figures
    in floating point), [FeeHost]/[FeeLaws] (fee polynomials and the multiplier),
    [FrameTokens] (the types of FRAME's token traits), the [Node] of
    [SdkClient] (what a node answers), and [ContentSizes], the size of the content behind a
    hash, which says that no two contents of different size share a digest.

    ** The properties

    - C1 to C3, C5 and C6 ([StorageTheorems]): the proof check equals a linear scan; a store
      is all or nothing; what validation of a signed store decides and what preparation
      charges; budgets and grants.
    - C4, C7 to C12 ([ChainTheorems], [WeightTheorems]): in every state a chain reaches from
      a preset each number is of its machine type; in every reachable state the index is
      exact, sealed blocks are retained, provider references balance up to the refused
      ones, [try_state] holds and so do the hard caps; the mandatory work fits every block, and a block can
      always be closed.
    - C13 to C19 ([ExtensionTheorems]): nobody pays for nothing and validation is pure,
      wrapped stores are rejected, foreign chains can grant at most, priorities and
      boosts, promotions and their signatures, pool tags.
    - C20 to C25 ([RenewalTheorems], [LedgerTheorems]): the near-cap event, the drain with
      prepaid renewals, the sweep, the books of permanent storage, that whatever happens in
      a block is a run of the ledger's machine, and that registered content is never lost.
    - C26 to C30 ([MigrationTheorems]): layouts are never confused, the migrations keep what
      they should, the stepped one ends and survives blocks in between, and what the dry
      runs accept.
    - C31 to C34 ([SdkTheorems]): a chunked upload is the file, what estimates cover, what a
      confirmation means, and that the preflight agrees with the chain.
    - C35 ([StressTheorems]): the bulk reader finds what the chain stores.
    - C36 to C39 ([LoadTheorems], [ToolTheorems], [MonitorTheorems]): the load the stress-test
      tool puts on a chain.  The one-shot uploader accounts for every item in every
      interleaving; every store of the pipeline follows its authorization, and the grants
      admit the stores on the chain; the sequential upload keeps nonces and payloads
      together and its scan adds up; the pipeline's monitor counts finalized blocks once.
    - C40 ([BitswapTheorems]): the Bitswap client answers every request once, in request
      order, and what a response that never comes does to the later ones.

    [Scenarios] and [HopLoad] prove of their scenarios that latency figures are in order,
    that merging loses nothing, that what is authorized covers what is uploaded and
    renewed, that the weight regression is exact, that redaction hides the seed, that
    streams submit each index once, that index spaces are disjoint up to their size, that
    the pool fill is bounded, and that the mixed load accounts for every entry.
    [ReadLoad] proves that in every interleaving of its workers a bulk download accounts for
    each block it asked for, why and with what overshoot it stops, that the blocks are asked
    for round robin, and that the figures of a read level are sound; [Telemetry] that every
    operation writes a family under that family's labels and what recording twice or
    without a figure leaves; [CommandLine] that each result is delivered once and in order,
    which addresses are connected to, and how the loop counts its runs; [Currency] that no
    operation creates money.  [BenchmarkFacts] proves that every benchmark passes from an
    empty chain on every configuration the pallets accept, given an origin without a
    budget, a proof that fits, authorizations that outlive a block and room under the
    permanent cap, and that the origin [EnsureAllowedAuthorizers] registers does not fit.
    [Fees] proves what a proof and the base weight cost, that deposits are exact and fit
    their type, and that the fullest block's mandatory work leaves messages their share.

    ** Fuel and bounds

    The walk over wrappers is bounded by [MAX_WRAPPER_DEPTH] as in the source;
    [depth_fuel] is what is left of it, and [walk_fuel_enough] shows more changes
    nothing.  The stepped migration's loop has two rounds more than there are keys
    ([loop_fuel]) and each round moves the cursor; C28 proves that it returns.
    [encode_varint] has the ten rounds a [u64] needs, and [read_fields] one round per byte.
    [plans_loop] and [ranges_loop] have a round per account and take one at least
    ([plans_loop_spec], [ranges_loop_cover]).  Loops that wait for a node recur on the
    answers or events they get, and every statement holds for all of them.
    [split_fuel] has a round per character and one more, and the pool fill the 100000 rounds
    of the source's safety cap ([SAFETY_CAP]).  Everything else recurs on its data.

    ** Not modelled

    Root writing the pallets' own items with [system.set_storage], dispatching with the
    pallets' own origins through [dispatch_as], or setting the permanent-storage cap below
    what is in use or to the largest [u64]: [chain_step_if] leaves these out.  The list of
    parachains that may grant on Paseo, also storage-backed, is a parameter of the
    configuration.
    The weight tables of FRAME's own pallets; what the benchmarks measure, and the test that regenerates the compiled-in proof;
    the wiring of FRAME pallets in [construct_runtime] (consensus, sessions, fee payment)
    and Westend's fee constants; log
    messages and texts of errors; network input and output; the console and the TypeScript
    SDK.  The weights single-block migrations return are left out too.  Of the stress-test
    tool the parsing of arguments, connections and subscriptions, the metrics exposition
    server, wall-clock rates and the printing of results are left out; a figure in floating
    point is kept as the numbers it divides or as a value of [FigureHost]; the waits of its
    tasks are events that may come in any order. *)

From stdpp Require Export base list gmap strings option numbers fin_maps.
From Stdlib Require Export ZArith Lia.
From Stdlib Require Import Strings.Byte.

Open Scope Z_scope.

(** ** Scopes, hint databases *)

Declare Scope chain_scope.
Delimit Scope chain_scope with chain.
Open Scope chain_scope.

Create HintDb chain discriminated.

(** ** Bytes

    A Rust [u8] is a [Byte.byte]; [Vec<u8>], [[u8; 32]] and [AccountId32] are
    lists of bytes (the fixed lengths are stated where a theorem needs them). *)

Abbreviation byte := Byte.byte.
Abbreviation bytes := (list byte).

#[global] Instance byte_eq_dec : EqDecision byte := Byte.byte_eq_dec.

Lemma byte_of_to_nat (b : byte) : Byte.of_nat (Byte.to_nat b) = Some b.
Proof. apply Byte.of_to_nat. Qed.

#[global] Instance byte_countable : Countable byte :=
  inj_countable Byte.to_nat Byte.of_nat byte_of_to_nat.

(** A byte from an integer, as [x as u8]. *)
Definition byte_of_Z (z : Z) : byte :=
  match Byte.of_N (Z.to_N (z mod 256)) with
  | Some b => b
  | None => Byte.x00
  end.

Definition byte_to_Z (b : byte) : Z := Z.of_N (Byte.to_N b).

(** ** Machine integers

    Unsigned integers are [Z]; every operation writes out what Rust does at
    the boundary of the width. *)

Definition u8_max : Z := 255.
Definition u32_max : Z := 4294967295.
Definition u64_max : Z := 18446744073709551615.
Definition u128_max : Z := 340282366920938463463374607431768211455.

Definition is_u32 (x : Z) : Prop := 0 <= x <= u32_max.
Definition is_u64 (x : Z) : Prop := 0 <= x <= u64_max.
Definition is_u128 (x : Z) : Prop := 0 <= x <= u128_max.

(** [uN::saturating_add], [uN::saturating_sub], [uN::saturating_mul]. *)
Definition sat_add (max a b : Z) : Z := Z.min max (a + b).
Definition sat_sub (a b : Z) : Z := Z.max 0 (a - b).
Definition sat_mul (max a b : Z) : Z := Z.min max (a * b).

Abbreviation sat_add_u32 := (sat_add u32_max).
Abbreviation sat_add_u64 := (sat_add u64_max).

(** [uN::checked_sub]. *)
Definition checked_sub (a b : Z) : option Z :=
  if b <=? a then Some (a - b) else None.

(** [x as u32], [x as u64]: truncation. *)
Definition as_u32 (x : Z) : Z := x mod 4294967296.
Definition as_u64 (x : Z) : Z := x mod 18446744073709551616.

(** [uN::abs_diff]. *)
Definition abs_diff (a b : Z) : Z := Z.abs (a - b).

(** [usize::div_ceil] for a positive divisor. *)
Definition div_ceil (a b : Z) : Z := (a + b - 1) / b.

(** [u64::to_le_bytes]. *)
Fixpoint le_bytes (n : nat) (x : Z) : bytes :=
  match n with
  | O => []
  | S n' => byte_of_Z x :: le_bytes n' (x / 256)
  end.

Definition u64_to_le_bytes (x : Z) : bytes := le_bytes 8 x.

(** The number a little-endian encoding stands for. *)
Fixpoint le_value (l : bytes) : Z :=
  match l with [] => 0 | b :: l' => byte_to_Z b + 256 * le_value l' end.

(** The length of a vector, as a [usize]. *)
Definition len {A} (l : list A) : Z := Z.of_nat (length l).

(** ** Results and the state-and-error monad

    [M S E A] is a Rust function [-> Result<A, E>] that may write the storage
    [S].  The state a failing computation has reached is kept: whether it is
    rolled back is decided by the caller, as in FRAME. *)

Inductive result (E A : Type) : Type :=
| Ok (a : A)
| Err (e : E).
Arguments Ok {E A} _.
Arguments Err {E A} _.

Definition is_ok {E A} (r : result E A) : bool :=
  match r with Ok _ => true | Err _ => false end.

Definition result_map {E A B} (f : A -> B) (r : result E A) : result E B :=
  match r with Ok a => Ok (f a) | Err e => Err e end.

Definition ok_or {E A} (o : option A) (e : E) : result E A :=
  match o with Some a => Ok a | None => Err e end.

Definition M (S E A : Type) : Type := S -> result E A * S.

Section Monad.
Context {S E : Type}.

Definition ret {A} (a : A) : M S E A := fun s => (Ok a, s).
Definition throw {A} (e : E) : M S E A := fun s => (Err e, s).
Definition bind {A B} (m : M S E A) (k : A -> M S E B) : M S E B := fun s =>
  match m s with
  | (Ok a, s') => k a s'
  | (Err e, s') => (Err e, s')
  end.
(** A read of the storage. *)
Definition gets {A} (f : S -> A) : M S E A := fun s => (Ok (f s), s).
(** An infallible write of the storage. *)
Definition modify (f : S -> S) : M S E unit := fun s => (Ok tt, f s).
(** A pure [Result] used with [?]. *)
Definition lift {A} (r : result E A) : M S E A := fun s => (r, s).
(** An infallible computation that returns a value and writes the storage. *)
Definition run {A} (f : S -> A * S) : M S E A := fun s => let '(a, s') := f s in (Ok a, s').
(** [ensure!(b, e)]. *)
Definition ensure (b : bool) (e : E) : M S E unit := if b then ret tt else throw e.
End Monad.

Definition map_err {S E E' A} (f : E -> E') (m : M S E A) : M S E' A := fun s =>
  match m s with
  | (Ok a, s') => (Ok a, s')
  | (Err e, s') => (Err (f e), s')
  end.

(** A loop [for x in xs { body?; }]. *)
Fixpoint mfor {S E A} (xs : list A) (body : A -> M S E unit) : M S E unit :=
  match xs with
  | [] => ret tt
  | x :: xs' => bind (body x) (fun _ => mfor xs' body)
  end.

Notation "'let!' x ':=' m 'in' k" := (bind m (fun x => k))
  (at level 10, x name, m at level 200, k at level 200) : chain_scope.
Notation "'let!' ' p ':=' m 'in' k" := (bind m (fun p => k))
  (at level 10, p pattern, m at level 200, k at level 200) : chain_scope.
Notation "'do!' m 'in' k" := (bind m (fun _ => k))
  (at level 10, m at level 200, k at level 200) : chain_scope.

(** ** Tactics *)

(** Case analysis on the scrutinee of a [match] or [if], in the hypotheses
    first, keeping the equation. *)
Ltac destr_match :=
  match goal with
  | H : context [ match ?x with _ => _ end ] |- _ =>
      lazymatch x with
      | context [ match _ with _ => _ end ] => fail
      | _ => destruct x eqn:?
      end
  | |- context [ match ?x with _ => _ end ] =>
      lazymatch x with
      | context [ match _ with _ => _ end ] => fail
      | _ => destruct x eqn:?
      end
  end.

(** Unfold the monad. *)
Ltac unfold_M :=
  unfold map_err, ensure, lift, run, gets, modify, throw, ret, bind in *.

(** Run a monadic program symbolically, one branch per goal. *)
Ltac run_M :=
  unfold_M; simpl in *; repeat (destr_match; simpl in *; simplify_eq); simplify_eq/=.

(** Boolean comparisons of the code as propositions. *)
Ltac b2p :=
  repeat match goal with
  | H : _ && _ = true |- _ => apply andb_true_iff in H as [? ?]
  | H : _ || _ = false |- _ => apply orb_false_iff in H as [? ?]
  | H : _ && _ = false |- _ => apply andb_false_iff in H
  | H : _ || _ = true |- _ => apply orb_true_iff in H
  | H : negb _ = true |- _ => apply negb_true_iff in H
  | H : negb _ = false |- _ => apply negb_false_iff in H
  | H : (_ <=? _) = true |- _ => apply Z.leb_le in H
  | H : (_ <=? _) = false |- _ => apply Z.leb_gt in H
  | H : (_ <? _) = true |- _ => apply Z.ltb_lt in H
  | H : (_ <? _) = false |- _ => apply Z.ltb_ge in H
  | H : (_ =? _) = true |- _ => apply Z.eqb_eq in H
  | H : (_ =? _) = false |- _ => apply Z.eqb_neq in H
  | H : bool_decide _ = true |- _ => apply bool_decide_eq_true in H
  | H : bool_decide _ = false |- _ => apply bool_decide_eq_false in H
  end.

(** ** Arithmetic lemmas *)

Lemma sat_add_ge max a b : a <= max -> 0 <= b -> a <= sat_add max a b.
Proof. unfold sat_add; lia. Qed.

Lemma sat_add_le max a b : sat_add max a b <= max.
Proof. unfold sat_add; lia. Qed.

Lemma sat_add_small max a b : a + b <= max -> sat_add max a b = a + b.
Proof. unfold sat_add; lia. Qed.

Lemma sat_add_nonneg max a b : 0 <= max -> 0 <= a -> 0 <= b -> 0 <= sat_add max a b.
Proof. unfold sat_add; lia. Qed.

Lemma sat_sub_nonneg a b : 0 <= sat_sub a b.
Proof. unfold sat_sub; lia. Qed.

Lemma sat_sub_small a b : b <= a -> sat_sub a b = a - b.
Proof. unfold sat_sub; lia. Qed.

Lemma sat_sub_le a b : 0 <= a -> 0 <= b -> sat_sub a b <= a.
Proof. unfold sat_sub; lia. Qed.

Lemma as_u32_small x : is_u32 x -> as_u32 x = x.
Proof. unfold is_u32, as_u32, u32_max; intros; apply Z.mod_small; lia. Qed.

Lemma as_u64_small x : is_u64 x -> as_u64 x = x.
Proof. unfold is_u64, as_u64, u64_max. intros. apply Z.mod_small. lia. Qed.

Lemma as_u64_add x y : as_u64 (as_u64 x + y) = as_u64 (x + y).
Proof. unfold as_u64. apply Zplus_mod_idemp_l. Qed.

Lemma checked_sub_Some a b c : checked_sub a b = Some c <-> b <= a /\ c = a - b.
Proof. unfold checked_sub; destruct (b <=? a) eqn:E; b2p; split; [intros [=]|intros []|done|lia]; subst; auto. Qed.

#[export] Hint Resolve sat_add_ge sat_add_le sat_add_nonneg sat_sub_nonneg sat_sub_le : chain.

Lemma len_nonneg {A} (l : list A) : 0 <= len l.
Proof. unfold len; lia. Qed.

Lemma len_app {A} (l k : list A) : len (l ++ k) = len l + len k.
Proof. unfold len; rewrite length_app; lia. Qed.

#[export] Hint Resolve len_nonneg : chain.

(** ** Sums over the tasks of a run *)

Fixpoint total_of {A} (f : A -> Z) (l : list A) : Z :=
  match l with [] => 0 | x :: l' => f x + total_of f l' end.

Lemma total_of_insert {A} (f : A -> Z) l i x y : l !! i = Some x -> total_of f (<[i := y]> l) = total_of f l - f x + f y.
Proof.
  revert i. induction l as [|z l IH]; intros [|i] Hi; [done|done|by simplify_eq/=; lia|]. specialize (IH i Hi). cbn [total_of]. change (<[S i:=y]> (z :: l)) with (z :: <[i:=y]> l). cbn [total_of]. lia.
Qed.

Lemma total_of_zero {A} (f : A -> Z) (d : A -> bool) l :
  (forall x, d x = true -> f x = 0) -> forallb d l = true -> total_of f l = 0.
Proof.
  intros Hf. induction l as [|x l IH]; [done|]. cbn. intros [Hx Hl]%andb_true_iff. by rewrite (Hf x Hx), (IH Hl).
Qed.

Lemma total_of_replicate {A} (f : A -> Z) n x : total_of f (replicate n x) = Z.of_nat n * f x.
Proof. induction n as [|n IH]; [done|]. cbn [replicate total_of]. rewrite IH. lia. Qed.

Lemma total_of_le {A} (f g : A -> Z) l : (forall x, f x <= g x) -> total_of f l <= total_of g l.
Proof. intros Hf. induction l as [|x l IH]; cbn [total_of]; [lia|]. specialize (Hf x). lia. Qed.

Lemma len_concat {A B} (f : A -> list B) l : len (concat (map f l)) = total_of (fun x => len (f x)) l.
Proof. induction l as [|x l IH]; [done|]. cbn [map concat total_of]. by rewrite len_app, IH. Qed.

Lemma total_of_app {A} (f : A -> Z) l k : total_of f (l ++ k) = total_of f l + total_of f k.
Proof. induction l as [|x l IH]; cbn [app total_of]; lia. Qed.

Lemma total_of_snoc {A} (f : A -> Z) l x : total_of f (l ++ [x]) = total_of f l + f x.
Proof. induction l as [|y l IH]; cbn [app total_of]; lia. Qed.

Lemma total_of_nonneg {A} (f : A -> Z) l : (forall x, 0 <= f x) -> 0 <= total_of f l.
Proof. intros Hf. induction l as [|x l IH]; cbn [total_of]; [lia|]. specialize (Hf x). lia. Qed.

Lemma total_of_bounded {A} (f : A -> Z) l : (forall x, f x <= 1) -> total_of f l <= Z.of_nat (length l).
Proof. intros Hf. induction l as [|x l IH]; [done|]. cbn [total_of length]. specialize (Hf x). lia. Qed.

Lemma total_of_concat {A B} (f : A -> list B) (g : list B -> Z) l :
  (forall x y, g (x ++ y) = g x + g y) -> g [] = 0 -> g (concat (map f l)) = total_of (fun x => g (f x)) l.
Proof. intros Ha H0. induction l as [|x l IH]; [done|]. cbn [map concat total_of]. by rewrite Ha, IH. Qed.

(** ** Lists and runs *)

Lemma rtc_inv {A} (R : A -> A -> Prop) (P : A -> Prop) x y :
  (forall a b, R a b -> P a -> P b) -> rtc R x y -> P x -> P y.
Proof. intros Hs. induction 1; eauto. Qed.

Lemma filter_both {A} (p : A -> bool) l : len (List.filter p l) + len (List.filter (fun x => negb (p x)) l) = len l.
Proof. induction l as [|x l IH]; [done|]. cbn [List.filter]. destruct (p x); unfold len in *; cbn [negb length]; lia. Qed.

Lemma forallb_concat {A B} (f : A -> list B) (p : B -> bool) l :
  forallb p (concat (map f l)) = forallb (fun x => forallb p (f x)) l.
Proof. induction l as [|x l IH]; [done|]. cbn [map concat forallb]. by rewrite forallb_app, IH. Qed.

(** ** Little-endian bytes *)

Lemma length_le_bytes n x : length (le_bytes n x) = n.
Proof. revert x. induction n as [|n IH]; intros x; simpl; [done|by rewrite IH]. Qed.

Lemma byte_of_Z_to_Z z : byte_to_Z (byte_of_Z z) = z mod 256.
Proof.
  unfold byte_to_Z, byte_of_Z. pose proof (Z.mod_pos_bound z 256 ltac:(lia)).
  destruct (Byte.of_N (Z.to_N (z mod 256))) as [b|] eqn:E.
  - apply Byte.to_of_N in E. rewrite E. lia.
  - apply Byte.of_N_None_iff in E. lia.
Qed.

Lemma byte_of_Z_inj x y : byte_of_Z x = byte_of_Z y -> x mod 256 = y mod 256.
Proof. intros Heq. by rewrite <- !byte_of_Z_to_Z, Heq. Qed.

(** Little-endian encoding of [n] bytes is injective below [256^n]. *)
Lemma le_bytes_inj n x y :
  0 <= x < 256 ^ Z.of_nat n -> 0 <= y < 256 ^ Z.of_nat n ->
  le_bytes n x = le_bytes n y -> x = y.
Proof.
  revert x y. induction n as [|n IH]; intros x y Hx Hy Heq; [simpl in *; lia|].
  injection Heq as Hb Hr. apply byte_of_Z_inj in Hb.
  rewrite Nat2Z.inj_succ, Z.pow_succ_r in Hx, Hy by lia.
  assert (x / 256 = y / 256).
  { apply IH; [split; [apply Z.div_pos; lia|apply Z.div_lt_upper_bound; lia]..|done]. }
  rewrite (Z.div_mod x 256), (Z.div_mod y 256) by lia. congruence.
Qed.

Lemma le_value_bytes n x : le_value (le_bytes n x) = x mod 256 ^ Z.of_nat n.
Proof.
  revert x. induction n as [|n IH]; intros x; [simpl; by rewrite Z.mod_1_r|].
  cbn [le_bytes le_value]. rewrite IH, byte_of_Z_to_Z, Nat2Z.inj_succ, Z.pow_succ_r by lia.
  rewrite Z.rem_mul_r by lia. done.
Qed.

Lemma le_value_nonneg l : 0 <= le_value l.
Proof. induction l as [|b l IH]; simpl; [lia|]. unfold byte_to_Z. lia. Qed.

Lemma le_value_bound l : le_value l < 256 ^ Z.of_nat (length l).
Proof.
  induction l as [|b l IH]; [done|]. cbn [le_value length].
  rewrite Nat2Z.inj_succ, Z.pow_succ_r by lia.
  assert (byte_to_Z b < 256) by (unfold byte_to_Z; pose proof (Byte.to_N_bounded b); lia). lia.
Qed.

(** ** Sums *)

(** The sum of [f] over a list and over a finite map. *)
Definition lsum {A} (f : A -> Z) (l : list A) : Z := foldr (fun x acc => f x + acc) 0 l.

Definition msum {K V} `{Countable K} (f : K -> V -> Z) (m : gmap K V) : Z :=
  map_fold (fun k v acc => f k v + acc) 0 m.

Lemma lsum_app {A} (f : A -> Z) l k : lsum f (l ++ k) = lsum f l + lsum f k.
Proof. induction l; simpl; lia. Qed.

Lemma lsum_nonneg {A} (f : A -> Z) l : Forall (fun x => 0 <= f x) l -> 0 <= lsum f l.
Proof. induction 1; simpl; lia. Qed.

Lemma msum_empty {K V} `{Countable K} (f : K -> V -> Z) : msum f ∅ = 0.
Proof. apply map_fold_empty. Qed.

Lemma msum_insert {K V} `{Countable K} (f : K -> V -> Z) m k v :
  m !! k = None -> msum f (<[k := v]> m) = f k v + msum f m.
Proof.
  intros Hk. unfold msum. rewrite (map_fold_insert_L _ _ k v m); [done|intros; lia|done].
Qed.

Lemma msum_delete {K V} `{Countable K} (f : K -> V -> Z) m k v :
  m !! k = Some v -> msum f m = f k v + msum f (delete k m).
Proof.
  intros Hk. unfold msum. rewrite (map_fold_delete_L _ _ k v m); [done|intros; lia|done].
Qed.

Lemma msum_alter {K V} `{Countable K} (f : K -> V -> Z) g m k v :
  m !! k = Some v -> msum f (alter g k m) = msum f m - f k v + f k (g v).
Proof.
  intros Hk. assert (alter g k m !! k = Some (g v)) as Ha by (rewrite lookup_alter_eq, Hk; done).
  rewrite (msum_delete f m k v Hk), (msum_delete f (alter g k m) k (g v) Ha), delete_alter_eq. lia.
Qed.

Lemma msum_nonneg {K V} `{Countable K} (f : K -> V -> Z) m :
  (forall k v, m !! k = Some v -> 0 <= f k v) -> 0 <= msum f m.
Proof.
  induction m as [|k v m Hk IH] using map_ind; intros Hf; [by rewrite msum_empty|].
  rewrite (msum_insert f m k v Hk).
  assert (0 <= msum f m).
  { apply IH. intros k' v' Hk'. apply Hf. rewrite lookup_insert_ne; [done|congruence]. }
  pose proof (Hf k v (lookup_insert_eq m k v)). lia.
Qed.

(** A sum over a map is the sum over its elements. *)
Lemma msum_to_list {K V} `{Countable K} (f : K -> V -> Z) (m : gmap K V) :
  msum f m = lsum (fun p => f p.1 p.2) (map_to_list m).
Proof.
  unfold msum, lsum. rewrite fin_maps.map_fold_foldr. induction (map_to_list m) as [|[k v] l IH]; [done|].
  simpl. by rewrite IH.
Qed.
