(* ===== verification/Slice.v ===== *)
(** Slice operations of the Rust standard library that the code relies on:
    [slice::chunks] (data is split into proof chunks by [do_store]) and
    [slice::binary_search_by_key] (the owner of a block chunk is found by it in
    [verify_chunk_proof]), with the facts the components use. *)

From S2P Require Import Prelude.

(** ** [slice::chunks] *)

(** Consecutive pieces of [n] elements, the last one possibly shorter. One
    unit of fuel per element is enough because every piece takes at least one. *)
Fixpoint chunks_fuel {A} (fuel : nat) (n : nat) (l : list A) : list (list A) :=
  match fuel, l with
  | _, [] => []
  | O, _ => []
  | S fuel', _ => take n l :: chunks_fuel fuel' n (drop n l)
  end.

Definition chunks {A} (n : nat) (l : list A) : list (list A) :=
  chunks_fuel (length l) n l.

Lemma chunks_fuel_enough {A} fuel n (l : list A) :
  (0 < n)%nat -> (length l <= fuel)%nat -> chunks_fuel fuel n l = chunks n l.
Proof.
  intros Hn. unfold chunks. revert l.
  assert (forall f g (l : list A), (length l <= f)%nat -> (length l <= g)%nat ->
    chunks_fuel f n l = chunks_fuel g n l) as H.
  { induction f as [|f IH]; intros g l Hf Hg.
    - destruct l; simpl in *; [by destruct g|lia].
    - destruct l as [|x l]; [by destruct g|]. destruct g as [|g]; simpl in Hg; [lia|].
      cbn [chunks_fuel]. f_equal. simpl in Hf. apply IH; rewrite length_drop; simpl; lia. }
  intros l Hl. apply H; lia.
Qed.

Lemma chunks_cons {A} n (l : list A) :
  (0 < n)%nat -> l <> [] -> chunks n l = take n l :: chunks n (drop n l).
Proof.
  intros Hn Hl. destruct l as [|x l]; [done|].
  unfold chunks at 1. cbn [chunks_fuel length]. f_equal.
  apply chunks_fuel_enough; [done|]. rewrite length_drop. simpl. lia.
Qed.

(** Induction that follows the splitting. *)
Lemma chunks_ind {A} n (P : list A -> Prop) :
  (0 < n)%nat -> P [] -> (forall l, l <> [] -> P (drop n l) -> P l) -> forall l, P l.
Proof.
  intros Hn H0 Hs l. remember (length l) as k eqn:Hk. revert l Hk.
  induction k as [k IH] using lt_wf_ind. intros l ->.
  destruct l as [|x l]; [done|]. apply Hs; [done|].
  eapply IH; [|reflexivity]. rewrite length_drop. simpl. lia.
Qed.

(** No byte is lost, duplicated or reordered. *)
Lemma concat_chunks {A} n (l : list A) : (0 < n)%nat -> concat (chunks n l) = l.
Proof.
  intros Hn. revert l. apply (chunks_ind n); [done|done|]. intros l Hl IH.
  rewrite chunks_cons by done. simpl. rewrite IH. apply take_drop.
Qed.

(** The number of pieces is [ceil (len / n)]. *)
Lemma len_chunks {A} n (l : list A) :
  (0 < n)%nat -> len (chunks n l) = div_ceil (len l) (Z.of_nat n).
Proof.
  intros Hn. revert l. apply (chunks_ind n); [done| |intros l Hl IH].
  { unfold len, chunks, div_ceil; simpl. rewrite Z.div_small; lia. }
  rewrite chunks_cons by done. unfold len, div_ceil in *. cbn [length].
  rewrite Nat2Z.inj_succ, IH, length_drop.
  assert (0 < length l)%nat by (destruct l; simpl; [done|lia]).
  destruct (decide (length l <= n)%nat).
  - replace (length l - n)%nat with 0%nat by lia.
    rewrite (Z.div_small (Z.of_nat 0 + _ - 1)) by lia.
    apply (Z.div_unique _ _ _ (Z.of_nat (length l) - 1)); lia.
  - rewrite Nat2Z.inj_sub by lia.
    replace (Z.of_nat (length l) + Z.of_nat n - 1)
      with (Z.of_nat (length l) - Z.of_nat n + Z.of_nat n - 1 + 1 * Z.of_nat n) by lia.
    rewrite Z.div_add by lia. lia.
Qed.

(** Every piece is non-empty and at most [n] long. *)
Lemma chunks_bounds {A} n (l : list A) :
  (0 < n)%nat -> Forall (fun c => 0 < len c <= Z.of_nat n) (chunks n l).
Proof.
  intros Hn. revert l. apply (chunks_ind n); [done|constructor|]. intros l Hl IH.
  rewrite chunks_cons by done. constructor; [|done].
  unfold len. rewrite length_take. destruct l; simpl; [done|lia].
Qed.

(** ** [slice::binary_search_by_key] *)

(** The loop of [core::slice::binary_search_by]: the window [[base, base+size)]
    halves until one element is left. *)
Fixpoint bsearch_loop {A} (fuel : nat) (xs : list A) (key : A -> Z) (b : Z)
    (base size : nat) : nat :=
  match fuel with
  | O => base
  | S fuel' =>
      if (size <=? 1)%nat then base
      else
        let half := Nat.div2 size in
        let mid := (base + half)%nat in
        let base' :=
          match xs !! mid with
          | Some x => if b <? key x then base else mid
          | None => base
          end in
        bsearch_loop fuel' xs key b base' (size - half)
  end.

(** [Ok i]: found at [i]; [Err i]: absent, [i] is the insertion point. *)
Definition binary_search_by_key {A} (xs : list A) (b : Z) (key : A -> Z) : result nat nat :=
  match length xs with
  | O => Err 0%nat
  | S _ =>
      let base := bsearch_loop (length xs) xs key b 0 (length xs) in
      match xs !! base with
      | Some x =>
          if key x =? b then Ok base
          else if key x <? b then Err (S base) else Err base
      | None => Err base
      end
  end.

(** [Result::unwrap_or_else(|i| i)] on a search result. *)
Definition either_index (r : result nat nat) : nat :=
  match r with Ok i => i | Err i => i end.

Definition strictly_sorted {A} (key : A -> Z) (xs : list A) : Prop :=
  forall i j x y, (i < j)%nat -> xs !! i = Some x -> xs !! j = Some y -> key x < key y.

Lemma div2_bounds n : (1 < n)%nat -> (0 < Nat.div2 n < n)%nat /\ (2 * Nat.div2 n <= n)%nat.
Proof.
  intros H. pose proof (Nat.div2_odd n) as Ho.
  destruct (Nat.odd n); simpl Nat.b2n in Ho; lia.
Qed.

Section BinarySearch.
Context {A : Type} (xs : list A) (key : A -> Z) (b : Z).
Hypothesis Hsorted : strictly_sorted key xs.

(** What the loop maintains about the window. *)
Definition window (base size : nat) : Prop :=
  (1 <= size)%nat /\ (base + size <= length xs)%nat /\
  (base = 0%nat \/ forall x, xs !! base = Some x -> key x <= b) /\
  (forall j x, (base + size <= j)%nat -> xs !! j = Some x -> b < key x).

Lemma window_step base size :
  window base size -> (1 < size)%nat ->
  let half := Nat.div2 size in
  let mid := (base + half)%nat in
  window (match xs !! mid with
          | Some x => if b <? key x then base else mid
          | None => base end) (size - half).
Proof.
  intros (Hs & Hn & Hlo & Hhi) H1. cbv zeta.
  destruct (div2_bounds size H1) as [Hhalf H2].
  destruct (xs !! (base + Nat.div2 size)%nat) as [x|] eqn:Hx.
  2: { apply lookup_ge_None in Hx. lia. }
  destruct (b <? key x) eqn:E; b2p; (split; [lia|split; [lia|split]]).
  - done.
  - intros j y Hj Hy. destruct (decide (base + Nat.div2 size = j)%nat) as [<-|].
    + by simplify_eq.
    + assert (key x < key y); [|lia]. apply (Hsorted (base + Nat.div2 size)%nat j); [lia|done|done].
  - right. intros y Hy. by simplify_eq.
  - intros j y Hj Hy. apply (Hhi j); [lia|done].
Qed.

Lemma bsearch_loop_window fuel base size :
  window base size -> (size <= S fuel)%nat ->
  window (bsearch_loop fuel xs key b base size) 1.
Proof.
  revert base size. induction fuel as [|fuel IH]; intros base size Hw Hf; simpl.
  - assert (size = 1%nat) as -> by (destruct Hw; lia). done.
  - destruct (size <=? 1)%nat eqn:E.
    + apply Nat.leb_le in E. assert (size = 1%nat) as -> by (destruct Hw; lia). done.
    + apply Nat.leb_gt in E. apply IH; [by apply window_step|].
      destruct (div2_bounds size E). lia.
Qed.

(** The index returned, found or not, splits the slice at [b]: every key
    before it is smaller and every key from it on is at least [b]. *)
Lemma binary_search_split :
  let i := either_index (binary_search_by_key xs b key) in
  (i <= length xs)%nat /\
  (forall j x, (j < i)%nat -> xs !! j = Some x -> key x < b) /\
  (forall j x, (i <= j)%nat -> xs !! j = Some x -> b <= key x).
Proof.
  unfold binary_search_by_key. destruct (length xs) as [|n] eqn:Hlen.
  { destruct xs; [|done]. simpl. split; [lia|split; intros; simplify_eq]. }
  rewrite <- Hlen.
  assert (window 0 (length xs)) as Hw0.
  { split; [lia|split; [lia|split; [by left|]]].
    intros j x Hj Hx. apply lookup_lt_Some in Hx. lia. }
  pose proof (bsearch_loop_window (length xs) 0 (length xs) Hw0 ltac:(lia)) as Hw.
  set (base := bsearch_loop _ _ _ _ _ _) in *. clearbody base.
  destruct Hw as (_ & Hn & Hlo & Hhi).
  destruct (xs !! base) as [x|] eqn:Hx; [|apply lookup_ge_None in Hx; lia].
  assert (key x <= b -> forall j y, (j < base)%nat -> xs !! j = Some y -> key y < b) as Hbelow.
  { intros Hk j y Hj Hy. assert (key y < key x); [by apply (Hsorted j base)|lia]. }
  assert (forall j y, (base < j)%nat -> xs !! j = Some y -> b < key y) as Habove.
  { intros j y Hj Hy. apply (Hhi j); [lia|done]. }
  destruct (key x =? b) eqn:E1; [|destruct (key x <? b) eqn:E2]; b2p; simpl.
  - split; [lia|]. split; [apply Hbelow; lia|].
    intros j y Hj Hy. destruct (decide (j = base)) as [->|].
    + simplify_eq. lia.
    + apply Z.lt_le_incl, (Habove j); [lia|done].
  - split; [lia|]. split.
    + intros j y Hj Hy. destruct (decide (j = base)) as [->|].
      * by simplify_eq.
      * apply (Hbelow ltac:(lia) j); [lia|done].
    + intros j y Hj Hy. apply Z.lt_le_incl, (Habove j); [lia|done].
  - assert (base = 0%nat) as -> by (destruct Hlo as [|Hlo]; [done|specialize (Hlo _ eq_refl); lia]).
    split; [lia|]. split; [intros; lia|].
    intros j y Hj Hy. destruct (decide (j = 0)%nat) as [->|].
    + simplify_eq. lia.
    + apply Z.lt_le_incl, (Habove j); [lia|done].
Qed.
End BinarySearch.
