(* ===== verification/Primitives.v ===== *)
(** Primitives crate ([pallets/transaction-storage/primitives/src]): content
    hashes, entry kinds, transaction references, pool parameters and CIDs,
    together with the interface to the code the crate calls but does not
    contain (host hashing, the [cid] crate, [sp_runtime]'s pool types, and
    [sp_transaction_storage_proof]). *)

From S2P Require Import Prelude.

(** ** Types of the crate *)

(** [ContentHash = [u8; 32]], [AccountId32] and [H256]. *)
Abbreviation ContentHash := bytes (only parsing).
Abbreviation AccountId := bytes (only parsing).
Abbreviation BlockNumber := Z (only parsing).
Abbreviation CidCodec := Z (only parsing).
Abbreviation Cid := bytes (only parsing).

(** Who wrote an entry: the storage pallet or the renewal pallet. *)
Inductive EntryKind := Store | Renew.

#[global] Instance EntryKind_eq_dec : EqDecision EntryKind.
Proof. solve_decision. Defined.

(** [EntryKind::default]. *)
Definition EntryKind_default : EntryKind := Store.

(** [#[codec(index = ..)]] of the variants. *)
Definition EntryKind_encode (k : EntryKind) : bytes :=
  match k with Store => [byte_of_Z 0] | Renew => [byte_of_Z 1] end.

Inductive HashingAlgorithm := Blake2b256 | Sha2_256 | Keccak256.

#[global] Instance HashingAlgorithm_eq_dec : EqDecision HashingAlgorithm.
Proof. solve_decision. Defined.

Definition RAW_CODEC : CidCodec := 85.

Record CidConfig := mkCidConfig { cc_codec : CidCodec; cc_hashing : HashingAlgorithm }.

Record CidData := mkCidData {
  cd_content_hash : ContentHash;
  cd_hashing : HashingAlgorithm;
  cd_codec : CidCodec }.

Inductive CidError := mkCidError.

(** A stored entry, named by position or by content. *)
Inductive TransactionRef :=
| Position (block : BlockNumber) (index : Z)
| ByContentHash (h : ContentHash).

(** [From<(BlockNumber, u32)>] and [From<ContentHash>] for [TransactionRef]. *)
Definition TransactionRef_of_position (p : BlockNumber * Z) : TransactionRef :=
  let '(block, index) := p in Position block index.
Definition TransactionRef_of_hash (h : ContentHash) : TransactionRef := ByContentHash h.

(** Pool metadata of a transaction ([sp_runtime]'s struct); a tag is the
    family prefix and the encoded payload it was built from. *)
Abbreviation Tag := (string * bytes)%type.

Record ValidTransaction := mkValidTransaction {
  vt_priority : Z;
  vt_requires : list Tag;
  vt_provides : list Tag;
  vt_longevity : Z;
  vt_propagate : bool }.

Record ValidTransactionParams := mkParams {
  tag_prefix : string;
  params_priority : Z;
  params_longevity : Z }.

(** A Merkle proof of one chunk. *)
Record TransactionStorageProof := mkProof { proof_chunk : bytes; proof_proof : list bytes }.

(** ** Code outside the repository

    The functions the pallets call and the repository does not define. *)
Class Host := {
  (* sp_io::hashing *)
  blake2_256 : bytes -> bytes;
  sha2_256 : bytes -> bytes;
  keccak_256 : bytes -> bytes;
  (* sp_io::trie *)
  blake2_256_ordered_root : list bytes -> bytes;
  blake2_256_verify_proof : bytes -> list bytes -> bytes -> bytes -> bool;
  (* sp_transaction_storage_proof *)
  CHUNK_SIZE : Z;
  num_chunks : Z -> Z;
  random_chunk : bytes -> Z -> Z;
  encode_index : Z -> bytes;
  (* the cid crate *)
  Multihash : Type;
  Multihash_wrap : Z -> bytes -> option Multihash;
  CidGeneric : Type;
  CidGeneric_new_v1 : Z -> Multihash -> CidGeneric;
  CidGeneric_to_bytes : CidGeneric -> bytes;
  (* sp_runtime::transaction_validity *)
  ValidTransaction_default : ValidTransaction;
  (* with_tag_prefix(prefix).and_provides(tag).priority(p).longevity(l).into() *)
  ValidTransaction_build : string -> bytes -> Z -> Z -> ValidTransaction;
  ValidTransaction_combine_with : ValidTransaction -> ValidTransaction -> ValidTransaction;
}.

(** What the pallets rely on of that code, as its documentation states it. *)
Class HostLaws `{Host} : Prop := {
  CHUNK_SIZE_pos : 0 < CHUNK_SIZE;
  (* "Get number of chunks for a given data size": a partial chunk counts. *)
  num_chunks_spec n : is_u32 n -> num_chunks n = div_ceil n CHUNK_SIZE;
  (* "Derive a pseudo-random chunk index" below the given total. *)
  random_chunk_range h total : 0 < total <= u32_max -> 0 <= random_chunk h total < total;
  (* A 256-bit digest fits the 32-byte multihash. *)
  blake2_256_length d : length (blake2_256 d) = 32%nat;
  sha2_256_length d : length (sha2_256 d) = 32%nat;
  keccak_256_length d : length (keccak_256 d) = 32%nat;
  Multihash_wrap_fits code digest :
    (length digest <= 32)%nat -> is_Some (Multihash_wrap code digest);
  (* The builder sets the fields it is given and provides one tag. *)
  build_priority p t pr lo : vt_priority (ValidTransaction_build p t pr lo) = pr;
  build_longevity p t pr lo : vt_longevity (ValidTransaction_build p t pr lo) = lo;
  build_provides p t pr lo : vt_provides (ValidTransaction_build p t pr lo) = [(p, t)];
  default_priority : vt_priority ValidTransaction_default = 0;
  default_provides : vt_provides ValidTransaction_default = [];
  (* Priorities add (saturating) and tags accumulate. *)
  combine_priority a b :
    vt_priority (ValidTransaction_combine_with a b) = sat_add_u64 (vt_priority a) (vt_priority b);
  combine_provides a b :
    vt_provides (ValidTransaction_combine_with a b) = vt_provides a ++ vt_provides b;
}.

(** ** Operations of the crate *)

Section Primitives.
Context `{Host}.

(** [HashingAlgorithm::hash]. *)
Definition hash (a : HashingAlgorithm) (data : bytes) : ContentHash :=
  match a with
  | Blake2b256 => blake2_256 data
  | Sha2_256 => sha2_256 data
  | Keccak256 => keccak_256 data
  end.

(** [HashingAlgorithm::multihash_code]. *)
Definition multihash_code (a : HashingAlgorithm) : Z :=
  match a with
  | Blake2b256 => 45600
  | Sha2_256 => 18
  | Keccak256 => 27
  end.

(** [CidGeneric<32>::try_from(CidData)]. *)
Definition CidGeneric_try_from (c : CidData) : result CidError CidGeneric :=
  match Multihash_wrap (multihash_code (cd_hashing c)) (cd_content_hash c) with
  | Some mh => Ok (CidGeneric_new_v1 (cd_codec c) mh)
  | None => Err mkCidError
  end.

(** [CidData::to_bytes]. *)
Definition to_bytes (c : CidData) : option Cid :=
  match CidGeneric_try_from c with
  | Ok cid => Some (CidGeneric_to_bytes cid)
  | Err _ => None
  end.

Definition calculate_cid (data : bytes) (config : CidConfig) : result CidError CidData :=
  let content_hash := hash (cc_hashing config) data in
  let cid_data := mkCidData content_hash (cc_hashing config) (cc_codec config) in
  match CidGeneric_try_from cid_data with
  | Ok _ => Ok cid_data
  | Err e => Err e
  end.

(** [ValidTransactionParams::new], [provides] and [untagged]. *)
Definition params_new (prefix : string) (priority longevity : Z) : ValidTransactionParams :=
  mkParams prefix priority longevity.

Definition provides (p : ValidTransactionParams) (payload : bytes) : ValidTransaction :=
  ValidTransaction_build (tag_prefix p) payload (params_priority p) (params_longevity p).

Definition untagged (p : ValidTransactionParams) : ValidTransaction :=
  mkValidTransaction (params_priority p)
    (vt_requires ValidTransaction_default) (vt_provides ValidTransaction_default)
    (params_longevity p) (vt_propagate ValidTransaction_default).
End Primitives.

(** [assert_distinct_tag_prefixes]: [true] when no assertion fails; every
    entry is compared with every later one. *)
Fixpoint assert_distinct_tag_prefixes (params : list (string * ValidTransactionParams)) : bool :=
  match params with
  | [] => true
  | (_, one) :: rest =>
      forallb (fun '(_, other) => negb (bool_decide (tag_prefix one = tag_prefix other))) rest
      && assert_distinct_tag_prefixes rest
  end.

(** ** Properties *)

(** The nested loop finds a shared prefix exactly when there is one. *)
Lemma assert_distinct_tag_prefixes_NoDup params :
  assert_distinct_tag_prefixes params = true <->
  NoDup (map (fun '(_, p) => tag_prefix p) params).
Proof.
  induction params as [|[name one] rest IH]; simpl.
  - split; [constructor|done].
  - rewrite andb_true_iff, IH, NoDup_cons, forallb_forall.
    split; intros [Hnew Hrest]; split; try done.
    + intros Hin. apply list_elem_of_In, in_map_iff in Hin as ([n other] & Heq & Hin).
      specialize (Hnew _ Hin). simpl in Hnew. b2p. congruence.
    + intros [n other] Hin. apply negb_true_iff, bool_decide_eq_false. intros Heq.
      apply Hnew. apply list_elem_of_In, in_map_iff. by exists (n, other).
Qed.

Section PrimitiveFacts.
Context `{HostLaws}.

Lemma hash_length a d : length (hash a d) = 32%nat.
Proof. destruct a; simpl; auto using blake2_256_length, sha2_256_length, keccak_256_length. Qed.

(** With one of the three 256-bit algorithms the CID always exists, so
    [calculate_cid] never fails and carries the content hash of the data. *)
Lemma calculate_cid_total data config :
  calculate_cid data config =
    Ok (mkCidData (hash (cc_hashing config) data) (cc_hashing config) (cc_codec config)).
Proof.
  unfold calculate_cid, CidGeneric_try_from. simpl.
  destruct (Multihash_wrap_fits (multihash_code (cc_hashing config))
    (hash (cc_hashing config) data)) as [mh ->]; [rewrite hash_length; lia|done].
Qed.
End PrimitiveFacts.

Lemma multihash_code_inj a b : multihash_code a = multihash_code b -> a = b.
Proof. by destruct a, b. Qed.
