(* ===== verification/Types.v ===== *)
(** Types of the storage pallet ([pallets/transaction-storage/src/types.rs]) and
    of the renewal pallet ([pallets/data-renewal/src/types.rs]), with their
    methods, and the chain-level enums (origins, errors, events) the pallets
    share. *)

From S2P Require Import Prelude Primitives.

(** ** Authorizations *)

(** Opaque payload of the renewal pallet inside an authorization. *)
Record PermanentExtent := mkPermanentExtent { bytes_permanent : Z }.

Definition PermanentExtent_default : PermanentExtent := mkPermanentExtent 0.

Record AuthorizationExtent (Extra : Type) := mkExtent {
  extent_transactions : Z;
  transactions_allowance : Z;
  extent_bytes : Z;
  extra : Extra;
  bytes_allowance : Z }.
Arguments mkExtent {Extra} _ _ _ _ _.
Arguments extent_transactions {Extra} _.
Arguments transactions_allowance {Extra} _.
Arguments extent_bytes {Extra} _.
Arguments extra {Extra} _.
Arguments bytes_allowance {Extra} _.

(** [AuthorizationExtentFor<T>] with the extra both runtimes wire. *)
Abbreviation AuthorizationExtentFor := (AuthorizationExtent PermanentExtent).

Definition AuthorizationExtent_default : AuthorizationExtentFor :=
  mkExtent 0 0 0 PermanentExtent_default 0.

Inductive AuthorizationScope :=
| Account (who : AccountId)
| Preimage (h : ContentHash).

#[global] Instance AuthorizationScope_eq_dec : EqDecision AuthorizationScope.
Proof. solve_decision. Defined.

Definition scope_to_sum (s : AuthorizationScope) : bytes + bytes :=
  match s with Account w => inl w | Preimage h => inr h end.
Definition scope_of_sum (s : bytes + bytes) : AuthorizationScope :=
  match s with inl w => Account w | inr h => Preimage h end.

Lemma scope_of_to_sum s : scope_of_sum (scope_to_sum s) = s.
Proof. by destruct s. Qed.

#[global] Instance AuthorizationScope_countable : Countable AuthorizationScope :=
  inj_countable' scope_to_sum scope_of_sum scope_of_to_sum.

Inductive AuthorizedCaller :=
| CallerSigned (who : AccountId) (scope : AuthorizationScope)
| CallerRoot
| CallerUnsigned.

Record Authorization := mkAuthorization {
  extent : AuthorizationExtentFor;
  expiration : BlockNumber }.

(** [Authorization::expired]. *)
Definition expired (a : Authorization) (now : BlockNumber) : bool := expiration a <=? now.

(** Runtime-API summary of an authorization. *)
Record AccountAuthorization := mkAccountAuthorization {
  expires_at : BlockNumber;
  aa_bytes_allowance : Z;
  bytes_used : Z;
  bytes_permanent_used : Z;
  aa_transactions_allowance : Z;
  transactions_used : Z }.

(** [Authorization::to_account_authorization]. *)
Definition to_account_authorization (a : Authorization) (permanent_used : Z)
    : AccountAuthorization :=
  mkAccountAuthorization (expiration a) (bytes_allowance (extent a)) (extent_bytes (extent a))
    permanent_used (transactions_allowance (extent a)) (extent_transactions (extent a)).

(** Field updates of an authorization. *)
Definition with_expiration (e : BlockNumber) (a : Authorization) : Authorization :=
  mkAuthorization (extent a) e.

(** [ActiveAuthorization]: read the extent, write the opaque payload, take one
    transaction slot. *)
Definition active_set_extra (x : PermanentExtent) (a : Authorization) : Authorization :=
  let e := extent a in
  mkAuthorization (mkExtent (extent_transactions e) (transactions_allowance e)
    (extent_bytes e) x (bytes_allowance e)) (expiration a).

Definition note_transaction (a : Authorization) : Authorization :=
  let e := extent a in
  mkAuthorization (mkExtent (sat_add_u32 (extent_transactions e) 1) (transactions_allowance e)
    (extent_bytes e) (extra e) (bytes_allowance e)) (expiration a).

(** ** Stored entries *)

Record TransactionInfo (Meta : Type) := mkInfo {
  ti_chunk_root : bytes;
  ti_content_hash : ContentHash;
  ti_hashing : HashingAlgorithm;
  ti_cid_codec : CidCodec;
  ti_size : Z;
  ti_extrinsic_index : Z;
  ti_block_chunks : Z;
  ti_meta : Meta }.
Arguments mkInfo {Meta} _ _ _ _ _ _ _ _.
Arguments ti_chunk_root {Meta} _.
Arguments ti_content_hash {Meta} _.
Arguments ti_hashing {Meta} _.
Arguments ti_cid_codec {Meta} _.
Arguments ti_size {Meta} _.
Arguments ti_extrinsic_index {Meta} _.
Arguments ti_block_chunks {Meta} _.
Arguments ti_meta {Meta} _.

(** [TransactionInfoFor<T>] with the entry metadata both runtimes wire. *)
Abbreviation TransactionInfoFor := (TransactionInfo EntryKind).

(** [TransactionInfo::total_chunks]. *)
Definition total_chunks {Meta} (txs : list (TransactionInfo Meta)) : Z :=
  match last txs with Some t => ti_block_chunks t | None => 0 end.

Definition with_block_chunks {Meta} (c : Z) (t : TransactionInfo Meta) : TransactionInfo Meta :=
  mkInfo (ti_chunk_root t) (ti_content_hash t) (ti_hashing t) (ti_cid_codec t)
    (ti_size t) (ti_extrinsic_index t) c (ti_meta t).

(** Layout of an entry before [extrinsic_index] and [meta] were added. *)
Record V2TransactionInfo := mkV2Info {
  v2_chunk_root : bytes;
  v2_content_hash : ContentHash;
  v2_hashing : HashingAlgorithm;
  v2_cid_codec : CidCodec;
  v2_size : Z;
  v2_block_chunks : Z }.

(** The conversion [transactions_at] and the v2 -> v3 migration apply. *)
Definition materialize_v2 (tx : V2TransactionInfo) : TransactionInfoFor :=
  mkInfo (v2_chunk_root tx) (v2_content_hash tx) (v2_hashing tx) (v2_cid_codec tx)
    (v2_size tx) u32_max (v2_block_chunks tx) EntryKind_default.

(** What is stored under a [Transactions] key: a vector in the current layout,
    a vector still in the v2 layout, or bytes that decode as neither. *)
Inductive StoredTransactions :=
| LayoutCurrent (txs : list TransactionInfoFor)
| LayoutV2 (txs : list V2TransactionInfo)
| LayoutCorrupted (raw : bytes).

(** Decoding the value at the current type. *)
Definition decode_current (v : StoredTransactions) : option (list TransactionInfoFor) :=
  match v with LayoutCurrent txs => Some txs | _ => None end.

(** ** Check contexts *)

Inductive CheckContext := Validate | PreDispatch.

Definition consume_authorization (c : CheckContext) : bool :=
  match c with PreDispatch => true | Validate => false end.

Definition want_valid_transaction (c : CheckContext) : bool :=
  match c with Validate => true | PreDispatch => false end.

(** ** Authorizers *)

Record Quota := mkQuota { quota_transactions : Z; quota_bytes : Z }.

Record AuthorizerBudget := mkBudget {
  quota : option Quota;
  valid_until : option BlockNumber;
  feeless : bool }.

(** [AuthorizerBudget::is_exhausted]. *)
Definition is_exhausted (b : AuthorizerBudget) : bool :=
  match quota b with
  | Some q => (quota_transactions q =? 0) || (quota_bytes q =? 0)
  | None => false
  end.

(** [AuthorizerBudget::try_consume]: the budget after the call, [None] when an
    axis would underflow (the budget is then left as it was). *)
Definition try_consume (b : AuthorizerBudget) (transactions bytes : Z) : option AuthorizerBudget :=
  match quota b with
  | None => Some b
  | Some q =>
      match checked_sub (quota_transactions q) transactions with
      | None => None
      | Some new_tx =>
          match checked_sub (quota_bytes q) bytes with
          | None => None
          | Some new_bytes =>
              Some (mkBudget (Some (mkQuota new_tx new_bytes)) (valid_until b) (feeless b))
          end
      end
  end.

(** [AuthorizerBudget::is_expired]. *)
Definition is_expired (b : AuthorizerBudget) (now : BlockNumber) : bool :=
  match valid_until b with Some t => t <=? now | None => false end.

(** [AuthorizerBudget::is_inactive]. *)
Definition is_inactive (b : AuthorizerBudget) (now : BlockNumber) : bool :=
  is_exhausted b || is_expired b now.

Record AuthorizationOrigin := mkAuthorizationOrigin {
  authorizer : AccountId;
  ao_valid_until : option BlockNumber;
  ao_feeless : bool }.

(** ** Renewal registrations *)

Record RenewalData := mkRenewalData {
  rd_account : AccountId;
  recurring : bool;
  paid : bool }.

(** [RenewMeta] for [EntryKind]. *)
Definition meta_renew : EntryKind := Renew.
Definition is_renew (k : EntryKind) : bool :=
  match k with Renew => true | Store => false end.

(** ** Origins *)

Inductive RawOrigin :=
| Root
| Signed (who : AccountId)
| NoneOrigin
| AuthorizedCall.

(** The runtime origin: a system origin, this pallet's [Origin::Authorized], or
    the origin of another pallet (an XCM location, opaque here). *)
Inductive RuntimeOrigin :=
| System (o : RawOrigin)
| OriginAuthorized (who : AccountId) (scope : AuthorizationScope)
| ForeignOrigin (location : bytes).

(** ** Errors *)

(** [pallet_bulletin_transaction_storage::Error]. *)
Inductive StorageError :=
| BadContext | BadDataSize | TooManyTransactions | NotConfigured | RenewedNotFound
| UnexpectedProof | InvalidProof | MissingProof | MissingStateData | DoubleCheck
| ProofNotChecked | AuthorizationNotFound | AuthorizationNotExpired | InvalidContentHash
| AuthorizerNotFound | AuthorizerBudgetNotExhausted | InvalidValidUntil
| InsufficientAuthorizerBudget.

(** [pallet_bulletin_data_renewal::Error]. *)
Inductive RenewalError :=
| RBadContext | RRenewedNotFound | RTooManyTransactions | RenewalAlreadyEnabled
| AutoRenewalNotEnabled | NotAutoRenewalOwner | CannotDisablePrepaidAutoRenewal | RBadDataSize.

Inductive DispatchError :=
| BadOrigin
| StorageModule (e : StorageError)
| RenewalModule (e : RenewalError)
| ConsumerRemaining
| ArithmeticUnderflow. (* a debug-mode panic on [a - b] *)

Inductive InvalidTransaction :=
| InvalidCall | Payment | Stale | BadProof | ExhaustsResources | BadSigner
| Custom (code : Z).

Abbreviation TransactionValidityError := InvalidTransaction.

Definition IMPOSSIBLE := Custom 0.
Definition BAD_DATA_SIZE := Custom 1.
Definition RENEWED_NOT_FOUND := Custom 2.
Definition AUTHORIZATION_NOT_FOUND := Custom 3.
Definition AUTHORIZATION_NOT_EXPIRED := Custom 4.
Definition PERMANENT_ALLOWANCE_EXCEEDED := Custom 5.
Definition CHAIN_PERMANENT_CAP_REACHED := Custom 6.
Definition AUTHORIZER_NOT_FOUND := Custom 7.
Definition AUTHORIZATION_NOT_EXHAUSTED := Custom 8.
Definition AUTO_RENEWAL_NOT_ENABLED := Custom 9.
Definition NOT_AUTO_RENEWAL_OWNER := Custom 10.
Definition RENEWAL_ALREADY_ENABLED := Custom 11.
Definition CANNOT_DISABLE_PREPAID_AUTO_RENEWAL := Custom 12.
Definition NO_RECIPIENTS := Custom 100.

(** ** Events *)

(** [pallet_bulletin_transaction_storage::Event]. *)
Inductive StorageEvent :=
| Stored (index : Z) (content_hash : ContentHash) (cid : option Cid)
| ProofCheckedEvent
| AccountAuthorized (who : AccountId) (transactions bytes : Z)
| AccountAuthorizationRefreshed (who : AccountId)
| PreimageAuthorized (content_hash : ContentHash) (max_size : Z)
| PreimageAuthorizationRefreshed (content_hash : ContentHash)
| ExpiredAccountAuthorizationRemoved (who : AccountId)
| ExpiredPreimageAuthorizationRemoved (content_hash : ContentHash)
| AuthorizerAdded (who : AccountId)
| AuthorizerRemoved (who : AccountId)
| ExhaustedAuthorizerRemoved (who : AccountId).

(** [pallet_bulletin_data_renewal::Event]. *)
Inductive RenewalEvent :=
| Renewed (index : Z) (content_hash : ContentHash)
| RenewalEnabled (content_hash : ContentHash) (who : AccountId) (recurring : bool)
| AutoRenewalDisabled (content_hash : ContentHash) (who : AccountId)
| DataRenewed (index : Z) (content_hash : ContentHash) (account : AccountId)
| RenewalFailed (content_hash : ContentHash) (account : AccountId)
| PermanentStorageUsedUpdated (used : Z)
| PermanentStorageNearCap (used cap : Z).

Inductive RuntimeEvent :=
| StorageEv (e : StorageEvent)
| RenewalEv (e : RenewalEvent).

(** ** Calls into the host and into [frame_system] *)

(** [sp_io::transaction_index::{index, renew}]: not rolled back by a storage
    layer. *)
Inductive HostCall :=
| HostIndex (extrinsic size : Z) (content_hash : ContentHash)
| HostRenew (extrinsic : Z) (content_hash : ContentHash).

(** [frame_system::{inc_providers, dec_providers}].  [dec_providers] may refuse, and
    then takes no reference away; the pallet logs the error it refused with. *)
Inductive ProviderCall :=
| IncProviders (who : AccountId)
| DecProviders (who : AccountId) (refused : option DispatchError).

(** ** Facts about the types *)

(** The caller contexts are complementary: a check either builds pool metadata
    or consumes. *)
Lemma context_exclusive c : want_valid_transaction c = negb (consume_authorization c).
Proof. by destruct c. Qed.

Lemma total_chunks_snoc {Meta} (txs : list (TransactionInfo Meta)) t :
  total_chunks (txs ++ [t]) = ti_block_chunks t.
Proof. unfold total_chunks. by rewrite last_snoc. Qed.

Lemma expired_spec a now : expired a now = true <-> expiration a <= now.
Proof. unfold expired. apply Z.leb_le. Qed.

(** A successful consumption of a metered budget subtracts exactly the request
    on both axes, which had to cover it. *)
Lemma try_consume_metered b q t n b' :
  quota b = Some q -> try_consume b t n = Some b' ->
  t <= quota_transactions q /\ n <= quota_bytes q /\
  b' = mkBudget (Some (mkQuota (quota_transactions q - t) (quota_bytes q - n)))
         (valid_until b) (feeless b).
Proof.
  unfold try_consume. intros Hq. rewrite Hq.
  destruct (checked_sub _ t) as [t'|] eqn:Ht; [|done].
  destruct (checked_sub _ n) as [n'|] eqn:Hn; [|done].
  apply checked_sub_Some in Ht as [? ->]. apply checked_sub_Some in Hn as [? ->].
  intros [= <-]. auto.
Qed.

Lemma try_consume_refused b q t n :
  quota b = Some q -> try_consume b t n = None ->
  quota_transactions q < t \/ quota_bytes q < n.
Proof.
  unfold try_consume, checked_sub. intros Hq. rewrite Hq.
  destruct (t <=? _) eqn:Et; b2p; [|by left].
  destruct (n <=? _) eqn:En; b2p; [done|by right].
Qed.
