(* ===== verification/State.v ===== *)
(** The chain state the pallets share, the operations FRAME's storage types
    offer on it, and the configuration traits.

    Every pallet keeps its storage items in its own record ([StoragePallet],
    [RenewalPallet]); [System_] holds what the pallets read of [frame_system] and
    [pallet_timestamp], and what the rest of the runtime answers them: the parameters
    it keeps in storage and the answers of [frame_system]'s account table.  Events,
    calls into the host and calls for provider references (with their answers) are
    appended to logs, so that theorems can speak of what was emitted and in which
    order. *)

From S2P Require Import Prelude Primitives Types.

(** ** Storage *)

(** The environment of the pallets: [frame_system] and [pallet_timestamp], the
    storage-backed parameters of the runtime ([parameter_types!] with [pub storage], by
    name, as the raw bytes under their keys), and whether [dec_providers] would refuse,
    given the provider calls these pallets made (other pallets hold references too). *)
Record System_ := mkSystem {
  block_number : BlockNumber;
  extrinsic_index : option Z;
  parent_hash : bytes;
  genesis_hash : bytes;
  timestamp_now : Z;
  parameters : gmap string bytes;
  dec_providers : list ProviderCall -> AccountId -> option DispatchError }.

(** Storage items of [pallet_bulletin_transaction_storage]. *)
Record StoragePallet := mkStoragePallet {
  Authorizations : gmap AuthorizationScope Authorization;
  AllowedAuthorizers : gmap AccountId AuthorizerBudget;
  Transactions : gmap BlockNumber StoredTransactions;
  ByteFee : option Z;
  EntryFee : option Z;
  RetentionPeriod : BlockNumber;
  BlockTransactions : list TransactionInfoFor;
  TransactionByContentHash : gmap ContentHash (BlockNumber * Z);
  ProofChecked : bool }.

(** Storage items of [pallet_bulletin_data_renewal]. *)
Record RenewalPallet := mkRenewalPallet {
  Renewals : gmap ContentHash RenewalData;
  PendingRenewals : list (ContentHash * TransactionInfoFor * RenewalData);
  PermanentStorageUsed : Z }.

(** The whole state. *)
Record State := mkState {
  sys : System_;
  ts : StoragePallet;
  dr : RenewalPallet;
  events : list RuntimeEvent;
  host_calls : list HostCall;
  provider_calls : list ProviderCall }.

(** ** Writes *)

Definition upd_sys (f : System_ -> System_) (s : State) : State :=
  mkState (f (sys s)) (ts s) (dr s) (events s) (host_calls s) (provider_calls s).
Definition upd_ts (f : StoragePallet -> StoragePallet) (s : State) : State :=
  mkState (sys s) (f (ts s)) (dr s) (events s) (host_calls s) (provider_calls s).
Definition upd_dr (f : RenewalPallet -> RenewalPallet) (s : State) : State :=
  mkState (sys s) (ts s) (f (dr s)) (events s) (host_calls s) (provider_calls s).
Definition upd_events (f : list RuntimeEvent -> list RuntimeEvent) (s : State) : State :=
  mkState (sys s) (ts s) (dr s) (f (events s)) (host_calls s) (provider_calls s).
Definition upd_host_calls (f : list HostCall -> list HostCall) (s : State) : State :=
  mkState (sys s) (ts s) (dr s) (events s) (f (host_calls s)) (provider_calls s).
Definition upd_provider_calls (f : list ProviderCall -> list ProviderCall) (s : State) : State :=
  mkState (sys s) (ts s) (dr s) (events s) (host_calls s) (f (provider_calls s)).

Definition upd_Authorizations (f : gmap AuthorizationScope Authorization -> gmap AuthorizationScope Authorization) : State -> State :=
  upd_ts (fun p =>
    mkStoragePallet (f (Authorizations p)) (AllowedAuthorizers p) (Transactions p) (ByteFee p)
    (EntryFee p) (RetentionPeriod p) (BlockTransactions p) (TransactionByContentHash p)
    (ProofChecked p)).
Definition upd_AllowedAuthorizers (f : gmap AccountId AuthorizerBudget -> gmap AccountId AuthorizerBudget) : State -> State :=
  upd_ts (fun p =>
    mkStoragePallet (Authorizations p) (f (AllowedAuthorizers p)) (Transactions p) (ByteFee p)
    (EntryFee p) (RetentionPeriod p) (BlockTransactions p) (TransactionByContentHash p)
    (ProofChecked p)).
Definition upd_Transactions (f : gmap BlockNumber StoredTransactions -> gmap BlockNumber StoredTransactions) : State -> State :=
  upd_ts (fun p =>
    mkStoragePallet (Authorizations p) (AllowedAuthorizers p) (f (Transactions p)) (ByteFee p)
    (EntryFee p) (RetentionPeriod p) (BlockTransactions p) (TransactionByContentHash p)
    (ProofChecked p)).
Definition upd_ByteFee (f : option Z -> option Z) : State -> State :=
  upd_ts (fun p =>
    mkStoragePallet (Authorizations p) (AllowedAuthorizers p) (Transactions p) (f (ByteFee p))
    (EntryFee p) (RetentionPeriod p) (BlockTransactions p) (TransactionByContentHash p)
    (ProofChecked p)).
Definition upd_EntryFee (f : option Z -> option Z) : State -> State :=
  upd_ts (fun p =>
    mkStoragePallet (Authorizations p) (AllowedAuthorizers p) (Transactions p) (ByteFee p) (f
    (EntryFee p)) (RetentionPeriod p) (BlockTransactions p) (TransactionByContentHash p)
    (ProofChecked p)).
Definition upd_RetentionPeriod (f : BlockNumber -> BlockNumber) : State -> State :=
  upd_ts (fun p =>
    mkStoragePallet (Authorizations p) (AllowedAuthorizers p) (Transactions p) (ByteFee p)
    (EntryFee p) (f (RetentionPeriod p)) (BlockTransactions p) (TransactionByContentHash p)
    (ProofChecked p)).
Definition upd_BlockTransactions (f : list TransactionInfoFor -> list TransactionInfoFor) : State -> State :=
  upd_ts (fun p =>
    mkStoragePallet (Authorizations p) (AllowedAuthorizers p) (Transactions p) (ByteFee p)
    (EntryFee p) (RetentionPeriod p) (f (BlockTransactions p)) (TransactionByContentHash p)
    (ProofChecked p)).
Definition upd_TransactionByContentHash (f : gmap ContentHash (BlockNumber * Z) -> gmap ContentHash (BlockNumber * Z)) : State -> State :=
  upd_ts (fun p =>
    mkStoragePallet (Authorizations p) (AllowedAuthorizers p) (Transactions p) (ByteFee p)
    (EntryFee p) (RetentionPeriod p) (BlockTransactions p) (f (TransactionByContentHash p))
    (ProofChecked p)).
Definition upd_ProofChecked (f : bool -> bool) : State -> State :=
  upd_ts (fun p =>
    mkStoragePallet (Authorizations p) (AllowedAuthorizers p) (Transactions p) (ByteFee p)
    (EntryFee p) (RetentionPeriod p) (BlockTransactions p) (TransactionByContentHash p) (f
    (ProofChecked p))).

Definition upd_Renewals (f : gmap ContentHash RenewalData -> gmap ContentHash RenewalData) : State -> State :=
  upd_dr (fun p =>
    mkRenewalPallet (f (Renewals p)) (PendingRenewals p) (PermanentStorageUsed p)).
Definition upd_PendingRenewals (f : list (ContentHash * TransactionInfoFor * RenewalData) -> list (ContentHash * TransactionInfoFor * RenewalData)) : State -> State :=
  upd_dr (fun p =>
    mkRenewalPallet (Renewals p) (f (PendingRenewals p)) (PermanentStorageUsed p)).
Definition upd_PermanentStorageUsed (f : Z -> Z) : State -> State :=
  upd_dr (fun p =>
    mkRenewalPallet (Renewals p) (PendingRenewals p) (f (PermanentStorageUsed p))).

(** [Self::deposit_event]: newest last. *)
Definition deposit_storage_event (e : StorageEvent) : State -> State :=
  upd_events (fun l => l ++ [StorageEv e]).
Definition deposit_renewal_event (e : RenewalEvent) : State -> State :=
  upd_events (fun l => l ++ [RenewalEv e]).
Definition host_call (c : HostCall) : State -> State := upd_host_calls (fun l => l ++ [c]).
Definition provider_call (c : ProviderCall) : State -> State :=
  upd_provider_calls (fun l => l ++ [c]).

(** ** FRAME storage operations *)

(** [StorageMap::mutate] on an [OptionQuery] map: the closure sees the value (or
    its absence) and what it leaves is written back. *)
Definition map_mutate {K V R} `{Countable K} (k : K) (f : option V -> R * option V)
    (m : gmap K V) : R * gmap K V :=
  let '(r, o) := f (m !! k) in (r, partial_alter (fun _ => o) k m).

(** [BoundedVec::try_push]. *)
Definition try_push {A} (bound : Z) (l : list A) (x : A) : option (list A) :=
  if len l <? bound then Some (l ++ [x]) else None.

(** FRAME runs a dispatchable in its own storage layer: [Err] discards the
    writes to storage (events and provider references included) but not the calls
    already made to the host. *)
Definition dispatch {E A} (m : M State E A) : M State E A := fun s =>
  match m s with
  | (Ok a, s') => (Ok a, s')
  | (Err e, s') => (Err e, upd_host_calls (fun _ => host_calls s') s)
  end.

(** ** Pallet configuration *)

(** The [Config] traits of the three pallets, as the runtimes instantiate them.
    [Authorizer] is an [EnsureOrigin] that may read the storage;
    [MaxPermanentStorageSize] may be a parameter kept in storage. *)
Class Config := {
  MaxBlockTransactions : Z;
  MaxTransactionSize : Z;
  AuthorizationPeriod : BlockNumber;
  AuthorizerRegistrarOrigin : RuntimeOrigin -> bool;
  Authorizer : State -> RuntimeOrigin -> option (option AuthorizationOrigin);
  StoreTxParams : ValidTransactionParams;
  AuthorizeTxParams : ValidTransactionParams;
  RemoveExpiredAccountAuthorizationTxParams : ValidTransactionParams;
  RemoveExpiredPreimageAuthorizationTxParams : ValidTransactionParams;
  RemoveExhaustedAuthorizerTxParams : ValidTransactionParams;
  MaxPermanentStorageSize : gmap string bytes -> Z;
  RenewTxParams : ValidTransactionParams;
  SubmitTimestampTolerance : Z;
  PromoteTxParams : ValidTransactionParams;
}.

(** What [integrity_test] and the constants' types guarantee. *)
Class ConfigLaws `{Config} : Prop := {
  MaxBlockTransactions_range : 0 < MaxBlockTransactions <= u32_max;
  MaxTransactionSize_range : 0 < MaxTransactionSize <= u32_max;
  AuthorizationPeriod_range : 0 < AuthorizationPeriod <= u32_max;
  MaxPermanentStorageSize_range p : is_u64 (MaxPermanentStorageSize p);
}.

(** [MaxPermanentStorageSize::get()]. *)
Definition permanent_cap `{Config} (s : State) : Z := MaxPermanentStorageSize (parameters (sys s)).

(** The obsolete-sweep callback ([OnObsoleteTransactions]) one pallet offers to
    another, and what the storage pallet may rely on: the callback leaves the
    storage pallet's items, the host log and the provider references alone. *)
Class OnObsoleteTransactions := {
  handle_obsolete : BlockNumber -> list (TransactionInfoFor * bool) -> State -> State;
}.

Class OnObsoleteFrame `{OnObsoleteTransactions} : Prop := {
  handle_obsolete_ts n items s : ts (handle_obsolete n items s) = ts s;
  handle_obsolete_sys n items s : sys (handle_obsolete n items s) = sys s;
  handle_obsolete_host n items s : host_calls (handle_obsolete n items s) = host_calls s;
  handle_obsolete_providers n items s :
    provider_calls (handle_obsolete n items s) = provider_calls s;
}.

(** [impl OnObsoleteTransactions for ()]. *)
Definition no_obsolete_handler : OnObsoleteTransactions :=
  {| handle_obsolete _ _ s := s |}.

Lemma no_obsolete_frame : @OnObsoleteFrame no_obsolete_handler.
Proof. by constructor. Qed.

(** ** Lemmas on the storage operations *)

Lemma try_push_Some {A} bound (l k : list A) x :
  try_push bound l x = Some k <-> len l < bound /\ k = l ++ [x].
Proof.
  unfold try_push. destruct (_ <? _) eqn:E; b2p; split;
    [intros [= <-]|intros [? ->]|done|lia]; auto.
Qed.

Lemma try_push_None {A} bound (l : list A) x : try_push bound l x = None <-> bound <= len l.
Proof. unfold try_push. destruct (_ <? _) eqn:E; b2p; split; try done; lia. Qed.

Lemma map_mutate_lookup_ne {K V R} `{Countable K} (k k' : K) (f : option V -> R * option V) m :
  k <> k' -> (map_mutate k f m).2 !! k' = m !! k'.
Proof.
  intros Hne. unfold map_mutate. destruct (f _) as [r o]. simpl.
  by apply lookup_partial_alter_ne.
Qed.
