(* ===== verification/Authorizations.v ===== *)
(** Authorization management of the storage pallet
    ([pallets/transaction-storage/src/lib.rs], [types.rs]): who may grant, grants
    and refreshes, authorizer budgets, removal, consumption, and genesis. *)

From S2P Require Import Prelude Primitives Types State.

Abbreviation MD := (M State DispatchError).
Abbreviation MV := (M State TransactionValidityError).

Section Authorizations.
Context `{Config}.

(** [Pallet::now]. *)
Definition now (s : State) : BlockNumber := block_number (sys s).

Definition module {A} (m : M State StorageError A) : MD A := map_err StorageModule m.

(** ** Origins *)

(** [frame_system::{ensure_root, ensure_none}]. *)
Definition ensure_root (o : RuntimeOrigin) : bool :=
  match o with System Root => true | _ => false end.
Definition ensure_none (o : RuntimeOrigin) : bool :=
  match o with System NoneOrigin => true | _ => false end.

(** [Pallet::ensure_authorized]. *)
Definition ensure_authorized (o : RuntimeOrigin) : result DispatchError AuthorizedCaller :=
  match o with
  | OriginAuthorized who scope => Ok (CallerSigned who scope)
  | _ =>
      if ensure_root o then Ok CallerRoot
      else if ensure_none o then Ok CallerUnsigned
      else Err BadOrigin
  end.

(** [T::Authorizer::ensure_origin(origin)?]. *)
Definition ensure_authorizer (o : RuntimeOrigin) : MD (option AuthorizationOrigin) := fun s =>
  (ok_or (Authorizer s o) BadOrigin, s).

(** [EnsureAllowedAuthorizers::try_origin]. *)
Definition EnsureAllowedAuthorizers (s : State) (o : RuntimeOrigin)
    : option (option AuthorizationOrigin) :=
  match o with
  | System (Signed who) =>
      match AllowedAuthorizers (ts s) !! who with
      | Some b =>
          if negb (is_expired b (now s))
          then Some (Some (mkAuthorizationOrigin who (valid_until b) (feeless b)))
          else None
      | None => None
      end
  | _ => None
  end.

(** [AsAuthorizer::try_origin]. *)
Definition AsAuthorizer {A} (inner : RuntimeOrigin -> option A) (o : RuntimeOrigin)
    : option (option AuthorizationOrigin) :=
  match inner o with Some _ => Some None | None => None end.

(** ** Provider references *)

Definition authorization_added (scope : AuthorizationScope) (s : State) : State :=
  match scope with
  | Account who => provider_call (IncProviders who) s
  | Preimage _ => s
  end.

(** [frame_system::dec_providers]: an [Err] takes no reference away, and is logged. *)
Definition dec_providers_or_warn (who : AccountId) (s : State) : State :=
  provider_call (DecProviders who (dec_providers (sys s) (provider_calls s) who)) s.

Definition authorization_removed (scope : AuthorizationScope) (s : State) : State :=
  match scope with
  | Account who => dec_providers_or_warn who s
  | Preimage _ => s
  end.

Definition inc_authorizer_providers (who : AccountId) : State -> State :=
  provider_call (IncProviders who).
Definition dec_authorizer_providers (who : AccountId) : State -> State :=
  dec_providers_or_warn who.

(** ** Granting *)

(** [Pallet::consume_authorizer_budget]. *)
Definition consume_authorizer_budget (who : AccountId) (transactions bytes : Z) : MD unit :=
  fun s =>
  match AllowedAuthorizers (ts s) !! who with
  | None => (Ok tt, s)
  | Some budget =>
      match try_consume budget transactions bytes with
      | Some budget' => (Ok tt, upd_AllowedAuthorizers <[who := budget']> s)
      | None => (Err (StorageModule InsufficientAuthorizerBudget), s)
      end
  end.

(** The closure of [authorize]: the entry after the grant. *)
Definition granted (scope : AuthorizationScope) (tx_allowance byte_allowance : Z)
    (n expiry : BlockNumber) (old : option Authorization) : Authorization :=
  match old with
  | Some a =>
      let e := extent a in
      if expired a n then
        mkAuthorization
          (mkExtent 0 tx_allowance 0 PermanentExtent_default byte_allowance) expiry
      else
        match scope with
        | Account _ =>
            mkAuthorization
              (mkExtent (extent_transactions e)
                 (sat_add_u32 (transactions_allowance e) tx_allowance)
                 (extent_bytes e) (extra e)
                 (sat_add_u64 (bytes_allowance e) byte_allowance))
              (expiration a)
        | Preimage _ =>
            mkAuthorization
              (mkExtent (extent_transactions e) tx_allowance
                 (extent_bytes e) (extra e) byte_allowance)
              (expiration a)
        end
  | None =>
      mkAuthorization (mkExtent 0 tx_allowance 0 PermanentExtent_default byte_allowance) expiry
  end.

(** [now + AuthorizationPeriod], clamped to the grantor's [valid_until]. *)
Definition grant_expiration (n : BlockNumber) (valid_until : option BlockNumber) : BlockNumber :=
  let e := sat_add_u32 n AuthorizationPeriod in
  match valid_until with Some vu => Z.min e vu | None => e end.

(** [Pallet::authorize]. *)
Definition authorize (scope : AuthorizationScope) (tx_allowance byte_allowance : Z)
    (auth : option AuthorizationOrigin) : MD unit :=
  let! n := gets now in
  let! expiry :=
    match auth with
    | Some ctx =>
        do! consume_authorizer_budget (authorizer ctx) tx_allowance byte_allowance in
        ret (grant_expiration n (ao_valid_until ctx))
    | None => ret (grant_expiration n None)
    end in
  modify (fun s =>
    let old := Authorizations (ts s) !! scope in
    let s' := upd_Authorizations
                <[scope := granted scope tx_allowance byte_allowance n expiry old]> s in
    match old with
    | None => authorization_added scope s'
    | Some _ => s'
    end).

(** [Pallet::refresh_authorization]. *)
Definition refresh_authorization (scope : AuthorizationScope)
    (auth : option AuthorizationOrigin) : MD unit := fun s =>
  let expiry := grant_expiration (now s)
    (match auth with Some ctx => ao_valid_until ctx | None => None end) in
  match Authorizations (ts s) !! scope with
  | Some a => (Ok tt, upd_Authorizations <[scope := with_expiration expiry a]> s)
  | None => (Err (StorageModule AuthorizationNotFound), s)
  end.

(** [Pallet::remove_expired_authorization]. *)
Definition remove_expired_authorization (scope : AuthorizationScope) : MD unit :=
  let! a := (fun s => (ok_or (Authorizations (ts s) !! scope)
                         (StorageModule AuthorizationNotFound), s)) in
  let! n := gets now in
  do! ensure (expired a n) (StorageModule AuthorizationNotExpired) in
  do! modify (upd_Authorizations (delete scope)) in
  modify (authorization_removed scope).

(** ** Dispatchables *)

Definition authorize_account (o : RuntimeOrigin) (who : AccountId) (transactions bytes : Z)
    : MD unit :=
  let! maybe_authorizer := ensure_authorizer o in
  do! ensure (0 <? bytes) (StorageModule BadDataSize) in
  do! authorize (Account who) transactions bytes maybe_authorizer in
  modify (deposit_storage_event (AccountAuthorized who transactions bytes)).

Definition authorize_preimage (o : RuntimeOrigin) (content_hash : ContentHash) (max_size : Z)
    : MD unit :=
  let! maybe_authorizer := ensure_authorizer o in
  do! ensure (0 <? max_size) (StorageModule BadDataSize) in
  do! authorize (Preimage content_hash) 1 max_size maybe_authorizer in
  modify (deposit_storage_event (PreimageAuthorized content_hash max_size)).

Definition remove_expired_account_authorization (who : AccountId) : MD unit :=
  do! remove_expired_authorization (Account who) in
  modify (deposit_storage_event (ExpiredAccountAuthorizationRemoved who)).

Definition remove_expired_preimage_authorization (content_hash : ContentHash) : MD unit :=
  do! remove_expired_authorization (Preimage content_hash) in
  modify (deposit_storage_event (ExpiredPreimageAuthorizationRemoved content_hash)).

Definition refresh_account_authorization (o : RuntimeOrigin) (who : AccountId) : MD unit :=
  let! maybe_authorizer := ensure_authorizer o in
  do! refresh_authorization (Account who) maybe_authorizer in
  modify (deposit_storage_event (AccountAuthorizationRefreshed who)).

Definition refresh_preimage_authorization (o : RuntimeOrigin) (content_hash : ContentHash)
    : MD unit :=
  let! maybe_authorizer := ensure_authorizer o in
  do! refresh_authorization (Preimage content_hash) maybe_authorizer in
  modify (deposit_storage_event (PreimageAuthorizationRefreshed content_hash)).

Definition add_authorizer (o : RuntimeOrigin) (who : AccountId) (budget : AuthorizerBudget)
    : MD unit :=
  do! ensure (AuthorizerRegistrarOrigin o) BadOrigin in
  let! n := gets now in
  do! ensure (negb (is_expired budget n)) (StorageModule InvalidValidUntil) in
  let! is_new := gets (fun s => bool_decide (AllowedAuthorizers (ts s) !! who = None)) in
  do! modify (upd_AllowedAuthorizers <[who := budget]>) in
  do! modify (if is_new : bool then inc_authorizer_providers who else id) in
  modify (deposit_storage_event (AuthorizerAdded who)).

Definition remove_authorizer (o : RuntimeOrigin) (who : AccountId) : MD unit :=
  do! ensure (AuthorizerRegistrarOrigin o) BadOrigin in
  let! taken := gets (fun s => AllowedAuthorizers (ts s) !! who) in
  do! modify (upd_AllowedAuthorizers (delete who)) in
  match taken with
  | Some _ =>
      do! modify (dec_authorizer_providers who) in
      modify (deposit_storage_event (AuthorizerRemoved who))
  | None => ret tt
  end.

Definition remove_exhausted_authorizer (who : AccountId) : MD unit :=
  let! budget := (fun s => (ok_or (AllowedAuthorizers (ts s) !! who)
                              (StorageModule AuthorizerNotFound), s)) in
  let! n := gets now in
  do! ensure (is_inactive budget n) (StorageModule AuthorizerBudgetNotExhausted) in
  do! modify (upd_AllowedAuthorizers (delete who)) in
  do! modify (dec_authorizer_providers who) in
  modify (deposit_storage_event (ExhaustedAuthorizerRemoved who)).

(** ** Reads *)

(** [Pallet::get_active_authorization]. *)
Definition get_active_authorization (s : State) (scope : AuthorizationScope)
    : option Authorization :=
  match Authorizations (ts s) !! scope with
  | Some a => if negb (expired a (now s)) then Some a else None
  | None => None
  end.

(** [Pallet::authorization_extent]. *)
Definition authorization_extent (s : State) (scope : AuthorizationScope)
    : AuthorizationExtentFor :=
  match Authorizations (ts s) !! scope with
  | None => AuthorizationExtent_default
  | Some a => if expired a (now s) then AuthorizationExtent_default else extent a
  end.

Definition account_authorization_extent (s : State) (who : AccountId) :=
  authorization_extent s (Account who).
Definition preimage_authorization_extent (s : State) (h : ContentHash) :=
  authorization_extent s (Preimage h).

(** [Pallet::account_has_active_authorization]. *)
Definition account_has_active_authorization (s : State) (who : AccountId) : bool :=
  match Authorizations (ts s) !! Account who with
  | Some a => negb (expired a (now s))
  | None => false
  end.

(** [Pallet::data_size_ok]. *)
Definition data_size_ok (size : Z) : bool := (0 <? size) && (size <=? MaxTransactionSize).

Definition ensure_data_size_ok (size : Z) : result StorageError unit :=
  if data_size_ok size then Ok tt else Err BadDataSize.

(** [Pallet::can_store]. *)
Definition can_store (s : State) (who : AccountId) (data_len : Z) : bool :=
  if negb (data_size_ok data_len) then false
  else account_has_active_authorization s who.

(** [Pallet::is_feeless_authorizer]. *)
Definition is_feeless_authorizer (s : State) (o : RuntimeOrigin) : bool :=
  match Authorizer s o with
  | Some (Some ctx) =>
      if negb (ao_feeless ctx) then false
      else match AllowedAuthorizers (ts s) !! authorizer ctx with
           | Some b => negb (is_inactive b (now s))
           | None => false
           end
  | _ => false
  end.

(** ** Consuming *)

(** The counters after one [store] of [size] bytes. *)
Definition consume_extent (size : Z) (a : Authorization) : Authorization :=
  let e := extent a in
  mkAuthorization
    (mkExtent (sat_add_u32 (extent_transactions e) 1) (transactions_allowance e)
       (sat_add_u64 (extent_bytes e) size) (extra e) (bytes_allowance e))
    (expiration a).

(** [Pallet::check_authorization]. *)
Definition check_authorization (scope : AuthorizationScope) (size : Z) (consume : bool)
    : MV unit := fun s =>
  match Authorizations (ts s) !! scope with
  | None => (Err Payment, s)
  | Some a =>
      if expired a (now s) then (Err Payment, s)
      else if consume then
        (Ok tt, upd_Authorizations <[scope := consume_extent size a]> s)
      else (Ok tt, s)
  end.

(** [Pallet::try_mutate_active_authorization]. *)
Definition try_mutate_active_authorization {R} (scope : AuthorizationScope) (persist : bool)
    (f : Authorization -> result TransactionValidityError R * Authorization) : MV R := fun s =>
  match Authorizations (ts s) !! scope with
  | None => (Err Payment, s)
  | Some a =>
      if expired a (now s) then (Err Payment, s)
      else
        let '(r, a') := f a in
        match r with
        | Ok x =>
            if persist then (Ok x, upd_Authorizations <[scope := a']> s) else (Ok x, s)
        | Err e => (Err e, s)
        end
  end.

(** [Pallet::check_authorization_expired]. *)
Definition check_authorization_expired (scope : AuthorizationScope) : MV unit := fun s =>
  match Authorizations (ts s) !! scope with
  | None => (Err AUTHORIZATION_NOT_FOUND, s)
  | Some a =>
      if negb (expired a (now s)) then (Err AUTHORIZATION_NOT_EXPIRED, s) else (Ok tt, s)
  end.

(** ** Genesis *)

Record GenesisConfig := mkGenesis {
  g_byte_fee : Z;
  g_entry_fee : Z;
  g_retention_period : BlockNumber;
  g_allowed_authorizers : list (AccountId * Z * Z);
  g_account_authorizations : list (AccountId * Z * Z);
  g_preimage_authorizations : list (ContentHash * Z) }.

Definition DEFAULT_RETENTION_PERIOD : BlockNumber := 2 * 100800.

Definition GenesisConfig_default : GenesisConfig :=
  mkGenesis 10 1000 DEFAULT_RETENTION_PERIOD [] [] [].

(** An authorization as genesis writes it. *)
Definition genesis_authorization (tx_allowance byte_allowance : Z) : Authorization :=
  mkAuthorization (mkExtent 0 tx_allowance 0 PermanentExtent_default byte_allowance)
    AuthorizationPeriod.

Definition genesis_account (e : AccountId * Z * Z) (s : State) : State :=
  let '(who, txs, bs) := e in
  authorization_added (Account who)
    (upd_Authorizations <[Account who := genesis_authorization txs bs]> s).

Definition genesis_preimage (e : ContentHash * Z) : State -> State :=
  let '(h, max_size) := e in
  upd_Authorizations <[Preimage h := genesis_authorization 1 max_size]>.

Definition genesis_authorizer (e : AccountId * Z * Z) (s : State) : State :=
  let '(account, txs, bs) := e in
  let is_new := bool_decide (AllowedAuthorizers (ts s) !! account = None) in
  let s' := upd_AllowedAuthorizers
              <[account := mkBudget (Some (mkQuota txs bs)) None true]> s in
  if is_new then inc_authorizer_providers account s' else s'.

(** [GenesisConfig::build]. *)
Definition genesis_build (g : GenesisConfig) (s : State) : State :=
  let s := upd_ByteFee (fun _ => Some (g_byte_fee g)) s in
  let s := upd_EntryFee (fun _ => Some (g_entry_fee g)) s in
  let s := upd_RetentionPeriod (fun _ => g_retention_period g) s in
  let s := foldl (fun s e => genesis_account e s) s (g_account_authorizations g) in
  let s := foldl (fun s e => genesis_preimage e s) s (g_preimage_authorizations g) in
  foldl (fun s e => genesis_authorizer e s) s (g_allowed_authorizers g).
End Authorizations.

(** ** The authorization invariant *)

(** Net provider references an account received from a log of calls: a refused
    [dec_providers] takes none away. *)
Fixpoint provider_balance (l : list ProviderCall) (who : AccountId) : Z :=
  match l with
  | [] => 0
  | IncProviders w :: l' => (if decide (w = who) then 1 else 0) + provider_balance l' who
  | DecProviders w None :: l' => provider_balance l' who - (if decide (w = who) then 1 else 0)
  | DecProviders w (Some _) :: l' => provider_balance l' who
  end.

(** The references of an account [dec_providers] refused to take away: the leaks the
    pallet warns of. *)
Definition leaked (l : list ProviderCall) (who : AccountId) : Z :=
  lsum (fun c => match c with
                 | DecProviders w (Some _) => if decide (w = who) then 1 else 0
                 | _ => 0 end) l.

Definition present {A} (o : option A) : Z := match o with Some _ => 1 | None => 0 end.

(** Every counter is in range, the byte cap is positive ([check_authorizations_integrity])
    and an account never renewed more than its cap. *)
Record wf_authorization (scope : AuthorizationScope) (a : Authorization) : Prop := {
  wf_transactions : is_u32 (extent_transactions (extent a));
  wf_transactions_allowance : is_u32 (transactions_allowance (extent a));
  wf_bytes : is_u64 (extent_bytes (extent a));
  wf_bytes_allowance : 0 < bytes_allowance (extent a) <= u64_max;
  wf_bytes_permanent : is_u64 (bytes_permanent (extra (extent a)));
  wf_expiration : is_u32 (expiration a);
  wf_permanent_within : forall who, scope = Account who ->
    bytes_permanent (extra (extent a)) <= bytes_allowance (extent a) }.

Record AuthInv (s : State) : Prop := {
  inv_authorizations : forall scope a,
    Authorizations (ts s) !! scope = Some a -> wf_authorization scope a;
  inv_providers : forall who,
    provider_balance (provider_calls s) who =
      present (Authorizations (ts s) !! Account who)
      + present (AllowedAuthorizers (ts s) !! who) + leaked (provider_calls s) who }.

Lemma provider_balance_app l k who :
  provider_balance (l ++ k) who = provider_balance l who + provider_balance k who.
Proof. induction l as [|[w|w [e|]] l IH]; simpl; [done|..]; rewrite IH; lia. Qed.

(** One more call for [who]: what it adds to the balance and to the leaks. *)
Lemma dec_providers_balance who s w :
  let s' := dec_providers_or_warn who s in
  provider_balance (provider_calls s') w - leaked (provider_calls s') w =
  provider_balance (provider_calls s) w - leaked (provider_calls s) w
    - (if decide (who = w) then 1 else 0).
Proof.
  unfold dec_providers_or_warn. simpl. rewrite provider_balance_app. unfold leaked. rewrite lsum_app. simpl.
  destruct (dec_providers _ _ _); simpl; destruct (decide _); lia.
Qed.

Lemma inc_providers_balance who s w :
  let s' := provider_call (IncProviders who) s in
  provider_balance (provider_calls s') w - leaked (provider_calls s') w =
  provider_balance (provider_calls s) w - leaked (provider_calls s) w
    + (if decide (who = w) then 1 else 0).
Proof.
  simpl. rewrite provider_balance_app. unfold leaked. rewrite lsum_app. simpl. destruct (decide _); lia.
Qed.

(** The invariant only reads three items. *)
Lemma AuthInv_ext s s' :
  Authorizations (ts s') = Authorizations (ts s) ->
  AllowedAuthorizers (ts s') = AllowedAuthorizers (ts s) ->
  provider_calls s' = provider_calls s ->
  AuthInv s -> AuthInv s'.
Proof.
  intros HA HB HC [I1 I2]. constructor.
  - rewrite HA. exact I1.
  - intros who. rewrite HA, HB, HC. apply I2.
Qed.

(** Writing an entry that exists keeps every presence count. *)
Lemma AuthInv_update_authorization scope a a' s :
  Authorizations (ts s) !! scope = Some a -> wf_authorization scope a' ->
  AuthInv s -> AuthInv (upd_Authorizations <[scope := a']> s).
Proof.
  intros Ha Hwf [I1 I2]. constructor; simpl.
  - intros sc x Hx. apply lookup_insert_Some in Hx as [[<- <-]|[_ Hx]]; eauto.
  - intros who. rewrite I2. do 2 f_equal. destruct (decide (scope = Account who)) as [->|Hne].
    + by rewrite lookup_insert_eq, Ha.
    + by rewrite lookup_insert_ne.
Qed.

(** Creating an entry with the reference [authorization_added] takes. *)
Lemma AuthInv_create_authorization scope a s :
  Authorizations (ts s) !! scope = None -> wf_authorization scope a ->
  AuthInv s -> AuthInv (authorization_added scope (upd_Authorizations <[scope := a]> s)).
Proof.
  intros Hnone Hwf [I1 I2]. constructor.
  - intros sc x Hx. assert (<[scope := a]> (Authorizations (ts s)) !! sc = Some x) as Hx'
      by (by destruct scope).
    apply lookup_insert_Some in Hx' as [[<- <-]|[_ Hx']]; eauto.
  - intros who. specialize (I2 who). destruct scope as [w|h]; simpl Authorizations.
    + pose proof (inc_providers_balance w s who) as Hp. cbv zeta in Hp. simpl in Hp |- *.
      destruct (decide (w = who)) as [->|Hne].
      * rewrite Hnone in I2. rewrite lookup_insert_eq. simpl in *. lia.
      * rewrite lookup_insert_ne by congruence. lia.
    + simpl. rewrite I2, lookup_insert_ne by done. done.
Qed.

(** Deleting an entry with the reference [authorization_removed] gives back. *)
Lemma AuthInv_delete_authorization scope a s :
  Authorizations (ts s) !! scope = Some a ->
  AuthInv s -> AuthInv (authorization_removed scope (upd_Authorizations (delete scope) s)).
Proof.
  intros Ha [I1 I2]. constructor.
  - intros sc x Hx. assert (delete scope (Authorizations (ts s)) !! sc = Some x) as Hx'
      by (by destruct scope).
    apply lookup_delete_Some in Hx' as [_ Hx']; eauto.
  - intros who. specialize (I2 who). destruct scope as [w|h].
    + pose proof (dec_providers_balance w s who) as Hp. cbv zeta in Hp. simpl in Hp |- *.
      destruct (decide (w = who)) as [->|Hne].
      * rewrite Ha in I2. rewrite lookup_delete_eq. simpl in *. lia.
      * rewrite lookup_delete_ne by congruence. lia.
    + simpl. rewrite I2, lookup_delete_ne by done. done.
Qed.

(** The same three facts for the authorizer list. *)
Lemma AuthInv_update_budget who b b' s :
  AllowedAuthorizers (ts s) !! who = Some b ->
  AuthInv s -> AuthInv (upd_AllowedAuthorizers <[who := b']> s).
Proof.
  intros Hb [I1 I2]. constructor; simpl; [done|].
  intros w. rewrite I2. do 2 f_equal. destruct (decide (who = w)) as [->|Hne].
  - by rewrite lookup_insert_eq, Hb.
  - by rewrite lookup_insert_ne.
Qed.

Lemma AuthInv_create_budget who b s :
  AllowedAuthorizers (ts s) !! who = None ->
  AuthInv s ->
  AuthInv (inc_authorizer_providers who (upd_AllowedAuthorizers <[who := b]> s)).
Proof.
  intros Hnone [I1 I2]. constructor; simpl; [done|].
  intros w. specialize (I2 w). pose proof (inc_providers_balance who s w) as Hp. cbv zeta in Hp. simpl in Hp |- *.
  destruct (decide (who = w)) as [->|Hne].
  - rewrite Hnone in I2. rewrite lookup_insert_eq. simpl in *. lia.
  - rewrite lookup_insert_ne by done. lia.
Qed.

Lemma AuthInv_delete_budget who b s :
  AllowedAuthorizers (ts s) !! who = Some b ->
  AuthInv s -> AuthInv (dec_authorizer_providers who (upd_AllowedAuthorizers (delete who) s)).
Proof.
  intros Hb [I1 I2]. constructor; simpl; [done|].
  intros w. specialize (I2 w). pose proof (dec_providers_balance who s w) as Hp. cbv zeta in Hp. simpl in Hp |- *.
  destruct (decide (who = w)) as [->|Hne].
  - rewrite Hb in I2. rewrite lookup_delete_eq. simpl in *. lia.
  - rewrite lookup_delete_ne by done. lia.
Qed.

#[export] Hint Resolve AuthInv_update_authorization AuthInv_create_authorization
  AuthInv_delete_authorization AuthInv_update_budget AuthInv_create_budget
  AuthInv_delete_budget : chain.

(** Depositing an event is invisible to the invariant. *)
Lemma AuthInv_event e s : AuthInv s -> AuthInv (deposit_storage_event e s).
Proof. by apply AuthInv_ext. Qed.

#[export] Hint Resolve AuthInv_event : chain.

Section Preservation.
Context `{ConfigLaws}.

(** What a caller passes as caps: a [u32] and a positive [u64]. *)
Definition caps_ok (txs bs : Z) : Prop := is_u32 txs /\ 0 < bs <= u64_max.

(** A fresh window with no consumption. *)
Lemma wf_fresh scope txs bs e :
  caps_ok txs bs -> is_u32 e ->
  wf_authorization scope (mkAuthorization (mkExtent 0 txs 0 PermanentExtent_default bs) e).
Proof.
  intros [Ht Hb] He. unfold is_u32, is_u64, u32_max, u64_max in *.
  constructor; simpl; unfold is_u32, is_u64, u32_max, u64_max; intros; lia.
Qed.

Lemma wf_granted scope txs bs n e old :
  caps_ok txs bs -> is_u32 e ->
  (forall a, old = Some a -> wf_authorization scope a) ->
  wf_authorization scope (granted scope txs bs n e old).
Proof.
  intros Hc He Hold. destruct old as [a|]; [|by apply wf_fresh].
  simpl. destruct (expired a n); [by apply wf_fresh|].
  destruct (Hold a eq_refl) as [W1 W2 W3 W4 W5 W6 W7], Hc as [C1 C2].
  destruct scope as [who|h]; constructor; simpl; try done;
    unfold is_u32, is_u64, sat_add in *; try lia.
  intros w Hw. specialize (W7 w Hw). lia.
Qed.

Lemma grant_expiration_u32 n vu :
  is_u32 n -> (forall t, vu = Some t -> is_u32 t) -> is_u32 (grant_expiration n vu).
Proof.
  intros Hn Hvu. pose proof AuthorizationPeriod_range.
  unfold grant_expiration, is_u32, sat_add in *. destruct vu as [t|].
  - specialize (Hvu t eq_refl). lia.
  - lia.
Qed.

(** The origin context a dispatch runs under carries a [u32] expiry. *)
Definition origin_ok (auth : option AuthorizationOrigin) : Prop :=
  forall ctx t, auth = Some ctx -> ao_valid_until ctx = Some t -> is_u32 t.

Lemma consume_authorizer_budget_inv who t b s :
  AuthInv s -> AuthInv (consume_authorizer_budget who t b s).2.
Proof.
  intros I. unfold consume_authorizer_budget.
  destruct (AllowedAuthorizers (ts s) !! who) as [bud|] eqn:E; [|done].
  destruct (try_consume bud t b); simpl; eauto with chain.
Qed.

Lemma consume_authorizer_budget_frame who t b s :
  let s' := (consume_authorizer_budget who t b s).2 in
  Authorizations (ts s') = Authorizations (ts s) /\ sys s' = sys s.
Proof. unfold consume_authorizer_budget. repeat destr_match; done. Qed.

Lemma authorize_inv scope txs bs auth s :
  caps_ok txs bs -> origin_ok auth -> is_u32 (now s) ->
  AuthInv s -> AuthInv (authorize scope txs bs auth s).2.
Proof.
  intros Hc Ho Hn I. unfold authorize, bind, gets, modify, ret.
  assert (forall e s0, is_u32 e -> AuthInv s0 ->
    AuthInv (let old := Authorizations (ts s0) !! scope in
             let s' := upd_Authorizations
                         <[scope := granted scope txs bs (now s) e old]> s0 in
             match old with None => authorization_added scope s' | Some _ => s' end)) as Hwrite.
  { intros e s0 He I0. simpl.
    assert (wf_authorization scope
      (granted scope txs bs (now s) e (Authorizations (ts s0) !! scope))) as Hwf.
    { apply wf_granted; [done..|]. intros a Ha. by eapply inv_authorizations. }
    destruct (Authorizations (ts s0) !! scope) eqn:E; eauto with chain. }
  destruct auth as [ctx|].
  - pose proof (consume_authorizer_budget_inv (authorizer ctx) txs bs s I) as I'.
    destruct (consume_authorizer_budget (authorizer ctx) txs bs s) as [[[]|e] s']; [|done].
    apply Hwrite; [|done]. apply grant_expiration_u32; [done|]. intros t Ht. by eapply Ho.
  - apply Hwrite; [|done]. by apply grant_expiration_u32.
Qed.

Lemma refresh_authorization_inv scope auth s :
  origin_ok auth -> is_u32 (now s) ->
  AuthInv s -> AuthInv (refresh_authorization scope auth s).2.
Proof.
  intros Ho Hn I. unfold refresh_authorization.
  destruct (Authorizations (ts s) !! scope) as [a|] eqn:E; [simpl|done].
  eapply AuthInv_update_authorization; [done| |done].
  destruct (inv_authorizations s I scope a E). constructor; simpl; try done.
  apply grant_expiration_u32; [done|]. destruct auth as [ctx|]; [|done].
  intros t Ht. by eapply Ho.
Qed.

Lemma remove_expired_authorization_inv scope s :
  AuthInv s -> AuthInv (remove_expired_authorization scope s).2.
Proof.
  intros I. unfold remove_expired_authorization, ok_or. unfold_M.
  destruct (Authorizations (ts s) !! scope) as [a|] eqn:E; [|done].
  destruct (expired a (now s)); simpl; eauto with chain.
Qed.

Lemma check_authorization_inv scope size consume s :
  0 <= size -> AuthInv s -> AuthInv (check_authorization scope size consume s).2.
Proof.
  intros Hs I. unfold check_authorization.
  destruct (Authorizations (ts s) !! scope) as [a|] eqn:E; [|done].
  destruct (expired a (now s)), consume; simpl; try done.
  eapply AuthInv_update_authorization; [done| |done].
  destruct (inv_authorizations s I scope a E).
  constructor; simpl; try done; unfold is_u32, is_u64, sat_add, u32_max, u64_max in *; lia.
Qed.

Lemma try_mutate_active_authorization_inv {R} scope persist
    (f : Authorization -> result TransactionValidityError R * Authorization) s :
  (forall a r a', wf_authorization scope a -> f a = (Ok r, a') -> wf_authorization scope a') ->
  AuthInv s -> AuthInv (try_mutate_active_authorization scope persist f s).2.
Proof.
  intros Hf I. unfold try_mutate_active_authorization.
  destruct (Authorizations (ts s) !! scope) as [a|] eqn:E; [|done].
  destruct (expired a (now s)); [done|].
  destruct (f a) as [[r|e] a'] eqn:Ef; [|done]. destruct persist; [simpl|done].
  eapply AuthInv_update_authorization; [done| |done]. eapply Hf; [|done].
  by eapply inv_authorizations.
Qed.

Lemma add_authorizer_inv o who b s :
  AuthInv s -> AuthInv (add_authorizer o who b s).2.
Proof.
  intros I. unfold add_authorizer. unfold_M.
  destruct (AuthorizerRegistrarOrigin o); [simpl|done].
  destruct (negb (is_expired b (now s))); [simpl|done].
  destruct (bool_decide _) eqn:E; b2p; simpl.
  - auto with chain.
  - apply AuthInv_event. destruct (AllowedAuthorizers (ts s) !! who) eqn:E'; [|done].
    by eapply AuthInv_update_budget.
Qed.

Lemma remove_authorizer_inv o who s :
  AuthInv s -> AuthInv (remove_authorizer o who s).2.
Proof.
  intros I. unfold remove_authorizer. unfold_M.
  destruct (AuthorizerRegistrarOrigin o); [simpl|done].
  destruct (AllowedAuthorizers (ts s) !! who) as [b|] eqn:E; simpl; [eauto with chain|].
  apply (AuthInv_ext s); [done| |done|done]. simpl. by rewrite delete_id.
Qed.

Lemma remove_exhausted_authorizer_inv who s :
  AuthInv s -> AuthInv (remove_exhausted_authorizer who s).2.
Proof.
  intros I. unfold remove_exhausted_authorizer, ok_or. unfold_M.
  destruct (AllowedAuthorizers (ts s) !! who) as [b|] eqn:E; [|done].
  destruct (is_inactive b (now s)); simpl; eauto with chain.
Qed.
End Preservation.
