(* ===== verification/Blocks.v ===== *)
(** Block accumulation, storage proofs and retention of the storage pallet
    ([pallets/transaction-storage/src/lib.rs]): [do_store] and the
    [BlockTransactionsMut] accumulator, sealing, the content-hash index, chunk
    proofs, and the [on_initialize] / [on_finalize] hooks. *)

From S2P Require Import Prelude Slice Primitives Types State Authorizations.

Section Blocks.
Context `{Host} `{Config}.

(** ** Reads *)

(** [Transactions::<T>::get]: an entry that does not decode reads as absent. *)
Definition Transactions_get (s : State) (b : BlockNumber) : option (list TransactionInfoFor) :=
  match Transactions (ts s) !! b with
  | Some v => decode_current v
  | None => None
  end.

(** [Transactions::<T>::contains_key]. *)
Definition Transactions_contains_key (s : State) (b : BlockNumber) : bool :=
  match Transactions (ts s) !! b with Some _ => true | None => false end.

(** [Transactions::<T>::take]: only a value that decodes is removed. *)
Definition Transactions_take (b : BlockNumber) (s : State)
    : option (list TransactionInfoFor) * State :=
  match Transactions_get s b with
  | Some txs => (Some txs, upd_Transactions (delete b) s)
  | None => (None, s)
  end.

Definition retention_period (s : State) : BlockNumber := RetentionPeriod (ts s).
Definition byte_fee (s : State) : option Z := ByteFee (ts s).
Definition entry_fee (s : State) : option Z := EntryFee (ts s).

(** [Pallet::block_transactions_count] and [block_transactions_full]. *)
Definition block_transactions_count (s : State) : Z := as_u32 (len (BlockTransactions (ts s))).
Definition block_transactions_full (s : State) : bool :=
  MaxBlockTransactions <=? block_transactions_count s.

(** [Pallet::contains_transaction]. *)
Definition contains_transaction (s : State) (h : ContentHash) : bool :=
  match TransactionByContentHash (ts s) !! h with Some _ => true | None => false end.

(** [Pallet::lookup_by_content_hash]. *)
Definition lookup_by_content_hash (s : State) (h : ContentHash) : option (BlockNumber * Z) :=
  TransactionByContentHash (ts s) !! h.

(** [Pallet::transaction_info]. *)
Definition transaction_info (s : State) (block : BlockNumber) (index : Z)
    : option TransactionInfoFor :=
  match Transactions_get s block with
  | Some txs => txs !! Z.to_nat index
  | None => None
  end.

(** [Pallet::resolve_transaction_ref]. *)
Definition resolve_transaction_ref (s : State) (entry : TransactionRef)
    : result StorageError TransactionInfoFor :=
  match entry with
  | Position block index => ok_or (transaction_info s block index) RenewedNotFound
  | ByContentHash h =>
      match TransactionByContentHash (ts s) !! h with
      | Some (block, index) => ok_or (transaction_info s block index) RenewedNotFound
      | None => Err RenewedNotFound
      end
  end.

(** [Pallet::transactions_at]: tolerates entries still in the v2 layout. *)
Definition transactions_at (s : State) (block : BlockNumber) : option (list TransactionInfoFor) :=
  match Transactions (ts s) !! block with
  | None => None
  | Some (LayoutCurrent txs) => Some txs
  | Some (LayoutV2 txs) => Some (map materialize_v2 txs)
  | Some (LayoutCorrupted _) => None
  end.

(** ** The accumulator *)

(** [Pallet::with_block_transactions]: the closure works on the entries while the
    rest of the storage stays readable and writable. *)
Definition with_block_transactions {R}
    (f : list TransactionInfoFor -> State -> R * list TransactionInfoFor * State)
    (s : State) : R * State :=
  let '(r, entries, s') := f (BlockTransactions (ts s)) s in
  (r, upd_BlockTransactions (fun _ => entries) s').

(** [BlockTransactionsMut::push]. *)
Definition push (entry : TransactionInfoFor) (entries : list TransactionInfoFor) (s : State)
    : option Z * list TransactionInfoFor * State :=
  let entry := with_block_chunks
    (sat_add_u32 (total_chunks entries) (num_chunks (ti_size entry))) entry in
  let new_index := as_u32 (len entries) in
  match try_push MaxBlockTransactions entries entry with
  | None => (None, entries, s)
  | Some entries' =>
      (Some new_index, entries',
       upd_TransactionByContentHash <[ti_content_hash entry := (now s, new_index)]> s)
  end.

(** [BlockTransactionsMut::store]. *)
Definition entries_store (entry : TransactionInfoFor) (entries : list TransactionInfoFor)
    (s : State) : option Z * list TransactionInfoFor * State :=
  let '(r, entries', s') := push entry entries s in
  match r with
  | None => (None, entries', s')
  | Some new_index =>
      (Some new_index, entries',
       host_call (HostIndex (ti_extrinsic_index entry) (ti_size entry) (ti_content_hash entry)) s')
  end.

(** [BlockTransactionsMut::renew]. *)
Definition entries_renew (info : TransactionInfoFor) (extrinsic : Z) (meta : EntryKind)
    (entries : list TransactionInfoFor) (s : State)
    : option Z * list TransactionInfoFor * State :=
  let entry := mkInfo (ti_chunk_root info) (ti_content_hash info) (ti_hashing info)
    (ti_cid_codec info) (ti_size info) extrinsic (ti_block_chunks info) meta in
  let '(r, entries', s') := push entry entries s in
  match r with
  | None => (None, entries', s')
  | Some new_index =>
      (Some new_index, entries', host_call (HostRenew extrinsic (ti_content_hash info)) s')
  end.

(** [Pallet::seal_block]. *)
Definition seal_block (n : BlockNumber) (s : State) : State :=
  let entries := BlockTransactions (ts s) in
  let s := upd_BlockTransactions (fun _ => []) s in
  if negb (total_chunks entries =? 0)
  then upd_Transactions <[n := LayoutCurrent entries]> s
  else s.

(** ** Storing *)

(** [Pallet::do_store]. *)
Definition do_store (data : bytes) (hashing : HashingAlgorithm) (cid_codec : CidCodec) : MD unit :=
  let data_len := as_u32 (len data) in
  do! lift (match ensure_data_size_ok data_len with
            | Ok _ => Ok tt | Err e => Err (StorageModule e) end) in
  let! cid := lift (match calculate_cid data (mkCidConfig cid_codec hashing) with
                    | Ok c => Ok c | Err _ => Err (StorageModule InvalidContentHash) end) in
  let root := blake2_256_ordered_root (chunks (Z.to_nat CHUNK_SIZE) data) in
  let! extrinsic := (fun s => (ok_or (extrinsic_index (sys s)) (StorageModule BadContext), s)) in
  let! maybe_index := run (with_block_transactions (entries_store
    (mkInfo root (cd_content_hash cid) hashing cid_codec data_len extrinsic 0
       EntryKind_default))) in
  let! index := lift (ok_or maybe_index (StorageModule TooManyTransactions)) in
  modify (deposit_storage_event (Stored index (cd_content_hash cid) (to_bytes cid))).

(** [Call::store] and [Call::store_with_cid_config]. *)
Definition store (o : RuntimeOrigin) (data : bytes) : MD unit :=
  do! lift (ensure_authorized o) in
  do_store data Blake2b256 RAW_CODEC.

Definition store_with_cid_config (o : RuntimeOrigin) (cid : CidConfig) (data : bytes) : MD unit :=
  do! lift (ensure_authorized o) in
  do_store data (cc_hashing cid) (cc_codec cid).

(** ** Storage proofs *)

(** [Pallet::verify_chunk_proof]. *)
Definition verify_chunk_proof (proof : TransactionStorageProof) (random_hash : bytes)
    (infos : list TransactionInfoFor) : result DispatchError unit :=
  let total := total_chunks infos in
  if total =? 0 then Err (StorageModule UnexpectedProof)
  else
    let selected := random_chunk random_hash total in
    let tx_index := either_index (binary_search_by_key infos selected
                      (fun info => sat_sub (ti_block_chunks info) 1)) in
    match infos !! tx_index with
    | None => Err (StorageModule MissingStateData)
    | Some tx_info =>
        if ti_block_chunks tx_info =? 0 then Err (StorageModule BadDataSize)
        else
          match checked_sub (ti_block_chunks tx_info) (num_chunks (ti_size tx_info)) with
          | None => Err ArithmeticUnderflow
          | Some prev_chunks =>
              match checked_sub selected prev_chunks with
              | None => Err ArithmeticUnderflow
              | Some tx_chunk_index =>
                  if blake2_256_verify_proof (ti_chunk_root tx_info) (proof_proof proof)
                       (encode_index tx_chunk_index) (proof_chunk proof)
                  then Ok tt
                  else Err (StorageModule InvalidProof)
              end
          end
    end.

(** [Pallet::do_check_proof]. *)
Definition do_check_proof (proof : TransactionStorageProof) : MD unit :=
  let! checked := gets (fun s => ProofChecked (ts s)) in
  do! ensure (negb checked) (StorageModule DoubleCheck) in
  let! number := gets now in
  let! period := gets retention_period in
  let target_number := sat_sub number period in
  do! ensure (negb (target_number =? 0)) (StorageModule UnexpectedProof) in
  let! transactions := (fun s => (ok_or (transactions_at s target_number)
                                    (StorageModule MissingStateData), s)) in
  let! parent := gets (fun s => parent_hash (sys s)) in
  do! lift (verify_chunk_proof proof parent transactions) in
  do! modify (upd_ProofChecked (fun _ => true)) in
  modify (deposit_storage_event ProofCheckedEvent).

(** [Call::apply_block_inherents]. *)
Definition apply_block_inherents (o : RuntimeOrigin) (proof : option TransactionStorageProof)
    : MD unit :=
  do! ensure (ensure_none o) BadOrigin in
  match proof with
  | Some p => do_check_proof p
  | None => ret tt
  end.

(** ** Hooks *)

(** One iteration of the sweep of [on_initialize]: [is_latest] is whether the
    index still points at the obsolete block; if so the index entry goes. *)
Definition sweep_one (obsolete : BlockNumber)
    (acc : list (TransactionInfoFor * bool) * State) (tx_info : TransactionInfoFor)
    : list (TransactionInfoFor * bool) * State :=
  let '(pairs, s) := acc in
  let h := ti_content_hash tx_info in
  let is_latest :=
    match TransactionByContentHash (ts s) !! h with
    | Some (block, _) => block =? obsolete
    | None => false
    end in
  let s := if is_latest then upd_TransactionByContentHash (delete h) s else s in
  (default pairs (try_push MaxBlockTransactions pairs (tx_info, is_latest)), s).

Definition sweep (obsolete : BlockNumber) (txs : list TransactionInfoFor) (s : State)
    : list (TransactionInfoFor * bool) * State :=
  foldl (sweep_one obsolete) ([], s) txs.

(** [Hooks::on_initialize]. *)
Definition on_initialize `{OnObsoleteTransactions} (n : BlockNumber) (s : State) : State :=
  let period := retention_period s in
  let obsolete := sat_sub n (sat_add_u32 period 1) in
  if 0 <? obsolete then
    let '(taken, s) := Transactions_take obsolete s in
    match taken with
    | Some transactions =>
        let '(pairs, s) := sweep obsolete transactions s in
        handle_obsolete obsolete pairs s
    | None => s
    end
  else s.

(** The condition [on_finalize] asserts, after taking the [ProofChecked] flag. *)
Definition proof_ok (n : BlockNumber) (s : State) : bool :=
  ProofChecked (ts s) ||
  (let target_number := sat_sub n (retention_period s) in
   (target_number =? 0) || negb (Transactions_contains_key s target_number)).

(** [Hooks::on_finalize]: [None] when the assertion panics. *)
Definition on_finalize (n : BlockNumber) (s : State) : option State :=
  let ok := proof_ok n s in
  let s := upd_ProofChecked (fun _ => false) s in
  if ok then Some (seal_block n s) else None.

(** ** [try_state] *)

(** The inner loop of [check_transactions_integrity]. *)
Fixpoint cumulative (c : Z) (txs : list TransactionInfoFor) : bool :=
  match txs with
  | [] => true
  | tx :: rest =>
      let c' := sat_add_u32 c (num_chunks (ti_size tx)) in
      (ti_block_chunks tx =? c') && cumulative c' rest
  end.

Definition cumulative_total (txs : list TransactionInfoFor) : Z :=
  foldl (fun c tx => sat_add_u32 c (num_chunks (ti_size tx))) 0 txs.

(** [Transactions::<T>::iter] yields the entries that decode. *)
Definition Transactions_iter (s : State) : list (BlockNumber * list TransactionInfoFor) :=
  omap (fun '(b, v) => match decode_current v with
                       | Some txs => Some (b, txs) | None => None end)
    (map_to_list (Transactions (ts s))).

Definition check_transactions_integrity (s : State) : bool :=
  forallb (fun '(_, txs) =>
    cumulative 0 txs && (total_chunks txs =? cumulative_total txs)) (Transactions_iter s).

Definition check_no_stale_transactions (n : BlockNumber) (s : State) : bool :=
  let oldest_valid := sat_sub n (retention_period s) in
  forallb (fun '(block, _) => (oldest_valid <=? block) && (block <=? n)) (Transactions_iter s).

Definition check_authorizations_integrity (s : State) : bool :=
  forallb (fun '(_, a) => 0 <? bytes_allowance (extent a)) (map_to_list (Authorizations (ts s))).

(** [Pallet::do_try_state]. *)
Definition do_try_state (n : BlockNumber) (s : State) : bool :=
  negb (retention_period s =? 0) && check_transactions_integrity s
  && check_no_stale_transactions n s && check_authorizations_integrity s.
End Blocks.

(** ** Chunk accounting *)

(** A full block of maximal entries has fewer chunks than a [u32] counts; with
    the runtimes' constants it has 512 * 8192. *)
Class ChunkCapacity `{Host} `{Config} : Prop :=
  chunk_capacity : MaxBlockTransactions * num_chunks MaxTransactionSize <= u32_max.

Section ChunkFacts.
Context `{HostLaws} `{!Config} `{!ConfigLaws} `{!ChunkCapacity}.

(** An entry [store] may write. *)
Definition size_ok (t : TransactionInfoFor) : Prop := 0 < ti_size t <= MaxTransactionSize.

Definition wf_entries (txs : list TransactionInfoFor) : Prop :=
  cumulative 0 txs = true /\ Forall size_ok txs /\ len txs <= MaxBlockTransactions.

(** Chunks of a list of entries, without saturation. *)
Fixpoint chunk_sum (txs : list TransactionInfoFor) : Z :=
  match txs with [] => 0 | t :: r => num_chunks (ti_size t) + chunk_sum r end.

(** Reference definition: the entry that owns block chunk [k] and the chunk's
    index inside it, found by scanning the entries in order. *)
Fixpoint chunk_owner (txs : list TransactionInfoFor) (k : Z) : option (TransactionInfoFor * Z) :=
  match txs with
  | [] => None
  | t :: r =>
      if k <? num_chunks (ti_size t) then Some (t, k)
      else chunk_owner r (k - num_chunks (ti_size t))
  end.

Lemma num_chunks_pos n : 0 < n <= u32_max -> 0 < num_chunks n.
Proof.
  intros Hn. pose proof CHUNK_SIZE_pos. rewrite num_chunks_spec by (unfold is_u32; lia).
  unfold div_ceil. apply Z.div_str_pos. lia.
Qed.

Lemma num_chunks_mono n m : 0 <= n <= m -> m <= u32_max -> num_chunks n <= num_chunks m.
Proof.
  intros Hn Hm. pose proof CHUNK_SIZE_pos.
  rewrite !num_chunks_spec by (unfold is_u32; lia).
  unfold div_ceil. apply Z.div_le_mono; lia.
Qed.

Lemma size_ok_chunks t : size_ok t -> 0 < num_chunks (ti_size t) <= num_chunks MaxTransactionSize.
Proof.
  intros Ht. unfold size_ok in Ht. pose proof MaxTransactionSize_range.
  split; [apply num_chunks_pos; lia|apply num_chunks_mono; lia].
Qed.

Lemma chunk_sum_app l k : chunk_sum (l ++ k) = chunk_sum l + chunk_sum k.
Proof. induction l as [|t l IH]; simpl; [done|rewrite IH; lia]. Qed.

Lemma chunk_sum_nonneg l : Forall size_ok l -> 0 <= chunk_sum l.
Proof.
  induction 1 as [|t l Ht Hl IH]; simpl; [done|]. pose proof (size_ok_chunks t Ht). lia.
Qed.

Lemma chunk_sum_take_le l i : Forall size_ok l -> chunk_sum (take i l) <= chunk_sum l.
Proof.
  intros Hl. rewrite <- (take_drop i l) at 2. rewrite chunk_sum_app.
  pose proof (chunk_sum_nonneg (drop i l) (Forall_drop _ i l Hl)). lia.
Qed.

Lemma chunk_sum_bound l :
  Forall size_ok l -> len l <= MaxBlockTransactions -> chunk_sum l <= u32_max.
Proof.
  intros Hl Hlen. assert (chunk_sum l <= len l * num_chunks MaxTransactionSize) as Hs.
  { clear Hlen. induction Hl as [|t l Ht Hl IH]; [done|].
    pose proof (size_ok_chunks t Ht). unfold len in *. simpl chunk_sum. cbn [length]. lia. }
  pose proof chunk_capacity. pose proof MaxTransactionSize_range.
  pose proof (num_chunks_pos MaxTransactionSize). pose proof (len_nonneg l). nia.
Qed.

(** With no saturation the cumulative counter is the running sum. *)
Lemma cumulative_lookup c l i t :
  cumulative c l = true -> Forall size_ok l -> 0 <= c -> c + chunk_sum l <= u32_max ->
  l !! i = Some t -> ti_block_chunks t = c + chunk_sum (take (S i) l).
Proof.
  revert c i. induction l as [|x l IH]; intros c i Hc Hl Hc0 Hb Hi; [done|].
  apply Forall_cons in Hl as [Hx Hl]. simpl in Hc, Hb.
  apply andb_true_iff in Hc as [Hc1 Hc2]. apply Z.eqb_eq in Hc1.
  pose proof (size_ok_chunks x Hx). pose proof (chunk_sum_nonneg l Hl).
  rewrite sat_add_small in * by lia.
  destruct i as [|i]; simpl in Hi |- *.
  - simplify_eq. lia.
  - rewrite (IH _ _ Hc2 Hl ltac:(lia) ltac:(lia) Hi). simpl. lia.
Qed.

Lemma wf_entries_block_chunks l i t :
  wf_entries l -> l !! i = Some t -> ti_block_chunks t = chunk_sum (take (S i) l).
Proof.
  intros (Hc & Hl & Hlen) Hi. pose proof (chunk_sum_bound l Hl Hlen).
  rewrite (cumulative_lookup 0 l i t); [lia|done|done|lia|lia|done].
Qed.

(** The counters stay in their type. *)
Lemma wf_entries_chunks_u32 l : wf_entries l -> Forall (fun t => is_u32 (ti_block_chunks t)) l.
Proof.
  intros Hwf. pose proof Hwf as (_ & Hs & Hl). apply Forall_lookup. intros i t Ht.
  rewrite (wf_entries_block_chunks l i t Hwf Ht). pose proof (chunk_sum_bound l Hs Hl).
  pose proof (chunk_sum_take_le l (S i) Hs). pose proof (chunk_sum_nonneg _ (Forall_take _ (S i) l Hs)).
  unfold is_u32. lia.
Qed.

Lemma take_S_lookup {A} (l : list A) i x : l !! i = Some x -> take (S i) l = take i l ++ [x].
Proof. apply take_S_r. Qed.

Lemma wf_entries_total l : wf_entries l -> total_chunks l = chunk_sum l.
Proof.
  intros Hwf. unfold total_chunks. destruct (last l) as [t|] eqn:E.
  - rewrite last_lookup in E. rewrite (wf_entries_block_chunks l _ t Hwf E).
    f_equal. apply take_ge. destruct l; simpl; lia.
  - apply last_None in E as ->. done.
Qed.

Lemma wf_entries_sorted l :
  wf_entries l -> strictly_sorted (fun info : TransactionInfoFor => sat_sub (ti_block_chunks info) 1) l.
Proof.
  intros Hwf i j x y Hij Hx Hy. pose proof Hwf as (_ & Hl & _).
  rewrite (wf_entries_block_chunks l i x Hwf Hx), (wf_entries_block_chunks l j y Hwf Hy).
  rewrite (take_S_lookup l i x Hx), (take_S_lookup l j y Hy), !chunk_sum_app. simpl.
  assert (chunk_sum (take (S i) l) <= chunk_sum (take j l)) as Hle.
  { replace (take (S i) l) with (take (S i) (take j l)) by (rewrite take_take; f_equal; lia).
    apply chunk_sum_take_le, Forall_take, Hl. }
  rewrite (take_S_lookup l i x Hx), chunk_sum_app in Hle. simpl in Hle.
  pose proof (size_ok_chunks x (Forall_lookup_1 _ _ _ _ Hl Hx)).
  pose proof (size_ok_chunks y (Forall_lookup_1 _ _ _ _ Hl Hy)).
  pose proof (chunk_sum_nonneg _ (Forall_take _ i l Hl)).
  unfold sat_sub. lia.
Qed.

Lemma chunk_owner_at l i t k :
  Forall size_ok l -> l !! i = Some t ->
  chunk_sum (take i l) <= k < chunk_sum (take (S i) l) ->
  chunk_owner l k = Some (t, k - chunk_sum (take i l)).
Proof.
  revert i k. induction l as [|x l IH]; intros i k Hl Hi Hk; [done|].
  apply Forall_cons in Hl as [Hx Hl]. pose proof (size_ok_chunks x Hx).
  destruct i as [|i]; simpl in Hi, Hk |- *.
  - simplify_eq.
    destruct (k <? _) eqn:E; b2p; [|lia]. do 2 f_equal. lia.
  - pose proof (chunk_sum_nonneg _ (Forall_take _ i l Hl)).
    destruct (k <? _) eqn:E; b2p; [lia|].
    rewrite (IH i) by (done || lia). do 2 f_equal. lia.
Qed.

(** The binary search over cumulative counts finds the owner of the chunk. *)
Lemma search_finds_owner l k :
  wf_entries l -> 0 <= k < chunk_sum l ->
  exists i t,
    either_index (binary_search_by_key l k
      (fun info => sat_sub (ti_block_chunks info) 1)) = i /\
    l !! i = Some t /\
    chunk_sum (take i l) <= k < chunk_sum (take (S i) l).
Proof.
  intros Hwf Hk. pose proof Hwf as (_ & Hl & _).
  destruct (binary_search_split l _ k (wf_entries_sorted l Hwf)) as (Hi & Hlt & Hge).
  set (i := either_index _) in *. clearbody i.
  assert (forall j y, l !! j = Some y ->
    sat_sub (ti_block_chunks y) 1 = chunk_sum (take (S j) l) - 1) as Hkey.
  { intros j y Hy. rewrite (wf_entries_block_chunks l j y Hwf Hy).
    rewrite (take_S_lookup l j y Hy), chunk_sum_app. simpl.
    pose proof (size_ok_chunks y (Forall_lookup_1 _ _ _ _ Hl Hy)).
    pose proof (chunk_sum_nonneg _ (Forall_take _ j l Hl)). unfold sat_sub. lia. }
  assert (chunk_sum (take i l) <= k) as Hlow.
  { destruct i as [|i]; [rewrite take_0; simpl; lia|].
    destruct (l !! i) as [y|] eqn:Hy; [|apply lookup_ge_None in Hy; lia].
    specialize (Hlt i y ltac:(lia) Hy). rewrite (Hkey i y Hy) in Hlt. lia. }
  destruct (l !! i) as [t|] eqn:Ht.
  - exists i, t. split_and!; [done|done|done|].
    specialize (Hge i t ltac:(lia) Ht). rewrite (Hkey i t Ht) in Hge. lia.
  - apply lookup_ge_None in Ht. rewrite take_ge in Hlow by lia. lia.
Qed.

Lemma verify_chunk_proof_owner proof h l :
  wf_entries l -> l <> [] ->
  exists t k,
    chunk_owner l (random_chunk h (chunk_sum l)) = Some (t, k) /\
    0 <= k < num_chunks (ti_size t) /\ t ∈ l /\
    verify_chunk_proof proof h l =
      (if blake2_256_verify_proof (ti_chunk_root t) (proof_proof proof)
            (encode_index k) (proof_chunk proof)
       then Ok tt else Err (StorageModule InvalidProof)).
Proof.
  intros Hwf Hne. pose proof Hwf as (_ & Hl & Hlen).
  assert (0 < chunk_sum l <= u32_max) as Hsum.
  { split; [|by apply chunk_sum_bound]. destruct l as [|x l]; [done|].
    apply Forall_cons in Hl as [Hx Hl]. simpl.
    pose proof (size_ok_chunks x Hx). pose proof (chunk_sum_nonneg l Hl). lia. }
  pose proof (random_chunk_range h (chunk_sum l) Hsum) as Hr.
  destruct (search_finds_owner l _ Hwf Hr) as (i & t & Hi & Ht & Hk).
  exists t, (random_chunk h (chunk_sum l) - chunk_sum (take i l)).
  pose proof Hk as Hk'. rewrite (take_S_lookup l i t Ht), chunk_sum_app in Hk'. simpl in Hk'.
  pose proof (chunk_sum_nonneg _ (Forall_take _ i l Hl)).
  split; [by apply chunk_owner_at|]. split; [lia|]. split; [by eapply list_elem_of_lookup_2|].
  unfold verify_chunk_proof. rewrite (wf_entries_total l Hwf).
  destruct (chunk_sum l =? 0) eqn:E; b2p; [lia|]. rewrite Hi, Ht.
  rewrite (wf_entries_block_chunks l i t Hwf Ht), (take_S_lookup l i t Ht), chunk_sum_app.
  simpl. pose proof (size_ok_chunks t (Forall_lookup_1 _ _ _ _ Hl Ht)).
  destruct (_ =? 0) eqn:E'; b2p; [lia|].
  unfold checked_sub.
  destruct (_ <=? chunk_sum (take i l) + _) eqn:E1; b2p; [|lia].
  destruct (_ <=? random_chunk _ _) eqn:E2; b2p; [|lia].
  replace (random_chunk h (chunk_sum l) - _) with
    (random_chunk h (chunk_sum l) - chunk_sum (take i l)) by lia. done.
Qed.
End ChunkFacts.
