(* ===== verification/Retention.v ===== *)
(** The retention invariant of the storage pallet: sealed entries are well formed
    and inside the retention window, and the content-hash index names exactly the
    entries that are retained.  Every operation of [Blocks.v] preserves it. *)

From S2P Require Import Prelude Slice Primitives Types State Authorizations Blocks.

(** An entry is retained at block [b], position [i]: sealed under [b], or still in
    the accumulator of the current block. *)
Definition entry_at (s : State) (b : BlockNumber) (i : nat) (info : TransactionInfoFor) : Prop :=
  (exists txs, Transactions (ts s) !! b = Some (LayoutCurrent txs) /\ txs !! i = Some info) \/
  (b = now s /\ BlockTransactions (ts s) !! i = Some info).

(** The numbers of an entry nothing else bounds are of their types: the [u32] extrinsic
    index and the [u64] codec. *)
Definition entry_typed (t : TransactionInfoFor) : Prop :=
  is_u32 (ti_extrinsic_index t) /\ is_u64 (ti_cid_codec t).

(** So are the single values: the [u32] index of the extrinsic, the [u64] time, and the
    [u128] fees. *)
Definition scalars_typed (s : State) : Prop :=
  (forall x, extrinsic_index (sys s) = Some x -> is_u32 x) /\ is_u64 (timestamp_now (sys s)) /\
  (forall x, ByteFee (ts s) = Some x -> is_u128 x) /\ (forall x, EntryFee (ts s) = Some x -> is_u128 x).

Section Invariant.
Context `{Host} `{Config}.

Record BlockInv (s : State) : Prop := {
  bi_now : is_u32 (now s);
  bi_period : 0 < RetentionPeriod (ts s) <= u32_max;
  bi_block : wf_entries (BlockTransactions (ts s));
  bi_sealed : forall b v, Transactions (ts s) !! b = Some v ->
    0 < b <= now s /\ exists txs, v = LayoutCurrent txs /\ txs <> [] /\ wf_entries txs;
  bi_index : forall h b i, TransactionByContentHash (ts s) !! h = Some (b, i) ->
    0 <= i /\ exists info, entry_at s b (Z.to_nat i) info /\ ti_content_hash info = h;
  bi_complete : forall b i info, entry_at s b i info ->
    exists b' i', TransactionByContentHash (ts s) !! ti_content_hash info = Some (b', i')
                  /\ b <= b';
  bi_scalars : scalars_typed s;
  bi_typed_block : Forall entry_typed (BlockTransactions (ts s));
  bi_typed : forall b txs, Transactions (ts s) !! b = Some (LayoutCurrent txs) -> Forall entry_typed txs }.

(** No sealed block is older than [w - RetentionPeriod]. *)
Definition window_from (w : BlockNumber) (s : State) : Prop :=
  forall b v, Transactions (ts s) !! b = Some v -> w <= b + RetentionPeriod (ts s).

(** The current block is not sealed yet. *)
Definition unsealed (s : State) : Prop := Transactions (ts s) !! now s = None.

(** The phases of the block cycle. *)
Definition InBlock (s : State) : Prop := BlockInv s /\ window_from (now s) s /\ unsealed s.
Definition Sealed (s : State) : Prop :=
  BlockInv s /\ window_from (now s) s /\ BlockTransactions (ts s) = [].

(** The invariant reads only these items. *)
Lemma BlockInv_ext s s' :
  now s' = now s ->
  Transactions (ts s') = Transactions (ts s) ->
  RetentionPeriod (ts s') = RetentionPeriod (ts s) ->
  BlockTransactions (ts s') = BlockTransactions (ts s) ->
  TransactionByContentHash (ts s') = TransactionByContentHash (ts s) ->
  (scalars_typed s -> scalars_typed s') ->
  BlockInv s -> BlockInv s'.
Proof.
  intros En E2 E3 E4 E5 Es [I1 I2 I3 I4 I5 I6 I7 I8 I9].
  assert (forall b i info, entry_at s' b i info <-> entry_at s b i info) as Ee.
  { intros b i info. unfold entry_at. by rewrite E2, E4, En. }
  constructor; rewrite ?E2, ?E3, ?E4, ?E5, ?En; try done; [| |by apply Es].
  - intros h b i Hi. destruct (I5 h b i Hi) as (? & info & ? & ?). split; [done|].
    exists info. by rewrite Ee.
  - intros b i info. rewrite Ee. apply I6.
Qed.

Lemma InBlock_ext s s' :
  now s' = now s ->
  Transactions (ts s') = Transactions (ts s) ->
  RetentionPeriod (ts s') = RetentionPeriod (ts s) ->
  BlockTransactions (ts s') = BlockTransactions (ts s) ->
  TransactionByContentHash (ts s') = TransactionByContentHash (ts s) ->
  (scalars_typed s -> scalars_typed s') ->
  InBlock s -> InBlock s'.
Proof.
  intros E1 E2 E3 E4 E5 Es (I & W & U). split; [by apply (BlockInv_ext s)|].
  unfold window_from, unsealed in *. by rewrite E1, E2, E3.
Qed.
End Invariant.

Section Facts.
Context `{HostLaws} `{!Config} `{!ConfigLaws} `{!ChunkCapacity}.

(** ** The accumulator *)

Lemma cumulative_snoc c l t :
  cumulative c (l ++ [t]) =
  cumulative c l &&
  (ti_block_chunks t =? sat_add_u32 (foldl (fun c tx => sat_add_u32 c (num_chunks (ti_size tx))) c l)
                          (num_chunks (ti_size t))).
Proof.
  revert c. induction l as [|x l IH]; intros c; simpl.
  - by rewrite andb_true_r.
  - by rewrite IH, andb_assoc.
Qed.

Lemma cumulative_total_chunks c l :
  cumulative c l = true -> l <> [] ->
  total_chunks l = foldl (fun c tx => sat_add_u32 c (num_chunks (ti_size tx))) c l.
Proof.
  revert c. induction l as [|x l IH]; intros c Hc Hne; [done|].
  simpl in Hc. apply andb_true_iff in Hc as [Hx Hc]. apply Z.eqb_eq in Hx.
  destruct l as [|y l]; [done|].
  change (total_chunks (x :: y :: l)) with (total_chunks (y :: l)). by rewrite (IH _ Hc).
Qed.

Lemma total_chunks_foldl l :
  cumulative 0 l = true -> total_chunks l = cumulative_total l.
Proof. intros Hc. destruct l as [|x l]; [done|]. by apply cumulative_total_chunks. Qed.

(** The entry [push] appends. *)
Definition pushed (entry : TransactionInfoFor) (entries : list TransactionInfoFor) :=
  with_block_chunks (sat_add_u32 (total_chunks entries) (num_chunks (ti_size entry))) entry.

Lemma wf_entries_push entries entry :
  wf_entries entries -> size_ok entry -> len entries < MaxBlockTransactions ->
  wf_entries (entries ++ [pushed entry entries]).
Proof.
  intros (Hc & Hs & Hl) Hsz Hlen. split_and!.
  - rewrite cumulative_snoc, Hc. simpl. rewrite (total_chunks_foldl entries Hc).
    unfold cumulative_total. apply Z.eqb_refl.
  - apply Forall_app_2; [done|]. by apply Forall_singleton.
  - rewrite len_app. unfold len in *. simpl. lia.
Qed.

Lemma wf_entries_len_u32 l : wf_entries l -> as_u32 (len l) = len l.
Proof.
  intros (_ & _ & Hl). apply as_u32_small. pose proof MaxBlockTransactions_range.
  pose proof (len_nonneg l). unfold is_u32. lia.
Qed.

Lemma push_cases entry entries s :
  (MaxBlockTransactions <= len entries /\ push entry entries s = (None, entries, s)) \/
  (len entries < MaxBlockTransactions /\
   push entry entries s =
     (Some (as_u32 (len entries)), entries ++ [pushed entry entries],
      upd_TransactionByContentHash <[ti_content_hash entry := (now s, as_u32 (len entries))]> s)).
Proof.
  unfold push. destruct (try_push _ entries _) as [es|] eqn:E.
  - apply try_push_Some in E as [? ->]. by right.
  - apply try_push_None in E. by left.
Qed.

(** Appending an entry to the accumulator and pointing the index at it. *)
Lemma InBlock_push s entry :
  InBlock s -> size_ok entry -> entry_typed entry ->
  len (BlockTransactions (ts s)) < MaxBlockTransactions ->
  let entries := BlockTransactions (ts s) in
  InBlock (upd_BlockTransactions (fun _ => entries ++ [pushed entry entries])
    (upd_TransactionByContentHash
       <[ti_content_hash entry := (now s, as_u32 (len entries))]> s)).
Proof.
  intros (I & W & U) Hsz Hty Hlen entries. destruct I as [I1 I2 I3 I4 I5 I6 I7 I8 I9].
  split; [|done]. constructor; simpl; try done.
  - by apply wf_entries_push.
  - intros h b i Hi. apply lookup_insert_Some in Hi as [[<- [= <- <-]]|[Hne Hi]].
    + rewrite (wf_entries_len_u32 entries I3). split; [apply len_nonneg|].
      exists (pushed entry entries). split; [|done]. right. split; [done|]. simpl.
      unfold len. rewrite Nat2Z.id. apply list_lookup_middle. done.
    + destruct (I5 h b i Hi) as (Hi0 & info & He & Hh). split; [done|].
      exists info. split; [|done]. destruct He as [He|[-> He]]; [by left|right].
      split; [done|]. simpl. by apply lookup_app_l_Some.
  - intros b i info [He|[-> He]].
    + destruct (I6 b i info ltac:(by left)) as (b' & i' & Hb' & Hle).
      destruct (decide (ti_content_hash entry = ti_content_hash info)) as [Heq|Hne].
      * exists (now s), (as_u32 (len entries)). rewrite Heq, lookup_insert_eq. split; [done|].
        destruct He as (txs & Ht & _). simpl in Ht. destruct (I4 b _ Ht) as [? _]. lia.
      * exists b', i'. by rewrite lookup_insert_ne.
    + simpl in He. destruct (decide (ti_content_hash entry = ti_content_hash info)) as [Heq|Hne].
      * exists (now s), (as_u32 (len entries)). rewrite Heq, lookup_insert_eq. done.
      * apply lookup_app_Some in He as [He|[_ He]].
        -- destruct (I6 (now s) i info ltac:(by right)) as (b' & i' & Hb' & Hle).
           exists b', i'. by rewrite lookup_insert_ne.
        -- apply list_lookup_singleton_Some in He as [_ <-]. done.
  - apply Forall_app_2; [done|]. by apply Forall_singleton.
Qed.

Lemma with_entries_store_inv s entry r s' :
  InBlock s -> size_ok entry -> entry_typed entry ->
  with_block_transactions (entries_store entry) s = (r, s') -> InBlock s'.
Proof.
  intros I Hsz Hty. unfold with_block_transactions, entries_store.
  destruct (push_cases entry (BlockTransactions (ts s)) s) as [[Hl ->]|[Hl ->]]; intros [= <- <-].
  - by apply (InBlock_ext s).
  - eapply InBlock_ext; [..|by apply (InBlock_push s entry)]; done.
Qed.

(** ** [do_store] *)

(** The entry [do_store] writes, before its cumulative count is set. *)
Definition store_entry (x : Z) (data : bytes) (hashing : HashingAlgorithm) (codec : CidCodec)
    : TransactionInfoFor :=
  mkInfo (blake2_256_ordered_root (chunks (Z.to_nat CHUNK_SIZE) data)) (hash hashing data)
    hashing codec (as_u32 (len data)) x 0 EntryKind_default.

(** The state a successful [do_store] leaves. *)
Definition stored (x : Z) (data : bytes) (hashing : HashingAlgorithm) (codec : CidCodec)
    (s : State) : State :=
  let entries := BlockTransactions (ts s) in
  let h := hash hashing data in
  let i := as_u32 (len entries) in
  deposit_storage_event (Stored i h (to_bytes (mkCidData h hashing codec)))
    (upd_BlockTransactions (fun _ => entries ++ [pushed (store_entry x data hashing codec) entries])
       (host_call (HostIndex x (as_u32 (len data)) h)
          (upd_TransactionByContentHash <[h := (now s, i)]> s))).

Lemma upd_BlockTransactions_id s : upd_BlockTransactions (fun _ => BlockTransactions (ts s)) s = s.
Proof. by destruct s as [? [] ? ? ? ?]. Qed.

(** The whole of [do_store] as one equation. *)
Lemma do_store_eq data hashing codec s :
  do_store data hashing codec s =
  if negb (data_size_ok (as_u32 (len data))) then (Err (StorageModule BadDataSize), s)
  else
    match extrinsic_index (sys s) with
    | None => (Err (StorageModule BadContext), s)
    | Some x =>
        if len (BlockTransactions (ts s)) <? MaxBlockTransactions
        then (Ok tt, stored x data hashing codec s)
        else (Err (StorageModule TooManyTransactions), s)
    end.
Proof.
  unfold do_store, ensure_data_size_ok. unfold_M.
  destruct (data_size_ok (as_u32 (len data))); simpl; [|done].
  rewrite calculate_cid_total. simpl.
  destruct (extrinsic_index (sys s)) as [x|]; simpl; [|done].
  unfold with_block_transactions, entries_store.
  match goal with |- context [push ?e ?es s] =>
    destruct (push_cases e es s) as [[Hl ->]|[Hl ->]] end;
    destruct (len (BlockTransactions (ts s)) <? MaxBlockTransactions) eqn:E; b2p; try lia; simpl.
  - by rewrite upd_BlockTransactions_id.
  - done.
Qed.

Lemma data_size_ok_size size : data_size_ok size = true <-> 0 < size <= MaxTransactionSize.
Proof.
  unfold data_size_ok. rewrite andb_true_iff, Z.ltb_lt, Z.leb_le. done.
Qed.

Lemma do_store_inv data hashing codec s :
  is_u64 codec -> InBlock s -> InBlock (do_store data hashing codec s).2.
Proof.
  intros Hc I. rewrite do_store_eq. destruct (data_size_ok _) eqn:Es; simpl; [|done].
  destruct (extrinsic_index (sys s)) as [x|] eqn:Ex; [|done].
  destruct (_ <? _) eqn:El; b2p; simpl; [|done].
  assert (size_ok (store_entry x data hashing codec)) as Hsz by by apply data_size_ok_size.
  assert (entry_typed (store_entry x data hashing codec)) as Hty
    by (split; [by apply (proj1 (bi_scalars s (proj1 I)))|done]).
  by eapply InBlock_ext; [..|exact (InBlock_push s _ I Hsz Hty El)].
Qed.

(** The state [entries_renew] leaves, up to the host log. *)
Lemma entries_renew_cases info x m entries s :
  (MaxBlockTransactions <= len entries /\
   entries_renew info x m entries s = (None, entries, s)) \/
  (len entries < MaxBlockTransactions /\
   exists e, e = mkInfo (ti_chunk_root info) (ti_content_hash info) (ti_hashing info)
       (ti_cid_codec info) (ti_size info) x (ti_block_chunks info) m /\
   entries_renew info x m entries s =
     (Some (as_u32 (len entries)), entries ++ [pushed e entries],
      host_call (HostRenew x (ti_content_hash info))
        (upd_TransactionByContentHash
           <[ti_content_hash info := (now s, as_u32 (len entries))]> s))).
Proof.
  unfold entries_renew.
  destruct (push_cases (mkInfo (ti_chunk_root info) (ti_content_hash info) (ti_hashing info)
    (ti_cid_codec info) (ti_size info) x (ti_block_chunks info) m) entries s)
    as [[Hl ->]|[Hl ->]]; [by left|right].
  split; [done|]. by eexists.
Qed.

(** ** Sealing *)

Lemma total_chunks_zero l : wf_entries l -> (total_chunks l =? 0) = true -> l = [].
Proof.
  intros Hwf Ht. apply Z.eqb_eq in Ht. rewrite (wf_entries_total l Hwf) in Ht.
  destruct l as [|x l]; [done|]. destruct Hwf as (_ & Hs & _).
  apply Forall_cons in Hs as [Hx Hs]. pose proof (size_ok_chunks x Hx).
  pose proof (chunk_sum_nonneg l Hs). simpl in Ht. lia.
Qed.

Lemma seal_block_inv s :
  InBlock s -> 0 < now s -> Sealed (seal_block (now s) s).
Proof.
  intros (I & W & U) Hn. pose proof I as [I1 I2 I3 I4 I5 I6 I7 I8 I9]. unfold seal_block.
  destruct (total_chunks (BlockTransactions (ts s)) =? 0) eqn:E; simpl.
  - pose proof (total_chunks_zero _ I3 E) as Hnil.
    split; [|split; [done|done]]. apply (BlockInv_ext s); try done.
  - set (entries := BlockTransactions (ts s)) in *.
    assert (forall b i info, entry_at (upd_Transactions <[now s := LayoutCurrent entries]>
      (upd_BlockTransactions (fun _ => []) s)) b i info <-> entry_at s b i info) as Ee.
    { intros b i info. unfold entry_at. simpl. split.
      - intros [(txs & Ht & Hi)|[_ Hi]]; [|done].
        apply lookup_insert_Some in Ht as [[<- [= <-]]|[_ Ht]]; [by right|left; eauto].
      - intros [(txs & Ht & Hi)|[-> Hi]]; left.
        + exists txs. rewrite lookup_insert_ne; [done|]. intros <-. unfold unsealed in U.
          by rewrite U in Ht.
        + exists entries. by rewrite lookup_insert_eq. }
    split; [|split; [|done]].
    + constructor; simpl; try done.
      * split_and!; [done|constructor|]. pose proof MaxBlockTransactions_range. unfold len; simpl; lia.
      * intros b v Hb. apply lookup_insert_Some in Hb as [[<- <-]|[_ Hb]]; [|by apply I4].
        split; [unfold now in *; simpl; lia|]. exists entries. split_and!; [done| |done].
        intros Hnil. rewrite Hnil in E. done.
      * intros h b i Hi. destruct (I5 h b i Hi) as (? & info & He & ?). split; [done|].
        exists info. by rewrite Ee.
      * intros b i info He. apply Ee in He. by apply I6 in He.
      * intros b txs Hb. apply lookup_insert_Some in Hb as [[_ [= <-]]|[_ Hb]]; [done|by eapply I9].
    + intros b v Hb. simpl in *. apply lookup_insert_Some in Hb as [[<- _]|[_ Hb]].
      * change (now _) with (now s). lia.
      * by apply (W b v).
Qed.

(** ** The sweep *)

Lemma sweep_one_state o pairs s tx :
  exists m, (sweep_one o (pairs, s) tx).2 = upd_TransactionByContentHash (fun _ => m) s /\
  forall h, m !! h =
    match TransactionByContentHash (ts s) !! h with
    | Some (b, i) =>
        if (b =? o) && bool_decide (h = ti_content_hash tx) then None else Some (b, i)
    | None => None
    end.
Proof.
  unfold sweep_one. simpl.
  destruct (TransactionByContentHash (ts s) !! ti_content_hash tx) as [[b i]|] eqn:E.
  2: { exists (TransactionByContentHash (ts s)). split; [by destruct s as [? [] ? ? ? ?]|].
       intros h. destruct (_ !! h) as [[b i]|] eqn:E'; [|done].
       rewrite bool_decide_eq_false_2 by congruence. by rewrite andb_false_r. }
  destruct (b =? o) eqn:Eb.
  - exists (delete (ti_content_hash tx) (TransactionByContentHash (ts s))). split; [done|].
    intros h. destruct (decide (h = ti_content_hash tx)) as [->|Hne].
    + rewrite lookup_delete_eq, E, Eb. by rewrite bool_decide_eq_true_2.
    + rewrite lookup_delete_ne by congruence. rewrite bool_decide_eq_false_2 by done.
      destruct (_ !! h) as [[b' i']|]; [by rewrite andb_false_r|done].
  - exists (TransactionByContentHash (ts s)). split; [by destruct s as [? [] ? ? ? ?]|].
    intros h. destruct (_ !! h) as [[b' i']|] eqn:E'; [|done].
    destruct (decide (h = ti_content_hash tx)) as [->|Hne].
    + rewrite E in E'. injection E' as <- <-. by rewrite Eb.
    + rewrite bool_decide_eq_false_2 by done. by rewrite andb_false_r.
Qed.

(** After the sweep the index has lost exactly the swept hashes that still pointed
    at the obsolete block; nothing else of the state changed. *)
Lemma sweep_state o txs s :
  exists m, (sweep o txs s).2 = upd_TransactionByContentHash (fun _ => m) s /\
  forall h, m !! h =
    match TransactionByContentHash (ts s) !! h with
    | Some (b, i) =>
        if (b =? o) && bool_decide (h ∈ map ti_content_hash txs) then None else Some (b, i)
    | None => None
    end.
Proof.
  unfold sweep. generalize (@nil (TransactionInfoFor * bool)) as pairs. revert s.
  induction txs as [|tx txs IH]; intros s pairs; [simpl|cbn [foldl]].
  - exists (TransactionByContentHash (ts s)). split; [by destruct s as [? [] ? ? ? ?]|].
    intros h. destruct (_ !! h) as [[b i]|]; [|done].
    by rewrite andb_false_r.
  - destruct (sweep_one_state o pairs s tx) as (m1 & Hs1 & Hm1).
    destruct (sweep_one o (pairs, s) tx) as [pairs1 s1]. simpl in Hs1. subst s1.
    destruct (IH (upd_TransactionByContentHash (fun _ => m1) s) pairs1) as (m2 & Hs2 & Hm2).
    exists m2. split; [exact Hs2|]. intros h. rewrite Hm2. simpl. rewrite Hm1.
    destruct (TransactionByContentHash (ts s) !! h) as [[b i]|]; [|done].
    destruct (b =? o) eqn:Eb; simpl; [|by rewrite Eb].
    destruct (bool_decide (h = ti_content_hash tx)) eqn:Eh; b2p.
    + subst h. rewrite bool_decide_eq_true_2; [done|]. constructor.
    + rewrite Eb, Z.eqb_refl. simpl.
      destruct (decide (h ∈ map ti_content_hash txs)).
      * by rewrite !bool_decide_eq_true_2 by (by rewrite ?elem_of_cons; auto).
      * rewrite !bool_decide_eq_false_2; [done|by intros [|]%elem_of_cons|done].
Qed.

Lemma latest_snoc (pairs : list (TransactionInfoFor * bool)) tx latest h :
  (exists info, (info, true) ∈ pairs ++ [(tx, latest)] /\ ti_content_hash info = h) <->
  (exists info, (info, true) ∈ pairs /\ ti_content_hash info = h) \/
  (latest = true /\ ti_content_hash tx = h).
Proof.
  setoid_rewrite elem_of_app. setoid_rewrite list_elem_of_singleton. split.
  - intros (info & [Hin|[= -> <-]] & Hh); [left; eauto|by right].
  - intros [(info & Hin & Hh)|[-> Hh]]; [by exists info; auto|by exists tx; auto].
Qed.

(** The pairs the sweep reports: every entry once, in order; a hash is reported as
    latest exactly when the index still pointed at the obsolete block. *)
Lemma sweep_pairs_gen o txs pairs s :
  len pairs + len txs <= MaxBlockTransactions ->
  let pairs' := (foldl (sweep_one o) (pairs, s) txs).1 in
  map fst pairs' = map fst pairs ++ txs /\
  forall h,
    (exists info, (info, true) ∈ pairs' /\ ti_content_hash info = h) <->
    (exists info, (info, true) ∈ pairs /\ ti_content_hash info = h) \/
    (h ∈ map ti_content_hash txs /\
     exists i, TransactionByContentHash (ts s) !! h = Some (o, i)).
Proof.
  revert pairs s. induction txs as [|tx txs IH]; intros pairs s Hl; cbn [foldl].
  - simpl. split; [by rewrite app_nil_r|]. intros h. split; [auto|].
    intros [?|[Hin _]]; [done|]. by apply not_elem_of_nil in Hin.
  - assert (len (tx :: txs) = 1 + len txs) as Hc by (unfold len; simpl; lia).
    pose proof (len_nonneg txs).
    destruct (sweep_one_state o pairs s tx) as (m & Hs & Hm).
    set (latest := match TransactionByContentHash (ts s) !! ti_content_hash tx with
                   | Some (block, _) => block =? o | None => false end).
    assert (exists s1, sweep_one o (pairs, s) tx = (pairs ++ [(tx, latest)], s1)) as [s1 E1].
    { unfold sweep_one. fold latest.
      assert (try_push MaxBlockTransactions pairs (tx, latest) = Some (pairs ++ [(tx, latest)])) as ->
        by (apply try_push_Some; split; [lia|done]). by eexists. }
    rewrite E1 in Hs |- *. simpl in Hs. subst s1.
    destruct (IH (pairs ++ [(tx, latest)]) (upd_TransactionByContentHash (fun _ => m) s)) as [Hf Hi].
    { rewrite len_app. unfold len in *. simpl. lia. }
    split; [rewrite Hf, map_app; simpl; by rewrite <- app_assoc|].
    intros h. rewrite Hi, latest_snoc. simpl. rewrite Hm, elem_of_cons. clear.
    unfold latest. destruct (decide (h = ti_content_hash tx)) as [->|Hne].
    + destruct (TransactionByContentHash (ts s) !! ti_content_hash tx) as [[b i]|];
        [|split; [intros [[?|[? _]]|[_ [? ?]]]|intros [?|[_ [? ?]]]]; tauto || done].
      rewrite bool_decide_eq_true_2, andb_true_r by done.
      destruct (b =? o) eqn:Eb; b2p; [subst b|].
      * split; [intros [[?|_]|[_ [? ?]]]; [tauto|right; eauto|done]|].
        intros [?|_]; [tauto|left; right; done].
      * split; [|intros [?|[_ [j [= ? _]]]]; [tauto|done]].
        intros [[?|[? _]]|[_ [j [= ? _]]]]; [tauto|done|done].
    + rewrite bool_decide_eq_false_2 by done.
      destruct (TransactionByContentHash (ts s) !! h) as [[b i]|]; rewrite ?andb_false_r;
        (split; [intros [[?|[_ ?]]|[? ?]]; [tauto|congruence|tauto]
                |intros [?|[[?|?] ?]]; [tauto|done|tauto]]).
Qed.

Lemma sweep_pairs o txs s :
  len txs <= MaxBlockTransactions ->
  map fst (sweep o txs s).1 = txs /\
  forall h,
    (exists info, (info, true) ∈ (sweep o txs s).1 /\ ti_content_hash info = h) <->
    (h ∈ map ti_content_hash txs /\
     exists i, TransactionByContentHash (ts s) !! h = Some (o, i)).
Proof.
  intros Hl. destruct (sweep_pairs_gen o txs [] s) as [Hf Hi]; [unfold len in *; simpl; lia|].
  split; [exact Hf|]. intros h. unfold sweep. rewrite Hi. split; [|auto].
  intros [(info & Hin & _)|?]; [by apply not_elem_of_nil in Hin|done].
Qed.

(** Dropping the obsolete block [o] and the index entries that point at it. *)
Lemma BlockInv_drop_obsolete s txs m o :
  BlockInv s -> o < now s ->
  Transactions (ts s) !! o = Some (LayoutCurrent txs) ->
  (forall h, m !! h =
    match TransactionByContentHash (ts s) !! h with
    | Some (b, i) =>
        if (b =? o) && bool_decide (h ∈ map ti_content_hash txs) then None else Some (b, i)
    | None => None
    end) ->
  (forall b v, Transactions (ts s) !! b = Some v -> o <= b) ->
  BlockInv (upd_TransactionByContentHash (fun _ => m) (upd_Transactions (delete o) s)).
Proof.
  intros [I1 I2 I3 I4 I5 I6 I7 I8 I9] Ho Htx Hm Hold. constructor; simpl; try done.
  - intros b v Hb. apply lookup_delete_Some in Hb as [_ Hb]. by apply I4.
  - intros h b i Hi. rewrite Hm in Hi.
    destruct (TransactionByContentHash (ts s) !! h) as [[b0 i0]|] eqn:E; [|done].
    destruct (I5 h b0 i0 E) as (Hi0 & info & He & Hh).
    destruct (b0 =? o) eqn:Eb; b2p; simpl in Hi.
    + subst b0. destruct He as [(txs' & Ht & Hin)|[-> _]]; [|lia].
      rewrite Htx in Ht. injection Ht as <-.
      rewrite bool_decide_eq_true_2 in Hi; [done|].
      apply list_elem_of_In. subst h. apply in_map, list_elem_of_In.
      by eapply list_elem_of_lookup_2.
    + injection Hi as <- <-. split; [done|]. exists info. split; [|done].
      destruct He as [(txs' & Ht & Hin)|He]; [left|by right].
      exists txs'. simpl. by rewrite lookup_delete_ne by done.
  - intros b i info He.
    assert (entry_at s b i info /\ b <> o) as [He' Hne].
    { destruct He as [(txs' & Ht & Hin)|[-> Hin]].
      - simpl in Ht. apply lookup_delete_Some in Ht as [? Ht]. split; [left; eauto|done].
      - split; [by right|]. change (now _) with (now s). lia. }
    destruct (I6 b i info He') as (b' & i' & Hb' & Hle).
    assert (o <= b).
    { destruct He' as [(txs' & Ht & _)|[-> _]]; [by eapply Hold|lia]. }
    exists b', i'. rewrite Hm, Hb'. destruct (b' =? o) eqn:Eb; b2p; [lia|done].
  - intros b l Hb. apply lookup_delete_Some in Hb as [_ Hb]. by eapply I9.
Qed.

(** ** [on_initialize] *)

Context `{!OnObsoleteTransactions} `{!OnObsoleteFrame}.

Lemma BlockInv_handle n items s : BlockInv s -> BlockInv (handle_obsolete n items s).
Proof.
  apply BlockInv_ext; unfold now, scalars_typed; rewrite ?handle_obsolete_sys, ?handle_obsolete_ts; done.
Qed.

(** At the start of block [now s] the window is one block too wide and
    [on_initialize] closes it. *)
Lemma on_initialize_inv s :
  BlockInv s -> window_from (now s - 1) s -> unsealed s ->
  InBlock (on_initialize (now s) s).
Proof.
  intros I W U. unfold on_initialize, retention_period.
  pose proof I as [I1 I2 I3 I4 _ _ _ _ _].
  set (o := sat_sub (now s) (sat_add_u32 (RetentionPeriod (ts s)) 1)).
  assert (window_from (now s) s \/ (0 < o /\ o = now s - (RetentionPeriod (ts s) + 1))) as Hcase.
  { unfold o, sat_sub, sat_add, is_u32 in *.
    destruct (decide (now s <= RetentionPeriod (ts s) + 1)).
    - left. intros b v Hb. destruct (I4 b v Hb) as [? _]. lia.
    - right. destruct (decide (RetentionPeriod (ts s) = u32_max)); lia. }
  destruct (0 <? o) eqn:Eo; b2p.
  2: { destruct Hcase as [?|[? _]]; [done|lia]. }
  assert (o < now s) as Ho by (unfold o, sat_sub, sat_add, is_u32 in *; lia).
  unfold Transactions_take, Transactions_get.
  destruct (Transactions (ts s) !! o) as [v|] eqn:Ev.
  2: { split; [done|split; [|done]]. intros b v Hb. destruct Hcase as [Hw|[_ Heq]].
       - by apply (Hw b v).
       - specialize (W b v Hb). destruct (decide (b = o)) as [->|]; [congruence|lia]. }
  destruct (I4 o v Ev) as (_ & txs & -> & _ & _). simpl.
  destruct (sweep_state o txs (upd_Transactions (delete o) s)) as (m & Hs & Hm).
  destruct (sweep o txs (upd_Transactions (delete o) s)) as [pairs s2]. simpl in Hs. subst s2.
  assert (forall b v, Transactions (ts s) !! b = Some v -> o <= b) as Hold.
  { intros b v Hb. specialize (W b v Hb). destruct (I4 b v Hb) as [? _].
    unfold o, sat_sub, sat_add, is_u32 in *. lia. }
  assert (BlockInv (upd_TransactionByContentHash (fun _ => m) (upd_Transactions (delete o) s)))
    as Inew.
  { by eapply BlockInv_drop_obsolete. }
  split; [by apply BlockInv_handle|]. split.
  - intros b v. unfold now. rewrite handle_obsolete_ts, handle_obsolete_sys. simpl. intros Hb.
    apply lookup_delete_Some in Hb as [Hne Hb]. specialize (W b v Hb). specialize (Hold b v Hb).
    change (block_number (sys s)) with (now s). destruct Hcase as [Hw|[_ Heq]]; [by apply (Hw b v)|lia].
  - unfold unsealed, now. rewrite handle_obsolete_ts, handle_obsolete_sys. simpl.
    apply lookup_delete_None. by right.
Qed.
End Facts.
