(* ===== verification/Checks.v ===== *)
(** Transaction validation of the storage pallet
    ([pallets/transaction-storage/src/lib.rs]): the call enum, dispatch, and the
    signed and unsigned checks of pool validation and pre-dispatch. *)

From S2P Require Import Prelude Slice Primitives Types State Authorizations Blocks.

(** [pallet::Call]. *)
Inductive StorageCall :=
| CallStore (data : bytes)
| CallStoreWithCidConfig (cid : CidConfig) (data : bytes)
| CallAuthorizeAccount (who : AccountId) (transactions bytes : Z)
| CallAuthorizePreimage (content_hash : ContentHash) (max_size : Z)
| CallRemoveExpiredAccountAuthorization (who : AccountId)
| CallRemoveExpiredPreimageAuthorization (content_hash : ContentHash)
| CallRefreshAccountAuthorization (who : AccountId)
| CallRefreshPreimageAuthorization (content_hash : ContentHash)
| CallApplyBlockInherents (proof : option TransactionStorageProof)
| CallAddAuthorizer (who : AccountId) (budget : AuthorizerBudget)
| CallRemoveAuthorizer (who : AccountId)
| CallRemoveExhaustedAuthorizer (who : AccountId).

Section Checks.
Context `{Host} `{Config}.

(** The dispatch the [#[pallet::call]] macro derives from the dispatchables. *)
Definition dispatch_storage (o : RuntimeOrigin) (c : StorageCall) : MD unit :=
  match c with
  | CallStore data => store o data
  | CallStoreWithCidConfig cid data => store_with_cid_config o cid data
  | CallAuthorizeAccount who t b => authorize_account o who t b
  | CallAuthorizePreimage h m => authorize_preimage o h m
  | CallRemoveExpiredAccountAuthorization who => remove_expired_account_authorization who
  | CallRemoveExpiredPreimageAuthorization h => remove_expired_preimage_authorization h
  | CallRefreshAccountAuthorization who => refresh_account_authorization o who
  | CallRefreshPreimageAuthorization h => refresh_preimage_authorization o h
  | CallApplyBlockInherents p => apply_block_inherents o p
  | CallAddAuthorizer who b => add_authorizer o who b
  | CallRemoveAuthorizer who => remove_authorizer o who
  | CallRemoveExhaustedAuthorizer who => remove_exhausted_authorizer who
  end.

(** [ProvideInherent::{create_inherent, is_inherent}]. *)
Definition create_inherent (data : option TransactionStorageProof) : option StorageCall :=
  match data with
  | Some proof => Some (CallApplyBlockInherents (Some proof))
  | None => None
  end.

Definition is_inherent (c : StorageCall) : bool :=
  match c with CallApplyBlockInherents _ => true | _ => false end.

(** [context.want_valid_transaction().then(|| vt)]. *)
Definition valid_if (context : CheckContext) (vt : ValidTransaction) : option ValidTransaction :=
  if want_valid_transaction context then Some vt else None.

(** ** Unsigned transactions *)

(** [Pallet::check_store_unsigned]. *)
Definition check_store_unsigned (size : Z) (content_hash : ContentHash) (context : CheckContext)
    : MV (option ValidTransaction) :=
  do! ensure (data_size_ok size) BAD_DATA_SIZE in
  let! full := gets block_transactions_full in
  do! ensure (negb full) ExhaustsResources in
  do! check_authorization (Preimage content_hash) (as_u32 size) (consume_authorization context) in
  ret (valid_if context (provides StoreTxParams content_hash)).

(** [Pallet::check_unsigned]. *)
Definition check_unsigned (c : StorageCall) (context : CheckContext)
    : MV (option ValidTransaction) :=
  match c with
  | CallStore data => check_store_unsigned (len data) (blake2_256 data) context
  | CallStoreWithCidConfig cid data =>
      check_store_unsigned (len data) (hash (cc_hashing cid) data) context
  | CallRemoveExpiredAccountAuthorization who =>
      do! check_authorization_expired (Account who) in
      ret (valid_if context (provides RemoveExpiredAccountAuthorizationTxParams who))
  | CallRemoveExpiredPreimageAuthorization h =>
      do! check_authorization_expired (Preimage h) in
      ret (valid_if context (provides RemoveExpiredPreimageAuthorizationTxParams h))
  | CallRemoveExhaustedAuthorizer who =>
      let! budget := (fun s => (ok_or (AllowedAuthorizers (ts s) !! who) AUTHORIZER_NOT_FOUND, s)) in
      let! n := gets now in
      do! ensure (is_inactive budget n) AUTHORIZATION_NOT_EXHAUSTED in
      ret (valid_if context (provides RemoveExhaustedAuthorizerTxParams who))
  | CallApplyBlockInherents _ => ret None
  | _ => throw InvalidCall
  end.

(** [ValidateUnsigned::{validate_unsigned, pre_dispatch}]. *)
Definition validate_unsigned (c : StorageCall) : MV ValidTransaction :=
  if is_inherent c then ret ValidTransaction_default
  else
    let! o := check_unsigned c Validate in
    lift (ok_or o IMPOSSIBLE).

Definition pre_dispatch (c : StorageCall) : MV unit :=
  if is_inherent c then ret tt
  else
    do! check_unsigned c PreDispatch in
    ret tt.

(** ** Signed transactions *)

(** The store branch of [Pallet::check_signed]. *)
Definition check_signed_store (who : AccountId) (size : Z) (content_hash : ContentHash)
    (context : CheckContext) : MV (option ValidTransaction * option AuthorizationScope) :=
  do! ensure (data_size_ok size) BAD_DATA_SIZE in
  let! full := gets block_transactions_full in
  do! ensure (negb full) ExhaustsResources in
  let consume := consume_authorization context in
  let! used_preimage_auth := (fun s =>
    let '(r, s') := check_authorization (Preimage content_hash) (as_u32 size) consume s in
    (Ok (is_ok r), s')) in
  do! (if used_preimage_auth then ret tt
       else check_authorization (Account who) (as_u32 size) consume) in
  ret (if want_valid_transaction context then
         if used_preimage_auth then
           (Some (provides StoreTxParams content_hash), Some (Preimage content_hash))
         else
           (Some (provides StoreTxParams (who ++ content_hash)), Some (Account who))
       else (None, None)).

(** [Pallet::check_signed]. *)
Definition check_signed (who : AccountId) (c : StorageCall) (context : CheckContext)
    : MV (option ValidTransaction * option AuthorizationScope) :=
  match c with
  | CallStore data => check_signed_store who (len data) (blake2_256 data) context
  | CallStoreWithCidConfig cid data =>
      check_signed_store who (len data) (hash (cc_hashing cid) data) context
  | CallAuthorizeAccount _ _ _ | CallAuthorizePreimage _ _
  | CallRefreshAccountAuthorization _ | CallRefreshPreimageAuthorization _ =>
      let! origin := gets (fun s => Authorizer s (System (Signed who))) in
      do! ensure (match origin with Some _ => true | None => false end) BadSigner in
      ret (valid_if context (untagged AuthorizeTxParams), None)
  | CallAddAuthorizer _ _ | CallRemoveAuthorizer _ =>
      ret (valid_if context ValidTransaction_default, None)
  | _ => throw InvalidCall
  end.

(** [Pallet::validate_signed]. *)
Definition validate_signed (who : AccountId) (c : StorageCall)
    : MV (ValidTransaction * option AuthorizationScope) :=
  let! '(valid_tx, scope) := check_signed who c Validate in
  let! vt := lift (ok_or valid_tx IMPOSSIBLE) in
  ret (vt, scope).

(** [Pallet::pre_dispatch_signed]. *)
Definition pre_dispatch_signed (who : AccountId) (c : StorageCall) : MV unit :=
  do! check_signed who c PreDispatch in
  ret tt.

(** [integrity_test]'s check of the pool families, [extra] from dependent pallets. *)
Definition assert_pool_families_distinct (extra : list (string * ValidTransactionParams)) : bool :=
  assert_distinct_tag_prefixes (extra ++ [
    ("StoreTxParams"%string, StoreTxParams);
    ("AuthorizeTxParams"%string, AuthorizeTxParams);
    ("RemoveExpiredAccountAuthorizationTxParams"%string,
      RemoveExpiredAccountAuthorizationTxParams);
    ("RemoveExpiredPreimageAuthorizationTxParams"%string,
      RemoveExpiredPreimageAuthorizationTxParams);
    ("RemoveExhaustedAuthorizerTxParams"%string, RemoveExhaustedAuthorizerTxParams)]).

(** [Hooks::integrity_test]. *)
Definition integrity_test : bool :=
  negb (MaxBlockTransactions =? 0) && negb (MaxTransactionSize =? 0)
  && (g_retention_period GenesisConfig_default =? DEFAULT_RETENTION_PERIOD)
  && negb (AuthorizationPeriod =? 0) && assert_pool_families_distinct [].
End Checks.

Section Facts.
Context `{Host} `{Config}.

(** A scope is usable now: [check_authorization] accepts it. *)
Definition active (s : State) (scope : AuthorizationScope) : bool :=
  match get_active_authorization s scope with Some _ => true | None => false end.

Lemma active_account s who : active s (Account who) = account_has_active_authorization s who.
Proof.
  unfold active, get_active_authorization, account_has_active_authorization.
  destruct (Authorizations (ts s) !! Account who) as [a|]; [|done].
  by destruct (expired a (now s)).
Qed.

Lemma check_authorization_result scope size consume s :
  (check_authorization scope size consume s).1 = if active s scope then Ok tt else Err Payment.
Proof.
  unfold check_authorization, active, get_active_authorization.
  destruct (Authorizations (ts s) !! scope) as [a|]; [|done].
  by destruct (expired a (now s)), consume.
Qed.

(** A check that fails, or that does not consume, writes nothing. *)
Lemma check_authorization_pure scope size consume s :
  consume = false \/ active s scope = false ->
  (check_authorization scope size consume s).2 = s.
Proof.
  unfold check_authorization, active, get_active_authorization.
  destruct (Authorizations (ts s) !! scope) as [a|]; [|done].
  intros [->| ]; destruct (expired a (now s)); try done.
Qed.

Lemma check_authorization_peek scope size s :
  check_authorization scope size false s = (if active s scope then Ok tt else Err Payment, s).
Proof.
  rewrite <- (check_authorization_result scope size false s).
  rewrite <- (check_authorization_pure scope size false s) at 3 by auto.
  by destruct (check_authorization scope size false s).
Qed.

(** The scope a signed [store] is charged to: the preimage grant if there is one,
    else the signer's own. *)
Definition charged_scope (s : State) (who : AccountId) (h : ContentHash)
    : option AuthorizationScope :=
  if active s (Preimage h) then Some (Preimage h)
  else if active s (Account who) then Some (Account who) else None.

(** [store] and its size and content hash. *)
Definition store_call (c : StorageCall) : option (Z * ContentHash) :=
  match c with
  | CallStore data => Some (len data, blake2_256 data)
  | CallStoreWithCidConfig cid data => Some (len data, hash (cc_hashing cid) data)
  | _ => None
  end.

Lemma check_signed_store_eq who c ctx size h :
  store_call c = Some (size, h) ->
  check_signed who c ctx = check_signed_store who size h ctx.
Proof. destruct c; intros [= <- <-]; done. Qed.

Lemma check_signed_store_validate who size h s :
  check_signed_store who size h Validate s =
  (if negb (data_size_ok size) then Err BAD_DATA_SIZE
   else if block_transactions_full s then Err ExhaustsResources
   else match charged_scope s who h with
        | Some (Preimage h') => Ok (Some (provides StoreTxParams h'), Some (Preimage h'))
        | Some (Account w) => Ok (Some (provides StoreTxParams (w ++ h)), Some (Account w))
        | None => Err Payment
        end, s).
Proof.
  unfold check_signed_store, charged_scope. unfold_M.
  destruct (data_size_ok size); simpl; [|done].
  destruct (block_transactions_full s); simpl; [done|].
  rewrite check_authorization_peek. destruct (active s (Preimage h)); simpl; [done|].
  rewrite check_authorization_peek. by destruct (active s (Account who)).
Qed.

Lemma check_signed_store_prepare who size h s :
  check_signed_store who size h PreDispatch s =
  if negb (data_size_ok size) then (Err BAD_DATA_SIZE, s)
  else if block_transactions_full s then (Err ExhaustsResources, s)
  else match charged_scope s who h with
       | Some scope => (Ok (None, None), (check_authorization scope (as_u32 size) true s).2)
       | None => (Err Payment, s)
       end.
Proof.
  unfold check_signed_store, charged_scope. unfold_M.
  destruct (data_size_ok size); simpl; [|done].
  destruct (block_transactions_full s); simpl; [done|].
  pose proof (check_authorization_result (Preimage h) (as_u32 size) true s) as R1.
  pose proof (check_authorization_pure (Preimage h) (as_u32 size) true s) as P1.
  destruct (check_authorization (Preimage h) (as_u32 size) true s) as [r1 s1] eqn:E1.
  simpl in R1, P1. subst r1. destruct (active s (Preimage h)); simpl; [by rewrite E1|].
  rewrite P1 by auto.
  pose proof (check_authorization_result (Account who) (as_u32 size) true s) as R2.
  pose proof (check_authorization_pure (Account who) (as_u32 size) true s) as P2.
  destruct (check_authorization (Account who) (as_u32 size) true s) as [r2 s2] eqn:E2.
  simpl in R2, P2. subst r2. destruct (active s (Account who)); simpl; [by rewrite E2|].
  by rewrite P2 by auto.
Qed.

(** Pool validation reads only. *)
Lemma check_signed_validate_pure who c s : (check_signed who c Validate s).2 = s.
Proof.
  destruct (store_call c) as [[size h]|] eqn:Ec.
  - by rewrite (check_signed_store_eq _ _ _ _ _ Ec), check_signed_store_validate.
  - destruct c; try done; simpl; unfold_M; by destruct (Authorizer _ _).
Qed.

Lemma check_store_unsigned_validate_pure size h s :
  (check_store_unsigned size h Validate s).2 = s.
Proof.
  unfold check_store_unsigned. unfold_M. destruct (data_size_ok size); [simpl|done].
  destruct (block_transactions_full s); [done|simpl].
  rewrite check_authorization_peek. by destruct (active s _).
Qed.

Lemma check_unsigned_validate_pure c s : (check_unsigned c Validate s).2 = s.
Proof.
  destruct c; simpl; try apply check_store_unsigned_validate_pure; try done;
    unfold check_authorization_expired, ok_or; unfold_M; repeat (destr_match; simplify_eq/=); done.
Qed.
End Facts.
