(* ===== verification/Renewal.v ===== *)
(** The data-renewal pallet ([pallets/data-renewal/src/lib.rs], [extension.rs]):
    registrations, the pending queue and its drain, the hard caps, the
    obsolete-sweep callback it offers to the storage pallet, and the validation of
    its calls. *)

From S2P Require Import Prelude Slice Primitives Types State Authorizations Blocks Checks.

Definition PERMANENT_STORAGE_NEAR_CAP_PERCENT : Z := 80.

(** [pallet::Call]. *)
Inductive RenewalCall :=
| CallRenew (entry : TransactionRef)
| CallForceRenew (entry : TransactionRef)
| CallEnableAutoRenew (content_hash : ContentHash)
| CallDisableAutoRenew (content_hash : ContentHash)
| CallProcessPendingRenewals.

Section Renewal.
Context `{Host} `{Config}.

(** ** The chain-wide counter *)

(** The level that triggers [PermanentStorageNearCap]: divide first. *)
Definition near_cap_threshold (s : State) : Z :=
  sat_mul u64_max (permanent_cap s / 100) PERMANENT_STORAGE_NEAR_CAP_PERCENT.

(** [Pallet::update_permanent_storage_used]. *)
Definition update_permanent_storage_used (f : Z -> Z) (s : State) : State :=
  let old := PermanentStorageUsed (dr s) in
  let new := f old in
  let s := upd_PermanentStorageUsed (fun _ => new) s in
  let s := deposit_renewal_event (PermanentStorageUsedUpdated new) s in
  if (old <? near_cap_threshold s) && (near_cap_threshold s <=? new)
  then deposit_renewal_event (PermanentStorageNearCap new (permanent_cap s)) s
  else s.

(** ** Hard caps *)

(** The closure of [check_renew_authorization]. *)
Definition renew_charge (chain_cap chain_used size : Z) (a : Authorization)
    : result TransactionValidityError unit * Authorization :=
  let used := bytes_permanent (extra (extent a)) in
  if bytes_allowance (extent a) <? sat_add_u64 used size
  then (Err PERMANENT_ALLOWANCE_EXCEEDED, a)
  else if chain_cap <? sat_add_u64 chain_used size
  then (Err CHAIN_PERMANENT_CAP_REACHED, a)
  else (Ok tt, note_transaction
                 (active_set_extra (mkPermanentExtent (sat_add_u64 used size)) a)).

(** [Pallet::check_renew_authorization]. *)
Definition check_renew_authorization (scope : AuthorizationScope) (size : Z) (consume : bool)
    : MV unit :=
  let! chain_used := gets (fun s => PermanentStorageUsed (dr s)) in
  let! chain_cap := gets permanent_cap in
  do! try_mutate_active_authorization scope consume (renew_charge chain_cap chain_used size) in
  if consume then modify (update_permanent_storage_used (fun used => sat_add_u64 used size))
  else ret tt.

(** [Pallet::authorize_renew]. *)
Definition authorize_renew (who : AccountId) (content_hash : ContentHash) (size : Z)
    (consume : bool) : MV AuthorizationScope :=
  do! ensure (data_size_ok size) BAD_DATA_SIZE in
  let! full := gets block_transactions_full in
  do! ensure (negb full) ExhaustsResources in
  let! by_preimage := (fun s =>
    let '(r, s') := check_renew_authorization (Preimage content_hash) size consume s in
    (Ok (is_ok r), s')) in
  if by_preimage : bool then ret (Preimage content_hash)
  else
    do! check_renew_authorization (Account who) size consume in
    ret (Account who).

(** [resolve_transaction_ref(entry).map_err(|_| RENEWED_NOT_FOUND)?]. *)
Definition resolve_or {E} (e : E) (entry : TransactionRef) : M State E TransactionInfoFor := fun s =>
  (match resolve_transaction_ref s entry with Ok i => Ok i | Err _ => Err e end, s).

(** [Pallet::check_renew_unsigned]. *)
Definition check_renew_unsigned (entry : TransactionRef) (context : CheckContext)
    : MV (option ValidTransaction) :=
  let! info := resolve_or RENEWED_NOT_FOUND entry in
  do! ensure (data_size_ok (ti_size info)) BAD_DATA_SIZE in
  let! full := gets block_transactions_full in
  do! ensure (negb full) ExhaustsResources in
  do! check_renew_authorization (Preimage (ti_content_hash info)) (ti_size info)
        (consume_authorization context) in
  ret (if want_valid_transaction context
       then Some (provides RenewTxParams (ti_content_hash info)) else None).

(** [Pallet::can_renew]. *)
Definition can_renew (s : State) (who : AccountId) (entry : TransactionRef) : bool :=
  match resolve_transaction_ref s entry with
  | Err _ => false
  | Ok info =>
      if negb (data_size_ok (ti_size info)) then false
      else is_ok (check_renew_authorization (Account who) (ti_size info) false s).1
  end.

(** ** Appending renewed entries *)

(** [Pallet::do_renew]. *)
Definition do_renew (info : TransactionInfoFor) : M State RenewalError Z :=
  let! x := (fun s => (ok_or (extrinsic_index (sys s)) RBadContext, s)) in
  let! maybe_index := run (with_block_transactions (entries_renew info x meta_renew)) in
  lift (ok_or maybe_index RTooManyTransactions).

(** One iteration of the drain, inside [with_block_transactions]. *)
Definition drain_one (x : Z) (acc : list TransactionInfoFor * State)
    (item : ContentHash * TransactionInfoFor * RenewalData)
    : list TransactionInfoFor * State :=
  let '(entries, s) := acc in
  let '(content_hash, tx_info, renewal_data) := item in
  let was_paid := paid renewal_data in
  let scope := Account (rd_account renewal_data) in
  let '(charged, s) :=
    if was_paid then (true, s)
    else
      let '(r, s') := check_renew_authorization scope (ti_size tx_info) true s in
      (is_ok r, s') in
  let '(new_index, entries, s) :=
    if charged : bool then entries_renew tx_info x meta_renew entries s
    else (None, entries, s) in
  match new_index with
  | Some new_index =>
      let s :=
        if negb (recurring renewal_data) then upd_Renewals (delete content_hash) s
        else if was_paid then
          upd_Renewals (alter (fun d => mkRenewalData (rd_account d) (recurring d) false)
                          content_hash) s
        else s in
      (entries, deposit_renewal_event
                  (DataRenewed new_index content_hash (rd_account renewal_data)) s)
  | None =>
      let s :=
        if charged
        then update_permanent_storage_used (fun used => sat_sub used (ti_size tx_info)) s
        else s in
      let s := upd_Renewals (delete content_hash) s in
      (entries, deposit_renewal_event
                  (RenewalFailed content_hash (rd_account renewal_data)) s)
  end.

(** The defensive branch of the drain: no extrinsic context. *)
Definition fail_one (s : State) (item : ContentHash * TransactionInfoFor * RenewalData) : State :=
  let '(content_hash, _, renewal_data) := item in
  deposit_renewal_event (RenewalFailed content_hash (rd_account renewal_data))
    (upd_Renewals (delete content_hash) s).

(** [Pallet::do_process_pending_renewals]. *)
Definition do_process_pending_renewals (s : State) : Z * State :=
  let pending := PendingRenewals (dr s) in
  let s := upd_PendingRenewals (fun _ => []) s in
  let n_actual := as_u32 (len pending) in
  if n_actual =? 0 then (0, s)
  else
    match extrinsic_index (sys s) with
    | None => (n_actual, foldl fail_one s pending)
    | Some x =>
        let '(_, s) := with_block_transactions (fun entries s =>
          let '(entries, s) := foldl (drain_one x) (entries, s) pending in
          (tt, entries, s)) s in
        (n_actual, s)
    end.

(** ** Dispatchables *)

Definition renew (o : RuntimeOrigin) (entry : TransactionRef) : MD unit :=
  let! caller := lift (ensure_authorized o) in
  match caller with
  | CallerSigned who _ =>
      let! info := resolve_or (RenewalModule RRenewedNotFound) entry in
      let content_hash := ti_content_hash info in
      let! taken := gets (fun s => bool_decide (is_Some (Renewals (dr s) !! content_hash))) in
      do! ensure (negb taken) (RenewalModule RenewalAlreadyEnabled) in
      do! modify (upd_Renewals <[content_hash := mkRenewalData who false true]>) in
      modify (deposit_renewal_event (RenewalEnabled content_hash who false))
  | _ => throw BadOrigin
  end.

Definition force_renew (o : RuntimeOrigin) (entry : TransactionRef) : MD unit :=
  do! lift (ensure_authorized o) in
  let! info := resolve_or (RenewalModule RRenewedNotFound) entry in
  do! lift (match ensure_data_size_ok (ti_size info) with
            | Ok _ => Ok tt | Err _ => Err (RenewalModule RBadDataSize) end) in
  let! new_index := map_err RenewalModule (do_renew info) in
  modify (deposit_renewal_event (Renewed new_index (ti_content_hash info))).

Definition enable_auto_renew (o : RuntimeOrigin) (content_hash : ContentHash) : MD unit :=
  let! caller := lift (ensure_authorized o) in
  match caller with
  | CallerSigned who _ =>
      let! taken := gets (fun s => bool_decide (is_Some (Renewals (dr s) !! content_hash))) in
      do! ensure (negb taken) (RenewalModule RenewalAlreadyEnabled) in
      let! '(block, index) := (fun s => (ok_or (lookup_by_content_hash s content_hash)
                                           (RenewalModule RRenewedNotFound), s)) in
      do! (fun s => (ok_or (transaction_info s block index)
                       (RenewalModule RRenewedNotFound), s)) in
      do! modify (upd_Renewals <[content_hash := mkRenewalData who true true]>) in
      modify (deposit_renewal_event (RenewalEnabled content_hash who true))
  | _ => throw BadOrigin
  end.

Definition disable_auto_renew (o : RuntimeOrigin) (content_hash : ContentHash) : MD unit :=
  let! caller := lift (ensure_authorized o) in
  let! renewal_data := (fun s => (ok_or (Renewals (dr s) !! content_hash)
                                    (RenewalModule AutoRenewalNotEnabled), s)) in
  do! (match caller with
       | CallerSigned who _ =>
           do! ensure (bool_decide (rd_account renewal_data = who))
                 (RenewalModule NotAutoRenewalOwner) in
           ensure (negb (paid renewal_data)) (RenewalModule CannotDisablePrepaidAutoRenewal)
       | CallerRoot => ret tt
       | CallerUnsigned => throw BadOrigin
       end) in
  do! modify (upd_Renewals (delete content_hash)) in
  modify (deposit_renewal_event (AutoRenewalDisabled content_hash (rd_account renewal_data))).

Definition process_pending_renewals (o : RuntimeOrigin) : MD Z :=
  do! ensure (ensure_none o) BadOrigin in
  run do_process_pending_renewals.

Definition dispatch_renewal (o : RuntimeOrigin) (c : RenewalCall) : MD unit :=
  match c with
  | CallRenew e => renew o e
  | CallForceRenew e => force_renew o e
  | CallEnableAutoRenew h => enable_auto_renew o h
  | CallDisableAutoRenew h => disable_auto_renew o h
  | CallProcessPendingRenewals => do! process_pending_renewals o in ret tt
  end.

(** ** Inherents and hooks *)

Definition renewal_create_inherent (s : State) : option RenewalCall :=
  match PendingRenewals (dr s) with [] => None | _ => Some CallProcessPendingRenewals end.

Definition renewal_is_inherent (c : RenewalCall) : bool :=
  match c with CallProcessPendingRenewals => true | _ => false end.

(** [Hooks::on_finalize]: [None] when the assertion panics. *)
Definition renewal_on_finalize (s : State) : option State :=
  match PendingRenewals (dr s) with [] => Some s | _ => None end.

(** The queue [handle_obsolete] extends. *)
Fixpoint queue_pending (regs : gmap ContentHash RenewalData)
    (items : list (TransactionInfoFor * bool))
    (pending : list (ContentHash * TransactionInfoFor * RenewalData)) :=
  match items with
  | [] => pending
  | (tx_info, is_latest) :: rest =>
      let h := ti_content_hash tx_info in
      queue_pending regs rest
        (if is_latest : bool then
           match regs !! h with
           | Some d => default pending (try_push MaxBlockTransactions pending (h, tx_info, d))
           | None => pending
           end
         else pending)
  end.

(** Renewed bytes among the swept entries. *)
Definition renewed_sum (items : list (TransactionInfoFor * bool)) : Z :=
  foldl (fun acc (p : TransactionInfoFor * bool) =>
    if is_renew (ti_meta p.1) then sat_add_u64 acc (ti_size p.1) else acc) 0 items.

(** [OnObsoleteTransactions::handle_obsolete] of this pallet. *)
Definition renewal_handle_obsolete (obsolete : BlockNumber)
    (items : list (TransactionInfoFor * bool)) (s : State) : State :=
  let sum := renewed_sum items in
  let s := if 0 <? sum then update_permanent_storage_used (fun used => sat_sub used sum) s else s in
  let pending := queue_pending (Renewals (dr s)) items (PendingRenewals (dr s)) in
  match pending with
  | [] => s
  | _ => upd_PendingRenewals (fun _ => pending) s
  end.

#[export] Instance renewal_obsolete_handler : OnObsoleteTransactions :=
  {| handle_obsolete := renewal_handle_obsolete |}.

(** ** Validation *)

(** [ValidateUnsigned::{validate_unsigned, pre_dispatch}]. *)
Definition renewal_validate_unsigned (c : RenewalCall) : MV ValidTransaction :=
  if renewal_is_inherent c then ret ValidTransaction_default
  else
    match c with
    | CallForceRenew entry =>
        let! o := check_renew_unsigned entry Validate in
        lift (ok_or o InvalidCall)
    | _ => throw InvalidCall
    end.

Definition renewal_pre_dispatch (c : RenewalCall) : MV unit :=
  if renewal_is_inherent c then ret tt
  else
    match c with
    | CallForceRenew entry => do! check_renew_unsigned entry PreDispatch in ret tt
    | _ => throw InvalidCall
    end.

Definition valid_or_default (context : CheckContext) (vt : ValidTransaction) : ValidTransaction :=
  match context with Validate => vt | PreDispatch => ValidTransaction_default end.

(** [Pallet::check_renewal_signed]. *)
Definition check_renewal_signed (who : AccountId) (c : RenewalCall) (context : CheckContext)
    : MV (ValidTransaction * option AuthorizationScope) :=
  let consume := match context with PreDispatch => true | Validate => false end in
  match c with
  | CallRenew entry =>
      let! info := resolve_or RENEWED_NOT_FOUND entry in
      let! taken := gets (fun s => bool_decide (is_Some (Renewals (dr s) !! ti_content_hash info))) in
      do! ensure (negb taken) RENEWAL_ALREADY_ENABLED in
      do! check_renew_authorization (Account who) (ti_size info) consume in
      ret (valid_or_default context (provides RenewTxParams (who ++ ti_content_hash info)),
           Some (Account who))
  | CallForceRenew entry =>
      let! info := resolve_or RENEWED_NOT_FOUND entry in
      let! scope := authorize_renew who (ti_content_hash info) (ti_size info) consume in
      ret (valid_or_default context
             (match scope with
              | Preimage h => provides RenewTxParams h
              | Account _ => provides RenewTxParams (who ++ ti_content_hash info)
              end), Some scope)
  | CallEnableAutoRenew content_hash =>
      let! taken := gets (fun s => bool_decide (is_Some (Renewals (dr s) !! content_hash))) in
      do! ensure (negb taken) RENEWAL_ALREADY_ENABLED in
      let! '(block, index) := (fun s =>
        (ok_or (lookup_by_content_hash s content_hash) RENEWED_NOT_FOUND, s)) in
      let! info := (fun s => (ok_or (transaction_info s block index) RENEWED_NOT_FOUND, s)) in
      do! check_renew_authorization (Account who) (ti_size info) consume in
      ret (valid_or_default context (provides RenewTxParams (who ++ ti_content_hash info)),
           Some (Account who))
  | CallDisableAutoRenew content_hash =>
      let! renewal_data := (fun s =>
        (ok_or (Renewals (dr s) !! content_hash) AUTO_RENEWAL_NOT_ENABLED, s)) in
      do! ensure (bool_decide (rd_account renewal_data = who)) NOT_AUTO_RENEWAL_OWNER in
      do! ensure (negb (paid renewal_data)) CANNOT_DISABLE_PREPAID_AUTO_RENEWAL in
      ret (valid_or_default context (untagged RenewTxParams), Some (Account who))
  | CallProcessPendingRenewals => throw InvalidCall
  end.

(** [Pallet::validate_renewal_signed] and [pre_dispatch_renewal_signed]. *)
Definition validate_renewal_signed (who : AccountId) (c : RenewalCall)
    : MV (ValidTransaction * option AuthorizationScope) :=
  check_renewal_signed who c Validate.

Definition pre_dispatch_renewal_signed (who : AccountId) (c : RenewalCall) : MV unit :=
  do! check_renewal_signed who c PreDispatch in
  ret tt.

(** ** [try_state] *)

(** The inner fold: bytes of the [Renew] entries of one block, on top of [acc]. *)
Definition renew_bytes (acc : Z) (txs : list TransactionInfoFor) : Z :=
  foldl (fun inner t => if is_renew (ti_meta t) then sat_add_u64 inner (ti_size t) else inner)
    acc txs.

(** Sizes of the entries prepaid registrations point at; [None] when a
    registration has no target. *)
Definition prepaid_sum (s : State) : option Z :=
  foldr (fun (p : ContentHash * RenewalData) (acc : option Z) =>
    match acc with
    | None => None
    | Some sum =>
        if negb (paid p.2) then Some sum
        else
          match lookup_by_content_hash s p.1 with
          | None => None
          | Some (block, index) =>
              match transaction_info s block index with
              | None => None
              | Some info => Some (sat_add_u64 sum (ti_size info))
              end
          end
    end) (Some 0) (map_to_list (Renewals (dr s))).

(** [Pallet::do_try_state] as the test build checks it. *)
Definition renewal_do_try_state (s : State) : bool :=
  let used := PermanentStorageUsed (dr s) in
  let renewed := foldl (fun acc (p : BlockNumber * list TransactionInfoFor) =>
    renew_bytes acc p.2) 0 (Transactions_iter s) in
  match prepaid_sum s with
  | None => false
  | Some prepaid =>
      (used =? sat_add_u64 renewed prepaid) && (used <=? permanent_cap s)
  end.

(** [Hooks::integrity_test] of the renewal pallet. *)
Definition renewal_integrity_test : bool :=
  assert_pool_families_distinct [("RenewTxParams"%string, RenewTxParams)].
End Renewal.
