(* ===== verification/RenewalFacts.v ===== *)
(** Facts about the renewal pallet: what the storage pallet may rely on of its
    callback, the hard caps, the near-cap event, and the drain of the pending
    queue. *)

From S2P Require Import Prelude Slice Primitives Types State Authorizations Blocks Retention Checks Renewal.

(** The storage of the whole chain apart from the renewal pallet and the event log. *)
Definition same_storage (s s' : State) : Prop :=
  sys s' = sys s /\ ts s' = ts s /\ host_calls s' = host_calls s /\
  provider_calls s' = provider_calls s.

#[global] Instance same_storage_preorder : PreOrder same_storage.
Proof.
  split.
  - by repeat split.
  - intros s1 s2 s3 (?&?&?&?) (?&?&?&?). repeat split; congruence.
Qed.

Section Facts.
Context `{Host} `{Config}.

(** ** The counter *)

(** Events one update of the counter emits. *)
Definition used_events (s : State) (old new : Z) : list RuntimeEvent :=
  RenewalEv (PermanentStorageUsedUpdated new) ::
  (if (old <? near_cap_threshold s) && (near_cap_threshold s <=? new)
   then [RenewalEv (PermanentStorageNearCap new (permanent_cap s))] else []).

Lemma update_used_eq f s :
  let old := PermanentStorageUsed (dr s) in
  update_permanent_storage_used f s =
  upd_events (fun l => l ++ used_events s old (f old))
    (upd_PermanentStorageUsed (fun _ => f old) s).
Proof.
  unfold update_permanent_storage_used, used_events, deposit_renewal_event, near_cap_threshold, permanent_cap.
  cbn [sys upd_events upd_PermanentStorageUsed upd_dr].
  destruct (_ && _); unfold upd_events; simpl; by rewrite <- ?app_assoc.
Qed.

Lemma update_used_frame f s : same_storage s (update_permanent_storage_used f s).
Proof. by rewrite update_used_eq. Qed.

(** ** The callback *)

Lemma renewal_handle_frame n items s : same_storage s (renewal_handle_obsolete n items s).
Proof.
  unfold renewal_handle_obsolete.
  set (s1 := if 0 <? renewed_sum items then update_permanent_storage_used _ s else s).
  assert (same_storage s s1) as Hs1.
  { unfold s1. destruct (_ <? _); [apply update_used_frame|reflexivity]. }
  destruct (queue_pending _ _ _); [done|]. by transitivity s1.
Qed.

(** The renewal pallet keeps the contract of the callback. *)
#[export] Instance renewal_obsolete_frame : @OnObsoleteFrame renewal_obsolete_handler.
Proof. constructor; intros n items s; apply (renewal_handle_frame n items s). Qed.

(** ** The hard caps *)

(** The renew check succeeds: the grant is active and both caps leave room. *)
Definition renew_allowed (s : State) (scope : AuthorizationScope) (size : Z) : bool :=
  match get_active_authorization s scope with
  | None => false
  | Some a =>
      (sat_add_u64 (bytes_permanent (extra (extent a))) size <=? bytes_allowance (extent a))
      && (sat_add_u64 (PermanentStorageUsed (dr s)) size <=? permanent_cap s)
  end.

(** The error the check reports, in the order the code tests. *)
Definition renew_error (s : State) (scope : AuthorizationScope) (size : Z)
    : TransactionValidityError :=
  match get_active_authorization s scope with
  | None => Payment
  | Some a =>
      if sat_add_u64 (bytes_permanent (extra (extent a))) size <=? bytes_allowance (extent a)
      then CHAIN_PERMANENT_CAP_REACHED else PERMANENT_ALLOWANCE_EXCEEDED
  end.

(** The authorization after a charge. *)
Definition renew_charged (size : Z) (a : Authorization) : Authorization :=
  note_transaction (active_set_extra
    (mkPermanentExtent (sat_add_u64 (bytes_permanent (extra (extent a))) size)) a).

(** The state after a charge. *)
Definition charge (scope : AuthorizationScope) (size : Z) (s : State) : State :=
  update_permanent_storage_used (fun used => sat_add_u64 used size)
    (upd_Authorizations (alter (renew_charged size) scope) s).

Lemma leb_ltb a b : (a <=? b) = negb (b <? a).
Proof. apply Z.leb_antisym. Qed.

Lemma insert_alter_lookup {K V} `{Countable K} (m : gmap K V) k v f :
  m !! k = Some v -> alter f k m = <[k := f v]> m.
Proof. intros Hv. rewrite <- (insert_id m k v Hv) at 1. by rewrite alter_insert_eq. Qed.

Lemma upd_Authorizations_ext f g s :
  f (Authorizations (ts s)) = g (Authorizations (ts s)) ->
  upd_Authorizations f s = upd_Authorizations g s.
Proof. unfold upd_Authorizations, upd_ts. by intros ->. Qed.

(** The whole renew check as one equation. *)
Lemma check_renew_authorization_eq scope size consume s :
  check_renew_authorization scope size consume s =
  if renew_allowed s scope size
  then (Ok tt, if consume then charge scope size s else s)
  else (Err (renew_error s scope size), s).
Proof.
  unfold check_renew_authorization, renew_allowed, renew_error, try_mutate_active_authorization,
    get_active_authorization. unfold_M.
  destruct (Authorizations (ts s) !! scope) as [a|] eqn:Ea; [|done].
  destruct (expired a (now s)); [done|]. simpl. unfold renew_charge. rewrite !leb_ltb.
  destruct (_ <? sat_add_u64 (bytes_permanent _) size); simpl; [done|].
  destruct (_ <? sat_add_u64 _ size); simpl; [done|].
  destruct consume; [|done]. unfold charge. do 2 f_equal.
  apply upd_Authorizations_ext. by rewrite (insert_alter_lookup _ _ _ _ Ea).
Qed.

Lemma check_renew_authorization_pure scope size s :
  (check_renew_authorization scope size false s).2 = s.
Proof. rewrite check_renew_authorization_eq. by destruct (renew_allowed _ _ _). Qed.

(** ** The chain-wide cap *)

Definition CapInv (s : State) : Prop :=
  0 <= PermanentStorageUsed (dr s) <= permanent_cap s.

Lemma CapInv_charge scope size s :
  renew_allowed s scope size = true -> 0 <= size -> CapInv s -> CapInv (charge scope size s).
Proof.
  unfold renew_allowed, CapInv, charge, permanent_cap. rewrite update_used_eq. simpl.
  destruct (get_active_authorization s scope); [|done]. intros Hok Hs I. b2p.
  unfold sat_add, u64_max in *. lia.
Qed.

Lemma CapInv_release x s :
  0 <= x -> CapInv s -> CapInv (update_permanent_storage_used (fun used => sat_sub used x) s).
Proof. unfold CapInv, permanent_cap. rewrite update_used_eq. simpl. unfold sat_sub. lia. Qed.

Lemma CapInv_check scope size consume s :
  0 <= size -> CapInv s -> CapInv (check_renew_authorization scope size consume s).2.
Proof.
  intros Hs I. rewrite check_renew_authorization_eq.
  destruct (renew_allowed s scope size) eqn:E; [|done]. destruct consume; [|done].
  by apply CapInv_charge.
Qed.

Lemma CapInv_ext s s' :
  PermanentStorageUsed (dr s') = PermanentStorageUsed (dr s) ->
  parameters (sys s') = parameters (sys s) -> CapInv s -> CapInv s'.
Proof. unfold CapInv, permanent_cap. by intros -> ->. Qed.
End Facts.

Section Laws.
Context `{Host} `{ConfigLaws}.

(** ** Authorizations under a charge *)

Lemma wf_renew_charged scope size a :
  0 <= size -> wf_authorization scope a ->
  sat_add_u64 (bytes_permanent (extra (extent a))) size <= bytes_allowance (extent a) ->
  wf_authorization scope (renew_charged size a).
Proof.
  intros Hs [] Hcap. constructor; simpl; try done;
    unfold is_u32, is_u64, sat_add, u32_max, u64_max in *; lia.
Qed.

Lemma AuthInv_same_storage s s' : same_storage s s' -> AuthInv s -> AuthInv s'.
Proof. intros (_ & Ht & _ & Hp). apply AuthInv_ext; by rewrite ?Ht. Qed.

Lemma AuthInv_check_renew scope size consume s :
  0 <= size -> AuthInv s -> AuthInv (check_renew_authorization scope size consume s).2.
Proof.
  intros Hs I. rewrite check_renew_authorization_eq.
  destruct (renew_allowed s scope size) eqn:Eok; [|done]. destruct consume; [|done].
  unfold renew_allowed, get_active_authorization in Eok. simpl. unfold charge.
  destruct (Authorizations (ts s) !! scope) as [a|] eqn:Ea; [|done].
  destruct (negb (expired a (now s))); [|done]. b2p.
  eapply AuthInv_same_storage; [apply update_used_frame|].
  rewrite (upd_Authorizations_ext _ <[scope := renew_charged size a]>)
    by by apply insert_alter_lookup.
  eapply AuthInv_update_authorization; [done| |done].
  apply wf_renew_charged; [done| |done]. by eapply inv_authorizations.
Qed.
End Laws.

(** ** The drain *)

Abbreviation PendingItem := (ContentHash * TransactionInfoFor * RenewalData)%type.

Section Drain.
Context `{Host} `{Config}.

Definition item_hash (p : PendingItem) : ContentHash := p.1.1.
Definition item_info (p : PendingItem) : TransactionInfoFor := p.1.2.
Definition item_data (p : PendingItem) : RenewalData := p.2.
Definition item_owner (p : PendingItem) : AccountId := rd_account (item_data p).

(** The cycle is paid for: at registration, or by the owner's grant now. *)
Definition cycle_paid (s : State) (p : PendingItem) : bool :=
  paid (item_data p) || renew_allowed s (Account (item_owner p)) (ti_size (item_info p)).

(** The state after the charge of a cycle. *)
Definition cycle_charge (p : PendingItem) (s : State) : State :=
  if paid (item_data p) then s
  else charge (Account (item_owner p)) (ti_size (item_info p)) s.

(** The renewed copy of an entry. *)
Definition renewed_entry (x : Z) (info : TransactionInfoFor) : TransactionInfoFor :=
  mkInfo (ti_chunk_root info) (ti_content_hash info) (ti_hashing info) (ti_cid_codec info)
    (ti_size info) x (ti_block_chunks info) meta_renew.

(** What a delivered cycle leaves of its registration. *)
Definition registration_after (p : PendingItem) : gmap ContentHash RenewalData -> gmap ContentHash RenewalData :=
  if negb (recurring (item_data p)) then delete (item_hash p)
  else if paid (item_data p) then
    alter (fun d => mkRenewalData (rd_account d) (recurring d) false) (item_hash p)
  else id.

Definition delivered (x : Z) (p : PendingItem) (entries : list TransactionInfoFor) (s : State)
    : list TransactionInfoFor * State :=
  let i := as_u32 (len entries) in
  (entries ++ [pushed (renewed_entry x (item_info p)) entries],
   deposit_renewal_event (DataRenewed i (item_hash p) (item_owner p))
     (upd_Renewals (registration_after p)
        (host_call (HostRenew x (ti_content_hash (item_info p)))
           (upd_TransactionByContentHash
              <[ti_content_hash (item_info p) := (now s, i)]> (cycle_charge p s))))).

(** A cycle that is not delivered drops its registration. *)
Definition dropped (p : PendingItem) (s : State) : State :=
  deposit_renewal_event (RenewalFailed (item_hash p) (item_owner p))
    (upd_Renewals (delete (item_hash p)) s).

Definition refunded (p : PendingItem) (s : State) : State :=
  update_permanent_storage_used (fun used => sat_sub used (ti_size (item_info p)))
    (cycle_charge p s).

Lemma upd_Renewals_id s : upd_Renewals id s = s.
Proof. by destruct s as [? ? [] ? ? ?]. Qed.

(** One iteration of the drain as one equation. *)
Lemma drain_one_eq x entries s p :
  drain_one x (entries, s) p =
  if cycle_paid s p then
    if len entries <? MaxBlockTransactions then delivered x p entries s
    else (entries, dropped p (refunded p s))
  else (entries, dropped p s).
Proof.
  destruct p as [[h info] d]. unfold drain_one, cycle_paid, delivered, dropped, refunded,
    cycle_charge, item_owner, item_hash, item_info, item_data; cbn [fst snd].
  rewrite check_renew_authorization_eq.
  destruct (paid d) eqn:Ep, (renew_allowed s (Account (rd_account d)) (ti_size info)) eqn:Er;
    cbn [orb is_ok]; try done.
  all: match goal with |- context [entries_renew ?i ?y ?m ?es ?s0] =>
         destruct (entries_renew_cases i y m es s0)
           as [[Hl ->]|[Hl (e & He & ->)]] end.
  all: destruct (len entries <? MaxBlockTransactions) eqn:El; b2p; try lia; try done.
  all: subst e; unfold registration_after, item_hash, item_data; cbn [fst snd]; rewrite Ep.
  all: destruct (recurring d); cbn [negb]; rewrite ?upd_Renewals_id; try done.
  all: do 2 f_equal; unfold charge; by rewrite update_used_eq.
Qed.

(** Outcomes of renewal cycles in an event log: content hash and owner. *)
Definition outcome_of (e : RuntimeEvent) : option (ContentHash * AccountId) :=
  match e with
  | RenewalEv (DataRenewed _ h a) | RenewalEv (RenewalFailed h a) => Some (h, a)
  | _ => None
  end.

Definition outcomes (s : State) : list (ContentHash * AccountId) := omap outcome_of (events s).

Lemma outcomes_update_used f s : outcomes (update_permanent_storage_used f s) = outcomes s.
Proof.
  rewrite update_used_eq. unfold outcomes. simpl. rewrite omap_app. unfold used_events.
  destruct (_ && _); simpl; by rewrite app_nil_r.
Qed.

Lemma outcomes_snoc e r s :
  outcome_of (RenewalEv e) = Some r -> outcomes (deposit_renewal_event e s) = outcomes s ++ [r].
Proof. intros He. unfold outcomes. simpl. rewrite omap_app. by destruct e; simplify_eq/=. Qed.

Lemma outcomes_charge p s : outcomes (cycle_charge p s) = outcomes s.
Proof. unfold cycle_charge. destruct (paid _); [done|]. unfold charge.
  by rewrite outcomes_update_used.
Qed.

Lemma outcomes_drain_one x entries s p :
  outcomes (drain_one x (entries, s) p).2 = outcomes s ++ [(item_hash p, item_owner p)].
Proof.
  rewrite drain_one_eq. destruct (cycle_paid s p); [destruct (len entries <? _)|]; simpl;
    unfold dropped, refunded; (erewrite outcomes_snoc; [|done]); f_equal.
  - change (outcomes (cycle_charge p s) = outcomes s). apply outcomes_charge.
  - change (outcomes (refunded p s) = outcomes s). unfold refunded.
    by rewrite outcomes_update_used, outcomes_charge.
Qed.

Lemma outcomes_drain x items entries s :
  outcomes (foldl (drain_one x) (entries, s) items).2 =
  outcomes s ++ map (fun p => (item_hash p, item_owner p)) items.
Proof.
  revert entries s. induction items as [|p items IH]; intros entries s; cbn [foldl map].
  - by rewrite app_nil_r.
  - pose proof (outcomes_drain_one x entries s p) as Ho.
    destruct (drain_one x (entries, s) p) as [entries' s']. rewrite IH. simpl in Ho.
    rewrite Ho, <- app_assoc. done.
Qed.

Lemma outcomes_fail items s :
  outcomes (foldl fail_one s items) =
  outcomes s ++ map (fun p => (item_hash p, item_owner p)) items.
Proof.
  revert s. induction items as [|[[h info] d] items IH]; intros s; cbn [foldl map].
  - by rewrite app_nil_r.
  - rewrite IH. unfold fail_one. erewrite outcomes_snoc; [|done]. by rewrite <- app_assoc.
Qed.

(** The drain leaves the queue alone (it was taken before the loop). *)
Lemma pending_drain x items entries s :
  PendingRenewals (dr (foldl (drain_one x) (entries, s) items).2) = PendingRenewals (dr s).
Proof.
  revert entries s. induction items as [|p items IH]; intros entries s; cbn [foldl]; [done|].
  assert (PendingRenewals (dr (drain_one x (entries, s) p).2) = PendingRenewals (dr s)) as Hp.
  { rewrite drain_one_eq. unfold delivered, dropped, refunded, cycle_charge, charge.
    repeat (destr_match; simpl); by rewrite ?update_used_eq. }
  destruct (drain_one x (entries, s) p) as [entries' s']. rewrite IH. exact Hp.
Qed.

Lemma pending_fail items s :
  PendingRenewals (dr (foldl fail_one s items)) = PendingRenewals (dr s).
Proof.
  revert s. induction items as [|[[h info] d] items IH]; intros s; cbn [foldl]; [done|].
  by rewrite IH.
Qed.
End Drain.

Section DrainInvariants.
Context `{HostLaws} `{!Config} `{!ConfigLaws} `{!ChunkCapacity}.

(** A queued item is a well-formed entry under its own hash. *)
Definition item_ok (p : PendingItem) : Prop :=
  size_ok (item_info p) /\ ti_content_hash (item_info p) = item_hash p /\ entry_typed (item_info p) /\
  is_u32 (ti_block_chunks (item_info p)).

(** The state whose accumulator is the one the drain carries. *)
Definition with_entries (acc : list TransactionInfoFor * State) : State :=
  upd_BlockTransactions (fun _ => acc.1) acc.2.

Lemma charge_frame scope size s :
  let s' := charge scope size s in
  sys s' = sys s /\ host_calls s' = host_calls s /\ provider_calls s' = provider_calls s /\
  Renewals (dr s') = Renewals (dr s) /\ PendingRenewals (dr s') = PendingRenewals (dr s) /\
  Transactions (ts s') = Transactions (ts s) /\
  RetentionPeriod (ts s') = RetentionPeriod (ts s) /\
  BlockTransactions (ts s') = BlockTransactions (ts s) /\
  TransactionByContentHash (ts s') = TransactionByContentHash (ts s) /\
  AllowedAuthorizers (ts s') = AllowedAuthorizers (ts s) /\
  ProofChecked (ts s') = ProofChecked (ts s).
Proof. unfold charge. by rewrite update_used_eq. Qed.

Lemma cycle_charge_eq p s :
  exists a l u, cycle_charge p s =
    upd_events (fun _ => l) (upd_PermanentStorageUsed (fun _ => u)
      (upd_Authorizations (fun _ => a) s)).
Proof.
  unfold cycle_charge. destruct (paid (item_data p)).
  - exists (Authorizations (ts s)), (events s), (PermanentStorageUsed (dr s)).
    by destruct s as [? [] [] ? ? ?].
  - unfold charge. rewrite update_used_eq. by eexists _, _, _.
Qed.

(** The retention invariant survives each iteration. *)
Lemma InBlock_drain_one x acc p :
  is_u32 x -> InBlock (with_entries acc) -> item_ok p -> InBlock (with_entries (drain_one x acc p)).
Proof.
  destruct acc as [entries s]. intros Hx I (Hsz & Hh & [_ Hty] & _). rewrite drain_one_eq.
  assert (InBlock (with_entries (entries, cycle_charge p s))) as Ic.
  { destruct (cycle_charge_eq p s) as (a & l & u & ->). by eapply InBlock_ext; [..|exact I]. }
  destruct (cycle_paid s p); [destruct (len entries <? _) eqn:El; b2p|].
  - pose proof (InBlock_push _ (renewed_entry x (item_info p)) Ic Hsz (conj Hx Hty) El) as Ip.
    simpl in Ip. eapply InBlock_ext; [..|exact Ip]; try done. unfold delivered.
    simpl. destruct (cycle_charge_eq p s) as (a & l & u & ->). done.
  - unfold dropped, refunded. rewrite update_used_eq. by eapply InBlock_ext; [..|exact Ic].
  - by eapply InBlock_ext; [..|exact I].
Qed.

Lemma InBlock_drain x items acc :
  is_u32 x -> InBlock (with_entries acc) -> Forall item_ok items ->
  InBlock (with_entries (foldl (drain_one x) acc items)).
Proof.
  intros Hx I Hi. revert acc I. induction Hi as [|p items Hp Hi IH]; intros acc I; [done|].
  apply IH. by apply InBlock_drain_one.
Qed.

Lemma InBlock_fail items s : InBlock s -> InBlock (foldl fail_one s items).
Proof.
  revert s. induction items as [|[[h info] d] items IH]; intros s I; [done|].
  apply IH. by apply (InBlock_ext s).
Qed.

(** Both caps survive each iteration. *)
Definition CapsInv (s : State) : Prop := AuthInv s /\ CapInv s.

Lemma CapsInv_charge_paid p s :
  item_ok p -> cycle_paid s p = true -> CapsInv s -> CapsInv (cycle_charge p s).
Proof.
  intros [[Hsz _] _] Hp [IA IC]. unfold cycle_charge, cycle_paid in *.
  destruct (paid (item_data p)); [done|]. simpl in Hp.
  pose proof (check_renew_authorization_eq (Account (item_owner p)) (ti_size (item_info p)) true s)
    as E. rewrite Hp in E.
  pose proof (AuthInv_check_renew (Account (item_owner p)) (ti_size (item_info p)) true s
    ltac:(lia) IA) as IA'. rewrite E in IA'.
  split; [done|]. apply CapInv_charge; [done|lia|done].
Qed.

Lemma CapsInv_ext s s' :
  Authorizations (ts s') = Authorizations (ts s) ->
  AllowedAuthorizers (ts s') = AllowedAuthorizers (ts s) ->
  provider_calls s' = provider_calls s ->
  PermanentStorageUsed (dr s') = PermanentStorageUsed (dr s) ->
  parameters (sys s') = parameters (sys s) ->
  CapsInv s -> CapsInv s'.
Proof. intros E1 E2 E3 E4 E5 [IA IC]. split; [by apply (AuthInv_ext s)|by apply (CapInv_ext s)]. Qed.

Lemma CapsInv_drain_one x entries s p :
  item_ok p -> CapsInv s -> CapsInv (drain_one x (entries, s) p).2.
Proof.
  intros Hp I. rewrite drain_one_eq.
  destruct (cycle_paid s p) eqn:Ep; [destruct (len entries <? _) eqn:El|].
  - by eapply CapsInv_ext; [..|by apply (CapsInv_charge_paid p s)].
  - simpl. destruct (CapsInv_charge_paid p s Hp Ep I) as [IA IC].
    assert (CapsInv (refunded p s)) as Ir.
    { split.
      - eapply AuthInv_same_storage; [apply update_used_frame|done].
      - destruct Hp as [[Hsz _] _]. apply CapInv_release; [lia|done]. }
    by eapply CapsInv_ext; [..|exact Ir].
  - by eapply CapsInv_ext; [..|exact I].
Qed.

Lemma CapsInv_drain x items entries s :
  CapsInv s -> Forall item_ok items -> CapsInv (foldl (drain_one x) (entries, s) items).2.
Proof.
  intros I Hi. revert entries s I. induction Hi as [|p items Hp Hi IH]; intros entries s I; [done|].
  cbn [foldl]. pose proof (CapsInv_drain_one x entries s p Hp I) as I1.
  destruct (drain_one x (entries, s) p) as [entries' s']. by apply IH.
Qed.

Lemma CapsInv_fail items s : CapsInv s -> CapsInv (foldl fail_one s items).
Proof.
  revert s. induction items as [|[[h info] d] items IH]; intros s I; [done|].
  apply IH. by apply (CapsInv_ext s).
Qed.

(** ** The inherent *)

(** The queue as the bounded vector of the code. *)
Definition PendingInv (s : State) : Prop :=
  Forall item_ok (PendingRenewals (dr s)) /\
  len (PendingRenewals (dr s)) <= MaxBlockTransactions.

Lemma pending_count s :
  PendingInv s -> as_u32 (len (PendingRenewals (dr s))) = len (PendingRenewals (dr s)).
Proof.
  intros [_ Hl]. apply as_u32_small. pose proof MaxBlockTransactions_range.
  pose proof (len_nonneg (PendingRenewals (dr s))). unfold is_u32. lia.
Qed.

(** The inherent as one equation: the queue is taken, then drained. *)
Lemma process_pending_eq s :
  PendingInv s ->
  do_process_pending_renewals s =
  let pending := PendingRenewals (dr s) in
  let s0 := upd_PendingRenewals (fun _ => []) s in
  (len pending,
   match extrinsic_index (sys s) with
   | None => foldl fail_one s0 pending
   | Some x => with_entries (foldl (drain_one x) (BlockTransactions (ts s), s0) pending)
   end).
Proof.
  intros I. unfold do_process_pending_renewals. rewrite (pending_count s I). simpl.
  destruct (PendingRenewals (dr s)) as [|p items] eqn:Ep.
  - simpl. destruct (extrinsic_index (sys s)); [|done]. unfold with_entries. simpl.
    by destruct s as [? [] ? ? ? ?].
  - destruct (len (p :: items) =? 0) eqn:E; b2p; [unfold len in E; simpl in E; lia|].
    destruct (extrinsic_index (sys s)) as [x|]; [|done].
    unfold with_block_transactions, with_entries. simpl.
    by destruct (foldl _ _ items) as [es s'].
Qed.

Lemma process_pending_empties s :
  PendingInv s -> PendingRenewals (dr (do_process_pending_renewals s).2) = [].
Proof.
  intros I. rewrite process_pending_eq by done. simpl.
  destruct (extrinsic_index (sys s)) as [x|].
  - unfold with_entries. simpl. by rewrite pending_drain.
  - by rewrite pending_fail.
Qed.

Lemma drain_frame x items entries s :
  let s' := (foldl (drain_one x) (entries, s) items).2 in
  AllowedAuthorizers (ts s') = AllowedAuthorizers (ts s) /\ sys s' = sys s /\
  RetentionPeriod (ts s') = RetentionPeriod (ts s) /\ Transactions (ts s') = Transactions (ts s).
Proof.
  revert entries s. induction items as [|p items IH]; intros entries s; cbn [foldl]; [done|].
  assert (let s' := (drain_one x (entries, s) p).2 in
    AllowedAuthorizers (ts s') = AllowedAuthorizers (ts s) /\ sys s' = sys s /\
    RetentionPeriod (ts s') = RetentionPeriod (ts s) /\ Transactions (ts s') = Transactions (ts s))
    as (E1 & E2 & E3 & E4).
  { rewrite drain_one_eq. unfold delivered, dropped, refunded.
    destruct (cycle_charge_eq p s) as (a & l & u & ->).
    repeat (destr_match; simpl); by rewrite ?update_used_eq. }
  destruct (drain_one x (entries, s) p) as [entries' s']. simpl in *.
  destruct (IH entries' s') as (-> & -> & -> & ->). done.
Qed.

Lemma fail_frame items s :
  let s' := foldl fail_one s items in
  AllowedAuthorizers (ts s') = AllowedAuthorizers (ts s) /\ sys s' = sys s /\
  RetentionPeriod (ts s') = RetentionPeriod (ts s) /\ Transactions (ts s') = Transactions (ts s).
Proof.
  revert s. induction items as [|[[h info] d] items IH]; intros s; cbn [foldl]; [done|].
  destruct (IH (fail_one s (h, info, d))) as (-> & -> & -> & ->). done.
Qed.

Lemma process_pending_frame s :
  PendingInv s ->
  let s' := (do_process_pending_renewals s).2 in
  AllowedAuthorizers (ts s') = AllowedAuthorizers (ts s) /\ sys s' = sys s /\
  RetentionPeriod (ts s') = RetentionPeriod (ts s) /\ Transactions (ts s') = Transactions (ts s).
Proof.
  intros P. rewrite process_pending_eq by done. simpl.
  destruct (extrinsic_index (sys s)) as [x|].
  - unfold with_entries. simpl.
    by destruct (drain_frame x (PendingRenewals (dr s)) (BlockTransactions (ts s))
      (upd_PendingRenewals (fun _ => []) s)) as (-> & -> & -> & ->).
  - by destruct (fail_frame (PendingRenewals (dr s)) (upd_PendingRenewals (fun _ => []) s))
      as (-> & -> & -> & ->).
Qed.

Lemma drain_proof_flag x items entries s :
  ProofChecked (ts (foldl (drain_one x) (entries, s) items).2) = ProofChecked (ts s).
Proof.
  revert entries s. induction items as [|p items IH]; intros entries s; cbn [foldl]; [done|].
  assert (ProofChecked (ts (drain_one x (entries, s) p).2) = ProofChecked (ts s)) as E.
  { rewrite drain_one_eq. unfold delivered, dropped, refunded.
    destruct (cycle_charge_eq p s) as (a & l & u & ->).
    repeat (destr_match; simpl); by rewrite ?update_used_eq. }
  destruct (drain_one x (entries, s) p) as [entries' s']. by rewrite IH.
Qed.

Lemma process_pending_proof s :
  PendingInv s -> ProofChecked (ts (do_process_pending_renewals s).2) = ProofChecked (ts s).
Proof.
  intros P. rewrite process_pending_eq by done. simpl.
  destruct (extrinsic_index (sys s)) as [x|].
  - unfold with_entries. simpl. by rewrite drain_proof_flag.
  - generalize (PendingRenewals (dr s)) as items. intros items.
    assert (forall s0, ProofChecked (ts (foldl fail_one s0 items)) = ProofChecked (ts s0)) as ->;
      [|done].
    induction items as [|[[h info] d] items IH]; intros s0; cbn [foldl]; [done|]. by rewrite IH.
Qed.

Lemma process_pending_InBlock s :
  InBlock s -> PendingInv s -> InBlock (do_process_pending_renewals s).2.
Proof.
  intros I P. rewrite process_pending_eq by done. simpl. destruct P as [P _].
  destruct (extrinsic_index (sys s)) as [x|] eqn:Ex.
  - apply InBlock_drain; [by apply (proj1 (bi_scalars s (proj1 I)))| |done]. by eapply InBlock_ext; [..|exact I].
  - apply InBlock_fail. by eapply InBlock_ext; [..|exact I].
Qed.

Lemma process_pending_CapsInv s :
  CapsInv s -> PendingInv s -> CapsInv (do_process_pending_renewals s).2.
Proof.
  intros I P. rewrite process_pending_eq by done. simpl. destruct P as [P _].
  assert (CapsInv (upd_PendingRenewals (fun _ => []) s)) as I0 by by apply (CapsInv_ext s).
  destruct (extrinsic_index (sys s)) as [x|].
  - eapply CapsInv_ext; [..|by apply (CapsInv_drain x (PendingRenewals (dr s))
      (BlockTransactions (ts s)))]; done.
  - by apply CapsInv_fail.
Qed.
End DrainInvariants.

(** ** Delivery of prepaid cycles *)

Section Delivery.
Context `{Host} `{Config}.

Definition grows (a b : list TransactionInfoFor * State) : Prop :=
  a.1 `prefix_of` b.1 /\ events a.2 `prefix_of` events b.2 /\
  host_calls a.2 `prefix_of` host_calls b.2.

#[global] Instance grows_preorder : PreOrder grows.
Proof.
  split.
  - intros a. by repeat split.
  - intros a b c (?&?&?) (?&?&?). repeat split; by etransitivity.
Qed.

Lemma events_update_used f s : events s `prefix_of` events (update_permanent_storage_used f s).
Proof. rewrite update_used_eq. simpl. by apply prefix_app_r. Qed.

Lemma events_cycle_charge p s :
  events s `prefix_of` events (cycle_charge p s) /\ host_calls (cycle_charge p s) = host_calls s.
Proof.
  unfold cycle_charge. destruct (paid _); [done|]. unfold charge. split.
  - etransitivity; [|apply events_update_used]. done.
  - by rewrite update_used_eq.
Qed.

Lemma drain_one_grows x acc p : grows acc (drain_one x acc p).
Proof.
  destruct acc as [entries s]. rewrite drain_one_eq.
  destruct (events_cycle_charge p s) as [He Hh].
  destruct (cycle_paid s p); [destruct (len entries <? _)|]; split_and!; simpl; try done;
    try by apply prefix_app_r.
  - rewrite Hh. by apply prefix_app_r.
  - etransitivity; [exact He|]. unfold refunded.
    etransitivity; [apply events_update_used|]. apply prefix_app_r. reflexivity.
  - unfold refunded. rewrite update_used_eq. simpl. by rewrite Hh.
Qed.

Lemma drain_grows x items acc : grows acc (foldl (drain_one x) acc items).
Proof.
  revert acc. induction items as [|p items IH]; intros acc; [reflexivity|].
  simpl. etransitivity; [apply drain_one_grows|apply IH].
Qed.

Lemma drain_one_length x entries s p : len (drain_one x (entries, s) p).1 <= len entries + 1.
Proof.
  rewrite drain_one_eq. destruct (cycle_paid s p); [destruct (len entries <? _)|]; simpl; try lia.
  rewrite len_app. unfold len. simpl. lia.
Qed.

(** What delivering [p] leaves behind: its entry, its event and its host call. *)
Definition delivered_in (x : Z) (p : PendingItem) (acc : list TransactionInfoFor * State) : Prop :=
  exists i e,
    acc.1 !! i = Some e /\ ti_content_hash e = ti_content_hash (item_info p) /\
    ti_size e = ti_size (item_info p) /\ ti_chunk_root e = ti_chunk_root (item_info p) /\
    ti_meta e = Renew /\
    RenewalEv (DataRenewed (as_u32 (Z.of_nat i)) (item_hash p) (item_owner p)) ∈ events acc.2 /\
    HostRenew x (ti_content_hash (item_info p)) ∈ host_calls acc.2.

Lemma delivered_in_grows x p a b : grows a b -> delivered_in x p a -> delivered_in x p b.
Proof.
  intros ([k1 E1] & [k2 E2] & [k3 E3]) (i & e & H1 & H2 & H3 & H4 & H5 & H6 & H7).
  exists i, e. rewrite E1, E2, E3. split_and!; try done.
  - by apply lookup_app_l_Some.
  - apply elem_of_app. by left.
  - apply elem_of_app. by left.
Qed.

(** With room in the block, a paid cycle is always delivered. *)
Lemma drain_one_delivers x entries s p :
  len entries < MaxBlockTransactions -> cycle_paid s p = true ->
  delivered_in x p (drain_one x (entries, s) p).
Proof.
  intros Hl Hp. rewrite drain_one_eq, Hp. apply Z.ltb_lt in Hl. rewrite Hl.
  exists (length entries), (pushed (renewed_entry x (item_info p)) entries).
  split_and!; try done.
  - simpl. by apply list_lookup_middle.
  - simpl. apply elem_of_app. right. by apply list_elem_of_singleton.
  - simpl. apply elem_of_app. right. by apply list_elem_of_singleton.
Qed.

Lemma drain_delivers x items entries s p :
  len entries + len items <= MaxBlockTransactions -> p ∈ items -> paid (item_data p) = true ->
  delivered_in x p (foldl (drain_one x) (entries, s) items).
Proof.
  revert entries s. induction items as [|q items IH]; intros entries s Hl Hin Hp.
  - by apply not_elem_of_nil in Hin.
  - assert (len (q :: items) = 1 + len items) as Hc by (unfold len; simpl; lia).
    apply elem_of_cons in Hin as [<-|Hin]; cbn [foldl].
    + eapply delivered_in_grows; [apply drain_grows|].
      apply drain_one_delivers; [pose proof (len_nonneg items); lia|].
      unfold cycle_paid. by rewrite Hp.
    + pose proof (drain_one_length x entries s q).
      destruct (drain_one x (entries, s) q) as [es' s'].
      apply IH; [simpl in *; lia|done|done].
Qed.
End Delivery.

(** ** The queue *)

Section Queue.
Context `{HostLaws} `{!Config} `{!ConfigLaws} `{!ChunkCapacity}.

(** The swept entries that are queued: the latest copy of registered content. *)
Definition queued (regs : gmap ContentHash RenewalData) (items : list (TransactionInfoFor * bool))
    : list PendingItem :=
  omap (fun it : TransactionInfoFor * bool =>
    if it.2 then
      match regs !! ti_content_hash it.1 with
      | Some d => Some (ti_content_hash it.1, it.1, d)
      | None => None
      end
    else None) items.

(** Within the bound, nothing is dropped from the queue. *)
Lemma queue_pending_eq regs items pending :
  len pending + len items <= MaxBlockTransactions ->
  queue_pending regs items pending = pending ++ queued regs items.
Proof.
  revert pending. induction items as [|[info latest] items IH]; intros pending Hl; simpl.
  - by rewrite app_nil_r.
  - assert (len ((info, latest) :: items) = 1 + len items) as Hc by (unfold len; simpl; lia).
    pose proof (len_nonneg items).
    destruct latest; simpl; [destruct (regs !! ti_content_hash info) as [d|]|].
    + assert (try_push MaxBlockTransactions pending (ti_content_hash info, info, d) =
        Some (pending ++ [(ti_content_hash info, info, d)])) as -> by (apply try_push_Some; split; [lia|done]).
      simpl. rewrite IH; [by rewrite <- app_assoc|]. rewrite len_app. unfold len in *. simpl. lia.
    + apply IH. lia.
    + apply IH. lia.
Qed.

Lemma elem_of_queued regs items h :
  (exists p, p ∈ queued regs items /\ item_hash p = h) <->
  is_Some (regs !! h) /\ exists info, (info, true) ∈ items /\ ti_content_hash info = h.
Proof.
  unfold queued. setoid_rewrite list_elem_of_omap. split.
  - intros (p & ([info l] & Hin & Hf) & Hh). simpl in Hf. destruct l; [|done].
    destruct (regs !! ti_content_hash info) as [d|] eqn:E; simplify_eq. unfold item_hash. simpl.
    split; [by eexists|by exists info].
  - intros ([d Hd] & info & Hin & Hh). exists (h, info, d). split; [|done].
    exists (info, true). simpl. by rewrite Hh, Hd.
Qed.

Lemma queue_pending_bound regs items pending :
  len pending <= MaxBlockTransactions ->
  len (queue_pending regs items pending) <= MaxBlockTransactions.
Proof.
  revert pending. induction items as [|[info latest] items IH]; intros pending Hl; simpl; [done|].
  apply IH. destruct latest; [|done]. destruct (regs !! _) as [d|]; [|done].
  destruct (try_push _ _ _) as [k|] eqn:E; simpl; [|done].
  apply try_push_Some in E as [? ->]. rewrite len_app. unfold len in *. simpl. lia.
Qed.

Lemma queue_pending_ok regs items pending :
  Forall item_ok pending -> Forall (fun it => size_ok it.1 /\ entry_typed it.1 /\ is_u32 (ti_block_chunks it.1)) items ->
  Forall item_ok (queue_pending regs items pending).
Proof.
  intros Hp Hi. revert pending Hp. induction Hi as [|[info latest] items (Hx & Ht & Hc) Hi IH];
    intros pending Hp; simpl; [done|].
  apply IH. destruct latest; [|done]. destruct (regs !! _) as [d|]; [|done].
  destruct (try_push _ _ _) as [k|] eqn:E; simpl; [|done].
  apply try_push_Some in E as [_ ->]. apply Forall_app_2; [done|]. by apply Forall_singleton.
Qed.

Lemma renewed_sum_nonneg items : Forall (fun it : TransactionInfoFor * bool => size_ok it.1) items -> 0 <= renewed_sum items.
Proof.
  intros Hi. unfold renewed_sum. assert (forall acc, 0 <= acc ->
    0 <= foldl (fun acc (p : TransactionInfoFor * bool) =>
      if is_renew (ti_meta p.1) then sat_add_u64 acc (ti_size p.1) else acc) acc items) as Hg.
  { induction Hi as [|[info l] items Hx Hi IH]; intros acc Ha; simpl; [done|].
    apply IH. destruct (is_renew _); [|done]. unfold size_ok in Hx. simpl in Hx.
    apply sat_add_nonneg; unfold u64_max; lia. }
  by apply Hg.
Qed.

(** The callback keeps the caps and queues well-formed items. *)
Lemma handle_obsolete_invs n items s :
  Forall (fun it : TransactionInfoFor * bool =>
    size_ok it.1 /\ entry_typed it.1 /\ is_u32 (ti_block_chunks it.1)) items ->
  CapsInv s -> PendingInv s ->
  let s' := renewal_handle_obsolete n items s in CapsInv s' /\ PendingInv s'.
Proof.
  intros Hi [IA IC] [P1 P2]. unfold renewal_handle_obsolete.
  set (s1 := if 0 <? renewed_sum items then update_permanent_storage_used _ s else s).
  assert (CapsInv s1 /\ PendingInv s1) as [I1 [Q1 Q2]].
  { unfold s1. destruct (0 <? renewed_sum items) eqn:E; [b2p|done]. split.
    - split; [eapply AuthInv_same_storage; [apply update_used_frame|done]|].
      apply CapInv_release; [lia|done].
    - unfold PendingInv. by rewrite update_used_eq. }
  assert (PendingInv (upd_PendingRenewals (fun _ =>
    queue_pending (Renewals (dr s1)) items (PendingRenewals (dr s1))) s1)) as P.
  { split; simpl; [by apply queue_pending_ok|by apply queue_pending_bound]. }
  destruct (queue_pending (Renewals (dr s1)) items (PendingRenewals (dr s1))) eqn:E; [done|].
  split; [by eapply CapsInv_ext; [..|exact I1]|exact P].
Qed.
(** The queue after the callback, when it was empty before. *)
Lemma handle_obsolete_queue n items s :
  PendingRenewals (dr s) = [] -> len items <= MaxBlockTransactions ->
  PendingRenewals (dr (renewal_handle_obsolete n items s)) = queued (Renewals (dr s)) items.
Proof.
  intros Hp Hl. unfold renewal_handle_obsolete.
  set (s1 := if 0 <? renewed_sum items then update_permanent_storage_used _ s else s).
  assert (PendingRenewals (dr s1) = [] /\ Renewals (dr s1) = Renewals (dr s)) as [E1 E2].
  { unfold s1. destruct (0 <? _); [by rewrite update_used_eq|done]. }
  rewrite E1, E2, (queue_pending_eq _ _ []) by (unfold len in *; simpl; lia). simpl.
  destruct (queued (Renewals (dr s)) items); done.
Qed.
End Queue.

(** ** Signed renewals *)

Section Signed.
Context `{Host} `{Config}.

Lemma authorize_renew_eq who h size consume s :
  authorize_renew who h size consume s =
  if negb (data_size_ok size) then (Err BAD_DATA_SIZE, s)
  else if block_transactions_full s then (Err ExhaustsResources, s)
  else if renew_allowed s (Preimage h) size
  then (Ok (Preimage h), if consume then charge (Preimage h) size s else s)
  else if renew_allowed s (Account who) size
  then (Ok (Account who), if consume then charge (Account who) size s else s)
  else (Err (renew_error s (Account who) size), s).
Proof.
  unfold authorize_renew. unfold_M. destruct (data_size_ok size); simpl; [|done].
  destruct (block_transactions_full s); simpl; [done|].
  rewrite check_renew_authorization_eq. destruct (renew_allowed s (Preimage h) size); simpl; [done|].
  rewrite check_renew_authorization_eq. by destruct (renew_allowed s (Account who) size).
Qed.

(** What a signed renewal call is charged for: the scope and the bytes, when the
    call passes its checks. [disable_auto_renew] is charged nothing. *)
Definition renewal_charge (s : State) (who : AccountId) (c : RenewalCall)
    : result TransactionValidityError (AuthorizationScope * Z) :=
  let account size :=
    if renew_allowed s (Account who) size then Ok (Account who, size)
    else Err (renew_error s (Account who) size) in
  let registered h := bool_decide (is_Some (Renewals (dr s) !! h)) in
  match c with
  | CallRenew entry =>
      match resolve_transaction_ref s entry with
      | Err _ => Err RENEWED_NOT_FOUND
      | Ok info =>
          if registered (ti_content_hash info) then Err RENEWAL_ALREADY_ENABLED
          else account (ti_size info)
      end
  | CallForceRenew entry =>
      match resolve_transaction_ref s entry with
      | Err _ => Err RENEWED_NOT_FOUND
      | Ok info =>
          if negb (data_size_ok (ti_size info)) then Err BAD_DATA_SIZE
          else if block_transactions_full s then Err ExhaustsResources
          else if renew_allowed s (Preimage (ti_content_hash info)) (ti_size info)
          then Ok (Preimage (ti_content_hash info), ti_size info)
          else account (ti_size info)
      end
  | CallEnableAutoRenew h =>
      if registered h then Err RENEWAL_ALREADY_ENABLED
      else
        match resolve_transaction_ref s (ByContentHash h) with
        | Err _ => Err RENEWED_NOT_FOUND
        | Ok info => account (ti_size info)
        end
  | CallDisableAutoRenew h =>
      match Renewals (dr s) !! h with
      | None => Err AUTO_RENEWAL_NOT_ENABLED
      | Some d =>
          if negb (bool_decide (rd_account d = who)) then Err NOT_AUTO_RENEWAL_OWNER
          else if paid d then Err CANNOT_DISABLE_PREPAID_AUTO_RENEWAL
          else Ok (Account who, 0)
      end
  | CallProcessPendingRenewals => Err InvalidCall
  end.

(** The state after the charge; disabling is free. *)
Definition apply_charge (c : RenewalCall) (scope : AuthorizationScope) (size : Z) (s : State)
    : State :=
  match c with CallDisableAutoRenew _ => s | _ => charge scope size s end.

(** Pool validation and preparation of a signed renewal call agree on the
    outcome; preparation adds exactly the charge. *)
Lemma check_renewal_signed_spec who c ctx s :
  match renewal_charge s who c with
  | Ok (scope, size) =>
      exists vt, check_renewal_signed who c ctx s =
        (Ok (vt, Some scope),
         if consume_authorization ctx then apply_charge c scope size s else s)
  | Err e => check_renewal_signed who c ctx s = (Err e, s)
  end.
Proof.
  destruct c as [entry|entry|h|h|]; unfold check_renewal_signed, renewal_charge, resolve_or; unfold_M.
  - destruct (resolve_transaction_ref s entry) as [info|e]; [|done].
    destruct (bool_decide _); simpl; [done|]. rewrite check_renew_authorization_eq.
    destruct (renew_allowed _ _ _); [|done]. simpl. destruct ctx; by eexists.
  - destruct (resolve_transaction_ref s entry) as [info|e]; [|done].
    rewrite authorize_renew_eq. destruct (data_size_ok _); simpl; [|done].
    destruct (block_transactions_full s); [done|].
    destruct (renew_allowed _ (Preimage _) _); simpl; [destruct ctx; by eexists|].
    destruct (renew_allowed _ (Account _) _); simpl; [destruct ctx; by eexists|done].
  - destruct (bool_decide _); simpl; [done|].
    unfold lookup_by_content_hash, resolve_transaction_ref.
    destruct (TransactionByContentHash (ts s) !! h) as [[b i]|]; simpl; [|done].
    destruct (transaction_info s b i) as [info|]; simpl; [|done].
    rewrite check_renew_authorization_eq.
    destruct (renew_allowed _ _ _); [|done]. simpl. destruct ctx; by eexists.
  - destruct (Renewals (dr s) !! h) as [d|]; simpl; [|done].
    destruct (bool_decide _); simpl; [|done]. destruct (paid d); simpl; [done|].
    destruct ctx; by eexists.
  - done.
Qed.
End Signed.
