(* ===== verification/Hop.v ===== *)
(** HOP promotion ([pallets/hop-promotion/src/lib.rs]): the signing payloads, the
    two authorize closures, the two dispatchables and the integrity test, with the
    facts that a promotion is checked, never charged, and lands in storage. *)

From S2P Require Import Prelude Slice Primitives Types State Authorizations Blocks Retention Checks.
From Stdlib Require Strings.String.

(** ** Code outside the repository *)

(** [sp_runtime]'s [MultiSigner] and [MultiSignature]. *)
Class HopHost := {
  MultiSigner : Type;
  MultiSignature : Type;
  into_account : MultiSigner -> AccountId;
  signature_verify : MultiSignature -> bytes -> AccountId -> bool;
}.

(** [sp_runtime::transaction_validity::TransactionSource]. *)
Inductive TransactionSource := SourceInBlock | SourceLocal | SourceExternal.

(** ** Constants and payloads *)

Definition HOP_SUBMIT_CONTEXT : bytes := String.list_byte_of_string "hop-submit-v1:".
Definition HOP_SUBMIT_CONTEXT_V2 : bytes := String.list_byte_of_string "hop-submit-v2:".

Definition EMPTY_RECIPIENTS_HASH : bytes := map byte_of_Z [
  0x03; 0x17; 0x0a; 0x2e; 0x75; 0x97; 0xb7; 0xb7; 0xe3; 0xd8; 0x4c; 0x05; 0x39; 0x1d; 0x13; 0x9a;
  0x62; 0xb1; 0x57; 0xe7; 0x87; 0x86; 0xd8; 0xc0; 0x82; 0xf2; 0x9d; 0xcf; 0x4c; 0x11; 0x13; 0x14].

Section Hop.
Context `{Host} `{Config} `{HopHost}.

(** The buffers the payloads hash. *)
Definition payload_buf (data_hash : bytes) (submit_timestamp : Z) : bytes :=
  HOP_SUBMIT_CONTEXT ++ data_hash ++ u64_to_le_bytes submit_timestamp.

Definition payload_buf_v2 (data_hash : bytes) (submit_timestamp : Z)
    (genesis recipients_hash : bytes) : bytes :=
  HOP_SUBMIT_CONTEXT_V2 ++ data_hash ++ u64_to_le_bytes submit_timestamp
    ++ genesis ++ recipients_hash.

Definition signing_payload (data_hash : bytes) (submit_timestamp : Z) : bytes :=
  blake2_256 (payload_buf data_hash submit_timestamp).

Definition signing_payload_v2 (data_hash : bytes) (submit_timestamp : Z)
    (genesis recipients_hash : bytes) : bytes :=
  blake2_256 (payload_buf_v2 data_hash submit_timestamp genesis recipients_hash).

(** [Pallet::can_account_promote]: the length is ignored. *)
Definition can_account_promote (s : State) (who : AccountId) (data_len : Z) : bool :=
  account_has_active_authorization s who.

(** [Pallet::is_promoted_on_chain]. *)
Definition is_promoted_on_chain (s : State) (content_hash : ContentHash) : bool :=
  contains_transaction s content_hash.

(** [ValidTransaction { propagate: false, ..vt }]. *)
Definition no_propagate (vt : ValidTransaction) : ValidTransaction :=
  mkValidTransaction (vt_priority vt) (vt_requires vt) (vt_provides vt) (vt_longevity vt) false.

(** [Pallet::authorize_promote]; the refunded weight is always zero. *)
Definition authorize_promote (source : TransactionSource) (signer : MultiSigner)
    (signature : MultiSignature) (submit_timestamp : Z) (data : bytes) (s : State)
    : result TransactionValidityError ValidTransaction :=
  if match source with SourceExternal => true | _ => false end then Err InvalidCall
  else if negb (data_size_ok (len data)) then Err BAD_DATA_SIZE
  else if block_transactions_full s then Err ExhaustsResources
  else
    let now_ms := timestamp_now (sys s) in
    let skew := abs_diff now_ms submit_timestamp in
    if SubmitTimestampTolerance <? skew then Err Stale
    else
      let account_id := into_account signer in
      if negb (can_account_promote s account_id (as_u32 (len data))) then Err BadSigner
      else
        let data_hash := blake2_256 data in
        let payload := signing_payload data_hash submit_timestamp in
        if negb (signature_verify signature payload account_id) then Err BadProof
        else Ok (no_propagate (provides PromoteTxParams data_hash)).

(** [Pallet::authorize_promote_v2]. *)
Definition authorize_promote_v2 (source : TransactionSource) (signer : MultiSigner)
    (signature : MultiSignature) (submit_timestamp : Z) (recipients_hash : bytes) (data : bytes)
    (s : State) : result TransactionValidityError ValidTransaction :=
  if match source with SourceExternal => true | _ => false end then Err InvalidCall
  else if negb (data_size_ok (len data)) then Err BAD_DATA_SIZE
  else if block_transactions_full s then Err ExhaustsResources
  else
    let now_ms := timestamp_now (sys s) in
    let skew := abs_diff now_ms submit_timestamp in
    if SubmitTimestampTolerance <? skew then Err Stale
    else if bool_decide (recipients_hash = EMPTY_RECIPIENTS_HASH) then Err NO_RECIPIENTS
    else
      let account_id := into_account signer in
      if negb (can_account_promote s account_id (as_u32 (len data))) then Err BadSigner
      else
        let data_hash := blake2_256 data in
        let genesis := genesis_hash (sys s) in
        let payload := signing_payload_v2 data_hash submit_timestamp genesis recipients_hash in
        if negb (signature_verify signature payload account_id) then Err BadProof
        else Ok (no_propagate (provides PromoteTxParams data_hash)).

(** [frame_system::ensure_authorized]. *)
Definition ensure_authorized_call (o : RuntimeOrigin) : bool :=
  match o with System AuthorizedCall => true | _ => false end.

(** [pallet::Call]. *)
Inductive HopCall :=
| CallPromote (signer : MultiSigner) (signature : MultiSignature) (submit_timestamp : Z)
    (data : bytes)
| CallPromoteV2 (signer : MultiSigner) (signature : MultiSignature) (submit_timestamp : Z)
    (recipients_hash : bytes) (data : bytes).

Definition promote (o : RuntimeOrigin) (signer : MultiSigner) (signature : MultiSignature)
    (submit_timestamp : Z) (data : bytes) : MD unit :=
  do! ensure (ensure_authorized_call o) BadOrigin in
  do_store data Blake2b256 RAW_CODEC.

Definition promote_v2 (o : RuntimeOrigin) (signer : MultiSigner) (signature : MultiSignature)
    (submit_timestamp : Z) (recipients_hash : bytes) (data : bytes) : MD unit :=
  do! ensure (ensure_authorized_call o) BadOrigin in
  do_store data Blake2b256 RAW_CODEC.

Definition dispatch_hop (o : RuntimeOrigin) (c : HopCall) : MD unit :=
  match c with
  | CallPromote signer signature t data => promote o signer signature t data
  | CallPromoteV2 signer signature t r data => promote_v2 o signer signature t r data
  end.

(** The [#[pallet::authorize]] closure of a call. *)
Definition authorize_hop (source : TransactionSource) (c : HopCall) (s : State)
    : result TransactionValidityError ValidTransaction :=
  match c with
  | CallPromote signer signature t data => authorize_promote source signer signature t data s
  | CallPromoteV2 signer signature t r data =>
      authorize_promote_v2 source signer signature t r data s
  end.

(** [Hooks::integrity_test]. *)
Definition hop_integrity_test : bool :=
  (params_priority PromoteTxParams <? params_priority StoreTxParams)
  && assert_pool_families_distinct [("PromoteTxParams"%string, PromoteTxParams)].

Definition hop_data (c : HopCall) : bytes :=
  match c with CallPromote _ _ _ data => data | CallPromoteV2 _ _ _ _ data => data end.
Definition hop_signer (c : HopCall) : MultiSigner :=
  match c with CallPromote signer _ _ _ => signer | CallPromoteV2 signer _ _ _ _ => signer end.
Definition hop_timestamp (c : HopCall) : Z :=
  match c with CallPromote _ _ t _ => t | CallPromoteV2 _ _ t _ _ => t end.
End Hop.

(** ** Payloads *)

Lemma u64_to_le_bytes_inj x y :
  is_u64 x -> is_u64 y -> u64_to_le_bytes x = u64_to_le_bytes y -> x = y.
Proof. unfold is_u64, u64_max. intros Hx Hy. apply le_bytes_inj; simpl; lia. Qed.

Lemma contexts_differ : HOP_SUBMIT_CONTEXT <> HOP_SUBMIT_CONTEXT_V2.
Proof. by vm_compute. Qed.

(** The version-1 buffer determines what was signed. *)
Lemma payload_buf_inj h h' t t' :
  length h = length h' -> is_u64 t -> is_u64 t' ->
  payload_buf h t = payload_buf h' t' -> h = h' /\ t = t'.
Proof.
  unfold payload_buf. intros Hl Ht Ht' Heq. apply app_inv_head in Heq.
  apply app_inj_1 in Heq as [-> Heq]; [|done]. split; [done|by apply u64_to_le_bytes_inj].
Qed.

(** So does the version-2 buffer, the chain and the recipients included. *)
Lemma payload_buf_v2_inj h h' t t' g g' r r' :
  length h = length h' -> length g = length g' -> is_u64 t -> is_u64 t' ->
  payload_buf_v2 h t g r = payload_buf_v2 h' t' g' r' -> h = h' /\ t = t' /\ g = g' /\ r = r'.
Proof.
  unfold payload_buf_v2. intros Hl Hg Ht Ht' Heq. apply app_inv_head in Heq.
  apply app_inj_1 in Heq as [-> Heq]; [|done].
  apply app_inj_1 in Heq as [Heq Hrest]; [|unfold u64_to_le_bytes; by rewrite !length_le_bytes].
  apply app_inj_1 in Hrest as [-> ->]; [|done].
  split_and!; [done|by apply u64_to_le_bytes_inj|done|done].
Qed.

(** No version-1 buffer is a version-2 buffer. *)
Lemma payload_bufs_disjoint h t h' t' g r : payload_buf h t <> payload_buf_v2 h' t' g r.
Proof.
  unfold payload_buf, payload_buf_v2. intros Heq. apply app_inj_1 in Heq as [Heq _]; [|done].
  by apply contexts_differ in Heq.
Qed.

(** ** Promotions *)

Section HopFacts.
Context `{HostLaws} `{!Config} `{!ConfigLaws} `{!ChunkCapacity} `{!HopHost}.

(** The signature a promotion must carry. *)
Definition hop_signature_ok (s : State) (c : HopCall) : bool :=
  match c with
  | CallPromote signer signature t data =>
      signature_verify signature (signing_payload (blake2_256 data) t) (into_account signer)
  | CallPromoteV2 signer signature t r data =>
      signature_verify signature
        (signing_payload_v2 (blake2_256 data) t (genesis_hash (sys s)) r) (into_account signer)
      && negb (bool_decide (r = EMPTY_RECIPIENTS_HASH))
  end.

(** Every condition of the authorize closures. *)
Definition promotable (source : TransactionSource) (c : HopCall) (s : State) : Prop :=
  source <> SourceExternal /\ 0 < len (hop_data c) <= MaxTransactionSize /\
  block_transactions_full s = false /\
  Z.abs (timestamp_now (sys s) - hop_timestamp c) <= SubmitTimestampTolerance /\
  active s (Account (into_account (hop_signer c))) = true /\
  hop_signature_ok s c = true.

Lemma authorize_hop_ok source c s vt :
  authorize_hop source c s = Ok vt <->
  promotable source c s /\
  vt = no_propagate (provides PromoteTxParams (blake2_256 (hop_data c))).
Proof.
  unfold promotable. rewrite active_account, <- data_size_ok_size.
  destruct c as [signer sig t data|signer sig t r data]; simpl;
    unfold authorize_promote, authorize_promote_v2, can_account_promote, abs_diff;
    (destruct source; [| |naive_solver]).
  all: destruct (data_size_ok (len data)); [simpl|naive_solver].
  all: destruct (block_transactions_full s); [naive_solver|simpl].
  all: destruct (SubmitTimestampTolerance <? _) eqn:Es; b2p; [naive_solver lia|].
  all: try (destruct (bool_decide (r = _)); [rewrite andb_false_r; naive_solver|rewrite andb_true_r]).
  all: destruct (account_has_active_authorization s _); [simpl|naive_solver].
  all: destruct (signature_verify sig _ _); naive_solver.
Qed.

Lemma block_not_full s :
  wf_entries (BlockTransactions (ts s)) -> block_transactions_full s = false ->
  len (BlockTransactions (ts s)) < MaxBlockTransactions.
Proof.
  intros Hwf. unfold block_transactions_full, block_transactions_count.
  rewrite (wf_entries_len_u32 _ Hwf). intros Hf. b2p. done.
Qed.

(** An authorized promotion always dispatches: it stores its data under the
    Blake2b hash. *)
Lemma promotable_stores source c s x :
  promotable source c s -> wf_entries (BlockTransactions (ts s)) ->
  extrinsic_index (sys s) = Some x ->
  dispatch_hop (System AuthorizedCall) c s =
    (Ok tt, stored x (hop_data c) Blake2b256 RAW_CODEC s).
Proof.
  intros (_ & Hsz & Hfull & _) Hwf Hx. pose proof (block_not_full s Hwf Hfull) as Hl.
  assert (dispatch_hop (System AuthorizedCall) c s =
    do_store (hop_data c) Blake2b256 RAW_CODEC s) as -> by by destruct c.
  rewrite do_store_eq. pose proof MaxTransactionSize_range.
  rewrite as_u32_small by (unfold is_u32; lia).
  apply data_size_ok_size in Hsz. rewrite Hsz, Hx. simpl. apply Z.ltb_lt in Hl. by rewrite Hl.
Qed.
End HopFacts.
