(* ===== verification/Extension.v ===== *)
(** The transaction extensions of the storage pallet
    ([pallets/transaction-storage/src/extension.rs]), the renewal pallet's leaves
    ([pallets/data-renewal/src/extension.rs]), the wrapper inspection
    ([pallets/common/src/lib.rs], [runtimes/bulletin-paseo/src/storage.rs]) and
    the allowance-based priority. *)

From S2P Require Import Prelude Slice Primitives Types State Authorizations Blocks Checks Renewal Hop.

Section Calls.
Context `{HopHost}.

(** The runtime's call enum: the calls of the repository's pallets, [Utility]'s,
    and the calls of any other pallet, which no code here looks into. *)
Inductive RuntimeCall :=
| TransactionStorage (c : StorageCall)
| DataRenewal (c : RenewalCall)
| HopPromotion (c : HopCall)
| Utility (c : UtilityCall)
| OtherPallet (encoded : bytes)

(** [pallet_utility::Call]: the variants [utility_inner_calls] matches on. *)
with UtilityCall :=
| batch (calls : list RuntimeCall)
| batch_all (calls : list RuntimeCall)
| force_batch (calls : list RuntimeCall)
| as_derivative (index : Z) (call : RuntimeCall)
| dispatch_as (as_origin : RuntimeOrigin) (call : RuntimeCall)
| with_weight (call : RuntimeCall)
| dispatch_as_fallible (as_origin : RuntimeOrigin) (call : RuntimeCall)
| if_else (main fallback : RuntimeCall).

(** [utility_inner_calls]. *)
Definition utility_inner_calls (c : UtilityCall) : list RuntimeCall :=
  match c with
  | batch calls | batch_all calls | force_batch calls => calls
  | as_derivative _ call | dispatch_as _ call | with_weight call
  | dispatch_as_fallible _ call => [call]
  | if_else main fallback => [main; fallback]
  end.

(** [inspect_utility_wrapper]. *)
Definition inspect_utility_wrapper (c : UtilityCall) : option (list RuntimeCall) :=
  match utility_inner_calls c with [] => None | inner => Some inner end.

(** [StorageCallInspector::inspect_wrapper]. *)
Definition inspect_wrapper (c : RuntimeCall) : option (list RuntimeCall) :=
  match c with
  | Utility u => inspect_utility_wrapper u
  | _ => None
  end.

Definition MAX_WRAPPER_DEPTH : Z := 8.

(** [IsSubType] of the two pallets' calls. *)
Definition storage_sub_type (c : RuntimeCall) : option StorageCall :=
  match c with TransactionStorage i => Some i | _ => None end.
Definition renewal_sub_type (c : RuntimeCall) : option RenewalCall :=
  match c with DataRenewal i => Some i | _ => None end.

Definition is_store_call (c : StorageCall) : bool :=
  match c with CallStore _ | CallStoreWithCidConfig _ _ => true | _ => false end.

(** [CallInspector::is_storage_mutating_call]; [fuel] bounds the recursion, which
    the depth test stops first. *)
Fixpoint is_storage_mutating_fuel (fuel : nat) (c : RuntimeCall) (depth : Z) : bool :=
  match storage_sub_type c with
  | Some inner_call => is_store_call inner_call
  | None =>
      if MAX_WRAPPER_DEPTH <=? depth then true
      else
        match fuel, inspect_wrapper c with
        | S fuel', Some inner_calls =>
            existsb (fun inner => is_storage_mutating_fuel fuel' inner (depth + 1)) inner_calls
        | O, Some _ => true
        | _, None => false
        end
  end.

(** Levels below [depth] the recursion can still descend. *)
Definition depth_fuel (depth : Z) : nat := Z.to_nat (MAX_WRAPPER_DEPTH - depth).

Definition is_storage_mutating_call (c : RuntimeCall) (depth : Z) : bool :=
  is_storage_mutating_fuel (depth_fuel depth) c depth.

(** [Contains::contains] of [StorageCallInspector], the XCM call filter. *)
Definition contains (c : RuntimeCall) : bool := is_storage_mutating_call c 0.

(** [ValidateAuthorizedCalls::walk], for any visitor with its own state. *)
Fixpoint walk_fuel {S} (fuel : nat) (visitor : RuntimeCall -> Z -> M S TransactionValidityError bool)
    (c : RuntimeCall) (depth : Z) : M S TransactionValidityError unit :=
  let! claimed := visitor c depth in
  if claimed : bool then ret tt
  else if MAX_WRAPPER_DEPTH <=? depth then throw InvalidCall
  else
    match fuel, inspect_wrapper c with
    | Datatypes.S fuel', Some inner_calls =>
        mfor inner_calls (fun inner => walk_fuel fuel' visitor inner (depth + 1))
    | O, Some _ => throw InvalidCall
    | _, None => ret tt
    end.

Definition walk {S} (visitor : RuntimeCall -> Z -> M S TransactionValidityError bool)
    (c : RuntimeCall) (depth : Z) : M S TransactionValidityError unit :=
  walk_fuel (depth_fuel depth) visitor c depth.

(** ** Leaf validators *)

(** [LeafValidator]. *)
Record LeafValidator := mkLeafValidator {
  validate_leaf : AccountId -> RuntimeCall -> Z ->
    MV (option (ValidTransaction * option AuthorizationScope));
  prepare_leaf : AccountId -> RuntimeCall -> Z -> MV bool }.

(** [impl LeafValidator for Tuple]: offered in order until one claims it. *)
Fixpoint tuple_validate_leaf (vs : list LeafValidator) (who : AccountId) (c : RuntimeCall)
    (depth : Z) : MV (option (ValidTransaction * option AuthorizationScope)) :=
  match vs with
  | [] => ret None
  | v :: vs' =>
      let! r := validate_leaf v who c depth in
      match r with
      | Some x => ret (Some x)
      | None => tuple_validate_leaf vs' who c depth
      end
  end.

Fixpoint tuple_prepare_leaf (vs : list LeafValidator) (who : AccountId) (c : RuntimeCall)
    (depth : Z) : MV bool :=
  match vs with
  | [] => ret false
  | v :: vs' =>
      let! claimed := prepare_leaf v who c depth in
      if claimed : bool then ret true else tuple_prepare_leaf vs' who c depth
  end.

Definition LeafTuple (vs : list LeafValidator) : LeafValidator :=
  mkLeafValidator (tuple_validate_leaf vs) (tuple_prepare_leaf vs).
End Calls.

Section Leaves.
Context `{HopHost} `{Host} `{Config}.

(** [StorageLeaves]. *)
Definition StorageLeaves : LeafValidator := mkLeafValidator
  (fun who c depth =>
    match storage_sub_type c with
    | None => ret None
    | Some inner_call =>
        if (0 <? depth) && is_store_call inner_call then throw InvalidCall
        else let! r := validate_signed who inner_call in ret (Some r)
    end)
  (fun who c depth =>
    match storage_sub_type c with
    | None => ret false
    | Some inner_call =>
        if (0 <? depth) && is_store_call inner_call then throw InvalidCall
        else do! pre_dispatch_signed who inner_call in ret true
    end).

(** [RenewalLeaves]. *)
Definition RenewalLeaves : LeafValidator := mkLeafValidator
  (fun who c depth =>
    match renewal_sub_type c with
    | None => ret None
    | Some inner_call =>
        if 0 <? depth then throw InvalidCall
        else let! r := validate_renewal_signed who inner_call in ret (Some r)
    end)
  (fun who c depth =>
    match renewal_sub_type c with
    | None => ret false
    | Some inner_call =>
        if 0 <? depth then throw InvalidCall
        else do! pre_dispatch_renewal_signed who inner_call in ret true
    end).

(** The tuple the runtimes wire. *)
Definition RuntimeLeaves : LeafValidator := LeafTuple [StorageLeaves; RenewalLeaves].

(** ** [ValidateAuthorizedCalls] *)

(** What the validating walk accumulates. *)
Record WalkAcc := mkWalkAcc {
  combined : ValidTransaction;
  last_scope : option AuthorizationScope;
  visited_any : bool }.

Definition as_system_origin_signer (o : RuntimeOrigin) : option AccountId :=
  match o with System (Signed who) => Some who | _ => None end.

(** The closure [validate] passes to [walk]. *)
Definition validate_visitor (L : LeafValidator) (who : AccountId) (leaf : RuntimeCall) (depth : Z)
    : M (State * WalkAcc) TransactionValidityError bool := fun p =>
  let '(s, acc) := p in
  match validate_leaf L who leaf depth s with
  | (Err e, s') => (Err e, (s', acc))
  | (Ok None, s') => (Ok false, (s', acc))
  | (Ok (Some (valid_tx, maybe_scope)), s') =>
      (Ok true, (s', mkWalkAcc (ValidTransaction_combine_with (combined acc) valid_tx)
                       (match maybe_scope with Some sc => Some sc | None => last_scope acc end)
                       true))
  end.

(** [TransactionExtension::validate]. *)
Definition validate (L : LeafValidator) (o : RuntimeOrigin) (c : RuntimeCall)
    : MV (ValidTransaction * option AccountId * RuntimeOrigin) := fun s =>
  match as_system_origin_signer o with
  | None => (Ok (ValidTransaction_default, None, o), s)
  | Some who =>
      match walk (validate_visitor L who) c 0
              (s, mkWalkAcc ValidTransaction_default None false) with
      | (Err e, (s', _)) => (Err e, s')
      | (Ok _, (s', acc)) =>
          let origin := match last_scope acc with
                        | Some scope => OriginAuthorized who scope
                        | None => o end in
          (Ok (combined acc, if visited_any acc then Some who else None, origin), s')
      end
  end.

(** [TransactionExtension::prepare]. *)
Definition prepare (L : LeafValidator) (val : option AccountId) (c : RuntimeCall) : MV unit :=
  match val with
  | None => ret tt
  | Some who => walk (fun leaf depth => prepare_leaf L who leaf depth) c 0
  end.

(** ** Priorities *)

Definition ALLOWANCE_PRIORITY_BOOST : Z := 1000000000.

Definition in_budget {Extra} (e : AuthorizationExtent Extra) : bool :=
  if bytes_allowance e =? 0 then false
  else (extent_bytes e <=? bytes_allowance e)
       && (extent_transactions e <=? transactions_allowance e).

(** [ProportionalBoost::boost]. *)
Definition ProportionalBoost {Extra} (e : AuthorizationExtent Extra) : Z :=
  if negb (in_budget e) then 0
  else
    let bytes_rem := sat_sub (bytes_allowance e) (extent_bytes e) in
    let bytes_share := (ALLOWANCE_PRIORITY_BOOST * bytes_rem) / bytes_allowance e in
    let tx_share :=
      if transactions_allowance e =? 0 then 0
      else
        let tx_rem := sat_sub (transactions_allowance e) (extent_transactions e) in
        (ALLOWANCE_PRIORITY_BOOST * tx_rem) / transactions_allowance e in
    as_u64 (Z.min bytes_share tx_share).

(** [FlatBoost::boost]. *)
Definition FlatBoost {Extra} (e : AuthorizationExtent Extra) : Z :=
  if in_budget e then ALLOWANCE_PRIORITY_BOOST else 0.

(** The extent after a store of [n] bytes, as the extension projects it. *)
Definition post_tx_extent (n : Z) (e : AuthorizationExtentFor) : AuthorizationExtentFor :=
  mkExtent (sat_add_u32 (extent_transactions e) 1) (transactions_allowance e)
    (sat_add_u64 (extent_bytes e) n) (extra e) (bytes_allowance e).

(** [AllowanceBasedPriority::validate], for a boost strategy. *)
Definition AllowanceBasedPriority (boost : AuthorizationExtentFor -> Z) (s : State)
    (o : RuntimeOrigin) (c : RuntimeCall) : ValidTransaction :=
  match storage_sub_type c with
  | Some (CallStore data) | Some (CallStoreWithCidConfig _ data) =>
      let this_tx_bytes := as_u64 (len data) in
      let priority :=
        match o with
        | OriginAuthorized who (Account _) =>
            boost (post_tx_extent this_tx_bytes (account_authorization_extent s who))
        | _ => 0
        end in
      mkValidTransaction priority (vt_requires ValidTransaction_default)
        (vt_provides ValidTransaction_default) (vt_longevity ValidTransaction_default)
        (vt_propagate ValidTransaction_default)
  | _ => ValidTransaction_default
  end.
End Leaves.
