(* ===== verification/ExtensionFacts.v ===== *)
(** Facts about the transaction extensions: the walk reaches every inspected
    call, direct-only calls are never accepted inside wrappers, validation is read
    only and implies preparation, and the priority boosts are bounded. *)

From S2P Require Import Prelude Slice Primitives Types State Authorizations Blocks Retention Checks Renewal RenewalFacts Hop Extension.

(** ** Loops *)

Lemma mfor_Ok {S E A} (xs : list A) (body : A -> M S E unit) st st' :
  mfor xs body st = (Ok tt, st') ->
  forall x, x ∈ xs -> exists st1 st2, body x st1 = (Ok tt, st2).
Proof.
  revert st. induction xs as [|y xs IH]; intros st Hm x Hx; [by apply not_elem_of_nil in Hx|].
  simpl in Hm. unfold bind in Hm. destruct (body y st) as [[[]|e] st1] eqn:Ey; [|done].
  apply elem_of_cons in Hx as [->|Hx]; eauto.
Qed.

Section Walk.
Context `{HopHost}.

(** [l] is reached from [c] through [n] inspected wrappers. *)
Inductive inspected : RuntimeCall -> nat -> RuntimeCall -> Prop :=
| inspected_here c : inspected c 0 c
| inspected_inner c inner c' n l :
    inspect_wrapper c = Some inner -> c' ∈ inner -> inspected c' n l -> inspected c (S n) l.

Lemma depth_fuel_S depth :
  depth < MAX_WRAPPER_DEPTH -> depth_fuel depth = S (depth_fuel (depth + 1)).
Proof. unfold depth_fuel. lia. Qed.

(** Fuel beyond the remaining depth is never used. *)
Lemma walk_fuel_enough {St} (visitor : RuntimeCall -> Z -> M St TransactionValidityError bool)
    fuel c depth st :
  (depth_fuel depth <= fuel)%nat ->
  walk_fuel fuel visitor c depth st = walk visitor c depth st.
Proof.
  unfold walk. revert c depth st. induction fuel as [|fuel IH]; intros c depth st Hf.
  - assert (depth_fuel depth = 0)%nat as -> by lia. done.
  - destruct (decide (depth < MAX_WRAPPER_DEPTH)) as [Hd|Hd].
    + rewrite (depth_fuel_S depth Hd) in *. simpl. unfold bind.
      destruct (visitor c depth st) as [[[|]|e] st1]; try done.
      destruct (MAX_WRAPPER_DEPTH <=? depth); [done|].
      destruct (inspect_wrapper c) as [inner|]; [|done].
      clear c. revert st1. induction inner as [|i inner IHi]; intros st1; [done|].
      simpl. unfold bind. rewrite IH by lia.
      destruct (walk_fuel (depth_fuel (depth + 1)) visitor i (depth + 1) st1) as [[|] ?];
        [apply IHi|done].
    + assert (depth_fuel depth = 0%nat) as -> by (unfold depth_fuel; lia). simpl. unfold bind.
      destruct (visitor c depth st) as [[[|]|e] st1]; try done.
      destruct (MAX_WRAPPER_DEPTH <=? depth) eqn:E; b2p; [done|lia].
Qed.

(** One step of the walk, without fuel. *)
Lemma walk_eq {St} (visitor : RuntimeCall -> Z -> M St TransactionValidityError bool) c depth :
  depth < MAX_WRAPPER_DEPTH ->
  walk visitor c depth =
  let! claimed := visitor c depth in
  if claimed : bool then ret tt
  else match inspect_wrapper c with
       | Some inner => mfor inner (fun i => walk visitor i (depth + 1))
       | None => ret tt
       end.
Proof.
  intros Hd. unfold walk. rewrite (depth_fuel_S depth Hd). simpl.
  destruct (MAX_WRAPPER_DEPTH <=? depth) eqn:E; b2p; [lia|]. done.
Qed.

Lemma walk_at_limit {St} (visitor : RuntimeCall -> Z -> M St TransactionValidityError bool) c depth :
  MAX_WRAPPER_DEPTH <= depth ->
  walk visitor c depth =
  let! claimed := visitor c depth in
  if claimed : bool then ret tt else throw InvalidCall.
Proof.
  intros Hd. unfold walk. assert (depth_fuel depth = 0%nat) as -> by (unfold depth_fuel; lia).
  simpl. destruct (MAX_WRAPPER_DEPTH <=? depth) eqn:E; b2p; [done|lia].
Qed.

(** A walk that succeeds has offered every inspected call to the visitor, at its
    depth, and the visitor did not fail on it; nothing hides behind the limit. *)
Lemma walk_visits {St} (visitor : RuntimeCall -> Z -> M St TransactionValidityError bool) :
  (forall c d st st', is_Some (inspect_wrapper c) -> visitor c d st <> (Ok true, st')) ->
  forall c n l, inspected c n l ->
  forall d st st', walk visitor c d st = (Ok tt, st') ->
  exists st1 b st2, visitor l (d + Z.of_nat n) st1 = (Ok b, st2).
Proof.
  intros Hw c n l Hi. induction Hi as [c|c inner c' n l Hin Hc' Hi IH]; intros d st st' Hok.
  - replace (d + Z.of_nat 0) with d by lia.
    exists st. destruct (decide (d < MAX_WRAPPER_DEPTH)) as [Hd|Hd].
    + rewrite walk_eq in Hok by done. unfold bind in Hok.
      destruct (visitor c d st) as [[b|e] st1]; [by eauto|done].
    + rewrite walk_at_limit in Hok by lia. unfold bind in Hok.
      destruct (visitor c d st) as [[b|e] st1]; [by eauto|done].
  - destruct (decide (d < MAX_WRAPPER_DEPTH)) as [Hd|Hd].
    + rewrite walk_eq in Hok by done. unfold bind in Hok.
      destruct (visitor c d st) as [[[|]|e] st1] eqn:Ev; [by apply Hw in Ev; eauto| |done].
      rewrite Hin in Hok. destruct (mfor_Ok _ _ _ _ Hok _ Hc') as (st2 & st3 & H2).
      replace (d + Z.of_nat (S n)) with (d + 1 + Z.of_nat n) by lia. by eapply IH.
    + rewrite walk_at_limit in Hok by lia. unfold bind in Hok.
      destruct (visitor c d st) as [[[|]|e] st1] eqn:Ev; [by apply Hw in Ev; eauto|done|done].
Qed.

(** The XCM filter finds a store call at any depth. *)
Lemma mutating_sound c n l :
  inspected c n l -> forall d, 
  is_storage_mutating_call c d = false ->
  match storage_sub_type l with Some i => is_store_call i = false | None => True end.
Proof.
  unfold is_storage_mutating_call.
  induction 1 as [c|c inner c' n l Hin Hc' Hi IH]; intros d Hf.
  - destruct (storage_sub_type c) eqn:E; [|done].
    destruct (depth_fuel d); simpl in Hf; by rewrite E in Hf.
  - destruct c as [i|i|i|u|o]; try done.
    destruct (decide (d < MAX_WRAPPER_DEPTH)) as [Hd|Hd].
    + rewrite (depth_fuel_S d Hd) in Hf. cbn [is_storage_mutating_fuel storage_sub_type] in Hf.
      destruct (_ <=? d); [done|]. rewrite Hin in Hf.
      apply (IH (d + 1)). destruct (is_storage_mutating_fuel _ c' _) eqn:Ec; [|done].
      assert (existsb (fun i => is_storage_mutating_fuel (depth_fuel (d + 1)) i (d + 1)) inner = true)
        as Hex; [|congruence].
      apply existsb_exists. exists c'. split; [by apply list_elem_of_In|done].
    + destruct (depth_fuel d) eqn:Ed; cbn [is_storage_mutating_fuel storage_sub_type] in Hf;
        (destruct (_ <=? d) eqn:E; b2p; [done|lia]).
Qed.
End Walk.

(** ** Direct-only calls *)

Section Leaves.
Context `{HopHost} `{Host} `{Config}.

(** Calls the leaf validators accept only as the extrinsic itself. *)
Definition direct_only (c : RuntimeCall) : bool :=
  match c with
  | TransactionStorage i => is_store_call i
  | DataRenewal _ => true
  | _ => false
  end.

Lemma direct_only_nested_validate who c d s :
  0 < d -> direct_only c = true -> validate_leaf RuntimeLeaves who c d s = (Err InvalidCall, s).
Proof.
  intros Hd Hc. apply Z.ltb_lt in Hd. destruct c as [i|i|i|u|o]; try done; simpl in *;
    unfold_M; simpl; rewrite Hd; [by rewrite Hc|done].
Qed.

Lemma direct_only_nested_prepare who c d s :
  0 < d -> direct_only c = true -> prepare_leaf RuntimeLeaves who c d s = (Err InvalidCall, s).
Proof.
  intros Hd Hc. apply Z.ltb_lt in Hd. destruct c as [i|i|i|u|o]; try done; simpl in *;
    unfold_M; simpl; rewrite Hd; [by rewrite Hc|done].
Qed.

(** Neither leaf claims a wrapper. *)
Lemma wrapper_unclaimed who c d s :
  is_Some (inspect_wrapper c) ->
  validate_leaf RuntimeLeaves who c d s = (Ok None, s) /\
  prepare_leaf RuntimeLeaves who c d s = (Ok false, s).
Proof. destruct c as [i|i|i|u|o]; intros [? Hi]; try done. Qed.

Lemma wrapped_validate_rejected who c n l s :
  inspected c n l -> (0 < n)%nat -> direct_only l = true ->
  is_ok (validate RuntimeLeaves (System (Signed who)) c s).1 = false.
Proof.
  intros Hi Hn Hl. unfold validate. simpl.
  destruct (walk _ c 0 _) as [[[]|e] [s' acc]] eqn:Ew; [|done]. exfalso.
  edestruct (fun H => walk_visits _ H c n l Hi 0 _ _ Ew) as (st1 & b & st2 & Hv).
  - intros c0 d [s0 acc0] st' Hw. unfold validate_visitor.
    rewrite (proj1 (wrapper_unclaimed who c0 d s0 Hw)). done.
  - destruct st1 as [s1 acc1]. unfold validate_visitor in Hv.
    rewrite direct_only_nested_validate in Hv by (done || lia). done.
Qed.

Lemma wrapped_prepare_rejected who c n l s :
  inspected c n l -> (0 < n)%nat -> direct_only l = true ->
  is_ok (prepare RuntimeLeaves (Some who) c s).1 = false.
Proof.
  intros Hi Hn Hl. unfold prepare.
  destruct (walk _ c 0 s) as [[[]|e] s'] eqn:Ew; [|done]. exfalso.
  edestruct (fun H => walk_visits _ H c n l Hi 0 _ _ Ew) as (st1 & b & st2 & Hv).
  - intros c0 d s0 st' Hw. rewrite (proj2 (wrapper_unclaimed who c0 d s0 Hw)). done.
  - rewrite direct_only_nested_prepare in Hv by (done || lia). done.
Qed.
End Leaves.

(** ** The interface of leaf validators *)

(** What the extension relies on of a leaf validator, which claims the calls
    [claims] tells: unclaimed calls are untouched, claimed ones are answered by both
    methods; validating reads only; what validates can be prepared; below a wrapper
    preparing reads only too. *)
Class LeafLaws `{HopHost} (v : LeafValidator) (claims : RuntimeCall -> bool) : Prop := {
  leaf_unclaimed who c d s : claims c = false ->
    validate_leaf v who c d s = (Ok None, s) /\ prepare_leaf v who c d s = (Ok false, s);
  leaf_claimed who c d s : claims c = true ->
    (validate_leaf v who c d s).1 <> Ok None /\ (prepare_leaf v who c d s).1 <> Ok false;
  leaf_validate_pure who c d s : (validate_leaf v who c d s).2 = s;
  leaf_prepared who c d s r :
    (validate_leaf v who c d s).1 = Ok (Some r) -> (prepare_leaf v who c d s).1 = Ok true;
  leaf_nested_pure who c d s : 0 < d -> (prepare_leaf v who c d s).2 = s;
}.

Section Laws.
Context `{HopHost}.

(** A pair of lawful validators is lawful: the second sees what the first left. *)
Lemma LeafTuple_cons v vs claims claims' :
  LeafLaws v claims -> LeafLaws (LeafTuple vs) claims' ->
  LeafLaws (LeafTuple (v :: vs)) (fun c => claims c || claims' c).
Proof.
  intros Hv Hvs.
  assert (forall who c d s, claims c = false ->
    validate_leaf (LeafTuple (v :: vs)) who c d s = validate_leaf (LeafTuple vs) who c d s /\
    prepare_leaf (LeafTuple (v :: vs)) who c d s = prepare_leaf (LeafTuple vs) who c d s) as Hrest.
  { intros who c d s Hc. destruct (leaf_unclaimed who c d s Hc) as [E1 E2].
    simpl. unfold bind. by rewrite E1, E2. }
  assert (forall who c d s, claims c = true ->
    validate_leaf (LeafTuple (v :: vs)) who c d s = validate_leaf v who c d s /\
    prepare_leaf (LeafTuple (v :: vs)) who c d s = prepare_leaf v who c d s) as Hfirst.
  { intros who c d s Hc. destruct (leaf_claimed who c d s Hc) as [E1 E2].
    simpl. unfold bind, ret. split.
    - destruct (validate_leaf v who c d s) as [[[x|]|e] s']; done.
    - destruct (prepare_leaf v who c d s) as [[[|]|e] s']; done. }
  constructor; intros who c d s.
  - intros [Hc Hc']%orb_false_iff. destruct (Hrest who c d s Hc) as [-> ->].
    by apply leaf_unclaimed.
  - intros Hc. destruct (claims c) eqn:E.
    + destruct (Hfirst who c d s E) as [-> ->]. by apply leaf_claimed.
    + destruct (Hrest who c d s E) as [-> ->]. by apply leaf_claimed.
  - destruct (claims c) eqn:E.
    + rewrite (proj1 (Hfirst who c d s E)). apply leaf_validate_pure.
    + rewrite (proj1 (Hrest who c d s E)). apply leaf_validate_pure.
  - intros r. destruct (claims c) eqn:E.
    + destruct (Hfirst who c d s E) as [-> ->]. apply leaf_prepared.
    + destruct (Hrest who c d s E) as [-> ->]. apply leaf_prepared.
  - intros Hd. destruct (claims c) eqn:E.
    + rewrite (proj2 (Hfirst who c d s E)). by apply leaf_nested_pure.
    + rewrite (proj2 (Hrest who c d s E)). by apply leaf_nested_pure.
Qed.

Lemma LeafTuple_nil : LeafLaws (LeafTuple []) (fun _ => false).
Proof. by constructor. Qed.

(** ** The walk under the interface *)

Context `{Host} (v : LeafValidator) (claims : RuntimeCall -> bool) `{!LeafLaws v claims}.

(** Validating reads only, whatever its outcome. *)
Lemma walk_validate_pure fuel who c d s acc :
  (walk_fuel fuel (validate_visitor v who) c d (s, acc)).2.1 = s.
Proof.
  revert c d acc. induction fuel as [|fuel IH]; intros c d acc; simpl; unfold bind;
    unfold validate_visitor at 1; pose proof (leaf_validate_pure who c d s) as Hp;
    destruct (validate_leaf v who c d s) as [[[[vt sc]|]|e] s']; simpl in *; subst s'; try done.
  all: destruct (MAX_WRAPPER_DEPTH <=? d); [done|].
  all: destruct (inspect_wrapper c) as [inner|]; try done.
  revert acc. induction inner as [|i inner IHi]; intros acc; [done|]. simpl. unfold bind.
  specialize (IH i (d + 1) acc).
  destruct (walk_fuel fuel _ i (d + 1) (s, acc)) as [[[]|e] [s' acc']]; simpl in IH; subst s'.
  - apply IHi.
  - done.
Qed.

(** Under a wrapper, a successful validating walk can be repeated as a preparing
    one, which does not write. *)
Lemma walk_nested_prepare fuel who c d s acc st :
  0 < d ->
  walk_fuel fuel (validate_visitor v who) c d (s, acc) = (Ok tt, st) ->
  walk_fuel fuel (fun leaf depth => prepare_leaf v who leaf depth) c d s = (Ok tt, s).
Proof.
  revert c d acc st. induction fuel as [|fuel IH]; intros c d acc st Hd; simpl; unfold bind;
    unfold validate_visitor at 1; pose proof (leaf_validate_pure who c d s) as Hp;
    pose proof (leaf_prepared who c d s) as Hr; pose proof (leaf_nested_pure who c d s Hd) as Hn;
    destruct (claims c) eqn:Ec.
  1, 3: destruct (leaf_claimed who c d s Ec) as [Hc1 _];
    destruct (validate_leaf v who c d s) as [[[[vt sc]|]|e] s']; simpl in *; try done;
    intros _; specialize (Hr _ eq_refl); destruct (prepare_leaf v who c d s) as [r s1];
    simpl in *; by subst.
  all: destruct (leaf_unclaimed who c d s Ec) as [-> ->].
  all: destruct (MAX_WRAPPER_DEPTH <=? d); [done|].
  all: destruct (inspect_wrapper c) as [inner|]; try done.
  clear Hp Hr Hn Ec c. revert acc. induction inner as [|i inner IHi]; intros acc; [done|].
  simpl. unfold bind. pose proof (walk_validate_pure fuel who i (d + 1) s acc) as Hp.
  destruct (walk_fuel fuel (validate_visitor v who) i (d + 1) (s, acc))
    as [[[]|e] [s' acc']] eqn:Ew; [|done]. simpl in Hp. subst s'.
  rewrite (IH i (d + 1) acc _ ltac:(lia) Ew). apply IHi.
Qed.

(** Below a wrapper a preparing walk writes nothing, whatever its outcome. *)
Lemma walk_prepare_nested_pure fuel who c d s :
  0 < d -> (walk_fuel fuel (fun leaf depth => prepare_leaf v who leaf depth) c d s).2 = s.
Proof.
  revert c d. induction fuel as [|fuel IH]; intros c d Hd; simpl; unfold bind;
    pose proof (leaf_nested_pure who c d s Hd) as Hn;
    destruct (prepare_leaf v who c d s) as [[[|]|e] s']; simpl in *; subst s'; try done.
  all: destruct (MAX_WRAPPER_DEPTH <=? d); [done|].
  all: destruct (inspect_wrapper c) as [inner|]; try done.
  induction inner as [|i inner IHi]; [done|]. simpl. unfold bind.
  specialize (IH i (d + 1) ltac:(lia)).
  destruct (walk_fuel fuel _ i (d + 1) s) as [[[]|e] s']; simpl in IH; subst s'; done.
Qed.

(** So the state a preparation leaves is the one its top-level leaf leaves. *)
Lemma prepare_state who c s :
  (prepare v (Some who) c s).2 = if claims c then (prepare_leaf v who c 0 s).2 else s.
Proof.
  unfold prepare. rewrite walk_eq by (unfold MAX_WRAPPER_DEPTH; lia). unfold bind.
  destruct (claims c) eqn:Ec.
  - destruct (leaf_claimed who c 0 s Ec) as [_ Hc].
    by destruct (prepare_leaf v who c 0 s) as [[[|]|e] s'].
  - destruct (leaf_unclaimed who c 0 s Ec) as [_ ->].
    destruct (inspect_wrapper c) as [inner|]; [|done].
    induction inner as [|i inner IHi]; [done|]. simpl. unfold bind.
    pose proof (walk_prepare_nested_pure (depth_fuel 1) who i 1 s ltac:(lia)) as Hp.
    unfold walk at 1. change (0 + 1) with 1.
    destruct (walk_fuel _ _ i 1 s) as [[[]|e] s']; simpl in Hp; subst s'; [exact IHi|done].
Qed.

Lemma validate_pure o c s : (validate v o c s).2 = s.
Proof.
  unfold validate, walk. destruct (as_system_origin_signer o) as [who|]; [|done].
  pose proof (walk_validate_pure (depth_fuel 0) who c 0 s
    (mkWalkAcc ValidTransaction_default None false)) as Hp.
  destruct (walk_fuel _ _ c 0 _) as [[[]|e] [s' acc]]; exact Hp.
Qed.

(** What validates can be prepared on the same state. *)
Lemma validate_prepare o c s vt val o' :
  (validate v o c s).1 = Ok (vt, val, o') -> (prepare v val c s).1 = Ok tt.
Proof.
  unfold validate, prepare. destruct (as_system_origin_signer o) as [who|].
  2: { intros [= _ <- _]. done. }
  rewrite !walk_eq by (unfold MAX_WRAPPER_DEPTH; lia). unfold bind. unfold validate_visitor at 1.
  pose proof (leaf_validate_pure who c 0 s) as Hp. pose proof (leaf_prepared who c 0 s) as Hr.
  destruct (claims c) eqn:Ec.
  - destruct (leaf_claimed who c 0 s Ec) as [Hc1 _].
    destruct (validate_leaf v who c 0 s) as [[[[vt1 sc]|]|e] s']; simpl in *; try done.
    intros [= _ <- _]. rewrite walk_eq by (unfold MAX_WRAPPER_DEPTH; lia). unfold bind.
    specialize (Hr _ eq_refl). destruct (prepare_leaf v who c 0 s) as [r s1]; simpl in *; by subst.
  - destruct (leaf_unclaimed who c 0 s Ec) as [-> Eprep].
    destruct val as [who'|]; [|done].
    destruct (inspect_wrapper c) as [inner|] eqn:Ei.
    2: { intros [=]. }
    intros Hv.
    assert (who' = who) as ->.
    { destruct (mfor inner _ _) as [[[]|e] [s' acc]]; [|done]. simpl in Hv.
      destruct (visited_any acc); by simplify_eq. }
    rewrite walk_eq by (unfold MAX_WRAPPER_DEPTH; lia). unfold bind. rewrite Eprep, Ei.
    revert Hv. generalize (mkWalkAcc ValidTransaction_default None false) as acc.
    clear Ei Eprep Ec Hp Hr. change (0 + 1) with 1.
    induction inner as [|i inner IHi]; intros acc; [done|].
    simpl. unfold bind. pose proof (walk_validate_pure (depth_fuel 1) who i 1 s acc) as Hp.
    unfold walk at 1 3.
    destruct (walk_fuel (depth_fuel 1) (validate_visitor v who) i 1 (s, acc))
      as [[[]|e] [s' acc']] eqn:Ew; [|done]. simpl in Hp. subst s'.
    intros Hv. rewrite (walk_nested_prepare (depth_fuel 1) who i 1 s acc _ ltac:(lia) Ew). by eapply IHi.
Qed.
End Laws.

(** ** The two validators keep the interface *)

Section Instances.
Context `{HopHost} `{Host} `{Config}.

Definition is_storage_leaf (c : RuntimeCall) : bool :=
  match storage_sub_type c with Some _ => true | None => false end.
Definition is_renewal_leaf (c : RuntimeCall) : bool :=
  match renewal_sub_type c with Some _ => true | None => false end.

(** Signed validation of a storage call that succeeds can be prepared. *)
Lemma check_signed_prepared who c s r :
  (validate_signed who c s).1 = Ok r -> (pre_dispatch_signed who c s).1 = Ok tt.
Proof.
  unfold validate_signed, pre_dispatch_signed.
  destruct (store_call c) as [[size h]|] eqn:Ec.
  - unfold bind. rewrite !(check_signed_store_eq _ _ _ _ _ Ec).
    rewrite check_signed_store_validate, check_signed_store_prepare.
    destruct (negb _); [done|]. destruct (block_transactions_full s); [done|].
    by destruct (charged_scope s who h) as [[]|].
  - destruct c; try done; simpl; unfold_M; destruct (Authorizer _ _); done.
Qed.

(** Only store calls are charged at preparation. *)
Lemma check_signed_management_pure who c s :
  is_store_call c = false -> (pre_dispatch_signed who c s).2 = s.
Proof.
  intros Hc. unfold pre_dispatch_signed. destruct c; try done; simpl; unfold_M;
    destruct (Authorizer _ _); done.
Qed.

#[export] Instance StorageLeaves_laws : LeafLaws StorageLeaves is_storage_leaf.
Proof.
  constructor; unfold is_storage_leaf; intros who c d s; simpl;
    destruct (storage_sub_type c) as [i|]; try done.
  - intros _. destruct ((0 <? d) && is_store_call i); [done|]. unfold_M. split.
    + by destruct (validate_signed who i s) as [[]].
    + by destruct (pre_dispatch_signed who i s) as [[]].
  - destruct ((0 <? d) && is_store_call i); [done|]. unfold validate_signed. unfold_M.
    pose proof (check_signed_validate_pure who i s) as Hp.
    destruct (check_signed who i Validate s) as [[[[vt|] sc]|e] s']; exact Hp.
  - intros r. destruct ((0 <? d) && is_store_call i); [done|]. unfold bind at 1, ret at 1.
    pose proof (check_signed_prepared who i s) as Hp.
    destruct (validate_signed who i s) as [[x|e] s']; [|done]. intros _.
    specialize (Hp _ eq_refl). unfold bind.
    destruct (pre_dispatch_signed who i s) as [r' s1]; simpl in *; by subst r'.
  - intros Hd. apply Z.ltb_lt in Hd. rewrite Hd. simpl. destruct (is_store_call i) eqn:Ei; [done|].
    pose proof (check_signed_management_pure who i s Ei) as Hp. unfold bind, ret.
    destruct (pre_dispatch_signed who i s) as [[]]; done.
Qed.

#[export] Instance RenewalLeaves_laws : LeafLaws RenewalLeaves is_renewal_leaf.
Proof.
  constructor; unfold is_renewal_leaf; intros who c d s; simpl;
    destruct (renewal_sub_type c) as [i|]; try done;
    unfold validate_renewal_signed, pre_dispatch_renewal_signed; unfold_M.
  - intros _. destruct (0 <? d); [done|]. split.
    + by destruct (check_renewal_signed who i Validate s) as [[]].
    + by destruct (check_renewal_signed who i PreDispatch s) as [[]].
  - destruct (0 <? d); [done|]. pose proof (check_renewal_signed_spec who i Validate s) as Hp.
    destruct (renewal_charge s who i) as [[sc n]|e]; [destruct Hp as [vt ->]|rewrite Hp]; done.
  - intros r. destruct (0 <? d); [done|].
    pose proof (check_renewal_signed_spec who i Validate s) as Hv.
    pose proof (check_renewal_signed_spec who i PreDispatch s) as Hp.
    destruct (renewal_charge s who i) as [[sc n]|e].
    + by destruct Hp as [? ->].
    + by rewrite Hv.
  - intros Hd. apply Z.ltb_lt in Hd. by rewrite Hd.
Qed.

#[export] Instance RuntimeLeaves_laws :
  LeafLaws RuntimeLeaves (fun c => is_storage_leaf c || (is_renewal_leaf c || false)).
Proof.
  apply LeafTuple_cons; [apply _|]. apply LeafTuple_cons; [apply _|apply LeafTuple_nil].
Qed.
End Instances.

(** ** Extrinsics that are a leaf themselves *)

Section Top.
Context `{HopHost} `{Host} `{Config}.

Definition rewritten_origin (who : AccountId) (scope : option AuthorizationScope) : RuntimeOrigin :=
  match scope with Some sc => OriginAuthorized who sc | None => System (Signed who) end.

Definition top_result (who : AccountId)
    (r : result TransactionValidityError (ValidTransaction * option AuthorizationScope) * State)
    : result TransactionValidityError (ValidTransaction * option AccountId * RuntimeOrigin) * State :=
  match r with
  | (Ok (vt, scope), s') =>
      (Ok (ValidTransaction_combine_with ValidTransaction_default vt, Some who,
           rewritten_origin who scope), s')
  | (Err e, s') => (Err e, s')
  end.

Lemma validate_storage_eq who i s :
  validate RuntimeLeaves (System (Signed who)) (TransactionStorage i) s =
  top_result who (validate_signed who i s).
Proof.
  unfold validate. simpl as_system_origin_signer. cbn beta iota.
  rewrite walk_eq by (unfold MAX_WRAPPER_DEPTH; lia). unfold_M. unfold validate_visitor. simpl.
  unfold_M. destruct (validate_signed who i s) as [[[vt [sc|]]|e] s']; done.
Qed.

Lemma validate_renewal_eq who i s :
  validate RuntimeLeaves (System (Signed who)) (DataRenewal i) s =
  top_result who (validate_renewal_signed who i s).
Proof.
  unfold validate. simpl as_system_origin_signer. cbn beta iota.
  rewrite walk_eq by (unfold MAX_WRAPPER_DEPTH; lia). unfold_M. unfold validate_visitor. simpl.
  unfold_M. destruct (validate_renewal_signed who i s) as [[[vt [sc|]]|e] s']; done.
Qed.

(** Inside a wrapper no call earns a scope. *)
Lemma nested_leaf_unscoped who c d s vt sc s' :
  0 < d -> validate_leaf RuntimeLeaves who c d s = (Ok (Some (vt, sc)), s') -> sc = None.
Proof.
  intros Hd%Z.ltb_lt. destruct c as [i|i|i|u|e]; try done; simpl; unfold_M; simpl; rewrite Hd; [|done].
  destruct (is_store_call i) eqn:Ei; [done|]. unfold validate_signed. unfold_M.
  destruct i; try done; simpl; unfold_M; try (destruct (Authorizer _ _)); simpl; by intros [= _ <- _].
Qed.

Lemma nested_walk_unscoped fuel who c d s acc s' acc' :
  0 < d -> walk_fuel fuel (validate_visitor RuntimeLeaves who) c d (s, acc) = (Ok tt, (s', acc')) ->
  last_scope acc' = last_scope acc.
Proof.
  revert c d s acc s' acc'. induction fuel as [|fuel IH]; intros c d s acc s' acc' Hd;
    cbn [walk_fuel]; unfold bind, validate_visitor at 1;
    destruct (validate_leaf RuntimeLeaves who c d s) as [[[[vt sc]|]|e] s1] eqn:Ev; try done.
  1, 3: apply nested_leaf_unscoped in Ev as ->; [|done]; by intros [= _ <-].
  all: destruct (MAX_WRAPPER_DEPTH <=? d); [done|].
  all: destruct (inspect_wrapper c) as [inner|]; try done; try (unfold ret; by intros [= _ <-]).
  clear Ev. revert s1 acc. induction inner as [|i inner IHi]; intros s1 acc; [by intros [= _ <-]|].
  simpl. unfold bind.
  destruct (walk_fuel fuel _ i (d + 1) (s1, acc)) as [[[]|e] [s2 acc2]] eqn:Ew; [|done].
  intros Hm. rewrite (IHi s2 acc2 Hm). by eapply (IH i (d + 1)); [lia|].
Qed.

(** So a wrapper is dispatched with its signer's origin. *)
Lemma validate_wrapper_origin who u s vt val o s' :
  validate RuntimeLeaves (System (Signed who)) (Utility u) s = (Ok (vt, val, o), s') ->
  o = System (Signed who).
Proof.
  unfold validate. simpl as_system_origin_signer. cbn beta iota.
  rewrite walk_eq by (unfold MAX_WRAPPER_DEPTH; lia). unfold bind, validate_visitor at 1.
  assert (validate_leaf RuntimeLeaves who (Utility u) 0 s = (Ok None, s)) as -> by done.
  destruct (inspect_wrapper (Utility u)) as [inner|]; [|by intros [=]]. cbn beta iota.
  set (acc := mkWalkAcc ValidTransaction_default None false).
  assert (forall st st', mfor inner (fun i => walk (validate_visitor RuntimeLeaves who) i (0 + 1)) st = (Ok tt, st') ->
    last_scope st'.2 = last_scope st.2) as Hm.
  { clear. induction inner as [|i inner IH]; intros st st'; [by intros [= <-]|]. simpl. unfold bind.
    destruct st as [s acc]. destruct (walk _ i _ (s, acc)) as [[[]|e] [s2 acc2]] eqn:Ew; [|done].
    intros Hm. rewrite (IH (s2, acc2) st' Hm). eapply (nested_walk_unscoped _ who i 1); [lia|exact Ew]. }
  specialize (Hm (s, acc)). destruct (mfor inner _ (s, acc)) as [[[]|e] [s1 acc1]]; [|done].
  specialize (Hm _ eq_refl). simpl in Hm. rewrite Hm. by intros [= _ _ <- _].
Qed.

Lemma prepare_storage_eq who i s :
  prepare RuntimeLeaves (Some who) (TransactionStorage i) s = pre_dispatch_signed who i s.
Proof.
  unfold prepare. rewrite walk_eq by (unfold MAX_WRAPPER_DEPTH; lia). unfold_M. simpl. unfold_M.
  by destruct (pre_dispatch_signed who i s) as [[[]|e] s'].
Qed.

Lemma prepare_renewal_eq who i s :
  prepare RuntimeLeaves (Some who) (DataRenewal i) s = pre_dispatch_renewal_signed who i s.
Proof.
  unfold prepare. rewrite walk_eq by (unfold MAX_WRAPPER_DEPTH; lia). unfold_M. simpl. unfold_M.
  by destruct (pre_dispatch_renewal_signed who i s) as [[[]|e] s'].
Qed.
End Top.

(** ** Boosts *)

Section Boosts.

Lemma in_budget_spec {Extra} (e : AuthorizationExtent Extra) :
  in_budget e = true <->
  bytes_allowance e <> 0 /\ extent_bytes e <= bytes_allowance e /\
  extent_transactions e <= transactions_allowance e.
Proof.
  unfold in_budget. destruct (bytes_allowance e =? 0) eqn:E; b2p; [naive_solver|].
  rewrite andb_true_iff, !Z.leb_le. naive_solver.
Qed.

(** The share of a remaining budget, rounded down. *)
Lemma share_bounds rem total :
  0 <= rem <= total -> 0 < total ->
  0 <= ALLOWANCE_PRIORITY_BOOST * rem / total <= ALLOWANCE_PRIORITY_BOOST.
Proof.
  unfold ALLOWANCE_PRIORITY_BOOST. intros Hr Ht. split; [apply Z.div_pos; lia|].
  apply Z.div_le_upper_bound; nia.
Qed.

Lemma share_mono rem rem' total :
  0 <= rem <= rem' -> 0 < total ->
  ALLOWANCE_PRIORITY_BOOST * rem / total <= ALLOWANCE_PRIORITY_BOOST * rem' / total.
Proof. unfold ALLOWANCE_PRIORITY_BOOST. intros. apply Z.div_le_mono; lia. Qed.

(** An extent with counters in range. *)
Definition extent_ok {Extra} (e : AuthorizationExtent Extra) : Prop :=
  0 <= extent_bytes e /\ 0 <= bytes_allowance e /\
  0 <= extent_transactions e /\ 0 <= transactions_allowance e.

(** The truncation to [u64] never bites: the boost is the smaller share. *)
Lemma proportional_eq {Extra} (e : AuthorizationExtent Extra) :
  extent_ok e -> in_budget e = true ->
  ProportionalBoost e =
  Z.min (ALLOWANCE_PRIORITY_BOOST * (bytes_allowance e - extent_bytes e) / bytes_allowance e)
    (if transactions_allowance e =? 0 then 0 else
     ALLOWANCE_PRIORITY_BOOST * (transactions_allowance e - extent_transactions e)
       / transactions_allowance e).
Proof.
  intros (H1 & H2 & H3 & H4) Hb. unfold ProportionalBoost. rewrite Hb. simpl.
  apply in_budget_spec in Hb as (Hb1 & Hb2 & Hb3). rewrite !sat_sub_small by done.
  pose proof (share_bounds (bytes_allowance e - extent_bytes e) (bytes_allowance e)
    ltac:(lia) ltac:(lia)). unfold ALLOWANCE_PRIORITY_BOOST in *.
  apply as_u64_small. unfold is_u64, u64_max.
  destruct (transactions_allowance e =? 0) eqn:E; b2p; [lia|].
  pose proof (share_bounds (transactions_allowance e - extent_transactions e)
    (transactions_allowance e) ltac:(lia) ltac:(lia)). unfold ALLOWANCE_PRIORITY_BOOST in *. lia.
Qed.

Lemma proportional_bounds {Extra} (e : AuthorizationExtent Extra) :
  extent_ok e -> 0 <= ProportionalBoost e <= FlatBoost e.
Proof.
  intros Hok. destruct (in_budget e) eqn:Hb.
  - rewrite proportional_eq by done. unfold FlatBoost. rewrite Hb.
    destruct Hok as (H1 & H2 & H3 & H4). apply in_budget_spec in Hb as (Hb1 & Hb2 & Hb3).
    pose proof (share_bounds (bytes_allowance e - extent_bytes e) (bytes_allowance e)
      ltac:(lia) ltac:(lia)).
    destruct (transactions_allowance e =? 0) eqn:E; b2p; [lia|].
    pose proof (share_bounds (transactions_allowance e - extent_transactions e)
      (transactions_allowance e) ltac:(lia) ltac:(lia)). lia.
  - unfold ProportionalBoost, FlatBoost. rewrite Hb. simpl. lia.
Qed.
End Boosts.
