(* ===== verification/Chain.v ===== *)
(** The chain: blocks as the FRAME executive runs the pallets, as a step relation,
    and the invariants of every reachable state.

    A block is opened ([on_initialize]), receives its inherents, then its
    extrinsics, and is closed by the [on_finalize] hooks, which may refuse.  The
    extrinsics are the ones the pallets accept: signed calls through
    [ValidateAuthorizedCalls], unsigned calls through [ValidateUnsigned], HOP
    promotions through their authorize closures, and calls dispatched with a plain
    origin (governance, XCM, proxies).  A wrapper of the utility pallet dispatches the
    calls inside it; that pallet and the others are parameters. *)

From S2P Require Import Prelude Slice Primitives Types State Authorizations Blocks Retention Checks Renewal RenewalFacts Hop Extension ExtensionFacts.

(** The documented contract of [Config::Authorizer]: a context is returned for a
    registered authorizer and carries that entry's expiry. *)
Class AuthorizerLaws `{Config} : Prop :=
  authorizer_registered s o ctx : Authorizer s o = Some (Some ctx) ->
    exists b, AllowedAuthorizers (ts s) !! authorizer ctx = Some b /\
              ao_valid_until ctx = valid_until b.

(** Code outside the repository: how [pallet_utility] and any other pallet dispatch. *)
Class RuntimeHost `{HopHost} := {
  dispatch_utility : RuntimeOrigin -> UtilityCall -> MD unit;
  dispatch_other : RuntimeOrigin -> bytes -> MD unit }.

(** What the rest of the runtime writes of the state modelled here: the accounts of
    [frame_system], as [dec_providers] answers for them, and the parameters in storage
    ([None] removes the override). *)
Definition set_dec_providers (d : list ProviderCall -> AccountId -> option DispatchError) : State -> State :=
  upd_sys (fun y => mkSystem (block_number y) (extrinsic_index y) (parent_hash y) (genesis_hash y)
                      (timestamp_now y) (parameters y) d).
Definition set_parameter (key : string) (value : option bytes) : State -> State :=
  upd_sys (fun y => mkSystem (block_number y) (extrinsic_index y) (parent_hash y) (genesis_hash y)
                      (timestamp_now y) (partial_alter (fun _ => value) key (parameters y)) (dec_providers y)).

Section Dispatch.
Context `{Host} `{Config} `{HopHost} `{!RuntimeHost}.

(** Dispatch into the runtime's pallets. *)
Definition dispatch_runtime (o : RuntimeOrigin) (c : RuntimeCall) : MD unit :=
  match c with
  | TransactionStorage i => dispatch_storage o i
  | DataRenewal i => dispatch_renewal o i
  | HopPromotion i => dispatch_hop o i
  | Utility u => dispatch_utility o u
  | OtherPallet e => dispatch_other o e
  end.

(** The call a wrapper dispatches next, and with which origin. *)
Inductive inner_call : RuntimeOrigin -> UtilityCall -> RuntimeOrigin -> RuntimeCall -> Prop :=
| inner_batch o calls c : c ∈ calls -> inner_call o (batch calls) o c
| inner_batch_all o calls c : c ∈ calls -> inner_call o (batch_all calls) o c
| inner_force_batch o calls c : c ∈ calls -> inner_call o (force_batch calls) o c
| inner_as_derivative w w' i c :
    inner_call (System (Signed w)) (as_derivative i c) (System (Signed w')) c
| inner_dispatch_as o c : inner_call (System Root) (dispatch_as o c) o c
| inner_dispatch_as_fallible o c : inner_call (System Root) (dispatch_as_fallible o c) o c
| inner_with_weight o c : inner_call o (with_weight c) o c
| inner_main o main fallback : inner_call o (if_else main fallback) o main
| inner_fallback o main fallback : inner_call o (if_else main fallback) o fallback.

(** Every call dispatched in the course of dispatching [c] with [o]. *)
Inductive leads_to (o : RuntimeOrigin) (c : RuntimeCall) : RuntimeOrigin -> RuntimeCall -> Prop :=
| leads_here : leads_to o c o c
| leads_inner o1 u o2 c2 :
    leads_to o c o1 (Utility u) -> inner_call o1 u o2 c2 -> leads_to o c o2 c2.

Definition leaf_call (c : RuntimeCall) : bool := match c with Utility _ => false | _ => true end.

(** What a wrapper does, in parts: dispatch a call inside it, or undo a storage layer,
    which keeps only what was told the host. *)
Inductive part_of (o : RuntimeOrigin) (u : UtilityCall) : State -> State -> Prop :=
| part_call s o' c : leads_to o (Utility u) o' c -> leaf_call c = true ->
    part_of o u s (dispatch (dispatch_runtime o' c) s).2
| part_undone s l : part_of o u s (upd_host_calls (fun _ => l) s).
End Dispatch.

(** The documented contract of the other pallets: a wrapper acts through the calls inside
    it only, and the rest write their own storage, [frame_system]'s accounts included.
    Calls of pallets that dispatch others (proxies, multisigs, XCM) stand for what they do
    themselves; what they dispatch is a step of its own, and so is the write of a parameter
    with [system.set_storage]. *)
Class RuntimeLaws `{Host} `{Config} `{HopHost} `{!RuntimeHost} : Prop := {
  utility_parts o u s : rtc (part_of o u) s (dispatch_utility o u s).2;
  other_frame o e s : exists d, (dispatch_other o e s).2 = set_dec_providers d s }.

Section Chain.
Context `{Host} `{Config} `{HopHost} `{!RuntimeHost}.

(** ** Running extrinsics *)

(** A transaction that fails its checks leaves no trace; one that passes is
    dispatched in a storage layer. *)
Definition apply_signed (who : AccountId) (c : RuntimeCall) (s : State) : State :=
  match validate RuntimeLeaves (System (Signed who)) c s with
  | (Err _, _) => s
  | (Ok (_, val, origin), s1) =>
      match prepare RuntimeLeaves val c s1 with
      | (Err _, _) => s
      | (Ok _, s2) => (dispatch (dispatch_runtime origin c) s2).2
      end
  end.

(** Unsigned transactions ([ValidateUnsigned::pre_dispatch], then dispatch). *)
Definition apply_unsigned_storage (c : StorageCall) (s : State) : State :=
  match pre_dispatch c s with
  | (Err _, _) => s
  | (Ok _, s1) => (dispatch (dispatch_storage (System NoneOrigin) c) s1).2
  end.

Definition apply_unsigned_renewal (c : RenewalCall) (s : State) : State :=
  match renewal_pre_dispatch c s with
  | (Err _, _) => s
  | (Ok _, s1) => (dispatch (dispatch_renewal (System NoneOrigin) c) s1).2
  end.

(** General transactions of the HOP pallet. *)
Definition apply_hop (source : TransactionSource) (c : HopCall) (s : State) : State :=
  match authorize_hop source c s with
  | Err _ => s
  | Ok _ => (dispatch (dispatch_hop (System AuthorizedCall) c) s).2
  end.

(** ** Blocks *)

Inductive Phase := Idle | Inherents | Extrinsics.

(** [frame_system]'s bookkeeping when a block is opened. *)
Definition open_block (parent : bytes) : State -> State :=
  upd_sys (fun y => mkSystem (block_number y + 1) (Some 0) parent (genesis_hash y)
                      (timestamp_now y) (parameters y) (dec_providers y)).

(** [set_extrinsic_index]; the timestamp inherent. *)
Definition set_extrinsic (x : Z) : State -> State :=
  upd_sys (fun y => mkSystem (block_number y) (Some x) (parent_hash y) (genesis_hash y)
                      (timestamp_now y) (parameters y) (dec_providers y)).
Definition set_timestamp (t : Z) : State -> State :=
  upd_sys (fun y => mkSystem (block_number y) (extrinsic_index y) (parent_hash y)
                      (genesis_hash y) t (parameters y) (dec_providers y)).

(** Origins other code can dispatch these pallets' calls with. *)
Definition plain_origin (o : RuntimeOrigin) : bool :=
  match o with
  | System Root | System (Signed _) | ForeignOrigin _ => true
  | _ => false
  end.

(** Argument ranges: what the types of the calls' arguments guarantee. *)
Definition budget_ok (b : AuthorizerBudget) : Prop :=
  (forall q, quota b = Some q -> is_u32 (quota_transactions q) /\ is_u64 (quota_bytes q)) /\
  (forall t, valid_until b = Some t -> is_u32 t).

Definition storage_args_ok (c : StorageCall) : Prop :=
  match c with
  | CallStoreWithCidConfig cid _ => is_u64 (cc_codec cid)
  | CallAuthorizeAccount _ t b => is_u32 t /\ is_u64 b
  | CallAuthorizePreimage _ b => is_u64 b
  | CallAddAuthorizer _ b => budget_ok b
  | _ => True
  end.

Definition args_ok (c : RuntimeCall) : Prop :=
  match c with TransactionStorage i => storage_args_ok i | _ => True end.

(** The [on_finalize] hooks of the two pallets, in the order the runtimes declare
    them. *)
Definition close_block (s : State) : option State :=
  match on_finalize (now s) s with
  | None => None
  | Some s1 => renewal_on_finalize s1
  end.

(** Renewal calls Root dispatches are not metered: [force_renew] appends an entry
    nobody is charged for, and [disable_auto_renew] may drop a prepaid cycle. *)
Definition metered_call (o : RuntimeOrigin) (c : RuntimeCall) : bool :=
  match o, c with System Root, DataRenewal _ => false | _, _ => true end.

(** What is asked of every call a dispatch leads to: arguments of their types, and no
    origin of the pallets' own ([None] or [Origin::Authorized], which Root could name in
    [dispatch_as] to bypass validation). *)
Definition call_ok (metered : bool) (o : RuntimeOrigin) (c : RuntimeCall) : Prop :=
  forall o' c', leads_to o c o' c' ->
    plain_origin o' = true /\ args_ok c' /\ (metered = true -> metered_call o' c' = true).

(** The steps of a chain; with [metered] set, those without unmetered Root calls.
    Inherents are mandatory: one that fails makes the block invalid, so it is no step.
    When governance sets a parameter it keeps the cap at or above what is in use, and does
    not lift it to the largest [u64], where the counter would saturate. *)
Inductive chain_step_if (metered : bool) : Phase * State -> Phase * State -> Prop :=
| step_open s parent :
    now s + 1 <= u32_max ->
    chain_step_if metered (Idle, s)
      (Inherents, on_initialize (now s + 1) (open_block parent s))
| step_timestamp s t :
    is_u64 t -> chain_step_if metered (Inherents, s) (Inherents, set_timestamp t s)
| step_proof s x proof :
    is_u32 x -> is_ok (apply_block_inherents (System NoneOrigin) proof (set_extrinsic x s)).1 = true ->
    chain_step_if metered (Inherents, s)
      (Inherents, (dispatch (apply_block_inherents (System NoneOrigin) proof)
                     (set_extrinsic x s)).2)
| step_drain s x :
    is_u32 x -> is_ok (process_pending_renewals (System NoneOrigin) (set_extrinsic x s)).1 = true ->
    chain_step_if metered (Inherents, s)
      (Inherents, (dispatch (process_pending_renewals (System NoneOrigin))
                     (set_extrinsic x s)).2)
| step_inherents_done s :
    chain_step_if metered (Inherents, s) (Extrinsics, s)
| step_signed s x who c :
    is_u32 x -> call_ok metered (System (Signed who)) c ->
    chain_step_if metered (Extrinsics, s) (Extrinsics, apply_signed who c (set_extrinsic x s))
| step_unsigned_storage s x c :
    is_u32 x -> is_inherent c = false -> storage_args_ok c ->
    chain_step_if metered (Extrinsics, s) (Extrinsics, apply_unsigned_storage c (set_extrinsic x s))
| step_unsigned_renewal s x c :
    is_u32 x -> renewal_is_inherent c = false ->
    chain_step_if metered (Extrinsics, s) (Extrinsics, apply_unsigned_renewal c (set_extrinsic x s))
| step_hop s x source c :
    is_u32 x -> chain_step_if metered (Extrinsics, s) (Extrinsics, apply_hop source c (set_extrinsic x s))
| step_plain s x o c :
    is_u32 x -> call_ok metered o c ->
    chain_step_if metered (Extrinsics, s)
      (Extrinsics, (dispatch (dispatch_runtime o c) (set_extrinsic x s)).2)
| step_set_parameter s key value :
    PermanentStorageUsed (dr s) <= permanent_cap (set_parameter key value s) ->
    (permanent_cap s < u64_max -> permanent_cap (set_parameter key value s) < u64_max) ->
    chain_step_if metered (Extrinsics, s) (Extrinsics, set_parameter key value s)
| step_environment ph s d :
    ph <> Idle -> chain_step_if metered (ph, s) (ph, set_dec_providers d s)
| step_close s s' :
    close_block s = Some s' ->
    chain_step_if metered (Extrinsics, s) (Idle, s').

Definition chain_step : Phase * State -> Phase * State -> Prop := chain_step_if false.

(** ** Genesis *)

Definition empty_state (genesis : bytes) : State :=
  mkState (mkSystem 0 None [] genesis 0 ∅ (fun _ _ => None))
    (mkStoragePallet ∅ ∅ ∅ None None 0 [] ∅ false)
    (mkRenewalPallet ∅ [] 0) [] [] [].

(** A genesis the runtimes' presets satisfy: distinct accounts, positive caps. *)
Record genesis_ok (g : GenesisConfig) : Prop := {
  go_period : 0 < g_retention_period g <= u32_max;
  go_fees : is_u128 (g_byte_fee g) /\ is_u128 (g_entry_fee g);
  go_accounts_distinct : NoDup (map (fun e => e.1.1) (g_account_authorizations g));
  go_accounts : Forall (fun e : AccountId * Z * Z => is_u32 e.1.2 /\ 0 < e.2 <= u64_max)
                  (g_account_authorizations g);
  go_preimages : Forall (fun e : ContentHash * Z => 0 < e.2 <= u64_max)
                   (g_preimage_authorizations g);
  go_authorizers : Forall (fun e : AccountId * Z * Z => is_u32 e.1.2 /\ is_u64 e.2)
                     (g_allowed_authorizers g) }.

Inductive reachable_if (metered : bool) (g : GenesisConfig) : Phase * State -> Prop :=
| reachable_genesis h : reachable_if metered g (Idle, genesis_build g (empty_state h))
| reachable_step p q :
    reachable_if metered g p -> chain_step_if metered p q -> reachable_if metered g q.

Definition reachable : GenesisConfig -> Phase * State -> Prop := reachable_if false.
End Chain.

(** ** Invariants *)

(** Budgets keep their machine ranges. *)
Definition BudgetInv (s : State) : Prop :=
  forall who b, AllowedAuthorizers (ts s) !! who = Some b -> budget_ok b.

(** Everything that is not about blocks and the index. *)
Definition LedgerInv `{Config} (s : State) : Prop :=
  AuthInv s /\ CapInv s /\ PendingInv s /\ BudgetInv s.

Definition ChainInv `{Host} `{Config} (p : Phase * State) : Prop :=
  LedgerInv p.2 /\
  match p.1 with
  | Idle => Sealed p.2 /\ PendingRenewals (dr p.2) = []
  | _ => InBlock p.2 /\ 0 < now p.2
  end.
