(* ===== verification/ChainFacts.v ===== *)
(** Every step of the chain preserves its invariants. *)

From S2P Require Import Prelude Slice Primitives Types State Authorizations Blocks Retention Checks Renewal RenewalFacts Hop Extension ExtensionFacts Chain.

(** ** Frames *)

(** Only authorizations, authorizers, events and provider references changed. *)
Definition auth_only (s s' : State) : Prop :=
  exists A B ev pr, s' =
    upd_provider_calls (fun _ => pr) (upd_events (fun _ => ev)
      (upd_AllowedAuthorizers (fun _ => B) (upd_Authorizations (fun _ => A) s))).

#[global] Instance auth_only_preorder : PreOrder auth_only.
Proof.
  split.
  - intros s. exists (Authorizations (ts s)), (AllowedAuthorizers (ts s)), (events s),
      (provider_calls s). by destruct s as [? [] ? ? ? ?].
  - intros s1 s2 s3 (A&B&ev&pr&->) (A'&B'&ev'&pr'&->). by exists A', B', ev', pr'.
Qed.

Lemma auth_only_authorizations f s : auth_only s (upd_Authorizations f s).
Proof. exists (f (Authorizations (ts s))), (AllowedAuthorizers (ts s)), (events s), (provider_calls s). done. Qed.
Lemma auth_only_authorizers f s : auth_only s (upd_AllowedAuthorizers f s).
Proof. exists (Authorizations (ts s)), (f (AllowedAuthorizers (ts s))), (events s), (provider_calls s). done. Qed.
Lemma auth_only_event e s : auth_only s (deposit_storage_event e s).
Proof.
  exists (Authorizations (ts s)), (AllowedAuthorizers (ts s)), (events s ++ [StorageEv e]), (provider_calls s).
  by destruct s as [? [] ? ? ? ?].
Qed.
Lemma auth_only_provider c s : auth_only s (provider_call c s).
Proof.
  exists (Authorizations (ts s)), (AllowedAuthorizers (ts s)), (events s), (provider_calls s ++ [c]).
  by destruct s as [? [] ? ? ? ?].
Qed.

Create HintDb auth_frame discriminated.
#[export] Hint Resolve auth_only_authorizations auth_only_authorizers auth_only_event
  auth_only_provider : auth_frame.

(** Close a frame goal write by write. *)
Ltac auth_frame_tac :=
  simpl;
  repeat match goal with
  | |- auth_only ?s ?s => reflexivity
  | |- auth_only ?s (provider_call _ _) => etransitivity; [|apply auth_only_provider]
  | |- auth_only ?s (deposit_storage_event _ _) => etransitivity; [|apply auth_only_event]
  | |- auth_only ?s (upd_Authorizations _ _) => etransitivity; [|apply auth_only_authorizations]
  | |- auth_only ?s (upd_AllowedAuthorizers _ _) => etransitivity; [|apply auth_only_authorizers]
  end; try reflexivity.

Section Frames.
Context `{Config}.

Lemma authorization_added_frame scope s : auth_only s (authorization_added scope s).
Proof. destruct scope; simpl; auth_frame_tac. Qed.

Lemma authorization_removed_frame scope s : auth_only s (authorization_removed scope s).
Proof. destruct scope; simpl; unfold dec_providers_or_warn; auth_frame_tac. Qed.

Lemma consume_budget_frame who t b s : auth_only s (consume_authorizer_budget who t b s).2.
Proof. unfold consume_authorizer_budget. repeat destr_match; auth_frame_tac. Qed.

Lemma authorize_frame scope t b auth s : auth_only s (authorize scope t b auth s).2.
Proof.
  unfold authorize. unfold_M.
  assert (forall e s0, auth_only s0
    (let old := Authorizations (ts s0) !! scope in
     let s' := upd_Authorizations <[scope := granted scope t b (now s) e old]> s0 in
     match old with None => authorization_added scope s' | Some _ => s' end)) as Hw.
  { intros e s0. simpl. destruct (Authorizations (ts s0) !! scope); [auth_frame_tac|].
    etransitivity; [|apply authorization_added_frame]. auth_frame_tac. }
  destruct auth as [ctx|]; [|apply Hw].
  pose proof (consume_budget_frame (authorizer ctx) t b s) as Hf.
  destruct (consume_authorizer_budget (authorizer ctx) t b s) as [[[]|e] s1]; [|done].
  etransitivity; [exact Hf|apply Hw].
Qed.

Lemma remove_expired_frame scope s : auth_only s (remove_expired_authorization scope s).2.
Proof.
  unfold remove_expired_authorization, ok_or. unfold_M.
  destruct (Authorizations (ts s) !! scope) as [a|]; [|reflexivity].
  destruct (expired a (now s)); [|reflexivity]. simpl.
  etransitivity; [|apply authorization_removed_frame]. auth_frame_tac.
Qed.

Lemma refresh_frame scope auth s : auth_only s (refresh_authorization scope auth s).2.
Proof. unfold refresh_authorization. destruct (_ !! scope); auth_frame_tac. Qed.

Lemma check_authorization_frame scope n b s : auth_only s (check_authorization scope n b s).2.
Proof. unfold check_authorization. repeat destr_match; auth_frame_tac. Qed.
End Frames.

(** ** What the invariants read *)

Section Transfer.
Context `{Host} `{Config}.

Lemma InBlock_auth_only s s' : auth_only s s' -> InBlock s -> InBlock s'.
Proof. intros (A&B&ev&pr&->). by apply InBlock_ext. Qed.

(** The part of the ledger an authorization call leaves alone. *)
Lemma ledger_rest_auth_only s s' :
  auth_only s s' -> CapInv s /\ PendingInv s -> CapInv s' /\ PendingInv s'.
Proof. intros (A&B&ev&pr&->). done. Qed.

(** The ledger reads these items only. *)
Lemma LedgerInv_ext s s' :
  Authorizations (ts s') = Authorizations (ts s) ->
  AllowedAuthorizers (ts s') = AllowedAuthorizers (ts s) ->
  provider_calls s' = provider_calls s ->
  PermanentStorageUsed (dr s') = PermanentStorageUsed (dr s) ->
  PendingRenewals (dr s') = PendingRenewals (dr s) ->
  parameters (sys s') = parameters (sys s) ->
  LedgerInv s -> LedgerInv s'.
Proof.
  intros E1 E2 E3 E4 E5 E6 (I1 & I2 & I3 & I4). split_and!.
  - by apply (AuthInv_ext s).
  - by apply (CapInv_ext s).
  - unfold PendingInv. by rewrite E5.
  - unfold BudgetInv. by rewrite E2.
Qed.

(** The rolled-back state differs by the host log only. *)
Lemma dispatch_state {A} (m : MD A) s :
  (exists a, m s = (Ok a, (dispatch m s).2)) \/
  (exists l, (dispatch m s).2 = upd_host_calls (fun _ => l) s).
Proof.
  unfold dispatch. destruct (m s) as [[a|e] s']; [left; by exists a|right].
  by eexists.
Qed.

(** A block closes when no proof is missing and no renewal is pending. *)
Lemma close_block_iff s s' :
  close_block s = Some s' <->
  proof_ok (now s) s = true /\ PendingRenewals (dr s) = [] /\
  s' = seal_block (now s) (upd_ProofChecked (fun _ => false) s).
Proof.
  unfold close_block, on_finalize, renewal_on_finalize.
  destruct (proof_ok (now s) s); [|naive_solver].
  assert (PendingRenewals (dr (seal_block (now s) (upd_ProofChecked (fun _ => false) s))) =
    PendingRenewals (dr s)) as -> by (unfold seal_block; by destruct (negb _)).
  destruct (PendingRenewals (dr s)); naive_solver.
Qed.

(** An invariant blind to the host log survives dispatch when success keeps it. *)
Lemma dispatch_preserves {A} (P : State -> Prop) (m : MD A) s :
  (forall l, P s -> P (upd_host_calls (fun _ => l) s)) ->
  (forall a s', m s = (Ok a, s') -> P s') ->
  P s -> P (dispatch m s).2.
Proof.
  intros Hh Hok HP. destruct (dispatch_state m s) as [[a Ha]|[l ->]]; [by eapply Hok|by apply Hh].
Qed.
End Transfer.

(** A wrapper keeps what the calls inside it keep, if it does not depend on what the host
    was told. *)
Lemma utility_invariant `{Host} `{Config} `{!HopHost} `{!RuntimeHost} `{!RuntimeLaws}
    (P : State -> Prop) o u s :
  (forall s0 l, P s0 -> P (upd_host_calls (fun _ => l) s0)) ->
  (forall s0 o' c, leads_to o (Utility u) o' c -> leaf_call c = true -> P s0 ->
     P (dispatch (dispatch_runtime o' c) s0).2) ->
  P s -> P (dispatch_utility o u s).2.
Proof.
  intros Hl Hc. pose proof (utility_parts o u s) as Hr. revert Hr. generalize (dispatch_utility o u s).2 as s'.
  intros s' Hr. induction Hr as [s|s1 s2 s3 Hp _ IH]; [done|]. intros HP. apply IH.
  destruct Hp as [s0 o' c Hd Hlc|s0 l]; auto.
Qed.

(** ** The state of an open block *)

(** What no step inside a block changes: the block number, the retention period
    and the sealed blocks. *)
Definition frozen (s : State) : BlockNumber * BlockNumber * gmap BlockNumber StoredTransactions :=
  (now s, RetentionPeriod (ts s), Transactions (ts s)).

(** The invariant of an open block whose frozen part is [F]. *)
Definition GoodAt `{Host} `{Config} F (s : State) : Prop :=
  LedgerInv s /\ InBlock s /\ 0 < now s /\ frozen s = F.

Section Good.
Context `{HostLaws} `{!Config} `{!ConfigLaws} `{!ChunkCapacity} `{!AuthorizerLaws}.
Context {F : BlockNumber * BlockNumber * gmap BlockNumber StoredTransactions}.

Local Abbreviation Good := (GoodAt F).

Lemma Good_ext s s' :
  now s' = now s ->
  Authorizations (ts s') = Authorizations (ts s) ->
  AllowedAuthorizers (ts s') = AllowedAuthorizers (ts s) ->
  provider_calls s' = provider_calls s ->
  PermanentStorageUsed (dr s') = PermanentStorageUsed (dr s) ->
  PendingRenewals (dr s') = PendingRenewals (dr s) ->
  Transactions (ts s') = Transactions (ts s) ->
  RetentionPeriod (ts s') = RetentionPeriod (ts s) ->
  BlockTransactions (ts s') = BlockTransactions (ts s) ->
  TransactionByContentHash (ts s') = TransactionByContentHash (ts s) ->
  parameters (sys s') = parameters (sys s) ->
  (scalars_typed s -> scalars_typed s') ->
  Good s -> Good s'.
Proof.
  intros E1 E2 E3 E4 E5 E6 E7 E8 E9 E10 E11 E12 (L & I & Hn & HF). split_and!.
  - by apply (LedgerInv_ext s).
  - by apply (InBlock_ext s).
  - by rewrite E1.
  - unfold frozen in *. by rewrite E1, E7, E8.
Qed.

(** An authorization call keeps the state good when it keeps the two invariants
    about authorizations. *)
Lemma Good_auth s s' :
  auth_only s s' -> AuthInv s' -> BudgetInv s' -> Good s -> Good s'.
Proof.
  intros Hf HA HB ((_ & C & P & _) & I & Hn & HF).
  destruct (ledger_rest_auth_only s s' Hf (conj C P)) as [C' P'].
  split_and!; [done| |..].
  - by apply (InBlock_auth_only s).
  - by destruct Hf as (A&B&ev&pr&->).
  - by destruct Hf as (A&B&ev&pr&->).
Qed.

Lemma Good_origin_ok s o auth :
  Good s -> Authorizer s o = Some auth -> origin_ok auth.
Proof.
  intros ((_ & _ & _ & B) & _) Ha ctx t -> Ht.
  destruct (authorizer_registered s o ctx Ha) as (b & Hb & Hv).
  rewrite Hv in Ht. by apply (B _ _ Hb).
Qed.

Lemma Good_now s : Good s -> is_u32 (now s).
Proof. intros (_ & (I & _) & _). by apply bi_now. Qed.

Lemma BudgetInv_auth f s : BudgetInv s -> BudgetInv (upd_Authorizations f s).
Proof. done. Qed.

Lemma BudgetInv_consume who t b s :
  is_u32 t -> is_u64 b -> BudgetInv s -> BudgetInv (consume_authorizer_budget who t b s).2.
Proof.
  intros Ht Hb I. unfold consume_authorizer_budget.
  destruct (AllowedAuthorizers (ts s) !! who) as [bud|] eqn:E; [|done].
  destruct (try_consume bud t b) as [bud'|] eqn:Et; [simpl|done].
  intros w x Hx. simpl in Hx. apply lookup_insert_Some in Hx as [[<- <-]|[_ Hx]]; [|by eapply I].
  destruct (I _ _ E) as [Hq Hv]. destruct (quota bud) as [q|] eqn:Eq.
  - destruct (try_consume_metered _ _ _ _ _ Eq Et) as (? & ? & ->).
    destruct (Hq q eq_refl). split; simpl; [|done]. intros q' [= <-]. simpl.
    unfold is_u32, is_u64 in *. lia.
  - unfold try_consume in Et. rewrite Eq in Et. injection Et as <-.
    split; [by rewrite Eq|done].
Qed.

Lemma BudgetInv_authorize scope t b auth s :
  is_u32 t -> is_u64 b -> BudgetInv s -> BudgetInv (authorize scope t b auth s).2.
Proof.
  intros Ht Hb I. unfold authorize. unfold_M.
  assert (forall e s0, BudgetInv s0 -> BudgetInv
    (let old := Authorizations (ts s0) !! scope in
     let s' := upd_Authorizations <[scope := granted scope t b (now s) e old]> s0 in
     match old with None => authorization_added scope s' | Some _ => s' end)) as Hw.
  { intros e s0 I0. simpl. destruct (Authorizations (ts s0) !! scope), scope; exact I0. }
  destruct auth as [ctx|]; [|by apply Hw].
  pose proof (BudgetInv_consume (authorizer ctx) t b s Ht Hb I) as I1.
  destruct (consume_authorizer_budget (authorizer ctx) t b s) as [[[]|e] s1]; [|done].
  by apply Hw.
Qed.

(** Grants. *)
Lemma Good_authorize scope t b auth o s :
  is_u32 t -> 0 < b <= u64_max -> Authorizer s o = Some auth ->
  Good s -> Good (authorize scope t b auth s).2.
Proof.
  intros Ht Hb Ha G. pose proof G as ((IA & _ & _ & IB) & _).
  apply (Good_auth s); [apply authorize_frame| | |done].
  - apply authorize_inv; [done| |by apply Good_now|done]. by eapply Good_origin_ok.
  - apply BudgetInv_authorize; [done| |done]. unfold is_u64. lia.
Qed.

Lemma Good_event e s : Good s -> Good (deposit_storage_event e s).
Proof. by apply Good_ext. Qed.

Lemma Good_renewal_event e s : Good s -> Good (deposit_renewal_event e s).
Proof. by apply Good_ext. Qed.

Lemma Good_host l s : Good s -> Good (upd_host_calls (fun _ => l) s).
Proof. by apply Good_ext. Qed.

Lemma Good_set_extrinsic x s : is_u32 x -> Good s -> Good (set_extrinsic x s).
Proof. intros Hx. apply Good_ext; try done. intros (_ & ?). split; [by intros y [= <-]|done]. Qed.

Lemma Good_set_timestamp t s : is_u64 t -> Good s -> Good (set_timestamp t s).
Proof. intros Ht. apply Good_ext; try done. by intros (? & _ & ?). Qed.

Lemma Good_set_dec_providers d s : Good s -> Good (set_dec_providers d s).
Proof. by apply Good_ext. Qed.

(** A parameter may change as long as the cap covers what is in use. *)
Lemma Good_set_parameter k v s :
  PermanentStorageUsed (dr s) <= permanent_cap (set_parameter k v s) -> Good s -> Good (set_parameter k v s).
Proof.
  intros Hc ((IA & IC & IP & IB) & I & Hn & HF). split_and!; try done.
  - split_and!; try done; [by apply (AuthInv_ext s)|]. unfold CapInv in *. simpl in *. lia.
  - by apply (InBlock_ext s).
Qed.

Hint Resolve Good_event Good_renewal_event Good_host Good_set_extrinsic Good_set_timestamp : chain.

Lemma Good_store data hashing codec s :
  is_u64 codec -> Good s -> Good (do_store data hashing codec s).2.
Proof.
  intros Hc (L & I & Hn & HF). pose proof (do_store_inv data hashing codec s Hc I) as I'.
  split; [|split; [done|split]]; rewrite do_store_eq;
    repeat (destr_match; simpl; try done); by apply (LedgerInv_ext s).
Qed.

Lemma Good_refresh scope auth o s :
  Authorizer s o = Some auth -> Good s -> Good (refresh_authorization scope auth s).2.
Proof.
  intros Ha G. pose proof G as ((IA & _ & _ & IB) & _).
  apply (Good_auth s); [apply refresh_frame| | |done].
  - apply refresh_authorization_inv; [by eapply Good_origin_ok|by apply Good_now|done].
  - unfold refresh_authorization. by destruct (_ !! scope).
Qed.

Lemma Good_remove_expired scope s : Good s -> Good (remove_expired_authorization scope s).2.
Proof.
  intros G. pose proof G as ((IA & _ & _ & IB) & _).
  apply (Good_auth s); [apply remove_expired_frame|by apply remove_expired_authorization_inv| |done].
  unfold remove_expired_authorization, ok_or. unfold_M.
  destruct (Authorizations (ts s) !! scope) as [a|]; [|done].
  destruct (expired a (now s)); [|done]. by destruct scope.
Qed.

Lemma BudgetInv_delete who s :
  BudgetInv s -> BudgetInv (upd_AllowedAuthorizers (delete who) s).
Proof. intros I w b Hb. simpl in Hb. apply lookup_delete_Some in Hb as [_ Hb]. by eapply I. Qed.

Lemma BudgetInv_insert who b s :
  budget_ok b -> BudgetInv s -> BudgetInv (upd_AllowedAuthorizers <[who := b]> s).
Proof.
  intros Hb I w x Hx. simpl in Hx. apply lookup_insert_Some in Hx as [[_ <-]|[_ Hx]]; [done|by eapply I].
Qed.

Lemma Good_add_authorizer o who b s :
  budget_ok b -> Good s -> Good (add_authorizer o who b s).2.
Proof.
  intros Hb G. pose proof G as ((IA & _ & _ & IB) & _).
  apply (Good_auth s); [|by apply add_authorizer_inv| |done]; unfold add_authorizer; unfold_M;
    (destruct (AuthorizerRegistrarOrigin o); simpl; [|done]);
    (destruct (negb _); simpl; [|done]); destruct (bool_decide _); simpl.
  1, 2: unfold inc_authorizer_providers; auth_frame_tac.
  all: by apply (BudgetInv_insert who b s).
Qed.

Lemma Good_remove_authorizer o who s : Good s -> Good (remove_authorizer o who s).2.
Proof.
  intros G. pose proof G as ((IA & _ & _ & IB) & _).
  apply (Good_auth s); [|by apply remove_authorizer_inv| |done]; unfold remove_authorizer; unfold_M;
    (destruct (AuthorizerRegistrarOrigin o); simpl; [|done]);
    destruct (AllowedAuthorizers (ts s) !! who); simpl.
  1, 2: unfold dec_authorizer_providers, dec_providers_or_warn; auth_frame_tac.
  all: by apply (BudgetInv_delete who s).
Qed.

Lemma Good_remove_exhausted who s : Good s -> Good (remove_exhausted_authorizer who s).2.
Proof.
  intros G. pose proof G as ((IA & _ & _ & IB) & _).
  apply (Good_auth s); [|by apply remove_exhausted_authorizer_inv| |done];
    unfold remove_exhausted_authorizer, ok_or; unfold_M;
    (destruct (AllowedAuthorizers (ts s) !! who); simpl; [|done]);
    (destruct (is_inactive _ _); simpl; [|done]).
  - unfold dec_authorizer_providers, dec_providers_or_warn. auth_frame_tac.
  - by apply (BudgetInv_delete who s).
Qed.

(** The proof inherent writes the flag and an event only. *)
Lemma Good_apply_block_inherents o p s : Good s -> Good (apply_block_inherents o p s).2.
Proof.
  intros G. unfold apply_block_inherents, do_check_proof, ok_or. unfold_M.
  destruct (ensure_none o); [simpl|done]. destruct p as [p|]; [|done].
  destruct (negb (ProofChecked (ts s))); [simpl|done].
  destruct (negb (_ =? 0)); [simpl|done]. destruct (transactions_at _ _); [simpl|done].
  destruct (verify_chunk_proof _ _ _); [|done]. by apply (Good_ext s).
Qed.

(** Sequencing: a computation that keeps the state good, followed by an event. *)
Lemma Good_then {A} (m : MD A) f s :
  (forall s, Good s -> Good (f s)) -> Good (m s).2 -> Good ((do! m in modify f) s).2.
Proof. intros Hf G. unfold_M. destruct (m s) as [[a|e] s1]; [by apply Hf|done]. Qed.

Lemma Good_dispatch_storage o c s :
  storage_args_ok c -> Good s -> Good (dispatch_storage o c s).2.
Proof.
  intros Hc G.
  destruct c as [data|cid data|who t b|h b|who|h|who|h|p|who b|who|who]; simpl in *;
    unfold store, store_with_cid_config, authorize_account, authorize_preimage,
      remove_expired_account_authorization, remove_expired_preimage_authorization,
      refresh_account_authorization, refresh_preimage_authorization.
  1, 2: unfold bind at 1, lift; destruct (ensure_authorized o); [by apply Good_store|done].
  1: destruct Hc as [Ht Hb]. 
  1, 2, 5, 6: unfold bind at 1, ensure_authorizer, ok_or;
    destruct (Authorizer s o) as [auth|] eqn:Ea; [|done].
  - unfold bind at 1, ensure. destruct (0 <? b) eqn:E; b2p; [|done].
    apply Good_then; [auto with chain|]. eapply Good_authorize; [done| |done|done].
    unfold is_u64 in Hb. lia.
  - unfold bind at 1, ensure. destruct (0 <? b) eqn:E; b2p; [|done].
    apply Good_then; [auto with chain|]. eapply Good_authorize; [|unfold is_u64 in Hc; lia|done|done].
    unfold is_u32, u32_max. lia.
  - apply Good_then; [auto with chain|]. by eapply Good_refresh.
  - apply Good_then; [auto with chain|]. by eapply Good_refresh.
  - apply Good_then; [auto with chain|]. by apply Good_remove_expired.
  - apply Good_then; [auto with chain|]. by apply Good_remove_expired.
  - by apply Good_apply_block_inherents.
  - by apply Good_add_authorizer.
  - by apply Good_remove_authorizer.
  - by apply Good_remove_exhausted.
Qed.

(** ** Renewal calls *)

Lemma transaction_info_size s b i info :
  BlockInv s -> transaction_info s b i = Some info -> size_ok info /\ entry_typed info.
Proof.
  intros I. unfold transaction_info, Transactions_get.
  destruct (Transactions (ts s) !! b) as [v|] eqn:E; [|done].
  destruct (bi_sealed s I b v E) as (_ & txs & -> & _ & (_ & Hs & _)). simpl. intros Hi.
  split; [by eapply Forall_lookup_1|]. eapply Forall_lookup_1; [by eapply bi_typed|done].
Qed.

Lemma resolve_size s entry info :
  BlockInv s -> resolve_transaction_ref s entry = Ok info -> size_ok info /\ entry_typed info.
Proof.
  intros I. unfold resolve_transaction_ref, ok_or.
  destruct entry as [b i|h]; [|destruct (TransactionByContentHash (ts s) !! h) as [[b i]|]; [|done]];
    destruct (transaction_info s b i) eqn:E; intros [= <-]; by eapply transaction_info_size.
Qed.

Lemma Good_block s : Good s -> BlockInv s.
Proof. by intros (_ & (I & _) & _). Qed.

(** Appending a renewed entry synchronously. *)
Lemma Good_do_renew info s r s' :
  size_ok info /\ entry_typed info -> do_renew info s = (Ok r, s') -> Good s -> Good s'.
Proof.
  intros [Hsz [_ Hty]]. unfold do_renew, ok_or. unfold_M.
  destruct (extrinsic_index (sys s)) as [x|] eqn:Ex; [|done]. unfold with_block_transactions.
  destruct (entries_renew_cases info x meta_renew (BlockTransactions (ts s)) s)
    as [[Hl ->]|[Hl (e & He & ->)]]; [done|]. intros [= _ <-] (L & I & Hn & HF).
  split_and!; [by apply (LedgerInv_ext s)| |done|done].
  subst e. eapply InBlock_ext; [..|apply (InBlock_push s
    (mkInfo (ti_chunk_root info) (ti_content_hash info) (ti_hashing info)
       (ti_cid_codec info) (ti_size info) x (ti_block_chunks info) meta_renew) I Hsz
    (conj (proj1 (bi_scalars s (proj1 I)) x Ex) Hty) Hl)]; done.
Qed.

Lemma Good_process_pending s : Good s -> Good (do_process_pending_renewals s).2.
Proof.
  intros ((IA & IC & IP & IB) & I & Hn & HF).
  destruct (process_pending_CapsInv s (conj IA IC) IP) as [IA' IC'].
  pose proof (process_pending_InBlock s I IP) as I'.
  pose proof (process_pending_empties s IP) as Hp.
  destruct (process_pending_frame s IP) as (EB & Es & ER & ET).
  assert (now (do_process_pending_renewals s).2 = now s) as En by (unfold now; by rewrite Es).
  split; [|split_and!; [done|by rewrite En|unfold frozen in *; by rewrite En, ER, ET]].
  split_and!; [done|done| |].
  - unfold PendingInv. rewrite Hp. split; [constructor|]. pose proof MaxBlockTransactions_range.
    unfold len. simpl. lia.
  - unfold BudgetInv. by rewrite EB.
Qed.

Lemma Good_dispatch_renewal o c s : Good s -> Good (dispatch (dispatch_renewal o c) s).2.
Proof.
  intros G. apply dispatch_preserves; [intros; by apply Good_host| |done]. intros a s'.
  destruct c as [entry|entry|h|h|]; simpl;
    unfold renew, force_renew, enable_auto_renew, disable_auto_renew, process_pending_renewals,
      resolve_or, ok_or; unfold_M.
  - destruct (ensure_authorized o) as [[w sc| |]|]; try done.
    destruct (resolve_transaction_ref s entry) as [info|]; [|done].
    destruct (negb _); intros [= _ <-]. by apply (Good_ext s).
  - destruct (ensure_authorized o); [|done].
    destruct (resolve_transaction_ref s entry) as [info|] eqn:Er; [|done].
    pose proof (resolve_size s entry info (Good_block s G) Er) as Hsz.
    destruct (ensure_data_size_ok _); [|done].
    destruct (do_renew info s) as [[r|e] s1] eqn:Ed; intros [= _ <-].
    apply Good_renewal_event. by eapply Good_do_renew.
  - destruct (ensure_authorized o) as [[w sc| |]|]; try done.
    destruct (negb _); [|done]. destruct (lookup_by_content_hash s h) as [[b i]|]; [|done].
    destruct (transaction_info s b i); intros [= _ <-]. by apply (Good_ext s).
  - destruct (ensure_authorized o) as [c|]; [|done]. destruct (Renewals (dr s) !! h) as [d|]; [|done].
    destruct c; [destruct (bool_decide _); [destruct (negb _)|]| |]; intros [= _ <-];
      by apply (Good_ext s).
  - destruct (ensure_none o); [|done]. pose proof (Good_process_pending s G) as G'.
    destruct (do_process_pending_renewals s) as [n s1]. intros [= _ <-]. exact G'.
Qed.

Lemma Good_dispatch_hop `{!HopHost} o c s : Good s -> Good (dispatch_hop o c s).2.
Proof.
  intros G. destruct c; simpl; unfold promote, promote_v2; unfold bind, ensure;
    (destruct (ensure_authorized_call o); [|done]); by apply Good_store.
Qed.

(** ** Charges *)

Lemma Good_check_authorization scope n b s :
  0 <= n -> Good s -> Good (check_authorization scope n b s).2.
Proof.
  intros Hn G. pose proof G as ((IA & _ & _ & IB) & _).
  apply (Good_auth s); [apply check_authorization_frame|by apply check_authorization_inv| |done].
  unfold check_authorization. repeat (destr_match; simpl); done.
Qed.

Lemma Good_check_renew scope n b s :
  0 <= n -> Good s -> Good (check_renew_authorization scope n b s).2.
Proof.
  intros Hsz ((IA & IC & IP & IB) & I & Hn & HF).
  pose proof (AuthInv_check_renew scope n b s Hsz IA) as IA'.
  pose proof (CapInv_check scope n b s Hsz IC) as IC'. revert IA' IC'.
  rewrite check_renew_authorization_eq.
  destruct (renew_allowed s scope n); [destruct b|]; simpl; intros IA' IC'; try done.
  destruct (charge_frame scope n s) as (E1 & E2 & E3 & E4 & E5 & E6 & E7 & E8 & E9 & E10 & E11).
  assert (now (charge scope n s) = now s) as En by (unfold now; by rewrite E1).
  split_and!; try done.
  - split_and!; try done.
    + unfold PendingInv. by rewrite E5.
    + unfold BudgetInv. by rewrite E10.
  - apply (InBlock_ext s); try done. unfold charge. by rewrite update_used_eq.
  - by rewrite En.
  - unfold frozen in *. by rewrite En, E6, E7.
Qed.

Lemma as_u32_nonneg x : 0 <= as_u32 x.
Proof. unfold as_u32. apply Z.mod_pos_bound. lia. Qed.

Lemma Good_pre_dispatch_signed who c s : Good s -> Good (pre_dispatch_signed who c s).2.
Proof.
  intros G. destruct (store_call c) as [[size h]|] eqn:Ec.
  - unfold pre_dispatch_signed, bind. rewrite (check_signed_store_eq _ _ _ _ _ Ec).
    rewrite check_signed_store_prepare.
    destruct (negb _); [done|]. destruct (block_transactions_full s); [done|].
    destruct (charged_scope s who h) as [scope|]; [|done].
    apply Good_check_authorization; [apply as_u32_nonneg|done].
  - rewrite check_signed_management_pure; [done|]. by destruct c.
Qed.

Lemma Good_charge scope n s :
  0 <= n -> renew_allowed s scope n = true -> Good s -> Good (charge scope n s).
Proof.
  intros Hn Hok G. pose proof (Good_check_renew scope n true s Hn G) as G'.
  by rewrite check_renew_authorization_eq, Hok in G'.
Qed.

(** What a signed renewal is charged for is allowed and has a size. *)
Lemma renewal_charge_allowed s who c scope n :
  BlockInv s -> renewal_charge s who c = Ok (scope, n) ->
  (exists h, c = CallDisableAutoRenew h) \/ (0 <= n /\ renew_allowed s scope n = true).
Proof.
  intros I Hc. destruct c as [entry|entry|h|h|]; simpl in Hc; [right|right|right|left; eauto|done].
  - destruct (resolve_transaction_ref s entry) as [info|] eqn:Er; [|done].
    pose proof (resolve_size s entry info I Er) as [[Hs _] _].
    destruct (bool_decide _); [done|]. destruct (renew_allowed s _ _) eqn:Ea; simplify_eq. split; [lia|done].
  - destruct (resolve_transaction_ref s entry) as [info|] eqn:Er; [|done].
    pose proof (resolve_size s entry info I Er) as [[Hs _] _].
    destruct (negb _); [done|]. destruct (block_transactions_full s); [done|].
    destruct (renew_allowed s (Preimage _) _) eqn:Ea; [simplify_eq; split; [lia|done]|].
    destruct (renew_allowed s (Account _) _) eqn:Eb; simplify_eq. split; [lia|done].
  - destruct (bool_decide _); [done|].
    destruct (resolve_transaction_ref s (ByContentHash h)) as [info|] eqn:Er;
      unfold resolve_transaction_ref in Er; rewrite Er in Hc; [|done].
    pose proof (resolve_size s (ByContentHash h) info I Er) as [[Hs _] _].
    destruct (renew_allowed s _ _) eqn:Ea; simplify_eq. split; [lia|done].
Qed.

Lemma Good_apply_charge s who c scope n :
  renewal_charge s who c = Ok (scope, n) -> Good s -> Good (apply_charge c scope n s).
Proof.
  intros Hc G. destruct (renewal_charge_allowed s who c scope n (Good_block s G) Hc)
    as [[h ->]|[Hn Ha]]; [done|].
  destruct c; simpl; try done; by apply Good_charge.
Qed.

Lemma Good_pre_dispatch_renewal_signed who c s :
  Good s -> Good (pre_dispatch_renewal_signed who c s).2.
Proof.
  intros G. unfold pre_dispatch_renewal_signed, bind.
  pose proof (check_renewal_signed_spec who c PreDispatch s) as Hp.
  destruct (renewal_charge s who c) as [[scope n]|e] eqn:Ec.
  - destruct Hp as [vt ->]. simpl. by eapply Good_apply_charge.
  - by rewrite Hp.
Qed.

Lemma Good_prepare `{!HopHost} val c s : Good s -> Good (prepare RuntimeLeaves val c s).2.
Proof.
  intros G. destruct val as [who|]; [|done].
  rewrite (prepare_state RuntimeLeaves _ who c s).
  destruct c as [i|i|i|u|o]; simpl; try done.
  - unfold_M. pose proof (Good_pre_dispatch_signed who i s G) as G'.
    by destruct (pre_dispatch_signed who i s) as [[]].
  - unfold_M. pose proof (Good_pre_dispatch_renewal_signed who i s G) as G'.
    by destruct (pre_dispatch_renewal_signed who i s) as [[]].
Qed.

Lemma Good_dispatch_leaf `{!HopHost} `{!RuntimeHost} `{!RuntimeLaws} o c s :
  leaf_call c = true -> args_ok c -> Good s -> Good (dispatch (dispatch_runtime o c) s).2.
Proof.
  intros Hl Hc G. destruct c as [i|i|i|u|e]; simpl in Hc.
  - apply dispatch_preserves; [intros; by apply Good_host| |done]. intros a s' Hs'.
    pose proof (Good_dispatch_storage o i s Hc G) as G'. unfold dispatch_runtime in Hs'.
    by rewrite Hs' in G'.
  - by apply Good_dispatch_renewal.
  - apply dispatch_preserves; [intros; by apply Good_host| |done]. intros a s' Hs'.
    pose proof (Good_dispatch_hop o i s G) as G'. unfold dispatch_runtime in Hs'.
    by rewrite Hs' in G'.
  - done.
  - apply dispatch_preserves; [intros; by apply Good_host| |done]. intros a s' Hs'. simpl in Hs'.
    destruct (other_frame o e s) as [d Hd]. rewrite Hs' in Hd. simpl in Hd. subst s'.
    by apply Good_set_dec_providers.
Qed.

Lemma Good_dispatch_runtime `{!HopHost} `{!RuntimeHost} `{!RuntimeLaws} m o c s :
  call_ok m o c -> Good s -> Good (dispatch (dispatch_runtime o c) s).2.
Proof.
  intros Hc G. destruct (leaf_call c) eqn:El.
  { apply Good_dispatch_leaf; [done| |done]. by apply (Hc o c), leads_here. }
  destruct c as [| | |u|]; try done.
  apply dispatch_preserves; [intros; by apply Good_host| |done]. intros a s' Hs'. simpl in Hs'.
  assert (Good (dispatch_utility o u s).2) as G'; [|by rewrite Hs' in G'].
  apply utility_invariant; [intros s0 l; apply Good_host| |done].
  intros s0 o' c' Hd Hlc. apply Good_dispatch_leaf; [done|]. by apply (Hc o' c').
Qed.

Lemma Good_apply_signed `{!HopHost} `{!RuntimeHost} `{!RuntimeLaws} m who c s :
  call_ok m (System (Signed who)) c -> Good s -> Good (apply_signed who c s).
Proof.
  intros Hc G. unfold apply_signed.
  pose proof (validate_pure RuntimeLeaves _ (System (Signed who)) c s) as Hp.
  destruct (validate _ _ c s) as [[[[vt val] origin]|e] s1] eqn:Ev; [|done]. simpl in Hp. subst s1.
  pose proof (Good_prepare val c s G) as G'.
  destruct (prepare _ val c s) as [[[]|e] s2]; [|done]. destruct (leaf_call c) eqn:El.
  - apply Good_dispatch_leaf; [done| |done]. by apply (Hc (System (Signed who)) c), leads_here.
  - destruct c as [| | |u|]; try done. apply validate_wrapper_origin in Ev as ->.
    by eapply Good_dispatch_runtime.
Qed.

Lemma Good_unsigned_storage c s :
  storage_args_ok c -> Good s -> Good (apply_unsigned_storage c s).
Proof.
  intros Hc G. unfold apply_unsigned_storage.
  assert (Good (pre_dispatch c s).2) as G'.
  { unfold pre_dispatch. destruct (is_inherent c); [done|].
    destruct c; simpl; unfold check_store_unsigned, check_authorization_expired, ok_or; unfold_M;
      try done.
    1, 2: destruct (data_size_ok _); [simpl|done];
      destruct (block_transactions_full s); [done|simpl];
      match goal with G0 : Good ?st |- context [check_authorization ?sc ?n ?b ?st] =>
        pose proof (Good_check_authorization sc n b st (as_u32_nonneg _) G0) as G';
        destruct (check_authorization sc n b st) as [[]]; done end.
    all: repeat (destr_match; simpl in *; simplify_eq); done. }
  destruct (pre_dispatch c s) as [[[]|e] s1]; [|done]. simpl in G'.
  apply dispatch_preserves; [intros; by apply Good_host| |done]. intros a s' Hs'.
  pose proof (Good_dispatch_storage (System NoneOrigin) c s1 Hc G') as G2. by rewrite Hs' in G2.
Qed.

Lemma Good_unsigned_renewal c s : Good s -> Good (apply_unsigned_renewal c s).
Proof.
  intros G. unfold apply_unsigned_renewal.
  assert (Good (renewal_pre_dispatch c s).2) as G'.
  { unfold renewal_pre_dispatch. destruct (renewal_is_inherent c); [done|].
    destruct c as [|entry| | |]; try done. unfold check_renew_unsigned, resolve_or. unfold_M.
    destruct (resolve_transaction_ref s entry) as [info|] eqn:Er; [|done].
    pose proof (resolve_size s entry info (Good_block s G) Er) as [[Hs _] _].
    destruct (data_size_ok _); [simpl|done]. destruct (block_transactions_full s); [done|simpl].
    pose proof (Good_check_renew (Preimage (ti_content_hash info)) (ti_size info) true s
      ltac:(lia) G) as G'.
    by destruct (check_renew_authorization _ _ true s) as [[]]. }
  destruct (renewal_pre_dispatch c s) as [[[]|e] s1]; [|done]. by apply Good_dispatch_renewal.
Qed.

Lemma Good_hop `{!HopHost} source c s : Good s -> Good (apply_hop source c s).
Proof.
  intros G. unfold apply_hop. destruct (authorize_hop source c s); [|done].
  apply dispatch_preserves; [intros; by apply Good_host| |done]. intros a' s' Hs'.
  pose proof (Good_dispatch_hop (System AuthorizedCall) c s G) as G2. by rewrite Hs' in G2.
Qed.

(** ** Opening and closing blocks *)

Lemma sweep_one_pairs (Q : TransactionInfoFor -> Prop) o pairs s tx :
  Forall (fun it : TransactionInfoFor * bool => Q it.1) pairs -> Q tx ->
  Forall (fun it : TransactionInfoFor * bool => Q it.1) (sweep_one o (pairs, s) tx).1.
Proof.
  intros Hp Ht. unfold sweep_one. simpl. destruct (try_push _ pairs _) as [k|] eqn:E; simpl; [|done].
  apply try_push_Some in E as [_ ->]. apply Forall_app_2; [done|]. by apply Forall_singleton.
Qed.

(** The sweep reports entries of the block it sweeps. *)
Lemma sweep_pairs_ok (Q : TransactionInfoFor -> Prop) o txs s :
  Forall Q txs -> Forall (fun it : TransactionInfoFor * bool => Q it.1) (sweep o txs s).1.
Proof.
  intros Ht. unfold sweep.
  assert (forall pairs s, Forall (fun it : TransactionInfoFor * bool => Q it.1) pairs ->
    Forall (fun it : TransactionInfoFor * bool => Q it.1)
      (foldl (sweep_one o) (pairs, s) txs).1) as Hg.
  { induction Ht as [|t txs Ht Hts IH]; intros pairs s' Hp; [done|]. cbn [foldl].
    pose proof (sweep_one_pairs Q o pairs s' t Hp Ht) as Hq.
    destruct (sweep_one o (pairs, s') t) as [pairs' s'']. by apply IH. }
  by apply Hg.
Qed.

(** [on_initialize] with the renewal callback keeps the ledger. *)
Lemma on_initialize_ledger n s :
  BlockInv s -> LedgerInv s -> LedgerInv (on_initialize n s).
Proof.
  intros I L. unfold on_initialize. set (o := sat_sub n _). clearbody o.
  destruct (0 <? o); [|done].
  unfold Transactions_take, Transactions_get.
  destruct (Transactions (ts s) !! o) as [v|] eqn:Ev; [|done].
  destruct (bi_sealed s I o v Ev) as (_ & txs & -> & _ & Hw). pose proof Hw as (_ & Hs & _). simpl.
  destruct (sweep_state o txs (upd_Transactions (delete o) s)) as (m & Hm & _).
  pose proof (sweep_pairs_ok (fun t => size_ok t /\ entry_typed t /\ is_u32 (ti_block_chunks t)) o txs
    (upd_Transactions (delete o) s) (proj2 (Forall_and _ _)
      (conj Hs (proj2 (Forall_and _ _) (conj (bi_typed s I o txs Ev) (wf_entries_chunks_u32 txs Hw)))))) as Hp.
  destruct (sweep o txs (upd_Transactions (delete o) s)) as [pairs s2]. simpl in Hm, Hp. subst s2.
  assert (LedgerInv (upd_TransactionByContentHash (fun _ => m) (upd_Transactions (delete o) s)))
    as (LA & LC & LP & LB) by by apply (LedgerInv_ext s).
  set (s2 := upd_TransactionByContentHash _ _) in *. clearbody s2.
  destruct (handle_obsolete_invs o pairs s2 Hp (conj LA LC) LP) as [[A1 C1] P1].
  split_and!; [done..|]. destruct (renewal_handle_frame o pairs s2) as (_ & Et & _).
  unfold BudgetInv. change (handle_obsolete o pairs s2) with (renewal_handle_obsolete o pairs s2).
  by rewrite Et.
Qed.

Lemma on_initialize_now n s : now (on_initialize n s) = now s.
Proof.
  unfold on_initialize, now. destruct (0 <? _); [|done].
  destruct (Transactions_take _ _) as [[txs|] s2] eqn:Et;
    unfold Transactions_take in Et; destruct (Transactions_get _ _); simplify_eq; [|done].
  match goal with |- context [sweep ?o txs ?s3] =>
    destruct (sweep_state o txs s3) as (m & Hm & _); destruct (sweep o txs s3) as [pairs s4] end.
  simpl in Hm. subst s4. by rewrite handle_obsolete_sys.
Qed.

Lemma on_initialize_block n s : BlockTransactions (ts (on_initialize n s)) = BlockTransactions (ts s).
Proof.
  unfold on_initialize. destruct (0 <? _); [|done].
  destruct (Transactions_take _ _) as [[txs|] s2] eqn:Et;
    unfold Transactions_take in Et; destruct (Transactions_get _ _); simplify_eq; [|done].
  match goal with |- context [sweep ?o txs ?s3] =>
    destruct (sweep_state o txs s3) as (m & Hm & _); destruct (sweep o txs s3) as [pairs s4] end.
  simpl in Hm. subst s4. by rewrite handle_obsolete_ts.
Qed.

Lemma open_block_inv parent s :
  Sealed s -> now s + 1 <= u32_max -> 0 <= now s ->
  let s1 := open_block parent s in
  BlockInv s1 /\ window_from (now s1 - 1) s1 /\ unsealed s1.
Proof.
  intros (I & W & Hb) Hn Hn0. simpl. pose proof I as [I1 I2 I3 I4 I5 I6 I7 I8 I9].
  change (now (open_block parent s)) with (now s + 1).
  assert (forall b i info, entry_at (open_block parent s) b i info <-> entry_at s b i info) as Ee.
  { intros b i info. unfold entry_at. simpl. rewrite Hb.
    split; (intros [He|[_ He]]; [by left|by rewrite lookup_nil in He]). }
  split_and!.
  - constructor; try done.
    + unfold is_u32, now in *. simpl. lia.
    + intros b v Hv. destruct (I4 b v Hv) as [? ?]. split; [|done]. unfold now in *. simpl. lia.
    + intros h b i Hi. destruct (I5 h b i Hi) as (? & info & He & ?). split; [done|].
      exists info. by rewrite Ee.
    + intros b i info. rewrite Ee. apply I6.
    + destruct I7 as (_ & ?). split; [|done]. intros x [= <-]. unfold is_u32, u32_max. lia.
  - intros b v Hv. specialize (W b v Hv). replace (now s + 1 - 1) with (now s) by lia. exact W.
  - unfold unsealed. change (now (open_block parent s)) with (now s + 1). simpl.
    destruct (Transactions (ts s) !! (now s + 1)) as [v|] eqn:E; [|done].
    destruct (I4 _ v E). unfold now in *. lia.
Qed.

Lemma open_block_good parent s :
  LedgerInv s -> Sealed s -> now s + 1 <= u32_max ->
  let s' := on_initialize (now s + 1) (open_block parent s) in
  LedgerInv s' /\ InBlock s' /\ now s' = now s + 1 /\ 0 < now s'.
Proof.
  intros L S Hn s'. subst s'. pose proof S as (I & _). pose proof (bi_now s I) as Hn0. unfold is_u32 in Hn0.
  destruct (open_block_inv parent s S Hn ltac:(lia)) as (I1 & W1 & U1).
  assert (now (on_initialize (now s + 1) (open_block parent s)) = now s + 1) as En
    by exact (on_initialize_now (now s + 1) (open_block parent s)).
  split_and!; [|exact (on_initialize_inv (open_block parent s) I1 W1 U1)|done|lia].
  apply on_initialize_ledger; [done|]. by apply (LedgerInv_ext s).
Qed.

Lemma close_block_inv s s' :
  Good s -> close_block s = Some s' ->
  LedgerInv s' /\ Sealed s' /\ PendingRenewals (dr s') = [].
Proof.
  intros (L & I & Hn & HF) (_ & Hp & ->)%close_block_iff.
  assert (InBlock (upd_ProofChecked (fun _ => false) s)) as I' by by apply (InBlock_ext s).
  pose proof (seal_block_inv _ I' Hn) as Hs. split_and!; [|exact Hs|].
  - unfold seal_block. destruct (negb _); by apply (LedgerInv_ext s).
  - unfold seal_block. by destruct (negb _).
Qed.
End Good.

(** ** Genesis *)

Section Genesis.
Context `{HostLaws} `{!Config} `{!ConfigLaws} `{!ChunkCapacity}.

Definition AuthBudgetInv (s : State) : Prop := AuthInv s /\ BudgetInv s.

Lemma AuthorizationPeriod_u32 : is_u32 AuthorizationPeriod.
Proof. pose proof AuthorizationPeriod_range. unfold is_u32. lia. Qed.

Lemma genesis_accounts_inv l s :
  NoDup (map (fun e : AccountId * Z * Z => e.1.1) l) ->
  Forall (fun e : AccountId * Z * Z => is_u32 e.1.2 /\ 0 < e.2 <= u64_max) l ->
  (forall e, e ∈ l -> Authorizations (ts s) !! Account e.1.1 = None) ->
  AuthBudgetInv s ->
  AuthBudgetInv (foldl (fun s e => genesis_account e s) s l).
Proof.
  intros Hd Hok. revert s. induction Hok as [|[[who t] b] l [Ht Hb] Hok IH]; intros s Hnew [IA IB];
    [done|]. apply NoDup_cons in Hd as [Hnin Hd]. simpl in *. apply IH; [done| |].
  - intros e He. simpl. rewrite lookup_insert_ne.
    + apply Hnew. by right.
    + intros [= Heq]. apply Hnin. rewrite Heq. apply list_elem_of_In.
      apply (in_map (fun e : AccountId * Z * Z => e.1.1)). by apply list_elem_of_In.
  - split; [|done].
    apply (AuthInv_create_authorization (Account who)); [|apply wf_fresh|done].
    + apply (Hnew (who, t, b)). by left.
    + done.
    + apply AuthorizationPeriod_u32.
Qed.

Lemma genesis_preimages_inv l s :
  Forall (fun e : ContentHash * Z => 0 < e.2 <= u64_max) l ->
  AuthBudgetInv s ->
  AuthBudgetInv (foldl (fun s e => genesis_preimage e s) s l).
Proof.
  intros Hok. revert s. induction Hok as [|[h b] l Hb Hok IH]; intros s [IA IB]; [done|].
  simpl in *. apply IH. split; [|done].
  assert (wf_authorization (Preimage h) (genesis_authorization 1 b)) as Hwf.
  { apply wf_fresh; [|apply AuthorizationPeriod_u32]. split; [unfold is_u32, u32_max; lia|done]. }
  destruct (Authorizations (ts s) !! Preimage h) eqn:E.
  - by eapply AuthInv_update_authorization.
  - exact (AuthInv_create_authorization (Preimage h) _ s E Hwf IA).
Qed.

Lemma genesis_authorizers_inv l s :
  Forall (fun e : AccountId * Z * Z => is_u32 e.1.2 /\ is_u64 e.2) l ->
  AuthBudgetInv s ->
  AuthBudgetInv (foldl (fun s e => genesis_authorizer e s) s l).
Proof.
  intros Hok. revert s. induction Hok as [|[[who t] b] l [Ht Hb] Hok IH]; intros s [IA IB]; [done|].
  simpl in *. apply IH.
  assert (budget_ok (mkBudget (Some (mkQuota t b)) None true)) as Hbud.
  { split; simpl; [|done]. by intros q [= <-]. }
  destruct (bool_decide _) eqn:E; b2p; split; try by apply (BudgetInv_insert who _ s).
  - by apply AuthInv_create_budget.
  - destruct (AllowedAuthorizers (ts s) !! who) eqn:E'; [|done]. by eapply AuthInv_update_budget.
Qed.

Lemma genesis_loop_frame {A} (f : A -> State -> State) l s :
  (forall e s, auth_only s (f e s)) -> auth_only s (foldl (fun s e => f e s) s l).
Proof.
  intros Hf. revert s. induction l as [|e l IH]; intros s; simpl; [reflexivity|].
  etransitivity; [apply Hf|apply IH].
Qed.

Lemma genesis_frame g s :
  auth_only (upd_RetentionPeriod (fun _ => g_retention_period g)
    (upd_EntryFee (fun _ => Some (g_entry_fee g)) (upd_ByteFee (fun _ => Some (g_byte_fee g)) s)))
    (genesis_build g s).
Proof.
  unfold genesis_build.
  etransitivity; [|apply (genesis_loop_frame genesis_authorizer)].
  etransitivity; [|apply (genesis_loop_frame genesis_preimage)].
  apply (genesis_loop_frame genesis_account).
  - intros [[who t] b] s'. simpl. auth_frame_tac.
  - intros [h b] s'. simpl. auth_frame_tac.
  - intros [[who t] b] s'. simpl. unfold inc_authorizer_providers.
    destruct (bool_decide _); auth_frame_tac.
Qed.

Lemma genesis_inv g h :
  genesis_ok g -> ChainInv (Idle, genesis_build g (empty_state h)).
Proof.
  intros [G1 [GB GE] G2 G3 G4 G5]. pose proof (genesis_frame g (empty_state h)) as (A&B&ev&pr&E).
  assert (AuthBudgetInv (genesis_build g (empty_state h))) as [IA IB].
  { unfold genesis_build. apply genesis_authorizers_inv; [done|].
    apply genesis_preimages_inv; [done|]. apply genesis_accounts_inv; [done|done|done|].
    split; [constructor|]; done. }
  pose proof (MaxPermanentStorageSize_range ∅). pose proof MaxBlockTransactions_range.
  unfold is_u64 in *. unfold ChainInv. simpl fst. simpl snd.
  split; [split; [done|split; [|split; [|done]]]|split]; rewrite E.
  - unfold CapInv, permanent_cap. simpl. lia.
  - unfold PendingInv. simpl. split; [constructor|unfold len; simpl; lia].
  - split; [|split].
    + constructor; simpl; try done.
      * split_and!; [done|constructor|unfold len; simpl; lia].
      * intros b i info [(txs & Ht & _)|[_ Hi]]; [done|by destruct i].
      * split_and!; simpl; [done|unfold is_u64, u64_max; lia|by intros x [= <-]|by intros x [= <-]].
    + intros b v Hb. done.
    + done.
  - done.
Qed.
End Genesis.

(** ** Reachable states *)

Section Reachable.
Context `{HostLaws} `{!Config} `{!ConfigLaws} `{!ChunkCapacity} `{!AuthorizerLaws} `{!HopHost}
  `{!RuntimeHost} `{!RuntimeLaws}.

Lemma good_at s : LedgerInv s -> InBlock s /\ 0 < now s -> GoodAt (frozen s) s.
Proof. by intros ? [? ?]. Qed.

(** The two inherents. *)
Lemma Good_apply_proof x proof s F :
  is_u32 x -> GoodAt F s ->
  GoodAt F (dispatch (apply_block_inherents (System NoneOrigin) proof) (set_extrinsic x s)).2.
Proof.
  intros Hx G. apply (Good_set_extrinsic x) in G; [|done].
  apply dispatch_preserves; [intros; by apply Good_host| |done].
  intros a s' Hs'. pose proof (Good_apply_block_inherents (System NoneOrigin) proof _ G) as G'.
  by rewrite Hs' in G'.
Qed.

Lemma Good_apply_drain x s F :
  is_u32 x -> GoodAt F s ->
  GoodAt F (dispatch (process_pending_renewals (System NoneOrigin)) (set_extrinsic x s)).2.
Proof.
  intros Hx G. apply (Good_set_extrinsic x) in G; [|done].
  pose proof (Good_dispatch_renewal (System NoneOrigin) CallProcessPendingRenewals _ G) as G'.
  revert G'. unfold dispatch, dispatch_renewal, bind.
  by destruct (process_pending_renewals (System NoneOrigin) (set_extrinsic x s)) as [[]].
Qed.

(** Every step inside a block keeps its invariant and freezes its frozen part. *)
Lemma inner_step_good F ph s ph' s' :
  GoodAt F s -> chain_step (ph, s) (ph', s') -> ph <> Idle -> ph' <> Idle -> GoodAt F s'.
Proof.
  intros G Hs Hp Hp'. inversion Hs; subst; try done.
  - by apply Good_set_timestamp.
  - by apply Good_apply_proof.
  - by apply Good_apply_drain.
  - eapply Good_apply_signed; [done|by apply Good_set_extrinsic].
  - apply Good_unsigned_storage; [done|by apply Good_set_extrinsic].
  - apply Good_unsigned_renewal. by apply Good_set_extrinsic.
  - apply Good_hop. by apply Good_set_extrinsic.
  - eapply Good_dispatch_runtime; [done|by apply Good_set_extrinsic].
  - by apply Good_set_parameter.
  - by apply Good_set_dec_providers.
Qed.

(** The three kinds of steps. *)
Lemma chain_step_kinds ph s ph' s' :
  chain_step (ph, s) (ph', s') ->
  (ph = Idle /\ now s + 1 <= u32_max /\
     exists parent, s' = on_initialize (now s + 1) (open_block parent s)) \/
  (ph <> Idle /\ ph' <> Idle) \/
  (ph <> Idle /\ ph' = Idle /\ close_block s = Some s').
Proof. inversion 1; subst; naive_solver. Qed.

Lemma chain_step_inv p q : ChainInv p -> chain_step p q -> ChainInv q.
Proof.
  destruct p as [ph s], q as [ph' s']. intros [L I] Hs. unfold ChainInv. simpl in *.
  destruct (chain_step_kinds _ _ _ _ Hs) as [(-> & Hn & parent & ->)|[[Hp Hp']|(Hp & -> & Hc)]].
  - assert (ph' = Inherents) as -> by by inversion Hs. destruct I as [S _].
    by destruct (open_block_good parent s L S Hn) as (? & ? & _ & ?).
  - assert (GoodAt (frozen s) s) as G by (apply good_at; [done|by destruct ph]).
    destruct (inner_step_good _ _ _ _ _ G Hs Hp Hp') as (L' & I' & Hn' & _). by destruct ph'.
  - assert (GoodAt (frozen s) s) as G by (apply good_at; [done|by destruct ph]).
    by apply (close_block_inv (F := frozen s) s).
Qed.

Lemma reachable_inv g p : genesis_ok g -> reachable g p -> ChainInv p.
Proof.
  intros Hg. induction 1 as [h|p q Hp IH Hs]; [by apply genesis_inv|by eapply chain_step_inv].
Qed.

Lemma reachable_idle g s :
  genesis_ok g -> reachable g (Idle, s) ->
  LedgerInv s /\ Sealed s /\ PendingRenewals (dr s) = [].
Proof. intros Hg Hr. destruct (reachable_inv g _ Hg Hr) as [L [S P]]. done. Qed.

Lemma reachable_ledger g ph s : genesis_ok g -> reachable g (ph, s) -> LedgerInv s.
Proof. intros Hg Hr. by destruct (reachable_inv g _ Hg Hr). Qed.

Lemma reachable_block g ph s : genesis_ok g -> reachable g (ph, s) -> BlockInv s.
Proof. intros Hg Hr. destruct (reachable_inv g _ Hg Hr) as [_ I], ph; apply I. Qed.

Lemma reachable_good g ph s :
  genesis_ok g -> reachable g (ph, s) -> ph <> Idle -> GoodAt (frozen s) s.
Proof. intros Hg Hr Hp. destruct (reachable_inv g _ Hg Hr) as [L I]. apply good_at; [done|by destruct ph]. Qed.

(** ** Retention across steps *)

(** [on_initialize] touches one sealed block only. *)
Lemma on_initialize_sealed n s b :
  b <> sat_sub n (sat_add_u32 (RetentionPeriod (ts s)) 1) ->
  Transactions (ts (on_initialize n s)) !! b = Transactions (ts s) !! b /\
  RetentionPeriod (ts (on_initialize n s)) = RetentionPeriod (ts s).
Proof.
  intros Hb. unfold on_initialize, retention_period. destruct (0 <? _); [|done].
  destruct (Transactions_take _ _) as [[txs|] s2] eqn:Et;
    unfold Transactions_take in Et; destruct (Transactions_get _ _); simplify_eq; [|done].
  match goal with |- context [sweep ?o txs ?s3] =>
    destruct (sweep_state o txs s3) as (m & Hm & _); destruct (sweep o txs s3) as [pairs s4] end.
  simpl in Hm. subst s4. rewrite handle_obsolete_ts. simpl. by rewrite lookup_delete_ne by done.
Qed.

Lemma step_retains p q b v :
  ChainInv p -> chain_step p q ->
  Transactions (ts p.2) !! b = Some v -> now q.2 <= b + RetentionPeriod (ts p.2) ->
  Transactions (ts q.2) !! b = Some v /\ RetentionPeriod (ts q.2) = RetentionPeriod (ts p.2).
Proof.
  destruct p as [ph s], q as [ph' s']. intros [L I] Hs Hb Hw. simpl in *.
  destruct (chain_step_kinds _ _ _ _ Hs) as [(-> & Hn & parent & ->)|[[Hp Hp']|(Hp & -> & Hc)]].
  - destruct I as [(I & _) _]. destruct (bi_sealed s I b v Hb) as [Hb0 _].
    pose proof (bi_period s I). pose proof (bi_now s I) as Hnow.
    rewrite on_initialize_now in Hw. change (now (open_block parent s)) with (now s + 1) in Hw.
    destruct (on_initialize_sealed (now s + 1) (open_block parent s) b) as [-> ->]; [|done].
    simpl. unfold sat_sub, sat_add, is_u32 in *. lia.
  - assert (GoodAt (frozen s) s) as G by (apply good_at; [done|by destruct ph]).
    destruct (inner_step_good _ _ _ _ _ G Hs Hp Hp') as (_ & _ & _ & HF).
    unfold frozen in HF. injection HF as _ -> ->. done.
  - assert (InBlock s) as (_ & _ & U) by (destruct ph; [done|apply I..]).
    apply close_block_iff in Hc as (_ & _ & ->). unfold seal_block.
    destruct (negb _); simpl; [|done]. rewrite lookup_insert_ne; [done|].
    intros <-. unfold unsealed in U. by rewrite U in Hb.
Qed.

Lemma step_now p q : ChainInv p -> chain_step p q -> now p.2 <= now q.2.
Proof.
  destruct p as [ph s], q as [ph' s']. intros [L I] Hs. simpl in *.
  destruct (chain_step_kinds _ _ _ _ Hs) as [(-> & Hn & parent & ->)|[[Hp Hp']|(Hp & -> & Hc)]].
  - rewrite on_initialize_now. change (now (open_block parent s)) with (now s + 1). lia.
  - assert (GoodAt (frozen s) s) as G by (apply good_at; [done|by destruct ph]).
    destruct (inner_step_good _ _ _ _ _ G Hs Hp Hp') as (_ & _ & _ & HF).
    unfold frozen in HF. injection HF as -> _ _. lia.
  - apply close_block_iff in Hc as (_ & _ & ->). unfold seal_block. destruct (negb _); simpl; unfold now; simpl; lia.
Qed.

Lemma rtc_now p q : ChainInv p -> rtc chain_step p q -> now p.2 <= now q.2.
Proof.
  intros I Hr. induction Hr as [p|p q r Hs Hr IH]; [lia|].
  pose proof (step_now p q I Hs). specialize (IH (chain_step_inv p q I Hs)). lia.
Qed.

Lemma rtc_retains p q b v :
  ChainInv p -> rtc chain_step p q ->
  Transactions (ts p.2) !! b = Some v -> now q.2 <= b + RetentionPeriod (ts p.2) ->
  Transactions (ts q.2) !! b = Some v.
Proof.
  intros I Hr. induction Hr as [p|p q r Hs Hr IH]; intros Hb Hw; [done|].
  pose proof (chain_step_inv p q I Hs) as I'. pose proof (rtc_now q r I' Hr).
  destruct (step_retains p q b v I Hs Hb ltac:(lia)) as [Hb' HR].
  apply IH; [done|done|]. by rewrite HR.
Qed.
End Reachable.

(** ** Charged calls *)

Section Charged.
Context `{HostLaws} `{!Config} `{!ConfigLaws} `{!ChunkCapacity} `{!AuthorizerLaws}.

(** Resolution reads the sealed blocks and the index only. *)
Lemma resolve_ext s s' entry :
  Transactions (ts s') = Transactions (ts s) ->
  TransactionByContentHash (ts s') = TransactionByContentHash (ts s) ->
  resolve_transaction_ref s' entry = resolve_transaction_ref s entry.
Proof.
  intros E1 E2. unfold resolve_transaction_ref, transaction_info, Transactions_get. by rewrite E1, E2.
Qed.

Lemma store_succeeds data hashing codec s x :
  data_size_ok (len data) = true -> extrinsic_index (sys s) = Some x ->
  len (BlockTransactions (ts s)) < MaxBlockTransactions ->
  is_ok (do_store data hashing codec s).1 = true.
Proof.
  intros Hs Hx Hl. rewrite do_store_eq. pose proof MaxTransactionSize_range.
  rewrite as_u32_small by (apply data_size_ok_size in Hs; unfold is_u32; lia).
  rewrite Hs, Hx. simpl. apply Z.ltb_lt in Hl. by rewrite Hl.
Qed.

Lemma do_renew_succeeds info s x :
  extrinsic_index (sys s) = Some x -> len (BlockTransactions (ts s)) < MaxBlockTransactions ->
  is_ok (do_renew info s).1 = true.
Proof.
  intros Hx Hl. unfold do_renew, with_block_transactions. unfold_M. rewrite Hx. simpl.
  destruct (entries_renew_cases info x meta_renew (BlockTransactions (ts s)) s)
    as [[Hl' ->]|[_ (e & _ & ->)]]; [lia|done].
Qed.

Lemma stored_after_charge who i s vt scope s1 s2 x :
  wf_entries (BlockTransactions (ts s)) -> extrinsic_index (sys s) = Some x -> is_store_call i = true ->
  validate_signed who i s = (Ok (vt, scope), s1) -> pre_dispatch_signed who i s = (Ok tt, s2) ->
  is_ok (dispatch_storage (rewritten_origin who scope) i s2).1 = true.
Proof.
  intros I Hx Hi Hv Hp.
  assert (exists data hashing codec, store_call i = Some (len data, hash hashing data) /\
    dispatch_storage (rewritten_origin who scope) i s2 =
      (do! lift (ensure_authorized (rewritten_origin who scope)) in do_store data hashing codec) s2)
    as (data & hashing & codec & Hc & ->).
  { destruct i; try done.
    - by exists data, Blake2b256, RAW_CODEC.
    - by exists data, (cc_hashing cid), (cc_codec cid). }
  revert Hv Hp. unfold validate_signed, pre_dispatch_signed. unfold_M.
  rewrite !(check_signed_store_eq _ _ _ _ _ Hc), check_signed_store_validate,
    check_signed_store_prepare.
  destruct (data_size_ok (len data)) eqn:Es; simpl; [|done].
  destruct (block_transactions_full s) eqn:Ef; [done|].
  destruct (charged_scope s who (hash hashing data)) as [sc|] eqn:Ec; [|done].
  assert (forall sc', scope = Some sc' ->
    auth_only s s2 -> is_ok (do_store data hashing codec s2).1 = true) as Hgo.
  { intros sc' _ (A&B&ev&pr&->). eapply store_succeeds; [done|done|]. simpl.
    by apply block_not_full. }
  pose proof (check_authorization_frame sc (as_u32 (len data)) true s) as Hf.
  destruct sc as [w|h]; intros [= _ <- _] [= <-]; simpl; by eapply Hgo.
Qed.

Lemma renewed_after_charge who i s vt scope s1 s2 x :
  wf_entries (BlockTransactions (ts s)) -> extrinsic_index (sys s) = Some x ->
  validate_renewal_signed who i s = (Ok (vt, scope), s1) ->
  pre_dispatch_renewal_signed who i s = (Ok tt, s2) ->
  is_ok (dispatch_renewal (rewritten_origin who scope) i s2).1 = true.
Proof.
  intros I Hx. unfold validate_renewal_signed, pre_dispatch_renewal_signed, bind.
  pose proof (check_renewal_signed_spec who i Validate s) as Hv.
  pose proof (check_renewal_signed_spec who i PreDispatch s) as Hp.
  destruct (renewal_charge s who i) as [[sc n]|e] eqn:Ec; [|by rewrite Hv].
  destruct Hv as [vt1 ->], Hp as [vt2 ->]. simpl. unfold ret. intros [= _ <- _] [= <-]. simpl.
  destruct (charge_frame sc n s) as (E1 & _ & _ & E4 & _ & E6 & _ & E8 & E9 & _).
  destruct i as [entry|entry|h|h|]; simpl in Ec |- *; try done;
    unfold renew, force_renew, enable_auto_renew, disable_auto_renew, resolve_or; unfold_M; simpl.
  - rewrite (resolve_ext s) by done. destruct (resolve_transaction_ref s entry) as [info|]; [|done].
    rewrite E4. by destruct (bool_decide _).
  - rewrite (resolve_ext s) by done. destruct (resolve_transaction_ref s entry) as [info|]; [|done].
    unfold ensure_data_size_ok. destruct (data_size_ok (ti_size info)); [simpl in *|done].
    destruct (block_transactions_full s) eqn:Ef; [done|].
    assert (is_ok (do_renew info (charge sc n s)).1 = true) as Hok.
    { eapply do_renew_succeeds; [by rewrite E1|]. rewrite E8.
      by apply block_not_full. }
    by destruct (do_renew info (charge sc n s)) as [[]].
  - rewrite E4. destruct (bool_decide _); [done|]. simpl. unfold lookup_by_content_hash. rewrite E9.
    destruct (TransactionByContentHash (ts s) !! h) as [[b j]|]; [simpl in *|done].
    unfold transaction_info, Transactions_get in *. rewrite E6.
    destruct (Transactions (ts s) !! b) as [v|]; [|done].
    destruct (decode_current v) as [txs|]; [|done]. by destruct (txs !! Z.to_nat j).
  - destruct (Renewals (dr s) !! h) as [d|]; [simpl in *|done].
    destruct (bool_decide (rd_account d = who)) eqn:Ea; [simpl in *|done].
    destruct (paid d); [done|]. done.
Qed.
End Charged.
