(* ===== verification/Ledger.v ===== *)
(** The renewal ledger: an abstract machine of what the renewal pallet keeps
    account of, and the proof that the chain implements it.

    The machine's state is the part of the chain state that accounts for permanent
    storage: the chain-wide counter, the registrations, the pending queue, the
    entries (sealed and of the current block) and the content index.  Its steps are
    the only ways an extrinsic may change them. *)

From S2P Require Import Prelude Slice Primitives Types State Authorizations Blocks Retention Checks Renewal RenewalFacts Hop Extension ExtensionFacts Chain ChainFacts.

(** The size of the content behind a hash. *)
Class ContentSizes := {
  content_size : ContentHash -> Z;
  content_size_nonneg h : 0 <= content_size h }.

(** Content-addressing: data of different lengths never shares a content hash, so
    the length is a function of the hash. *)
Definition content_addressed `{Host} `{Config} `{ContentSizes} : Prop :=
  forall a d, data_size_ok (as_u32 (len d)) = true -> content_size (hash a d) = as_u32 (len d).

Record View := mkView {
  v_used : Z;
  v_regs : gmap ContentHash RenewalData;
  v_pending : list PendingItem;
  v_block : list TransactionInfoFor;
  v_sealed : gmap BlockNumber StoredTransactions;
  v_index : gmap ContentHash (BlockNumber * Z);
  v_cap : Z }.

Definition view `{Config} (s : State) : View :=
  mkView (PermanentStorageUsed (dr s)) (Renewals (dr s)) (PendingRenewals (dr s))
    (BlockTransactions (ts s)) (Transactions (ts s)) (TransactionByContentHash (ts s))
    (permanent_cap s).

Section Machine.
Context `{ContentSizes}.

(** An entry has the size its content hash says (what metering relies on). *)
Definition sized (metered : bool) (e : TransactionInfoFor) : Prop :=
  metered = true -> ti_size e = content_size (ti_content_hash e).

(** The steps of an extrinsic: [n] is what the signer is charged, never past the cap.
    Two are Root's, which nobody is charged for; and governance may change the cap, to
    what is in use or more. *)
Inductive ledger_step (metered : bool) : View -> View -> Prop :=
| ledger_store u R P B T I C e i :
    is_renew (ti_meta e) = false -> sized metered e ->
    ledger_step metered (mkView u R P B T I C)
      (mkView u R P (B ++ [e]) T (<[ti_content_hash e := i]> I) C)
| ledger_register u R P B T I C h d n :
    R !! h = None -> paid d = true -> is_Some (I !! h) -> u + n <= C ->
    (metered = true -> n = content_size h) ->
    ledger_step metered (mkView u R P B T I C) (mkView (u + n) (<[h := d]> R) P B T I C)
| ledger_renew u R P B T I C e i :
    is_renew (ti_meta e) = true -> sized metered e -> u + ti_size e <= C ->
    ledger_step metered (mkView u R P B T I C)
      (mkView (u + ti_size e) R P (B ++ [e]) T (<[ti_content_hash e := i]> I) C)
| ledger_cancel u R P B T I C h d :
    R !! h = Some d -> paid d = false ->
    ledger_step metered (mkView u R P B T I C) (mkView u (delete h R) P B T I C)
| ledger_root_renew u R P B T I C e i :
    metered = false -> is_renew (ti_meta e) = true -> sized metered e ->
    ledger_step metered (mkView u R P B T I C)
      (mkView u R P (B ++ [e]) T (<[ti_content_hash e := i]> I) C)
| ledger_root_cancel u R P B T I C h :
    metered = false ->
    ledger_step metered (mkView u R P B T I C) (mkView u (delete h R) P B T I C)
| ledger_set_cap u R P B T I C C' :
    u <= C' -> (C < u64_max -> C' < u64_max) ->
    ledger_step metered (mkView u R P B T I C) (mkView u R P B T I C').

Definition ledger_steps (metered : bool) (v v' : View) : Prop :=
  v' = v \/ ledger_step metered v v'.

(** Any number of steps: what a wrapper may make. *)
Definition ledger_run (metered : bool) : View -> View -> Prop := rtc (ledger_step metered).

Lemma ledger_steps_run m v v' : ledger_steps m v v' -> ledger_run m v v'.
Proof. intros [->|Hs]; [reflexivity|by apply rtc_once]. Qed.

(** ** What is accounted for *)

Definition renew_size (e : TransactionInfoFor) : Z :=
  if is_renew (ti_meta e) then ti_size e else 0.

Definition renewed_in (v : StoredTransactions) : Z :=
  match decode_current v with Some txs => lsum renew_size txs | None => 0 end.

Definition prepaid (h : ContentHash) (d : RenewalData) : Z :=
  if paid d then content_size h else 0.

(** The bytes the counter should show: renewed entries and prepaid cycles. *)
Definition accounted (v : View) : Z :=
  msum (fun _ => renewed_in) (v_sealed v) + lsum renew_size (v_block v) + msum prepaid (v_regs v).

(** Every entry has the size of its content. *)
Definition all_sized (metered : bool) (v : View) : Prop :=
  Forall (sized metered) (v_block v) /\
  forall b txs, v_sealed v !! b = Some (LayoutCurrent txs) -> Forall (sized metered) txs.

(** No registration has lost its content: it is indexed or waits in the queue. *)
Definition backed_by (v : View) (items : list PendingItem) : Prop :=
  forall h, is_Some (v_regs v !! h) ->
    is_Some (v_index v !! h) \/ exists p, p ∈ items /\ item_hash p = h.

Definition backed (v : View) : Prop := backed_by v (v_pending v).

(** The queue matches the registrations, one item each. *)
Definition queue_matches (metered : bool) (v : View) (items : list PendingItem) : Prop :=
  NoDup (map item_hash items) /\
  forall p, p ∈ items ->
    v_regs v !! item_hash p = Some (item_data p) /\ sized metered (item_info p) /\
    ti_content_hash (item_info p) = item_hash p.

Definition LedgerOk (metered : bool) (v : View) : Prop :=
  all_sized metered v /\ backed v /\ (metered = true -> v_used v = accounted v).

End Machine.

(** ** The machine keeps its books *)

Section Books.
Context `{ContentSizes}.

Lemma indexed_insert (I : gmap ContentHash (BlockNumber * Z)) h k p :
  is_Some (I !! h) -> is_Some (<[k := p]> I !! h).
Proof. intros Hh. destruct (decide (k = h)) as [->|]; [rewrite lookup_insert_eq; by eexists|by rewrite lookup_insert_ne]. Qed.

Lemma ledger_step_sized m v v' : ledger_step m v v' -> all_sized m v -> all_sized m v'.
Proof.
  intros Hs [Hb Ht]. destruct Hs; split; simpl in *; try done; apply Forall_app_2; try done;
    by apply Forall_singleton.
Qed.

Lemma ledger_step_backed m v v' : ledger_step m v v' -> backed v -> backed v'.
Proof.
  intros Hs Hb.
  destruct Hs as [u R P B T I C e i|u R P B T I C h d n Hn Hp Hi _ _|u R P B T I C e i|u R P B T I C h d Hr Hp
                 |u R P B T I C e i|u R P B T I C h Hm|u R P B T I C C' _ _]; intros k Hk; simpl in *.
  1, 3, 5: destruct (Hb k Hk) as [?|?]; [left; by apply indexed_insert|by right].
  - destruct (decide (h = k)) as [->|Hne]; [by left|]. rewrite lookup_insert_ne in Hk by done.
    by apply Hb.
  - destruct (decide (h = k)) as [->|Hne]; [by rewrite lookup_delete_eq in Hk; destruct Hk|].
    rewrite lookup_delete_ne in Hk by done. by apply Hb.
  - destruct (decide (h = k)) as [->|Hne]; [by rewrite lookup_delete_eq in Hk; destruct Hk|].
    rewrite lookup_delete_ne in Hk by done. by apply Hb.
  - by apply Hb.
Qed.

Lemma ledger_step_books v v' :
  ledger_step true v v' -> v_used v = accounted v -> v_used v' = accounted v'.
Proof.
  intros Hs Hu. destruct Hs as [u R P B T I C e i Hm Hz|u R P B T I C h d n Hn Hp Hi _ Hc
    |u R P B T I C e i Hm Hz _|u R P B T I C h d Hr Hp|u R P B T I C e i Hf|u R P B T I C h Hf|u R P B T I C C' _ _];
    try done; unfold accounted in *; simpl in *.
  - rewrite lsum_app. simpl. unfold renew_size at 2. rewrite Hm. lia.
  - rewrite (msum_insert prepaid R h d Hn). unfold prepaid at 1. rewrite Hp, (Hc eq_refl). lia.
  - rewrite lsum_app. simpl. unfold renew_size at 2. rewrite Hm. lia.
  - rewrite (msum_delete prepaid R h d Hr) in Hu. unfold prepaid at 1 in Hu. rewrite Hp in Hu. lia.
Qed.

Lemma ledger_steps_ok m v v' : ledger_steps m v v' -> LedgerOk m v -> LedgerOk m v'.
Proof.
  intros [->|Hs] (Hz & Hb & Hu); [done|]. split_and!.
  - by eapply ledger_step_sized.
  - by eapply ledger_step_backed.
  - intros ->. eapply ledger_step_books; [done|by apply Hu].
Qed.

Lemma ledger_run_ok m v v' : ledger_run m v v' -> LedgerOk m v -> LedgerOk m v'.
Proof.
  induction 1 as [v|v1 v2 v3 Hs _ IH]; [done|]. intros Hl. apply IH. eapply ledger_steps_ok; [by right|done].
Qed.

Lemma ledger_run_cap m v v' : ledger_run m v v' -> v_cap v < u64_max -> v_cap v' < u64_max.
Proof. induction 1 as [v|v1 v2 v3 Hs _ IH]; [done|]. intros Hc. apply IH. destruct Hs; auto. Qed.
End Books.

(** ** The drain *)

Section Drain.
Context `{HostLaws} `{!Config} `{!ConfigLaws} `{!ChunkCapacity} `{!ContentSizes}.

(** When the cap is not the largest [u64] the counter never saturates. *)
Lemma charge_view scope n s :
  permanent_cap s < u64_max -> renew_allowed s scope n = true ->
  view (charge scope n s) =
  mkView (PermanentStorageUsed (dr s) + n) (Renewals (dr s)) (PendingRenewals (dr s))
    (BlockTransactions (ts s)) (Transactions (ts s)) (TransactionByContentHash (ts s)) (permanent_cap s) /\
  PermanentStorageUsed (dr s) + n <= permanent_cap s.
Proof.
  intros Hcap Ha. assert (sat_add_u64 (PermanentStorageUsed (dr s)) n = PermanentStorageUsed (dr s) + n)
    as E.
  { unfold renew_allowed in Ha. destruct (get_active_authorization s scope); [|done]. b2p.
    unfold sat_add in *. lia. }
  split; [unfold charge; rewrite update_used_eq; unfold view; simpl; by rewrite E|].
  unfold renew_allowed in Ha. destruct (get_active_authorization s scope); [|done]. b2p. lia.
Qed.

(** The loop invariant of the drain: what is left of the queue still backs the
    registrations that lost their content. *)
Definition DrainOk (m : bool) (acc : list TransactionInfoFor * State) (items : list PendingItem)
    : Prop :=
  let v := view (with_entries acc) in
  v_cap v < u64_max /\ all_sized m v /\ queue_matches m v items /\ backed_by v items /\
  (m = true -> v_used v = accounted v) /\ len acc.1 + len items <= MaxBlockTransactions.

(** The view after a delivered cycle. *)
Lemma delivered_view x p entries s :
  permanent_cap s < u64_max -> cycle_paid s p = true ->
  exists e i, is_renew (ti_meta e) = true /\
    ti_size e = ti_size (item_info p) /\ ti_content_hash e = ti_content_hash (item_info p) /\
    view (with_entries (delivered x p entries s)) =
    mkView (PermanentStorageUsed (dr s) + (if paid (item_data p) then 0 else ti_size (item_info p)))
      (registration_after p (Renewals (dr s))) (PendingRenewals (dr s))
      (entries ++ [e]) (Transactions (ts s))
      (<[ti_content_hash e := i]> (TransactionByContentHash (ts s))) (permanent_cap s).
Proof.
  intros Hcap Hp. exists (pushed (renewed_entry x (item_info p)) entries), (now s, as_u32 (len entries)).
  split_and!; [done..|]. unfold cycle_paid in Hp.
  assert (view (cycle_charge p s) =
    mkView (PermanentStorageUsed (dr s) + (if paid (item_data p) then 0 else ti_size (item_info p)))
      (Renewals (dr s)) (PendingRenewals (dr s)) (BlockTransactions (ts s)) (Transactions (ts s))
      (TransactionByContentHash (ts s)) (permanent_cap s)) as Hv.
  { unfold cycle_charge. destruct (paid (item_data p)); [unfold view; by rewrite Z.add_0_r|].
    by apply charge_view. }
  unfold view in Hv. injection Hv as E1 E2 E3 E4 E5 E6 E7.
  unfold with_entries, delivered, view, permanent_cap in *. simpl. by rewrite E1, E2, E3, E5, E6, E7.
Qed.

Lemma queue_matches_tail m v v' p items :
  queue_matches m v (p :: items) ->
  (forall h, h <> item_hash p -> v_regs v' !! h = v_regs v !! h) ->
  queue_matches m v' items.
Proof.
  intros [Hnd Hq] Hsame. simpl in Hnd. apply NoDup_cons in Hnd as [Hnin Hnd]. split; [done|].
  intros q Hin. destruct (Hq q ltac:(by right)) as (Hr & Hz & Hh). split_and!; [|done..].
  rewrite Hsame; [done|]. intros Heq. apply Hnin. rewrite <- Heq. by apply list_elem_of_fmap_2.
Qed.

Lemma backed_by_tail v v' p items :
  backed_by v (p :: items) ->
  (forall h, h <> item_hash p -> v_regs v' !! h = v_regs v !! h) ->
  (forall h, is_Some (v_index v !! h) -> is_Some (v_index v' !! h)) ->
  (is_Some (v_regs v' !! item_hash p) -> is_Some (v_index v' !! item_hash p)) ->
  backed_by v' items.
Proof.
  intros Hb Hsame Hidx Hp h Hh. destruct (decide (h = item_hash p)) as [->|Hne].
  - left. by apply Hp.
  - rewrite Hsame in Hh by done. destruct (Hb h Hh) as [?|(q & Hq & Hqh)]; [left; by apply Hidx|].
    right. exists q. split; [|done]. apply elem_of_cons in Hq as [->|Hq]; [congruence|done].
Qed.

Lemma registration_after_ne p R h :
  h <> item_hash p -> registration_after p R !! h = R !! h.
Proof.
  intros Hne. unfold registration_after. destruct (negb _).
  - by rewrite lookup_delete_ne.
  - destruct (paid _); [by rewrite lookup_alter_ne|done].
Qed.

(** Delivering a cycle moves its bytes from the registrations to the entries. *)
Lemma registration_after_prepaid p R :
  R !! item_hash p = Some (item_data p) ->
  msum prepaid (registration_after p R) =
  msum prepaid R - (if paid (item_data p) then content_size (item_hash p) else 0).
Proof.
  intros Hr. unfold registration_after. destruct (recurring (item_data p)) eqn:Er; simpl.
  - destruct (paid (item_data p)) eqn:Ep; simpl; [|unfold id; lia].
    rewrite (msum_alter prepaid _ R _ _ Hr). unfold prepaid at 2 3. simpl. rewrite Ep. lia.
  - rewrite (msum_delete prepaid R _ _ Hr). unfold prepaid at 2. lia.
Qed.

Lemma DrainOk_step m x entries s p items :
  DrainOk m (entries, s) (p :: items) -> DrainOk m (drain_one x (entries, s) p) items.
Proof.
  intros (Hcap & Hz & Hq & Hb & Hu & Hl). simpl in Hl.
  assert (len (p :: items) = 1 + len items) as Hc by (unfold len; simpl; lia).
  pose proof (len_nonneg items). destruct Hq as [Hnd Hq].
  destruct (Hq p ltac:(by left)) as (Hr & Hpz & Hph). simpl in Hr.
  assert (queue_matches m (view (with_entries (entries, s))) (p :: items)) as Hqm by done.
  rewrite drain_one_eq. destruct (cycle_paid s p) eqn:Ep.
  - assert ((len entries <? MaxBlockTransactions) = true) as -> by (apply Z.ltb_lt; lia).
    destruct (delivered_view x p entries s Hcap Ep) as (e & i & Hem & Hes & Heh & Hv).
    assert ((delivered x p entries s).1 = entries ++ [pushed (renewed_entry x (item_info p)) entries])
      as Hd by done.
    unfold DrainOk. cbv zeta. rewrite Hv, Hd. split_and!.
    + exact Hcap.
    + destruct Hz as [Hz1 Hz2]. split; simpl; [|done]. apply Forall_app_2; [done|].
      apply Forall_singleton. intros Hm. rewrite Hes, Heh. by apply Hpz.
    + eapply queue_matches_tail; [exact Hqm|]. intros h Hne. by apply registration_after_ne.
    + eapply backed_by_tail; [exact Hb|intros h Hne; by apply registration_after_ne| |];
        simpl; [intros h; by apply indexed_insert|].
      intros _. rewrite Heh, Hph, lookup_insert_eq. by eexists.
    + intros ->. specialize (Hu eq_refl). unfold accounted in *. simpl in *.
      rewrite lsum_app, registration_after_prepaid by done. simpl.
      unfold renew_size at 2. rewrite Hem, Hes. rewrite <- Hph, <- (Hpz eq_refl).
      destruct (paid (item_data p)); lia.
    + rewrite len_app. unfold len in *. simpl in *. lia.
  - apply orb_false_iff in Ep as [Epaid _]. unfold DrainOk. cbv zeta.
    change (view (with_entries (entries, dropped p s))) with
      (mkView (PermanentStorageUsed (dr s)) (delete (item_hash p) (Renewals (dr s)))
        (PendingRenewals (dr s)) entries (Transactions (ts s)) (TransactionByContentHash (ts s)) (permanent_cap s)).
    split_and!; [done|done|..].
    + eapply queue_matches_tail; [exact Hqm|]. intros h Hne. simpl. by rewrite lookup_delete_ne.
    + eapply backed_by_tail; [exact Hb|intros h Hne; simpl; by rewrite lookup_delete_ne|done|].
      simpl. rewrite lookup_delete_eq. by intros [? ?].
    + intros Hm. specialize (Hu Hm). unfold accounted in *. simpl in *.
      rewrite (msum_delete prepaid _ _ _ Hr) in Hu. unfold prepaid at 1 in Hu.
      rewrite Epaid in Hu. lia.
    + simpl. lia.
Qed.

Lemma DrainOk_loop m x items acc :
  DrainOk m acc items -> DrainOk m (foldl (drain_one x) acc items) [].
Proof.
  revert acc. induction items as [|p items IH]; intros [entries s] Hd; simpl; [done|].
  apply IH. by apply DrainOk_step.
Qed.

(** The inherent keeps the books, when it runs before any other entry of the block. *)
Lemma drain_ok m x s :
  permanent_cap s < u64_max -> extrinsic_index (sys s) = Some x -> PendingInv s -> LedgerOk m (view s) ->
  queue_matches m (view s) (PendingRenewals (dr s)) ->
  (PendingRenewals (dr s) <> [] -> BlockTransactions (ts s) = []) ->
  LedgerOk m (view (do_process_pending_renewals s).2).
Proof.
  intros Hcap Hx IP (Hz & Hb & Hu) Hq Hempty. rewrite (process_pending_eq s IP). cbn [snd]. rewrite Hx.
  destruct (PendingRenewals (dr s)) as [|p items] eqn:Ep.
  - simpl. unfold with_entries. unfold LedgerOk. split_and!; [exact Hz| |exact Hu].
    unfold backed in *. unfold view in Hb at 2. simpl in Hb. rewrite Ep in Hb. exact Hb.
  - specialize (Hempty ltac:(done)). rewrite Hempty. rewrite <- Ep in *.
    set (s0 := upd_PendingRenewals (fun _ => []) s).
    assert (DrainOk m ([], s0) (PendingRenewals (dr s))) as Hd.
    { unfold DrainOk. cbv zeta. unfold view, with_entries. simpl. unfold view in *.
      rewrite Hempty in *. split_and!; [done|done|done|done|done|]. unfold len at 1. simpl. apply IP. }
    apply (DrainOk_loop m x) in Hd.
    destruct (foldl (drain_one x) ([], s0) (PendingRenewals (dr s))) as [entries s1] eqn:Ef.
    destruct Hd as (_ & Hz' & _ & Hb' & Hu' & _). split_and!; [exact Hz'| |exact Hu'].
    unfold backed. intros h Hh. destruct (Hb' h Hh) as [?|(q & Hin & _)]; [by left|].
    by apply not_elem_of_nil in Hin.
Qed.
End Drain.

(** ** The sweep *)

Section Sweep.
Context `{HostLaws} `{!Config} `{!ConfigLaws} `{!ChunkCapacity} `{!ContentSizes}.

(** The hashes reported as latest. *)
Definition flagged (pairs : list (TransactionInfoFor * bool)) : list ContentHash :=
  omap (fun it : TransactionInfoFor * bool =>
    if it.2 then Some (ti_content_hash it.1) else None) pairs.

Lemma flagged_snoc pairs tx l :
  flagged (pairs ++ [(tx, l)]) = flagged pairs ++ (if l then [ti_content_hash tx] else []).
Proof. unfold flagged. rewrite omap_app. by destruct l. Qed.

(** A hash is reported as latest at most once: reporting removes it from the index. *)
Lemma sweep_flagged o txs pairs s :
  NoDup (flagged pairs) ->
  (forall h i, h ∈ flagged pairs -> TransactionByContentHash (ts s) !! h <> Some (o, i)) ->
  NoDup (flagged (foldl (sweep_one o) (pairs, s) txs).1).
Proof.
  revert pairs s. induction txs as [|tx txs IH]; intros pairs s Hnd Hno; cbn [foldl]; [done|].
  destruct (sweep_one_state o pairs s tx) as (m & Hs & Hm).
  set (latest := match TransactionByContentHash (ts s) !! ti_content_hash tx with
                 | Some (block, _) => block =? o | None => false end).
  assert (exists pairs1, sweep_one o (pairs, s) tx = (pairs1, (sweep_one o (pairs, s) tx).2) /\
    (pairs1 = pairs \/ pairs1 = pairs ++ [(tx, latest)])) as (pairs1 & E1 & Hp1).
  { unfold sweep_one. fold latest. destruct (try_push _ pairs _) as [l|] eqn:Ep.
    - apply try_push_Some in Ep as [_ ->]. eexists. split; [done|by right].
    - eexists. split; [done|by left]. }
  rewrite E1, Hs. clear E1.
  assert (forall h i, h ∈ flagged pairs -> m !! h <> Some (o, i)) as Hno'.
  { intros h i Hin. rewrite Hm. specialize (Hno h i Hin).
    destruct (TransactionByContentHash (ts s) !! h) as [[b j]|]; [|done]. by destruct (_ && _). }
  destruct Hp1 as [->| ->]; apply IH; [done|exact Hno'|..].
  - rewrite flagged_snoc. destruct latest eqn:El; [|by rewrite app_nil_r].
    apply NoDup_app. split_and!; [done| |apply NoDup_singleton].
    intros h Hin. rewrite list_elem_of_singleton. intros ->. subst latest.
    destruct (TransactionByContentHash (ts s) !! ti_content_hash tx) as [[b j]|] eqn:E; [|done].
    apply Z.eqb_eq in El as ->. by apply (Hno _ j Hin).
  - intros h i. rewrite flagged_snoc, elem_of_app. intros [Hin|Hin]; [by apply Hno'|].
    destruct latest eqn:El; [|by apply not_elem_of_nil in Hin].
    apply list_elem_of_singleton in Hin as ->. simpl. rewrite Hm. subst latest.
    destruct (TransactionByContentHash (ts s) !! ti_content_hash tx) as [[b j]|]; [|done].
    by rewrite El, bool_decide_eq_true_2.
Qed.

Lemma queued_hashes regs pairs : map item_hash (queued regs pairs) `sublist_of` flagged pairs.
Proof.
  induction pairs as [|[tx l] pairs IH]; [done|]. unfold queued, flagged in *. simpl.
  destruct l; simpl; [|done]. destruct (regs !! ti_content_hash tx); simpl; by constructor.
Qed.

(** The bytes released are the renewed bytes of the swept block, when they fit. *)
Lemma renewed_sum_exact pairs :
  Forall (fun it : TransactionInfoFor * bool => size_ok it.1) pairs ->
  lsum renew_size (map fst pairs) <= u64_max ->
  renewed_sum pairs = lsum renew_size (map fst pairs).
Proof.
  unfold renewed_sum. intros Hs Hle.
  assert (forall acc, 0 <= acc -> acc + lsum renew_size (map fst pairs) <= u64_max ->
    foldl (fun acc (p : TransactionInfoFor * bool) =>
      if is_renew (ti_meta p.1) then sat_add_u64 acc (ti_size p.1) else acc) acc pairs =
    acc + lsum renew_size (map fst pairs)) as Hg.
  { clear Hle. induction Hs as [|[tx l] pairs Hx Hs IH]; intros acc Ha Hle; simpl in *; [lia|].
    assert (0 <= lsum renew_size (map fst pairs)).
    { apply lsum_nonneg. clear -Hs. induction Hs as [|[t l] pairs Ht _ IH]; simpl; constructor; [|done].
      unfold renew_size. unfold size_ok in Ht. simpl in Ht. destruct (is_renew _); lia. }
    assert (renew_size tx = if is_renew (ti_meta tx) then ti_size tx else 0) as Hr by done.
    rewrite Hr in *. unfold size_ok in Hx. simpl in Hx.
    destruct (is_renew (ti_meta tx)); [|rewrite IH; lia].
    rewrite sat_add_small by lia. rewrite IH; lia. }
  rewrite Hg; lia.
Qed.

(** What the callback does to the ledger. *)
Lemma handle_obsolete_view n items s :
  0 <= PermanentStorageUsed (dr s) -> PendingRenewals (dr s) = [] ->
  len items <= MaxBlockTransactions -> 0 <= renewed_sum items ->
  view (renewal_handle_obsolete n items s) =
  mkView (sat_sub (PermanentStorageUsed (dr s)) (renewed_sum items)) (Renewals (dr s))
    (queued (Renewals (dr s)) items) (BlockTransactions (ts s)) (Transactions (ts s))
    (TransactionByContentHash (ts s)) (permanent_cap s).
Proof.
  intros Hu Hp Hl Hr. pose proof (handle_obsolete_queue n items s Hp Hl) as Hq.
  destruct (renewal_handle_frame n items s) as (Es & Et & _).
  unfold view, permanent_cap. rewrite Hq, Et, Es. f_equal; unfold renewal_handle_obsolete.
  - destruct (0 <? renewed_sum items) eqn:E; b2p; destruct (queue_pending _ _ _); rewrite ?update_used_eq; simpl;
      try done; unfold sat_sub; lia.
  - destruct (0 <? renewed_sum items); destruct (queue_pending _ _ _); by rewrite ?update_used_eq.
Qed.

(** Opening a block, on the ledger. *)
Lemma open_block_view parent s :
  LedgerInv s -> Sealed s -> PendingRenewals (dr s) = [] -> now s + 1 <= u32_max ->
  let s1 := on_initialize (now s + 1) (open_block parent s) in
  view s1 = view s \/
  exists o txs pairs m,
    Transactions (ts s) !! o = Some (LayoutCurrent txs) /\ map fst pairs = txs /\
    Forall (fun it : TransactionInfoFor * bool => size_ok it.1) pairs /\
    NoDup (flagged pairs) /\
    (forall h, m !! h =
      match TransactionByContentHash (ts s) !! h with
      | Some (b, i) =>
          if (b =? o) && bool_decide (h ∈ map ti_content_hash txs) then None else Some (b, i)
      | None => None
      end) /\
    (forall h, (exists info, (info, true) ∈ pairs /\ ti_content_hash info = h) <->
      (h ∈ map ti_content_hash txs /\
       exists i, TransactionByContentHash (ts s) !! h = Some (o, i))) /\
    view s1 = mkView (sat_sub (PermanentStorageUsed (dr s)) (renewed_sum pairs)) (Renewals (dr s))
      (queued (Renewals (dr s)) pairs) (BlockTransactions (ts s)) (delete o (Transactions (ts s))) m
      (permanent_cap s).
Proof.
  intros L (I & W & Hb) Hp Hn s1. subst s1.
  unfold on_initialize, retention_period. simpl RetentionPeriod.
  set (o := sat_sub (now s + 1) (sat_add_u32 (RetentionPeriod (ts s)) 1)).
  destruct (0 <? o) eqn:Eo; [|by left].
  unfold Transactions_take, Transactions_get. simpl Transactions.
  destruct (Transactions (ts s) !! o) as [v|] eqn:Ev; [|by left].
  destruct (bi_sealed s I o v Ev) as (_ & txs & -> & _ & (_ & Hsz & Hlen)). simpl decode_current.
  cbn beta iota. set (s2 := upd_Transactions (delete o) (open_block parent s)).
  destruct (sweep_pairs o txs s2 Hlen) as [Hf Hl].
  destruct (sweep_state o txs s2) as (m & Hs & Hm).
  pose proof (sweep_flagged o txs [] s2 (NoDup_nil_2) ltac:(intros h i Hin; by apply not_elem_of_nil in Hin)) as Hnd.
  change (foldl (sweep_one o) ([], s2) txs) with (sweep o txs s2) in Hnd.
  destruct (sweep o txs s2) as [pairs s3]. simpl in Hf, Hl, Hs, Hnd. subst s3.
  assert (Forall (fun it : TransactionInfoFor * bool => size_ok it.1) pairs) as Hps.
  { apply (Forall_fmap fst size_ok). change (fst <$> pairs) with (map fst pairs). by rewrite Hf. }
  right. exists o, txs, pairs, m. split_and!; try done.
  change (handle_obsolete o pairs) with (renewal_handle_obsolete o pairs).
  rewrite handle_obsolete_view; [done| | | |].
  - simpl. apply L.
  - done.
  - replace (len pairs) with (len txs); [done|]. rewrite <- Hf. unfold len. by rewrite length_map.
  - by apply renewed_sum_nonneg.
Qed.
End Sweep.

(** ** Blocks *)

Section Blocks.
Context `{HostLaws} `{!Config} `{!ConfigLaws} `{!ChunkCapacity} `{!ContentSizes}.

Lemma renew_size_nonneg txs : Forall size_ok txs -> 0 <= lsum renew_size txs.
Proof.
  intros Hs. apply lsum_nonneg. eapply Forall_impl; [exact Hs|]. intros e [He _].
  unfold renew_size. destruct (is_renew _); lia.
Qed.

Lemma prepaid_nonneg R : 0 <= msum prepaid R.
Proof.
  apply msum_nonneg. intros h d _. unfold prepaid. destruct (paid d); [apply content_size_nonneg|lia].
Qed.

Lemma sealed_renewed_nonneg s : BlockInv s -> 0 <= msum (fun _ => renewed_in) (Transactions (ts s)).
Proof.
  intros I. apply msum_nonneg. intros b v Hv. destruct (bi_sealed s I b v Hv) as (_ & txs & -> & _ & _ & Hs & _).
  by apply renew_size_nonneg.
Qed.

(** Releasing the swept block keeps the books. *)
Lemma sweep_books s o txs pairs :
  LedgerInv s -> BlockInv s -> Transactions (ts s) !! o = Some (LayoutCurrent txs) ->
  map fst pairs = txs -> Forall (fun it : TransactionInfoFor * bool => size_ok it.1) pairs ->
  v_used (view s) = accounted (view s) ->
  sat_sub (PermanentStorageUsed (dr s)) (renewed_sum pairs) =
  msum (fun _ => renewed_in) (delete o (Transactions (ts s))) +
    lsum renew_size (BlockTransactions (ts s)) + msum prepaid (Renewals (dr s)).
Proof.
  intros (_ & IC & _) I Ht Hf Hp Hu. unfold accounted in Hu. simpl in Hu.
  rewrite (msum_delete (fun _ : BlockNumber => renewed_in) _ _ _ Ht) in Hu.
  unfold renewed_in at 1 in Hu. simpl in Hu.
  assert (0 <= msum (fun _ : BlockNumber => renewed_in) (delete o (Transactions (ts s)))).
  { apply msum_nonneg. intros b v Hv. apply lookup_delete_Some in Hv as [_ Hv].
    destruct (bi_sealed s I b v Hv) as (_ & l & -> & _ & _ & Hs & _). by apply renew_size_nonneg. }
  pose proof (prepaid_nonneg (Renewals (dr s))).
  pose proof (renew_size_nonneg _ (proj1 (proj2 (bi_block s I)))).
  pose proof (MaxPermanentStorageSize_range (parameters (sys s))). unfold CapInv, permanent_cap, is_u64 in *.
  assert (0 <= lsum renew_size txs) by (destruct (bi_sealed s I o _ Ht) as (_ & l & [= <-] & _ & _ & Hs & _); by apply renew_size_nonneg).
  rewrite renewed_sum_exact; [|done|rewrite Hf; lia]. rewrite Hf, sat_sub_small; lia.
Qed.

Lemma open_block_ledger m parent s :
  LedgerInv s -> Sealed s -> PendingRenewals (dr s) = [] -> now s + 1 <= u32_max ->
  LedgerOk m (view s) ->
  let s1 := on_initialize (now s + 1) (open_block parent s) in
  LedgerOk m (view s1) /\ queue_matches m (view s1) (PendingRenewals (dr s1)) /\
  BlockTransactions (ts s1) = [].
Proof.
  intros L S Hp Hn (Hz & Hb & Hu) s1.
  assert (BlockTransactions (ts s1) = []) as Hbl.
  { unfold s1. rewrite on_initialize_block. by destruct S as (_ & _ & E). }
  destruct (open_block_view parent s L S Hp Hn)
    as [Hv|(o & txs & pairs & idx & Ht & Hf & Hps & Hnd & Hm & Hl & Hv)]; fold s1 in Hv.
  - assert (PendingRenewals (dr s1) = []) as ->.
    { change (v_pending (view s1) = []). by rewrite Hv. }
    rewrite Hv. split; [done|]. split; [|done]. split; [constructor|].
    intros p Hin. by apply not_elem_of_nil in Hin.
  - change (PendingRenewals (dr s1)) with (v_pending (view s1)). rewrite Hv. clear Hv. simpl v_pending.
    pose proof S as (I & _). split; [split; [|split]|split; [|done]].
    + destruct Hz as [Hz1 Hz2]. split; [done|]. intros b l Hbl'. simpl in Hbl'.
      apply lookup_delete_Some in Hbl' as [_ Hbl']. by eapply Hz2.
    + intros h Hh. simpl in *. rewrite Hm.
      destruct (Hb h Hh) as [[[b i] Hi]|(p & Hin & _)]; simpl in *; [|rewrite Hp in Hin; by apply not_elem_of_nil in Hin].
      rewrite Hi. destruct ((b =? o) && _) eqn:E; [|left; by eexists]. b2p. subst b. right.
      apply (elem_of_queued (Renewals (dr s)) pairs h). split; [done|]. apply Hl. eauto.
    + intros ->. unfold accounted. simpl. apply (sweep_books s o txs pairs); auto.
    + split; [eapply sublist_NoDup; [done|apply queued_hashes]|].
      intros p Hin. unfold queued in Hin. apply list_elem_of_omap in Hin as ([info l] & Hin & Hx). simpl in Hx.
      destruct l; [|done]. destruct (Renewals (dr s) !! ti_content_hash info) as [d|] eqn:Ed; simplify_eq.
      unfold item_hash, item_data, item_info. simpl. split_and!; [done| |done].
      destruct Hz as [_ Hz2]. specialize (Hz2 o _ Ht). rewrite list.Forall_forall in Hz2. apply Hz2.
      apply list_elem_of_In. apply (in_map fst _ (info, true)). by apply list_elem_of_In.
Qed.

Lemma close_block_ledger m s s' :
  InBlock s -> close_block s = Some s' -> LedgerOk m (view s) -> LedgerOk m (view s').
Proof.
  intros (I & _ & U) (_ & Hp & ->)%close_block_iff (Hz & Hb & Hu).
  unfold seal_block. simpl BlockTransactions.
  destruct (total_chunks (BlockTransactions (ts s)) =? 0) eqn:E; simpl.
  - pose proof (total_chunks_zero _ (bi_block s I) E) as Hnil.
    assert (view (upd_BlockTransactions (fun _ => []) (upd_ProofChecked (fun _ => false) s)) = view s)
      as -> by (unfold view; simpl; by rewrite Hnil). done.
  - unfold LedgerOk, all_sized, backed, backed_by, accounted, view in *. simpl in *.
    split; [split; [by constructor|]|split; [done|]].
    + intros b txs Ht. apply lookup_insert_Some in Ht as [[_ [= <-]]|[_ Ht]]; [apply Hz|by eapply Hz].
    + intros Hm. rewrite (msum_insert (fun _ : BlockNumber => renewed_in)) by exact U.
      rewrite (Hu Hm). unfold renewed_in at 2. simpl. lia.
Qed.
End Blocks.

(** ** Extrinsics implement the machine *)

Section Refines.
Context `{HostLaws} `{!Config} `{!ConfigLaws} `{!ChunkCapacity} `{!AuthorizerLaws} `{!ContentSizes}.
Context (m : bool) (Hca : m = true -> content_addressed).

Lemma auth_only_view s s' : auth_only s s' -> view s' = view s.
Proof. by intros (A & B & ev & pr & ->). Qed.

(** Dispatch: a failed call leaves the ledger as it was. *)
Lemma dispatch_view {A} (c : MD A) s :
  (forall a s', c s = (Ok a, s') -> ledger_steps m (view s) (view s')) ->
  ledger_steps m (view s) (view (dispatch c s).2).
Proof.
  intros Hok. destruct (dispatch_state c s) as [[a Ha]|[l ->]]; [by eapply Hok|by left].
Qed.

Lemma store_view data hashing codec s :
  ledger_steps m (view s) (view (do_store data hashing codec s).2).
Proof.
  rewrite do_store_eq. destruct (data_size_ok _) eqn:Es; simpl; [|by left].
  destruct (extrinsic_index (sys s)) as [x|]; [|by left].
  destruct (_ <? _); simpl; [|by left]. right.
  apply (ledger_store m (PermanentStorageUsed (dr s)) (Renewals (dr s)) (PendingRenewals (dr s))
    (BlockTransactions (ts s)) (Transactions (ts s)) (TransactionByContentHash (ts s)) (permanent_cap s)
    (pushed (store_entry x data hashing codec) (BlockTransactions (ts s)))).
  - done.
  - intros Hm. simpl. symmetry. by apply Hca.
Qed.

Lemma steps_then {A} (c : MD A) f s :
  (forall s, view (f s) = view s) -> ledger_steps m (view s) (view (c s).2) ->
  ledger_steps m (view s) (view ((do! c in modify f) s).2).
Proof. intros Hf Hc. unfold_M. destruct (c s) as [[a|e] s1]; [simpl; by rewrite Hf|done]. Qed.

Lemma frame_steps s s' : auth_only s s' -> ledger_steps m (view s) (view s').
Proof. intros Hf. left. by apply auth_only_view. Qed.

Lemma storage_view o c s : ledger_steps m (view s) (view (dispatch_storage o c s).2).
Proof.
  destruct c as [data|cid data|who t b|h b|who|h|who|h|p|who b|who|who]; simpl in *;
    unfold store, store_with_cid_config, authorize_account, authorize_preimage,
      remove_expired_account_authorization, remove_expired_preimage_authorization,
      refresh_account_authorization, refresh_preimage_authorization.
  1, 2: unfold bind at 1, lift; destruct (ensure_authorized o); [apply store_view|by left].
  1, 2, 5, 6: unfold bind at 1, ensure_authorizer, ok_or;
    destruct (Authorizer s o) as [auth|]; [|by left].
  1, 2: unfold bind at 1, ensure; destruct (0 <? b); [|by left];
    apply steps_then; [done|]; apply frame_steps, authorize_frame.
  1, 2: apply steps_then; [done|]; apply frame_steps, refresh_frame.
  1, 2: apply steps_then; [done|]; apply frame_steps, remove_expired_frame.
  - left. unfold apply_block_inherents, do_check_proof, ok_or. unfold_M.
    repeat (destr_match; simpl in *; simplify_eq); done.
  - left. unfold add_authorizer. unfold_M. repeat (destr_match; simpl in *; simplify_eq); done.
  - left. unfold remove_authorizer. unfold_M. repeat (destr_match; simpl in *; simplify_eq); done.
  - left. unfold remove_exhausted_authorizer, ok_or. unfold_M.
    repeat (destr_match; simpl in *; simplify_eq); done.
Qed.

Lemma hop_view `{!HopHost} o c s : ledger_steps m (view s) (view (dispatch_hop o c s).2).
Proof.
  destruct c; simpl; unfold promote, promote_v2; unfold bind, ensure;
    (destruct (ensure_authorized_call o); [|by left]); apply store_view.
Qed.

(** ** Renewal calls *)

(** A resolved entry is indexed and has the size of its content. *)
Lemma resolve_sound s entry info :
  BlockInv s -> all_sized m (view s) -> resolve_transaction_ref s entry = Ok info ->
  is_Some (TransactionByContentHash (ts s) !! ti_content_hash info) /\ sized m info.
Proof.
  intros I [_ Hz] Hr.
  assert (exists b i, transaction_info s b i = Some info) as (b & i & Hi).
  { unfold resolve_transaction_ref, ok_or in Hr.
    destruct entry as [b i|h]; [|destruct (TransactionByContentHash (ts s) !! h) as [[b i]|]; [|done]];
      destruct (transaction_info s b i) eqn:E; simplify_eq; eauto. }
  unfold transaction_info, Transactions_get in Hi.
  destruct (Transactions (ts s) !! b) as [v|] eqn:Ev; [|done].
  destruct (bi_sealed s I b v Ev) as (_ & txs & -> & _). simpl in Hi.
  destruct (bi_complete s I b (Z.to_nat i) info) as (b' & i' & Hx & _); [left; eauto|].
  split; [by eexists|]. specialize (Hz b txs Ev). by eapply Forall_lookup_1.
Qed.

Lemma resolve_by_hash s h info :
  InBlock s -> resolve_transaction_ref s (ByContentHash h) = Ok info -> ti_content_hash info = h.
Proof.
  intros (I & _ & U). unfold resolve_transaction_ref, ok_or.
  destruct (TransactionByContentHash (ts s) !! h) as [[b i]|] eqn:Ei; [|done].
  destruct (transaction_info s b i) as [info'|] eqn:E; intros [= ->].
  destruct (bi_index s I h b i Ei) as (_ & info' & He & Hh).
  unfold transaction_info, Transactions_get in E.
  destruct He as [(txs & Ht & Hi)|[-> _]].
  - rewrite Ht in E. simpl in E. congruence.
  - unfold unsealed in U. by rewrite U in E.
Qed.

Definition append_view (v : View) (e : TransactionInfoFor) (p : BlockNumber * Z) : View :=
  mkView (v_used v) (v_regs v) (v_pending v) (v_block v ++ [e]) (v_sealed v)
    (<[ti_content_hash e := p]> (v_index v)) (v_cap v).

Definition with_regs (f : gmap ContentHash RenewalData -> gmap ContentHash RenewalData) (v : View)
    : View :=
  mkView (v_used v) (f (v_regs v)) (v_pending v) (v_block v) (v_sealed v) (v_index v) (v_cap v).

(** What a renewal call that succeeds does to the ledger. *)
Definition renewal_effect (o : RuntimeOrigin) (c : RenewalCall) (s s' : State) : Prop :=
  match c with
  | CallRenew entry => exists info d,
      resolve_transaction_ref s entry = Ok info /\ Renewals (dr s) !! ti_content_hash info = None /\
      paid d = true /\ view s' = with_regs <[ti_content_hash info := d]> (view s)
  | CallForceRenew entry => exists info e p,
      resolve_transaction_ref s entry = Ok info /\ is_renew (ti_meta e) = true /\
      ti_size e = ti_size info /\ ti_content_hash e = ti_content_hash info /\
      view s' = append_view (view s) e p
  | CallEnableAutoRenew h => exists info d,
      resolve_transaction_ref s (ByContentHash h) = Ok info /\ Renewals (dr s) !! h = None /\
      paid d = true /\ view s' = with_regs <[h := d]> (view s)
  | CallDisableAutoRenew h => exists d,
      Renewals (dr s) !! h = Some d /\ (ensure_root o = false -> paid d = false) /\
      view s' = with_regs (delete h) (view s)
  | CallProcessPendingRenewals => True
  end.

Lemma not_registered s h :
  negb (bool_decide (is_Some (Renewals (dr s) !! h))) = true -> Renewals (dr s) !! h = None.
Proof. intros Hb. b2p. by apply eq_None_not_Some. Qed.

Lemma dispatch_renewal_effect o c s a s' :
  dispatch_renewal o c s = (Ok a, s') -> renewal_effect o c s s'.
Proof.
  destruct c as [entry|entry|h|h|]; simpl;
    unfold renew, force_renew, enable_auto_renew, disable_auto_renew, resolve_or, ok_or; unfold_M;
    [..|done].
  - destruct (ensure_authorized o) as [[w sc| |]|]; try done.
    destruct (resolve_transaction_ref s entry) as [info|]; [|done].
    destruct (negb _) eqn:En; intros [= _ <-]. apply not_registered in En.
    exists info, (mkRenewalData w false true). by split_and!.
  - destruct (ensure_authorized o); [|done].
    destruct (resolve_transaction_ref s entry) as [info|]; [|done].
    destruct (ensure_data_size_ok _); [|done]. unfold do_renew, ok_or, with_block_transactions. unfold_M.
    destruct (extrinsic_index (sys s)) as [x|]; [|done].
    destruct (entries_renew_cases info x meta_renew (BlockTransactions (ts s)) s)
      as [[_ ->]|[_ (e & -> & ->)]]; [done|]. intros [= _ <-].
    exists info, (pushed (renewed_entry x info) (BlockTransactions (ts s))),
      (now s, as_u32 (len (BlockTransactions (ts s)))). by split_and!.
  - destruct (ensure_authorized o) as [[w sc| |]|]; try done.
    destruct (negb _) eqn:En; [|done]. apply not_registered in En. unfold lookup_by_content_hash.
    unfold resolve_transaction_ref, ok_or.
    destruct (TransactionByContentHash (ts s) !! h) as [[b i]|]; [|done].
    destruct (transaction_info s b i) as [info|]; intros [= _ <-].
    exists info, (mkRenewalData w true true). by split_and!.
  - destruct (ensure_authorized o) as [c|] eqn:Eo; [|done].
    destruct (Renewals (dr s) !! h) as [d|]; [|done]. intros Hd. exists d.
    split; [done|]. unfold ensure_authorized in Eo.
    destruct c; [destruct (bool_decide _); [destruct (negb (paid d)) eqn:Ep|]| |];
      simplify_eq; (split; [intros Hr|done]); [by b2p|].
    destruct o as [[]| |]; done.
Qed.

(** A charged call that succeeds is one metered step of the machine. *)
Lemma charged_effect s who c scope n s' o :
  permanent_cap s < u64_max -> InBlock s -> all_sized m (view s) -> ensure_root o = false ->
  renewal_charge s who c = Ok (scope, n) ->
  renewal_effect o c (apply_charge c scope n s) s' -> ledger_steps m (view s) (view s').
Proof.
  intros Hcap B Hz Ho Hc He. right. pose proof B as (I & _).
  assert ((exists h, c = CallDisableAutoRenew h) \/ renew_allowed s scope n = true) as Hal.
  { destruct (renewal_charge_allowed s who c scope n I Hc) as [?|[_ ?]]; auto. }
  destruct (charge_frame scope n s) as (_ & _ & _ & E4 & _ & E6 & _ & _ & E9 & _).
  assert (forall entry, resolve_transaction_ref (charge scope n s) entry =
    resolve_transaction_ref s entry) as Hres by (intros entry; by apply resolve_ext).
  destruct c as [entry|entry|h|h|]; cbn [renewal_effect apply_charge renewal_charge] in *; [..|done].
  1, 2, 3: destruct Hal as [[? ?]|Hal]; [done|destruct (charge_view scope n s Hcap Hal) as [Hv Hle]].
  - destruct He as (info & d & Hr & Hn & Hp & ->). rewrite Hres in Hr. rewrite E4 in Hn.
    destruct (resolve_sound s entry info I Hz Hr) as [Hx Hs]. rewrite Hr in Hc.
    destruct (bool_decide _); [done|]. destruct (renew_allowed s (Account who) _); simplify_eq.
    rewrite Hv. unfold with_regs. simpl. by apply ledger_register.
  - destruct He as (info & e & p & Hr & Hm & He1 & He2 & ->). rewrite Hres in Hr.
    destruct (resolve_sound s entry info I Hz Hr) as [Hx Hs]. rewrite Hr in Hc.
    assert (n = ti_size e) as ->.
    { rewrite He1. destruct (negb _); [done|]. destruct (block_transactions_full s); [done|].
      destruct (renew_allowed s (Preimage _) _); [by simplify_eq|].
      destruct (renew_allowed s (Account _) _); by simplify_eq. }
    rewrite Hv. unfold append_view. simpl. apply ledger_renew; [done| |done]. intros Hmt. rewrite He1, He2. by apply Hs.
  - destruct He as (info & d & Hr & Hn & Hp & ->). rewrite Hres in Hr. rewrite E4 in Hn.
    destruct (resolve_sound s _ info I Hz Hr) as [Hx Hs].
    destruct (bool_decide _); [done|]. rewrite Hr in Hc.
    destruct (renew_allowed s (Account who) _); simplify_eq.
    pose proof (resolve_by_hash s _ info B Hr) as Hh. unfold sized in Hs. rewrite Hh in Hs, Hx.
    rewrite Hv. unfold with_regs. simpl. by apply ledger_register.
  - destruct He as (d & Hr & Hp & ->). unfold with_regs. simpl.
    apply (ledger_cancel m _ _ _ _ _ _ _ h d); [done|by apply Hp].
Qed.

(** ** Extrinsics *)

Lemma pre_dispatch_signed_view who c s : view (pre_dispatch_signed who c s).2 = view s.
Proof.
  destruct (store_call c) as [[size h]|] eqn:Ec.
  - unfold pre_dispatch_signed, bind. rewrite (check_signed_store_eq _ _ _ _ _ Ec).
    rewrite check_signed_store_prepare.
    destruct (negb _); [done|]. destruct (block_transactions_full s); [done|].
    destruct (charged_scope s who h) as [scope|]; [|done].
    apply auth_only_view, check_authorization_frame.
  - rewrite check_signed_management_pure; [done|]. by destruct c.
Qed.

Lemma signed_renewal_view F who c s s1 s2 vt scope x :
  permanent_cap s < u64_max -> GoodAt F s -> all_sized m (view s) -> extrinsic_index (sys s) = Some x ->
  validate_renewal_signed who c s = (Ok (vt, scope), s1) ->
  pre_dispatch_renewal_signed who c s = (Ok tt, s2) ->
  ledger_steps m (view s)
    (view (dispatch (dispatch_renewal (rewritten_origin who scope) c) s2).2).
Proof.
  intros Hcap G Hz Hx Hv Hp. pose proof (renewed_after_charge who c s vt scope s1 s2 x (bi_block s (Good_block s G)) Hx Hv Hp) as Hok.
  revert Hv Hp. unfold validate_renewal_signed, pre_dispatch_renewal_signed, bind.
  pose proof (check_renewal_signed_spec who c Validate s) as Hv.
  pose proof (check_renewal_signed_spec who c PreDispatch s) as Hp.
  destruct (renewal_charge s who c) as [[sc n]|e] eqn:Ec; [|by rewrite Hv].
  destruct Hv as [vt1 ->], Hp as [vt2 ->]. simpl. unfold ret. intros [= _ <- _] [= <-].
  unfold dispatch. destruct (dispatch_renewal _ c (apply_charge c sc n s)) as [[a|e] s'] eqn:Ed; [|done].
  pose proof G as (_ & B & _). simpl.
  apply (charged_effect s who c sc n s' (rewritten_origin who (Some sc)) Hcap B Hz eq_refl Ec).
  by eapply dispatch_renewal_effect.
Qed.

Lemma runtime_view `{!HopHost} `{!RuntimeHost} `{!RuntimeLaws} o c s :
  leaf_call c = true -> (forall i, c <> DataRenewal i) ->
  ledger_steps m (view s) (view (dispatch (dispatch_runtime o c) s).2).
Proof.
  intros Hl Hc. apply dispatch_view. intros a s' Hs'. destruct c as [i|i|i|u|e]; simpl in Hs'.
  - pose proof (storage_view o i s) as Hv. by rewrite Hs' in Hv.
  - by destruct (Hc i).
  - pose proof (hop_view o i s) as Hv. by rewrite Hs' in Hv.
  - done.
  - destruct (other_frame o e s) as [d Hd]. rewrite Hs' in Hd. simpl in Hd. subst s'. by left.
Qed.

(** Calls dispatched with a plain origin: only Root reaches the renewal pallet. *)
Lemma plain_view `{!HopHost} `{!RuntimeHost} `{!RuntimeLaws} o c s :
  BlockInv s -> all_sized m (view s) -> leaf_call c = true ->
  plain_origin o = true -> (m = true -> metered_call o c = true) ->
  ledger_steps m (view s) (view (dispatch (dispatch_runtime o c) s).2).
Proof.
  intros I Hz Hl Ho Hm. destruct c as [i|i|i|u|e]; try by apply runtime_view.
  destruct o as [[|w| |]|w sc|l]; try done.
  2, 3: apply dispatch_view; intros a s' Hs'; simpl in Hs'; by destruct i.
  assert (m = false) as Hmf by (destruct m; [by specialize (Hm eq_refl)|done]).
  apply dispatch_view. intros a s' Hs'. simpl in Hs'.
  pose proof (dispatch_renewal_effect _ _ _ _ _ Hs') as He.
  destruct i as [entry|entry|h|h|]; simpl in Hs'; try done; cbn [renewal_effect] in He.
  - destruct He as (info & e & p & Hr & Hrn & He1 & He2 & ->).
    destruct (resolve_sound s entry info I Hz Hr) as [_ Hs].
    right. apply ledger_root_renew; [done|done|]. intros Hmt. rewrite He1, He2. by apply Hs.
  - destruct He as (d & _ & _ & ->). right. by apply ledger_root_cancel.
Qed.

(** A wrapper makes the steps of the calls inside it. *)
Lemma wrapper_view `{!HopHost} `{!RuntimeHost} `{!RuntimeLaws} F o u s :
  call_ok m o (Utility u) -> GoodAt F s -> all_sized m (view s) ->
  ledger_run m (view s) (view (dispatch (dispatch_runtime o (Utility u)) s).2).
Proof.
  intros Hc G Hz.
  assert (GoodAt F (dispatch_utility o u s).2 /\ all_sized m (view (dispatch_utility o u s).2) /\
    ledger_run m (view s) (view (dispatch_utility o u s).2)) as (_ & _ & Hr).
  { apply (utility_invariant (fun s' => GoodAt F s' /\ all_sized m (view s') /\ ledger_run m (view s) (view s'))).
    - intros s0 l (G0 & Hz0 & Hr0). split; [by apply Good_host|done].
    - intros s0 o' c Hd Hl (G0 & Hz0 & Hr0). destruct (Hc o' c Hd) as (Ho & Ha & Hm).
      pose proof (plain_view o' c s0 (Good_block s0 G0) Hz0 Hl Ho Hm) as Hv.
      split_and!.
      + by apply Good_dispatch_leaf.
      + destruct Hv as [->|Hv]; [done|by eapply ledger_step_sized].
      + etransitivity; [exact Hr0|by apply ledger_steps_run].
    - split_and!; [done|done|reflexivity]. }
  destruct (dispatch_state (dispatch_runtime o (Utility u)) s) as [[a Ha]|[l ->]]; [|reflexivity].
  simpl in Ha. by rewrite Ha in Hr.
Qed.

(** The state before dispatch: only a renewal's charge shows in the ledger. *)
Lemma prepared_view `{!HopHost} val c s s2 :
  (forall i, c <> DataRenewal i) -> prepare RuntimeLeaves val c s = (Ok tt, s2) -> view s2 = view s.
Proof.
  intros Hc Ep. destruct val as [w|]; [|by injection Ep as <-].
  pose proof (prepare_state RuntimeLeaves _ w c s) as Hst.
  destruct c as [i|i|i|u|e]; [|by destruct (Hc i)|..].
  1: { rewrite prepare_storage_eq in Ep. pose proof (pre_dispatch_signed_view w i s) as Hv.
       by rewrite Ep in Hv. }
  all: rewrite Ep in Hst; simpl in Hst; by rewrite Hst.
Qed.

Lemma apply_signed_view `{!HopHost} `{!RuntimeHost} `{!RuntimeLaws} F who c s x :
  permanent_cap s < u64_max -> leaf_call c = true ->
  GoodAt F s -> all_sized m (view s) -> extrinsic_index (sys s) = Some x ->
  ledger_steps m (view s) (view (apply_signed who c s)).
Proof.
  intros Hcap Hl G Hz Hx. unfold apply_signed.
  pose proof (validate_pure RuntimeLeaves _ (System (Signed who)) c s) as Hpure.
  destruct (validate _ _ c s) as [[[[vt val] origin]|e] s1] eqn:Ev; [|by left]. simpl in Hpure. subst s1.
  destruct (prepare RuntimeLeaves val c s) as [[[]|e] s2] eqn:Ep; [|by left].
  destruct c as [i|i|i|u|e]; try done.
  2: { rewrite validate_renewal_eq in Ev. unfold top_result in Ev.
       destruct (validate_renewal_signed who i s) as [[[vt' sc]|e] s'] eqn:Ev'; simplify_eq.
       rewrite prepare_renewal_eq in Ep. by eapply signed_renewal_view. }
  all: assert (view s2 = view s) as <- by (eapply prepared_view; [|exact Ep]; done); by apply runtime_view.
Qed.

Lemma apply_signed_run `{!HopHost} `{!RuntimeHost} `{!RuntimeLaws} F who c s x :
  permanent_cap s < u64_max -> call_ok m (System (Signed who)) c ->
  GoodAt F s -> all_sized m (view s) -> extrinsic_index (sys s) = Some x ->
  ledger_run m (view s) (view (apply_signed who c s)).
Proof.
  intros Hcap Hc G Hz Hx. destruct (leaf_call c) eqn:El.
  { by eapply ledger_steps_run, apply_signed_view. }
  destruct c as [| | |u|]; try done. unfold apply_signed.
  pose proof (validate_pure RuntimeLeaves _ (System (Signed who)) (Utility u) s) as Hpure.
  destruct (validate _ _ (Utility u) s) as [[[[vt val] origin]|e] s1] eqn:Ev; [|reflexivity].
  simpl in Hpure. subst s1. apply validate_wrapper_origin in Ev as ->.
  pose proof (Good_prepare val (Utility u) s G) as G2.
  destruct (prepare RuntimeLeaves val (Utility u) s) as [[[]|e] s2] eqn:Ep; [|reflexivity]. simpl in G2.
  assert (view s2 = view s) as Hv by (eapply prepared_view; [|exact Ep]; done). rewrite <- Hv in Hz |- *.
  by eapply wrapper_view.
Qed.

Lemma unsigned_storage_view c s : ledger_steps m (view s) (view (apply_unsigned_storage c s)).
Proof.
  unfold apply_unsigned_storage.
  assert (view (pre_dispatch c s).2 = view s) as Hv.
  { unfold pre_dispatch. destruct (is_inherent c); [done|].
    destruct c; simpl; unfold check_store_unsigned, check_authorization_expired, ok_or; unfold_M;
      try done.
    1, 2: destruct (data_size_ok _); [simpl|done];
      destruct (block_transactions_full s); [done|simpl];
      match goal with |- context [check_authorization ?sc ?n ?b ?st] =>
        pose proof (auth_only_view _ _ (check_authorization_frame sc n b st)) as Hv;
        destruct (check_authorization sc n b st) as [[]]; done end.
    all: repeat (destr_match; simpl in *; simplify_eq); done. }
  destruct (pre_dispatch c s) as [[[]|e] s1]; [|by left]. simpl in Hv. rewrite <- Hv.
  apply dispatch_view. intros a s' Hs'.
  pose proof (storage_view (System NoneOrigin) c s1) as H'. by rewrite Hs' in H'.
Qed.

Lemma unsigned_renewal_view F c s x :
  permanent_cap s < u64_max -> renewal_is_inherent c = false ->
  GoodAt F s -> all_sized m (view s) -> extrinsic_index (sys s) = Some x ->
  ledger_steps m (view s) (view (apply_unsigned_renewal c s)).
Proof.
  intros Hcap Hi (_ & B & _) Hz Hx. pose proof B as (I & _).
  unfold apply_unsigned_renewal, renewal_pre_dispatch. rewrite Hi.
  destruct c as [|entry| | |]; try by left. unfold check_renew_unsigned, resolve_or. unfold_M.
  destruct (resolve_transaction_ref s entry) as [info|] eqn:Er; [|by left].
  destruct (data_size_ok _) eqn:Es; [simpl|by left]. destruct (block_transactions_full s) eqn:Ef; [by left|simpl].
  rewrite check_renew_authorization_eq.
  destruct (renew_allowed s (Preimage (ti_content_hash info)) (ti_size info)) eqn:Ea; [|by left].
  set (s1 := charge (Preimage (ti_content_hash info)) (ti_size info) s).
  destruct (charge_frame (Preimage (ti_content_hash info)) (ti_size info) s)
    as (E1 & _ & _ & _ & _ & E6 & _ & E8 & E9 & _).
  assert (is_ok (dispatch_renewal (System NoneOrigin) (CallForceRenew entry) s1).1 = true) as Hok.
  { simpl. unfold force_renew, resolve_or. unfold_M. simpl. unfold s1.
    rewrite (resolve_ext s) by done. rewrite Er. unfold ensure_data_size_ok. rewrite Es.
    pose proof (do_renew_succeeds info (charge (Preimage (ti_content_hash info)) (ti_size info) s) x
      ltac:(by rewrite E1) ltac:(rewrite E8; apply block_not_full; [apply I|done])) as Hd.
    by destruct (do_renew info _) as [[]]. }
  unfold dispatch. change (force_renew (System NoneOrigin) entry)
    with (dispatch_renewal (System NoneOrigin) (CallForceRenew entry)).
  destruct (dispatch_renewal _ _ s1) as [[a|e] s'] eqn:Ed; [|done]. simpl.
  apply (charged_effect s [] (CallForceRenew entry) (Preimage (ti_content_hash info)) (ti_size info) s'
    (System NoneOrigin) Hcap B Hz eq_refl).
  - simpl. by rewrite Er, Es, Ef, Ea.
  - by eapply dispatch_renewal_effect.
Qed.

Lemma apply_hop_view `{!HopHost} source c s :
  ledger_steps m (view s) (view (apply_hop source c s)).
Proof.
  unfold apply_hop. destruct (authorize_hop source c s); [|by left].
  apply dispatch_view. intros a' s' Hs'.
  pose proof (hop_view (System AuthorizedCall) c s) as Hv. by rewrite Hs' in Hv.
Qed.

End Refines.

(** ** Histories *)

Section Histories.
Context `{HostLaws} `{!Config} `{!ConfigLaws} `{!ChunkCapacity} `{!AuthorizerLaws} `{!HopHost}
  `{!RuntimeHost} `{!RuntimeLaws} `{!ContentSizes}.
Context (m : bool) (Hca : m = true -> content_addressed).

Lemma call_ok_weaken o c : call_ok m o c -> call_ok false o c.
Proof. intros Hc o' c' Hd. by destruct (Hc o' c' Hd) as (? & ? & _). Qed.

Lemma step_weaken p q : chain_step_if m p q -> chain_step p q.
Proof. destruct 1; econstructor; eauto using call_ok_weaken; done. Qed.

Lemma reachable_weaken g p : reachable_if m g p -> reachable g p.
Proof.
  induction 1 as [h|p q _ IH Hs]; [apply reachable_genesis|].
  eapply reachable_step; [exact IH|by apply step_weaken].
Qed.

(** Between the opening of a block and the drain, the queue is the registrations'
    and the block is still empty. *)
Definition LedgerChain (p : Phase * State) : Prop :=
  LedgerOk m (view p.2) /\ permanent_cap p.2 < u64_max /\
  (p.1 = Inherents ->
    queue_matches m (view p.2) (PendingRenewals (dr p.2)) /\
    (PendingRenewals (dr p.2) <> [] -> BlockTransactions (ts p.2) = [])).

Lemma LedgerChain_same s s' : view s' = view s -> LedgerChain (Inherents, s) -> LedgerChain (Inherents, s').
Proof.
  intros Hv (Hl & Hc & Hq). unfold LedgerChain. simpl in *.
  change (permanent_cap s') with (v_cap (view s')).
  change (PendingRenewals (dr s')) with (v_pending (view s')).
  change (BlockTransactions (ts s')) with (v_block (view s')). by rewrite Hv.
Qed.

Lemma proof_inherent_view x proof s :
  view (dispatch (apply_block_inherents (System NoneOrigin) proof) (set_extrinsic x s)).2 = view s.
Proof.
  unfold dispatch, apply_block_inherents, do_check_proof, ok_or. unfold_M. simpl.
  repeat (destr_match; simpl in *; simplify_eq); done.
Qed.

(** Whatever happens in an open block is a run of the machine. *)
Lemma extrinsic_refines s s' :
  ChainInv (Extrinsics, s) -> permanent_cap s < u64_max -> all_sized m (view s) ->
  chain_step_if m (Extrinsics, s) (Extrinsics, s') -> ledger_run m (view s) (view s').
Proof.
  intros [L I] Hcap Hz Hs. simpl in L, I.
  assert (forall x, is_u32 x -> GoodAt (frozen s) (set_extrinsic x s)) as Gx
    by (intros x Hx; apply Good_set_extrinsic; [done|by apply good_at]).
  inversion Hs as [| | | | |s0 x who c Hx Hc|s0 x c Hx Hi Ha|s0 x c Hx Hi|s0 x source c Hx|s0 x o c Hx Hc
    |s0 key value Hu Hl|ph s0 d Hph|]; subst; try (specialize (Gx x Hx); change (view s) with (view (set_extrinsic x s));
    change (all_sized m (view (set_extrinsic x s))) in Hz).
  - by eapply (apply_signed_run m Hca (frozen s)).
  - by apply ledger_steps_run, unsigned_storage_view.
  - eapply ledger_steps_run, (unsigned_renewal_view m (frozen s)); done.
  - by apply ledger_steps_run, apply_hop_view.
  - destruct (leaf_call c) eqn:El.
    + destruct (Hc o c) as (Ho & Ha & Hm); [constructor|].
      apply ledger_steps_run, plain_view; [done|done|apply Gx|done..].
    + destruct c as [| | |u|]; try done. by eapply wrapper_view.
  - apply rtc_once. by apply ledger_set_cap.
  - reflexivity.
Qed.

Lemma ledger_chain_step p q :
  ChainInv p -> chain_step_if m p q -> LedgerChain p -> LedgerChain q.
Proof.
  intros HI Hs HL.
  assert (forall s s', p = (Extrinsics, s) -> q = (Extrinsics, s') -> LedgerChain q) as Hext.
  { intros s s' -> ->. destruct HL as (Hl & Hc & _).
    pose proof (extrinsic_refines s s' HI Hc (proj1 Hl) Hs) as Hrun.
    split; [by eapply ledger_run_ok|]. split; [by apply (ledger_run_cap m (view s) (view s') Hrun)|done]. }
  destruct HI as [L I].
  destruct Hs as [s parent Hn|s t|s x proof|s x|s|s x who c|s x c|s x c|s x source c
                 |s x o c|s key value|ph s d Hph|s s' Hcl]; simpl in L, I; try by eapply Hext.
  - destruct I as [S Hp]. destruct HL as (Hl & Hc & _).
    destruct (open_block_ledger m parent s L S Hp Hn Hl) as (Hl' & Hq & Hb).
    split; [done|]. split; [|by intros _; split].
    pose proof (open_block_view parent s L S Hp Hn) as Hv. cbv zeta in Hv. simpl in Hc |- *.
    destruct Hv as [Hv|(o & txs & pairs & idx & _ & _ & _ & _ & _ & _ & Hv)];
      apply (f_equal v_cap) in Hv; simpl in Hv; by rewrite Hv.
  - by apply (LedgerChain_same s).
  - apply (LedgerChain_same s); [apply proof_inherent_view|done].
  - destruct HL as (Hl & Hc & Hq). simpl in Hl, Hc, Hq. destruct (Hq eq_refl) as [Hq1 Hq2].
    assert (PendingInv (set_extrinsic x s)) as IP by apply L.
    pose proof (drain_ok m x (set_extrinsic x s) Hc eq_refl IP Hl Hq1 Hq2) as Hl'.
    pose proof (process_pending_empties (set_extrinsic x s) IP) as He.
    destruct (process_pending_frame (set_extrinsic x s) IP) as (_ & Hsys & _).
    unfold dispatch, process_pending_renewals, run. unfold_M. simpl.
    destruct (do_process_pending_renewals (set_extrinsic x s)) as [n s1]. simpl in *.
    split; [done|]. split; [unfold permanent_cap; simpl; by rewrite Hsys|].
    intros _. simpl. rewrite He. split; [split; [constructor|]|done].
    intros p Hin. by apply not_elem_of_nil in Hin.
  - destruct HL as (Hl & Hc & _). by split.
  - destruct ph; [done|by apply (LedgerChain_same s)|by destruct HL as (? & ? & _); split].
  - destruct HL as (Hl & Hc & _). destruct I as [B _]. split; [|split; [|done]]; simpl in *.
    + by eapply close_block_ledger.
    + apply close_block_iff in Hcl as (_ & _ & ->). unfold seal_block. by destruct (negb _).
Qed.

(** The cap the runtime starts with is not the largest [u64]. *)
Context (Hcap : MaxPermanentStorageSize ∅ < u64_max).

Lemma genesis_ledger g h : LedgerChain (Idle, genesis_build g (empty_state h)).
Proof.
  destruct (genesis_frame g (empty_state h)) as (A & B & ev & pr & E).
  assert (view (genesis_build g (empty_state h)) = mkView 0 ∅ [] [] ∅ ∅ (MaxPermanentStorageSize ∅)) as Hv
    by by rewrite E.
  split; [|split; [by apply (f_equal v_cap) in Hv; simpl in *; rewrite Hv|done]]. simpl. rewrite Hv. split_and!.
  - split; [constructor|]. intros b txs Ht. done.
  - intros k Hk. simpl in Hk. rewrite lookup_empty in Hk. by destruct Hk.
  - intros _. unfold accounted. simpl. by rewrite !msum_empty.
Qed.

(** Every reachable state keeps the ledger. *)
Lemma reachable_ledger_ok g p : genesis_ok g -> reachable_if m g p -> LedgerChain p.
Proof.
  intros Hg Hr. induction Hr as [h|p q Hp IH Hs]; [apply genesis_ledger|].
  eapply ledger_chain_step; [|done|done]. eapply reachable_inv; [done|by apply reachable_weaken].
Qed.
End Histories.
