(* ===== verification/Codec.v ===== *)
(** The stored bytes: SCALE layouts of the storage items the migrations read and
    write ([#[derive(Encode, Decode)]] structs of
    [pallets/transaction-storage/src/types.rs], [src/migrations.rs] and
    [pallets/data-renewal/src/types.rs]), and the shape-tolerant read of
    [Pallet::transactions_at] on bytes.

    The codec crate is a parameter: the integers it encodes and the compact length
    prefix.  What is defined here is what the derives spell out, field by field. *)

From S2P Require Import Prelude Primitives Types State.

(** ** Codecs *)

(** [Encode] and [Decode] of a type: decoding reads a prefix of its input and
    leaves the rest ([T::decode(&mut &raw[..])] does not ask for all bytes). *)
Record Codec (A : Type) := mkCodec {
  enc : A -> bytes;
  dec : bytes -> option (A * bytes) }.
Arguments mkCodec {A} _ _.
Arguments enc {A} _ _.
Arguments dec {A} _ _.

(** [T::decode(&mut &raw[..]).ok()]. *)
Definition decode_ok {A} (c : Codec A) (raw : bytes) : option A := fst <$> dec c raw.

(** [T::decode(&mut &raw[..]).is_ok()]. *)
Definition decodes {A} (c : Codec A) (raw : bytes) : bool :=
  match decode_ok c raw with Some _ => true | None => false end.

(** A value in the range [P] is read back, whatever follows it. *)
Class RoundTrip {A} (c : Codec A) (P : A -> Prop) : Prop :=
  round_trip x rest : P x -> dec c (enc c x ++ rest) = Some (x, rest).

(** Encodings take [n] bytes, and decoding consumes [n]. *)
Class FixedSize {A} (c : Codec A) (P : A -> Prop) (n : nat) : Prop := {
  enc_size x : P x -> length (enc c x) = n;
  dec_size raw x rest : dec c raw = Some (x, rest) -> length raw = (n + length rest)%nat }.

(** Decoded values are in the range of the type. *)
Class InRange {A} (c : Codec A) (P : A -> Prop) : Prop :=
  in_range raw x rest : dec c raw = Some (x, rest) -> P x.

(** ** The codec crate *)

Class ScaleHost := {
  u32_codec : Codec Z;
  u64_codec : Codec Z;
  (* Compact<u32>, the length prefix of vectors *)
  compact_codec : Codec Z }.

(** "Basic integers are encoded using a fixed-width little-endian format"; compact
    integers are read back, leaving what follows. *)
Class ScaleLaws `{ScaleHost} : Prop := {
  u32_round :: RoundTrip u32_codec is_u32;
  u32_size :: FixedSize u32_codec is_u32 4;
  u64_round :: RoundTrip u64_codec is_u64;
  u64_size :: FixedSize u64_codec is_u64 8;
  u32_range :: InRange u32_codec is_u32;
  u64_range :: InRange u64_codec is_u64;
  compact_round :: RoundTrip compact_codec is_u32 }.

(** ** What the derives generate *)

(** The fields of a struct in order. *)
Definition pair_codec {A B} (a : Codec A) (b : Codec B) : Codec (A * B) := {|
  enc p := enc a p.1 ++ enc b p.2;
  dec raw :=
    match dec a raw with
    | Some (x, rest) =>
        match dec b rest with Some (y, rest') => Some ((x, y), rest') | None => None end
    | None => None
    end |}.

(** A struct as the tuple of its fields. *)
Definition struct_codec {A B} (make : A -> B) (to : B -> A) (c : Codec A) : Codec B := {|
  enc x := enc c (to x);
  dec raw := match dec c raw with Some (x, rest) => Some (make x, rest) | None => None end |}.

(** [[u8; n]], [H256], [AccountId32]: the bytes themselves. *)
Definition array_codec (n : nat) : Codec bytes := {|
  enc b := b;
  dec raw := if (n <=? length raw)%nat then Some (take n raw, drop n raw) else None |}.

(** A C-like enum: one byte, the variant's index. *)
Definition enum_codec {A} (index : A -> Z) (variant : Z -> option A) : Codec A := {|
  enc x := [byte_of_Z (index x)];
  dec raw :=
    match raw with
    | b :: rest => match variant (byte_to_Z b) with Some x => Some (x, rest) | None => None end
    | [] => None
    end |}.

Definition bool_codec : Codec bool :=
  enum_codec (fun b : bool => if b then 1 else 0)
    (fun z => if z =? 0 then Some false else if z =? 1 then Some true else None).

(** [Option<T>]: a byte, then the value. *)
Definition option_codec {A} (c : Codec A) : Codec (option A) := {|
  enc o := match o with Some x => byte_of_Z 1 :: enc c x | None => [byte_of_Z 0] end;
  dec raw :=
    match raw with
    | b :: rest =>
        if byte_to_Z b =? 0 then Some (None, rest)
        else if byte_to_Z b =? 1 then
          match dec c rest with Some (x, rest') => Some (Some x, rest') | None => None end
        else None
    | [] => None
    end |}.

(** [n] values one after the other. *)
Fixpoint dec_items {A} (c : Codec A) (n : nat) (raw : bytes) : option (list A * bytes) :=
  match n with
  | O => Some ([], raw)
  | S n' =>
      match dec c raw with
      | Some (x, rest) =>
          match dec_items c n' rest with
          | Some (xs, rest') => Some (x :: xs, rest')
          | None => None
          end
      | None => None
      end
  end.

(** [BoundedVec<T, Bound>]: the compact length, refused above the bound, then the
    items. *)
Definition bounded_vec_codec `{ScaleHost} {A} (bound : Z) (c : Codec A) : Codec (list A) := {|
  enc l := enc compact_codec (len l) ++ concat (map (enc c) l);
  dec raw :=
    match dec compact_codec raw with
    | Some (n, rest) => if n <=? bound then dec_items c (Z.to_nat n) rest else None
    | None => None
    end |}.

(** ** Laws of the generated codecs *)

Section Laws.

#[export] Instance pair_round {A B} (a : Codec A) (b : Codec B) P Q :
  RoundTrip a P -> RoundTrip b Q -> RoundTrip (pair_codec a b) (fun p => P p.1 /\ Q p.2).
Proof.
  intros Ha Hb [x y] rest [Hx Hy]. simpl in *. rewrite <-(assoc_L (++)).
  by rewrite Ha by done; rewrite Hb by done.
Qed.

#[export] Instance pair_size {A B} (a : Codec A) (b : Codec B) P Q n k :
  FixedSize a P n -> FixedSize b Q k -> FixedSize (pair_codec a b) (fun p => P p.1 /\ Q p.2) (n + k).
Proof.
  intros Ha Hb. constructor.
  - intros [x y] [Hx Hy]. simpl in *. by rewrite length_app, (enc_size x Hx), (enc_size y Hy).
  - intros raw [x y] rest. simpl. intros Hd. repeat destr_match; simplify_eq.
    erewrite (dec_size (c := a)) by done. erewrite (dec_size (c := b)) by done. lia.
Qed.

#[export] Instance pair_range {A B} (a : Codec A) (b : Codec B) P Q :
  InRange a P -> InRange b Q -> InRange (pair_codec a b) (fun p => P p.1 /\ Q p.2).
Proof.
  intros Ha Hb raw [x y] rest. simpl. intros Hd. repeat destr_match; simplify_eq. simpl.
  split; [by eapply Ha|by eapply Hb].
Qed.

Lemma struct_range {A B} (make : A -> B) to (c : Codec A) P :
  (forall x, to (make x) = x) -> InRange c P -> InRange (struct_codec make to c) (fun x => P (to x)).
Proof.
  intros Hto Hc raw x rest. simpl. intros Hd. repeat destr_match; simplify_eq. rewrite Hto. by eapply Hc.
Qed.

Lemma struct_round {A B} (make : A -> B) to (c : Codec A) P :
  (forall x, make (to x) = x) -> RoundTrip c P -> RoundTrip (struct_codec make to c) (fun x => P (to x)).
Proof. intros Hof Hc x rest Hx. simpl. rewrite Hc by done. by rewrite Hof. Qed.

Lemma struct_size {A B} (make : A -> B) to (c : Codec A) P n :
  FixedSize c P n -> FixedSize (struct_codec make to c) (fun x => P (to x)) n.
Proof.
  intros Hc. constructor; [intros x Hx; simpl; by apply enc_size|].
  intros raw x rest. simpl. intros Hd. destr_match; [|done]. destr_match. simplify_eq.
  by eapply dec_size.
Qed.

#[export] Instance array_round n : RoundTrip (array_codec n) (fun b => length b = n).
Proof.
  intros b rest Hb. simpl. rewrite length_app. destruct (n <=? _)%nat eqn:E.
  - by rewrite <-Hb, take_app_length, drop_app_length.
  - apply Nat.leb_gt in E. lia.
Qed.

#[export] Instance array_size n : FixedSize (array_codec n) (fun b => length b = n) n.
Proof.
  constructor; [done|]. intros raw x rest. simpl. destruct (n <=? _)%nat eqn:E; [|done].
  apply Nat.leb_le in E. intros [= <- <-]. rewrite length_drop. lia.
Qed.

#[export] Instance array_range n : InRange (array_codec n) (fun b => length b = n).
Proof.
  intros raw x rest. simpl. destruct (n <=? _)%nat eqn:E; [|done].
  apply Nat.leb_le in E. intros [= <- <-]. rewrite length_take. lia.
Qed.

#[export] Instance enum_range {A} index (variant : Z -> option A) :
  InRange (enum_codec index variant) (fun _ => True).
Proof. done. Qed.

Lemma enum_round {A} index (variant : Z -> option A) :
  (forall x, 0 <= index x < 256) -> (forall x, variant (index x) = Some x) ->
  RoundTrip (enum_codec index variant) (fun _ => True).
Proof.
  intros Hr Hof x rest _. simpl. rewrite byte_of_Z_to_Z, Z.mod_small by apply Hr.
  by rewrite Hof.
Qed.

#[export] Instance enum_size {A} index (variant : Z -> option A) :
  FixedSize (enum_codec index variant) (fun _ => True) 1.
Proof.
  constructor; [done|]. intros [|b raw] x rest; simpl; [done|]. destruct (variant _); [|done].
  by intros [= <- <-].
Qed.

#[export] Instance bool_round : RoundTrip bool_codec (fun _ => True).
Proof. apply enum_round; by intros []. Qed.

#[export] Instance option_round {A} (c : Codec A) P :
  RoundTrip c P -> RoundTrip (option_codec c) (fun o => match o with Some x => P x | None => True end).
Proof.
  intros Hc [x|] rest Hx; [|done].
  change (enc (option_codec c) (Some x) ++ rest) with (byte_of_Z 1 :: (enc c x ++ rest)).
  cbn [dec option_codec]. change (byte_to_Z (byte_of_Z 1)) with 1. simpl. by rewrite Hc.
Qed.

Lemma items_round {A} (c : Codec A) P l rest :
  RoundTrip c P -> Forall P l ->
  dec_items c (length l) (concat (map (enc c) l) ++ rest) = Some (l, rest).
Proof.
  intros Hc. induction 1 as [|x l Hx _ IH]; [done|]. simpl. rewrite <-(assoc_L (++)).
  rewrite Hc by done. by rewrite IH.
Qed.

Lemma items_size {A} (c : Codec A) P k n raw xs rest :
  FixedSize c P k -> dec_items c n raw = Some (xs, rest) -> length raw = (n * k + length rest)%nat.
Proof.
  intros Hc. revert raw xs. induction n as [|n IH]; intros raw xs; simpl; [by intros [= _ <-]|].
  intros Hd. repeat destr_match; simplify_eq.
  erewrite (dec_size (c := c)) by done. erewrite IH by done. lia.
Qed.

Lemma items_range {A} (c : Codec A) P n raw xs rest :
  InRange c P -> dec_items c n raw = Some (xs, rest) -> Forall P xs.
Proof.
  intros Hc. revert raw xs. induction n as [|n IH]; intros raw xs; simpl; [by intros [= <- _]|].
  intros Hd. repeat destr_match; simplify_eq. constructor; [by eapply Hc|by eapply IH].
Qed.

Lemma items_length {A} (c : Codec A) n raw xs rest :
  dec_items c n raw = Some (xs, rest) -> length xs = n.
Proof.
  revert raw xs. induction n as [|n IH]; intros raw xs; simpl; [by intros [= <- _]|].
  intros Hd. repeat destr_match; simplify_eq. simpl. f_equal. by eapply IH.
Qed.

Lemma concat_size {A} (c : Codec A) P k l :
  FixedSize c P k -> Forall P l -> length (concat (map (enc c) l)) = (length l * k)%nat.
Proof.
  intros Hc. induction 1 as [|x l Hx _ IH]; [done|]. simpl.
  by rewrite length_app, IH, (enc_size x Hx).
Qed.

Context `{ScaleLaws}.

Definition vec_ok {A} (bound : Z) (P : A -> Prop) (l : list A) : Prop :=
  len l <= bound /\ Forall P l.

#[export] Instance vec_round {A} bound (c : Codec A) P :
  RoundTrip c P -> RoundTrip (bounded_vec_codec bound c) (fun l => bound <= u32_max /\ vec_ok bound P l).
Proof.
  intros Hc l rest (Hb & Hl & HP). unfold bounded_vec_codec. cbn [enc dec].
  rewrite <-(assoc_L (++)), round_trip by (split; [apply len_nonneg|lia]).
  destruct (len l <=? bound) eqn:E; b2p; [|lia]. unfold len. rewrite Nat2Z.id.
  by apply (items_round c P).
Qed.

(** Values of [k] bytes are never taken for values of more than [k] bytes: the
    decoder runs out of bytes. *)
Lemma shorter_layout_refused {A B} bound (a : Codec A) (b : Codec B) P Q j k l :
  FixedSize a P j -> FixedSize b Q k -> (j < k)%nat -> l <> [] -> bound <= u32_max ->
  vec_ok bound P l ->
  dec (bounded_vec_codec bound b) (enc (bounded_vec_codec bound a) l) = None.
Proof.
  intros Ha Hb Hjk Hne Hu (Hl & HP). unfold bounded_vec_codec. cbn [enc dec].
  rewrite round_trip by (split; [apply len_nonneg|lia]).
  destruct (_ <=? _); [|done].
  destruct (dec_items _ _ _) as [[xs rest]|] eqn:E; [|done]. exfalso.
  eapply (items_size b Q k) in E; [|done]. rewrite (concat_size a P j) in E by done.
  unfold len in E. rewrite Nat2Z.id in E. destruct l as [|x l]; [done|]. simpl in E. nia.
Qed.

End Laws.

(** ** The layouts of [TransactionInfo] *)

Definition hashing_codec : Codec HashingAlgorithm :=
  enum_codec (fun a => match a with Blake2b256 => 0 | Sha2_256 => 1 | Keccak256 => 2 end)
    (fun z => if z =? 0 then Some Blake2b256 else if z =? 1 then Some Sha2_256
      else if z =? 2 then Some Keccak256 else None).

Definition entry_kind_codec : Codec EntryKind :=
  enum_codec (fun k => match k with Store => 0 | Renew => 1 end)
    (fun z => if z =? 0 then Some Store else if z =? 1 then Some Renew else None).

(** [migrations::v1::OldTransactionInfo]: no CID fields. *)
Record OldTransactionInfo := mkOldInfo {
  old_chunk_root : bytes;
  old_content_hash : bytes;
  old_size : Z;
  old_block_chunks : Z }.

(** Field values in the range of their types. *)
Definition old_info_ok (t : OldTransactionInfo) : Prop :=
  length (old_chunk_root t) = 32%nat /\ length (old_content_hash t) = 32%nat /\
  is_u32 (old_size t) /\ is_u32 (old_block_chunks t).

Definition v2_info_ok (t : V2TransactionInfo) : Prop :=
  length (v2_chunk_root t) = 32%nat /\ length (v2_content_hash t) = 32%nat /\
  is_u64 (v2_cid_codec t) /\ is_u32 (v2_size t) /\ is_u32 (v2_block_chunks t).

Definition info_ok (t : TransactionInfoFor) : Prop :=
  length (ti_chunk_root t) = 32%nat /\ length (ti_content_hash t) = 32%nat /\
  is_u64 (ti_cid_codec t) /\ is_u32 (ti_size t) /\ is_u32 (ti_extrinsic_index t) /\
  is_u32 (ti_block_chunks t).

Section Layouts.
Context `{ScaleHost}.

Definition old_info_codec : Codec OldTransactionInfo :=
  struct_codec (fun '(r, (h, (n, c))) => mkOldInfo r h n c)
    (fun t => (old_chunk_root t, (old_content_hash t, (old_size t, old_block_chunks t))))
    (pair_codec (array_codec 32) (pair_codec (array_codec 32) (pair_codec u32_codec u32_codec))).

(** [V1TransactionInfo] of [v1] and [v2], [V2TransactionInfo] of [v3]. *)
Definition v2_info_codec : Codec V2TransactionInfo :=
  struct_codec (fun '(r, (h, (a, (k, (n, c))))) => mkV2Info r h a k n c)
    (fun t => (v2_chunk_root t, (v2_content_hash t, (v2_hashing t, (v2_cid_codec t,
      (v2_size t, v2_block_chunks t))))))
    (pair_codec (array_codec 32) (pair_codec (array_codec 32) (pair_codec hashing_codec
      (pair_codec u64_codec (pair_codec u32_codec u32_codec))))).

Definition info_codec : Codec TransactionInfoFor :=
  struct_codec (fun '(r, (h, (a, (k, (n, (x, (c, m))))))) => mkInfo r h a k n x c m)
    (fun t => (ti_chunk_root t, (ti_content_hash t, (ti_hashing t, (ti_cid_codec t,
      (ti_size t, (ti_extrinsic_index t, (ti_block_chunks t, ti_meta t))))))))
    (pair_codec (array_codec 32) (pair_codec (array_codec 32) (pair_codec hashing_codec
      (pair_codec u64_codec (pair_codec u32_codec (pair_codec u32_codec
        (pair_codec u32_codec entry_kind_codec))))))).

(** [RenewalData<AccountId>]. *)
Definition renewal_data_codec : Codec RenewalData :=
  struct_codec (fun '(w, (r, p)) => mkRenewalData w r p)
    (fun d => (rd_account d, (recurring d, paid d)))
    (pair_codec (array_codec 32) (pair_codec bool_codec bool_codec)).

Context `{Config}.

(** [BoundedVec<_, MaxBlockTransactions>] of the three layouts. *)
Definition old_vec_codec := bounded_vec_codec MaxBlockTransactions old_info_codec.
Definition v2_vec_codec := bounded_vec_codec MaxBlockTransactions v2_info_codec.
Definition info_vec_codec := bounded_vec_codec MaxBlockTransactions info_codec.

(** [Pallet::transactions_at] on the bytes under the block's key. *)
Definition transactions_at_raw (raw : option bytes) : option (list TransactionInfoFor) :=
  match raw with
  | None => None
  | Some raw =>
      match decode_ok info_vec_codec raw with
      | Some txs => Some txs
      | None =>
          match decode_ok v2_vec_codec raw with
          | None => None
          | Some v2 =>
              let materialized := map materialize_v2 v2 in
              if len materialized <=? MaxBlockTransactions then Some materialized else None
          end
      end
  end.

(** The layout the model's [Transactions] records for these bytes. *)
Definition layout_of (raw : bytes) : StoredTransactions :=
  match decode_ok info_vec_codec raw with
  | Some txs => LayoutCurrent txs
  | None =>
      match decode_ok v2_vec_codec raw with
      | Some v2 => LayoutV2 v2
      | None => LayoutCorrupted raw
      end
  end.
End Layouts.

(** The laws of a derived struct from those of its fields. *)
Ltac derive_round :=
  let t := fresh in let rest := fresh in let Ht := fresh in
  intros t rest Ht;
  refine (struct_round _ _ _ _ _ _ t rest _);
  [by intros []|simpl in *; tauto].

Lemma size_weaken {A} (c : Codec A) (P Q : A -> Prop) n k :
  FixedSize c P n -> (forall x, Q x -> P x) -> n = k -> FixedSize c Q k.
Proof.
  intros [He Hd] HPQ <-. split; [intros x Hx; by apply He, HPQ|exact Hd].
Qed.

Lemma range_weaken {A} (c : Codec A) (P Q : A -> Prop) :
  InRange c P -> (forall x, P x -> Q x) -> InRange c Q.
Proof. intros Hc HPQ raw x rest Hd. by eapply HPQ, Hc. Qed.

Ltac derive_range :=
  refine (range_weaken _ _ _ (struct_range _ _ _ _ _ _) _);
  [intros; repeat match goal with p : _ * _ |- _ => destruct p end; reflexivity|simpl; intros; tauto].

Ltac derive_size :=
  refine (size_weaken _ _ _ _ _ (struct_size _ _ _ _ _ _) _ _);
  [simpl; intros; tauto|reflexivity].

Section LayoutLaws.
Context `{ScaleLaws}.

#[export] Instance hashing_round : RoundTrip hashing_codec (fun _ => True).
Proof. apply enum_round; by intros []. Qed.

#[export] Instance entry_kind_round : RoundTrip entry_kind_codec (fun _ => True).
Proof. apply enum_round; by intros []. Qed.

#[export] Instance old_info_round : RoundTrip old_info_codec old_info_ok.
Proof. unfold old_info_ok. derive_round. Qed.

#[export] Instance v2_info_round : RoundTrip v2_info_codec v2_info_ok.
Proof. unfold v2_info_ok. derive_round. Qed.

#[export] Instance info_round : RoundTrip info_codec info_ok.
Proof. unfold info_ok. derive_round. Qed.

#[export] Instance renewal_data_round : RoundTrip renewal_data_codec (fun d => length (rd_account d) = 32%nat).
Proof. derive_round. Qed.

(** 72, 81 and 86 bytes an entry; 34 bytes a registration. *)
#[export] Instance old_info_size : FixedSize old_info_codec old_info_ok 72.
Proof. unfold old_info_ok. derive_size. Qed.

#[export] Instance v2_info_size : FixedSize v2_info_codec v2_info_ok 81.
Proof. unfold v2_info_ok. derive_size. Qed.

#[export] Instance info_size : FixedSize info_codec info_ok 86.
Proof. unfold info_ok. derive_size. Qed.

#[export] Instance renewal_data_size :
  FixedSize renewal_data_codec (fun d => length (rd_account d) = 32%nat) 34.
Proof. derive_size. Qed.

#[export] Instance old_info_range : InRange old_info_codec old_info_ok.
Proof. unfold old_info_ok. derive_range. Qed.

#[export] Instance v2_info_range : InRange v2_info_codec v2_info_ok.
Proof. unfold v2_info_ok. derive_range. Qed.

Context `{!Config} `{!ConfigLaws}.

Abbreviation olds_ok := (vec_ok MaxBlockTransactions old_info_ok).
Abbreviation v2s_ok := (vec_ok MaxBlockTransactions v2_info_ok).
Abbreviation infos_ok := (vec_ok MaxBlockTransactions info_ok).

Lemma decode_ok_enc {A} (c : Codec A) P x : RoundTrip c P -> P x -> decode_ok c (enc c x) = Some x.
Proof. intros Hc Hx. unfold decode_ok. rewrite <-(app_nil_r (enc c x)). by rewrite round_trip. Qed.

Lemma decode_vec {A} (c : Codec A) P l :
  RoundTrip c P -> vec_ok MaxBlockTransactions P l ->
  decode_ok (bounded_vec_codec MaxBlockTransactions c)
    (enc (bounded_vec_codec MaxBlockTransactions c) l) = Some l.
Proof.
  intros Hc Hl. eapply decode_ok_enc; [apply vec_round, Hc|]. split; [|done].
  apply MaxBlockTransactions_range.
Qed.

Lemma decode_longer {A B} (a : Codec A) (b : Codec B) P Q j k l :
  FixedSize a P j -> FixedSize b Q k -> (j < k)%nat -> l <> [] ->
  vec_ok MaxBlockTransactions P l ->
  decode_ok (bounded_vec_codec MaxBlockTransactions b)
    (enc (bounded_vec_codec MaxBlockTransactions a) l) = None.
Proof.
  intros Ha Hb Hjk Hne Hl. unfold decode_ok.
  erewrite (shorter_layout_refused _ a b P Q j k); try done. apply MaxBlockTransactions_range.
Qed.

Lemma layout_of_current l : infos_ok l -> layout_of (enc info_vec_codec l) = LayoutCurrent l.
Proof. intros Hl. unfold layout_of, info_vec_codec. by rewrite (decode_vec _ info_ok _ _ Hl). Qed.

Lemma layout_of_v2 l : l <> [] -> v2s_ok l -> layout_of (enc v2_vec_codec l) = LayoutV2 l.
Proof.
  intros Hne Hl. unfold layout_of, info_vec_codec, v2_vec_codec.
  rewrite (decode_longer v2_info_codec info_codec v2_info_ok info_ok 81 86 l _ _ ltac:(lia) Hne Hl).
  by rewrite (decode_vec _ v2_info_ok _ _ Hl).
Qed.

(** An empty vector reads the same in every layout. *)
Lemma layout_of_empty : layout_of (enc v2_vec_codec []) = LayoutCurrent [].
Proof.
  change (enc v2_vec_codec []) with (enc info_vec_codec []). apply layout_of_current.
  split; [|constructor]. pose proof MaxBlockTransactions_range. unfold len. simpl. lia.
Qed.

Lemma decode_vec_ok {A} (c : Codec A) P raw l :
  InRange c P ->
  decode_ok (bounded_vec_codec MaxBlockTransactions c) raw = Some l -> vec_ok MaxBlockTransactions P l.
Proof.
  intros Hc. unfold decode_ok, bounded_vec_codec. cbn [dec].
  destruct (dec compact_codec raw) as [[n rest]|]; [|done].
  destruct (n <=? _) eqn:E; [b2p|done]. destruct (dec_items _ _ _) as [[xs r]|] eqn:Ei; [|done].
  intros [= <-]. split; [|by eapply items_range]. apply items_length in Ei.
  pose proof MaxBlockTransactions_range. unfold len. simpl. lia.
Qed.

(** Reading the bytes is reading the layout they are in. *)
Lemma transactions_at_layout raw :
  transactions_at_raw (Some raw) =
    match layout_of raw with
    | LayoutCurrent txs => Some txs
    | LayoutV2 txs => Some (map materialize_v2 txs)
    | LayoutCorrupted _ => None
    end.
Proof.
  unfold transactions_at_raw, layout_of. destruct (decode_ok info_vec_codec raw); [done|].
  destruct (decode_ok v2_vec_codec raw) as [v2|] eqn:E; [|done].
  apply (decode_vec_ok _ _ _ _ v2_info_range) in E as [E _]. unfold len in *. rewrite length_map.
  destruct (_ <=? _) eqn:El; b2p; [done|lia].
Qed.
End LayoutLaws.

Abbreviation olds_ok := (vec_ok MaxBlockTransactions old_info_ok).
Abbreviation v2s_ok := (vec_ok MaxBlockTransactions v2_info_ok).
Abbreviation infos_ok := (vec_ok MaxBlockTransactions info_ok).
