(* ===== verification/Weights.v ===== *)
(** Weights: the pallets' [WeightInfo] traits ([pallets/*/src/weights.rs]) and the
    tables the two runtimes give for them ([runtimes/*/src/weights]).

    [sp_weights] is a parameter: weights with their two axes, the saturating
    operations, meters, and the constants the tables are written with. *)

From S2P Require Import Prelude.

(** ** [sp_weights] *)

(** [sp_weights::RuntimeDbWeight]. *)
Record RuntimeDbWeight := mkDbWeight { db_read : Z; db_write : Z }.

Class WeightHost := {
  Weight : Type;
  from_parts : Z -> Z -> Weight;
  ref_time : Weight -> Z;
  proof_size : Weight -> Z;
  saturating_add : Weight -> Weight -> Weight;
  saturating_sub : Weight -> Weight -> Weight;
  saturating_mul : Weight -> Z -> Weight;
  any_lt : Weight -> Weight -> bool;
  all_lte : Weight -> Weight -> bool;
  reads : RuntimeDbWeight -> Z -> Weight;
  writes : RuntimeDbWeight -> Z -> Weight;
  WeightMeter : Type;
  consumed : WeightMeter -> Weight;
  limit : WeightMeter -> Weight;
  remaining : WeightMeter -> Weight;
  meter_try_consume : Weight -> WeightMeter -> option WeightMeter;
  (* [Perbill::from_percent(p) * x], on a weight and on a [u32] *)
  percent_of_weight : Z -> Weight -> Weight;
  percent_of_u32 : Z -> Z -> Z;
  WEIGHT_REF_TIME_PER_NANOS : Z;
  WEIGHT_REF_TIME_PER_SECOND : Z;
  MAX_POV_SIZE : Z }.

Declare Scope weight_scope.
Delimit Scope weight_scope with weight.
Notation "a ⊕ b" := (saturating_add a b) (at level 50, left associativity) : weight_scope.
Open Scope weight_scope.

(** Documented behaviour: both axes are 64 bits wide and saturate on their own; the
    database operations cost time only; a percentage is rounded to a neighbour. *)
Class WeightLaws `{WeightHost} : Prop := {
  ref_time_parts a b : is_u64 a -> ref_time (from_parts a b) = a;
  proof_size_parts a b : is_u64 b -> proof_size (from_parts a b) = b;
  ref_time_add a b : ref_time (a ⊕ b) = sat_add u64_max (ref_time a) (ref_time b);
  proof_size_add a b : proof_size (a ⊕ b) = sat_add u64_max (proof_size a) (proof_size b);
  ref_time_sub a b : ref_time (saturating_sub a b) = sat_sub (ref_time a) (ref_time b);
  proof_size_sub a b : proof_size (saturating_sub a b) = sat_sub (proof_size a) (proof_size b);
  ref_time_mul a n : ref_time (saturating_mul a n) = sat_mul u64_max (ref_time a) n;
  proof_size_mul a n : proof_size (saturating_mul a n) = sat_mul u64_max (proof_size a) n;
  any_lt_spec a b : any_lt a b = (ref_time a <? ref_time b) || (proof_size a <? proof_size b);
  all_lte_spec a b : all_lte a b = (ref_time a <=? ref_time b) && (proof_size a <=? proof_size b);
  ref_time_reads d n : ref_time (reads d n) = sat_mul u64_max (db_read d) n;
  proof_size_reads d n : proof_size (reads d n) = 0;
  ref_time_writes d n : ref_time (writes d n) = sat_mul u64_max (db_write d) n;
  proof_size_writes d n : proof_size (writes d n) = 0;
  remaining_spec m : remaining m = saturating_sub (limit m) (consumed m);
  try_consume_fits w m :
    ref_time (consumed m) + ref_time w <= ref_time (limit m) ->
    proof_size (consumed m) + proof_size w <= proof_size (limit m) ->
    is_Some (meter_try_consume w m);
  ref_time_percent p w : 0 <= p <= 100 -> Z.abs (100 * ref_time (percent_of_weight p w) - p * ref_time w) < 100;
  proof_size_percent p w : 0 <= p <= 100 -> Z.abs (100 * proof_size (percent_of_weight p w) - p * proof_size w) < 100;
  percent_of_u32_spec p n : 0 <= p <= 100 -> is_u32 n -> Z.abs (100 * percent_of_u32 p n - p * n) < 100;
  nanos_spec : WEIGHT_REF_TIME_PER_NANOS = 1000;
  second_spec : WEIGHT_REF_TIME_PER_SECOND = 10 ^ 12;
  pov_spec : 5 * 1024 * 1024 <= MAX_POV_SIZE <= u32_max }.

#[export] Hint Rewrite @ref_time_add @proof_size_add @ref_time_sub @proof_size_sub @ref_time_mul
  @proof_size_mul @ref_time_reads @proof_size_reads @ref_time_writes @proof_size_writes
  using typeclasses eauto : weight.

(** ** The traits *)

Record StorageWeightInfo `{WeightHost} := mkStorageWeightInfo {
  w_store : Z -> Weight;
  w_store_with_cid_config : Z -> Weight;
  w_authorize_account : Weight;
  w_add_authorizer : Weight;
  w_remove_authorizer : Weight;
  w_refresh_account_authorization : Weight;
  w_authorize_preimage : Weight;
  w_refresh_preimage_authorization : Weight;
  w_remove_expired_account_authorization : Weight;
  w_remove_expired_preimage_authorization : Weight;
  w_remove_exhausted_authorizer : Weight;
  w_validate_store : Z -> Weight;
  w_apply_block_inherents : Weight;
  w_on_initialize_with_expiry : Z -> Weight;
  w_migrate_v2_to_v3_step : Weight }.

Record RenewalWeightInfo `{WeightHost} := mkRenewalWeightInfo {
  w_renew : Weight;
  w_force_renew : Weight;
  w_enable_auto_renew : Weight;
  w_disable_auto_renew : Weight;
  w_validate_renew : Weight;
  w_process_pending_renewals : Z -> Weight }.

Record HopWeightInfo `{WeightHost} := mkHopWeightInfo {
  w_authorize_promote : Z -> Weight;
  w_authorize_promote_v2 : Z -> Weight }.

(** ** The tables *)

Section Tables.
Context `{WeightHost}.

Definition RocksDbWeight : RuntimeDbWeight :=
  mkDbWeight (25000 * WEIGHT_REF_TIME_PER_NANOS) (100000 * WEIGHT_REF_TIME_PER_NANOS).

Definition BlockExecutionWeight : Weight :=
  from_parts (sat_mul u64_max WEIGHT_REF_TIME_PER_NANOS 5000000) 0.

Definition ExtrinsicBaseWeight : Weight :=
  from_parts (sat_mul u64_max WEIGHT_REF_TIME_PER_NANOS 125000) 0.

(** [runtimes/bulletin-paseo/src/weights/pallet_bulletin_transaction_storage.rs]. *)
Definition paseo_storage_weights : StorageWeightInfo := {|
  w_store l :=
    from_parts 16642000 0 ⊕ from_parts 0 45519 ⊕ saturating_mul (from_parts 6842 0) l
      ⊕ reads RocksDbWeight 1 ⊕ writes RocksDbWeight 2;
  w_store_with_cid_config l :=
    from_parts 16262000 0 ⊕ from_parts 0 45519 ⊕ saturating_mul (from_parts 6534 0) l
      ⊕ reads RocksDbWeight 1 ⊕ writes RocksDbWeight 2;
  w_authorize_account :=
    from_parts 17956000 0 ⊕ from_parts 0 3550 ⊕ reads RocksDbWeight 1
      ⊕ writes RocksDbWeight 1;
  w_add_authorizer :=
    from_parts 19637000 0 ⊕ from_parts 0 3532 ⊕ reads RocksDbWeight 1
      ⊕ writes RocksDbWeight 1;
  w_remove_authorizer :=
    from_parts 19083000 0 ⊕ from_parts 0 3532 ⊕ reads RocksDbWeight 1
      ⊕ writes RocksDbWeight 1;
  w_refresh_account_authorization :=
    from_parts 14595000 0 ⊕ from_parts 0 3550 ⊕ reads RocksDbWeight 1
      ⊕ writes RocksDbWeight 1;
  w_authorize_preimage :=
    from_parts 13147000 0 ⊕ from_parts 0 3550 ⊕ reads RocksDbWeight 1
      ⊕ writes RocksDbWeight 1;
  w_refresh_preimage_authorization :=
    from_parts 14145000 0 ⊕ from_parts 0 3550 ⊕ reads RocksDbWeight 1
      ⊕ writes RocksDbWeight 1;
  w_remove_expired_account_authorization :=
    from_parts 20590000 0 ⊕ from_parts 0 3550 ⊕ reads RocksDbWeight 1
      ⊕ writes RocksDbWeight 1;
  w_remove_expired_preimage_authorization :=
    from_parts 15480000 0 ⊕ from_parts 0 3550 ⊕ reads RocksDbWeight 1
      ⊕ writes RocksDbWeight 1;
  w_remove_exhausted_authorizer :=
    from_parts 24934000 0 ⊕ from_parts 0 3532 ⊕ reads RocksDbWeight 1
      ⊕ writes RocksDbWeight 1;
  w_validate_store l :=
    from_parts 19937000 0 ⊕ from_parts 0 45519 ⊕ saturating_mul (from_parts 2906 0) l
      ⊕ reads RocksDbWeight 3 ⊕ writes RocksDbWeight 2;
  w_apply_block_inherents :=
    from_parts 76084000 0 ⊕ from_parts 0 47519 ⊕ reads RocksDbWeight 4
      ⊕ writes RocksDbWeight 1;
  w_on_initialize_with_expiry n :=
    from_parts 6299000 0 ⊕ from_parts 0 79311 ⊕ saturating_mul (from_parts 11335739 0) n
      ⊕ reads RocksDbWeight 5 ⊕ reads RocksDbWeight (sat_mul u64_max 2 n) ⊕ writes RocksDbWeight 3
      ⊕ writes RocksDbWeight (sat_mul u64_max 1 n) ⊕ saturating_mul (from_parts 0 2557) n;
  w_migrate_v2_to_v3_step :=
    from_parts 146440000 0 ⊕ from_parts 0 94048 ⊕ reads RocksDbWeight 4
      ⊕ writes RocksDbWeight 1 |}.

(** [runtimes/bulletin-paseo/src/weights/pallet_bulletin_data_renewal.rs]. *)
Definition paseo_renewal_weights : RenewalWeightInfo := {|
  w_renew :=
    from_parts 33879000 0 ⊕ from_parts 0 47519 ⊕ reads RocksDbWeight 3
      ⊕ writes RocksDbWeight 1;
  w_force_renew :=
    from_parts 33581000 0 ⊕ from_parts 0 47519 ⊕ reads RocksDbWeight 3
      ⊕ writes RocksDbWeight 2;
  w_enable_auto_renew :=
    from_parts 33630000 0 ⊕ from_parts 0 47519 ⊕ reads RocksDbWeight 3
      ⊕ writes RocksDbWeight 1;
  w_disable_auto_renew :=
    from_parts 18318000 0 ⊕ from_parts 0 3547 ⊕ reads RocksDbWeight 1
      ⊕ writes RocksDbWeight 1;
  w_validate_renew :=
    from_parts 51751000 0 ⊕ from_parts 0 47519 ⊕ reads RocksDbWeight 6
      ⊕ writes RocksDbWeight 2;
  w_process_pending_renewals n :=
    from_parts 4153000 0 ⊕ from_parts 0 79311 ⊕ saturating_mul (from_parts 15829093 0) n
      ⊕ reads RocksDbWeight 4 ⊕ reads RocksDbWeight (sat_mul u64_max 1 n) ⊕ writes RocksDbWeight 3
      ⊕ writes RocksDbWeight (sat_mul u64_max 2 n) ⊕ saturating_mul (from_parts 0 2560) n |}.

(** [runtimes/bulletin-paseo/src/weights/pallet_bulletin_hop_promotion.rs]. *)
Definition paseo_hop_weights : HopWeightInfo := {|
  w_authorize_promote d :=
    from_parts 58108000 0 ⊕ from_parts 0 45519 ⊕ saturating_mul (from_parts 1447 0) d
      ⊕ reads RocksDbWeight 3;
  w_authorize_promote_v2 d :=
    from_parts 62522000 0 ⊕ from_parts 0 45519 ⊕ saturating_mul (from_parts 1490 0) d
      ⊕ reads RocksDbWeight 4 |}.

(** [runtimes/bulletin-westend/src/weights/pallet_bulletin_transaction_storage.rs]. *)
Definition westend_storage_weights : StorageWeightInfo := {|
  w_store l :=
    from_parts 16566000 0 ⊕ from_parts 0 45519 ⊕ saturating_mul (from_parts 6886 0) l
      ⊕ reads RocksDbWeight 1 ⊕ writes RocksDbWeight 2;
  w_store_with_cid_config l :=
    from_parts 16546000 0 ⊕ from_parts 0 45519 ⊕ saturating_mul (from_parts 6427 0) l
      ⊕ reads RocksDbWeight 1 ⊕ writes RocksDbWeight 2;
  w_authorize_account :=
    from_parts 17887000 0 ⊕ from_parts 0 3550 ⊕ reads RocksDbWeight 1
      ⊕ writes RocksDbWeight 1;
  w_add_authorizer :=
    from_parts 19662000 0 ⊕ from_parts 0 3532 ⊕ reads RocksDbWeight 1
      ⊕ writes RocksDbWeight 1;
  w_remove_authorizer :=
    from_parts 19146000 0 ⊕ from_parts 0 3532 ⊕ reads RocksDbWeight 1
      ⊕ writes RocksDbWeight 1;
  w_refresh_account_authorization :=
    from_parts 14495000 0 ⊕ from_parts 0 3550 ⊕ reads RocksDbWeight 1
      ⊕ writes RocksDbWeight 1;
  w_authorize_preimage :=
    from_parts 13197000 0 ⊕ from_parts 0 3550 ⊕ reads RocksDbWeight 1
      ⊕ writes RocksDbWeight 1;
  w_refresh_preimage_authorization :=
    from_parts 14181000 0 ⊕ from_parts 0 3550 ⊕ reads RocksDbWeight 1
      ⊕ writes RocksDbWeight 1;
  w_remove_expired_account_authorization :=
    from_parts 20383000 0 ⊕ from_parts 0 3550 ⊕ reads RocksDbWeight 1
      ⊕ writes RocksDbWeight 1;
  w_remove_expired_preimage_authorization :=
    from_parts 15400000 0 ⊕ from_parts 0 3550 ⊕ reads RocksDbWeight 1
      ⊕ writes RocksDbWeight 1;
  w_remove_exhausted_authorizer :=
    from_parts 24865000 0 ⊕ from_parts 0 3532 ⊕ reads RocksDbWeight 1
      ⊕ writes RocksDbWeight 1;
  w_validate_store l :=
    from_parts 20146000 0 ⊕ from_parts 0 45519 ⊕ saturating_mul (from_parts 2826 0) l
      ⊕ reads RocksDbWeight 3 ⊕ writes RocksDbWeight 2;
  w_apply_block_inherents :=
    from_parts 79062000 0 ⊕ from_parts 0 47519 ⊕ reads RocksDbWeight 4
      ⊕ writes RocksDbWeight 1;
  w_on_initialize_with_expiry n :=
    from_parts 6380000 0 ⊕ from_parts 0 79311 ⊕ saturating_mul (from_parts 10970164 0) n
      ⊕ reads RocksDbWeight 4 ⊕ reads RocksDbWeight (sat_mul u64_max 2 n) ⊕ writes RocksDbWeight 3
      ⊕ writes RocksDbWeight (sat_mul u64_max 1 n) ⊕ saturating_mul (from_parts 0 2557) n;
  w_migrate_v2_to_v3_step :=
    from_parts 146813000 0 ⊕ from_parts 0 94048 ⊕ reads RocksDbWeight 4
      ⊕ writes RocksDbWeight 1 |}.

(** [runtimes/bulletin-westend/src/weights/pallet_bulletin_data_renewal.rs]. *)
Definition westend_renewal_weights : RenewalWeightInfo := {|
  w_renew :=
    from_parts 32681000 0 ⊕ from_parts 0 47519 ⊕ reads RocksDbWeight 3
      ⊕ writes RocksDbWeight 1;
  w_force_renew :=
    from_parts 33795000 0 ⊕ from_parts 0 47519 ⊕ reads RocksDbWeight 3
      ⊕ writes RocksDbWeight 2;
  w_enable_auto_renew :=
    from_parts 33148000 0 ⊕ from_parts 0 47519 ⊕ reads RocksDbWeight 3
      ⊕ writes RocksDbWeight 1;
  w_disable_auto_renew :=
    from_parts 17866000 0 ⊕ from_parts 0 3547 ⊕ reads RocksDbWeight 1
      ⊕ writes RocksDbWeight 1;
  w_validate_renew :=
    from_parts 43005000 0 ⊕ from_parts 0 47519 ⊕ reads RocksDbWeight 5
      ⊕ writes RocksDbWeight 2;
  w_process_pending_renewals n :=
    from_parts 4138000 0 ⊕ from_parts 0 79311 ⊕ saturating_mul (from_parts 14386961 0) n
      ⊕ reads RocksDbWeight 3 ⊕ reads RocksDbWeight (sat_mul u64_max 1 n) ⊕ writes RocksDbWeight 3
      ⊕ writes RocksDbWeight (sat_mul u64_max 2 n) ⊕ saturating_mul (from_parts 0 2560) n |}.

(** [runtimes/bulletin-westend/src/weights/pallet_bulletin_hop_promotion.rs]. *)
Definition westend_hop_weights : HopWeightInfo := {|
  w_authorize_promote d :=
    from_parts 58079000 0 ⊕ from_parts 0 45519 ⊕ saturating_mul (from_parts 1407 0) d
      ⊕ reads RocksDbWeight 3;
  w_authorize_promote_v2 d :=
    from_parts 62223000 0 ⊕ from_parts 0 45519 ⊕ saturating_mul (from_parts 1417 0) d
      ⊕ reads RocksDbWeight 4 |}.
End Tables.
