(* ===== verification/Migrations.v ===== *)
(** Storage migrations ([pallets/transaction-storage/src/migrations.rs],
    [pallets/data-renewal/src/migrations.rs]) on the stored bytes, and the order in
    which the runtimes run them ([migrations] of their [lib.rs]).

    The state is the part of the storage the migrations touch, undecoded.  Weights
    returned and log lines are left out; the meter of the stepped migration, which
    decides how far a step goes, is kept. *)

From S2P Require Import Prelude Primitives Types State Authorizations Codec Weights.

(** ** State *)

Record Stored := mkStored {
  storage_version : Z; (* [StorageVersion] of the storage pallet *)
  st_now : BlockNumber;
  st_retention_period : BlockNumber;
  raw_Transactions : gmap BlockNumber bytes;
  raw_BlockTransactions : option bytes;
  raw_Authorizations : gmap AuthorizationScope bytes;
  raw_AllowedAuthorizers : gmap AccountId bytes;
  (* under the storage pallet's prefix, before the renewal pallet was split off *)
  old_AutoRenewals : gmap ContentHash bytes;
  old_PendingAutoRenewals : option bytes;
  old_PermanentStorageUsed : option bytes;
  (* under the renewal pallet's prefix *)
  raw_Renewals : gmap ContentHash bytes;
  raw_PendingRenewals : option bytes;
  raw_PermanentStorageUsed : option bytes;
  st_provider_calls : list ProviderCall }.

Definition set_version (v : Z) (s : Stored) : Stored :=
  mkStored v (st_now s) (st_retention_period s) (raw_Transactions s) (raw_BlockTransactions s)
    (raw_Authorizations s) (raw_AllowedAuthorizers s) (old_AutoRenewals s)
    (old_PendingAutoRenewals s) (old_PermanentStorageUsed s) (raw_Renewals s)
    (raw_PendingRenewals s) (raw_PermanentStorageUsed s) (st_provider_calls s).
Definition set_retention_period (v : BlockNumber) (s : Stored) : Stored :=
  mkStored (storage_version s) (st_now s) v (raw_Transactions s) (raw_BlockTransactions s)
    (raw_Authorizations s) (raw_AllowedAuthorizers s) (old_AutoRenewals s)
    (old_PendingAutoRenewals s) (old_PermanentStorageUsed s) (raw_Renewals s)
    (raw_PendingRenewals s) (raw_PermanentStorageUsed s) (st_provider_calls s).
Definition set_transactions (m : gmap BlockNumber bytes) (s : Stored) : Stored :=
  mkStored (storage_version s) (st_now s) (st_retention_period s) m (raw_BlockTransactions s)
    (raw_Authorizations s) (raw_AllowedAuthorizers s) (old_AutoRenewals s)
    (old_PendingAutoRenewals s) (old_PermanentStorageUsed s) (raw_Renewals s)
    (raw_PendingRenewals s) (raw_PermanentStorageUsed s) (st_provider_calls s).

(** ** FRAME's migration helpers *)

(** [VersionedMigration<FROM, TO, Inner, ..>]: the inner migration runs only on a
    chain whose on-chain version is [FROM], which is then set to [TO]. *)
Definition versioned (from to : Z) (inner : Stored -> Stored) (s : Stored) : Stored :=
  if storage_version s =? from then set_version to (inner s) else s.

(** [StorageMap::translate]: every value is decoded at the old type and replaced or
    removed; a value that does not decode is skipped. *)
Definition translate {K A B} `{Countable K} (old : Codec A) (new : Codec B)
    (f : K -> A -> option B) (m : gmap K bytes) : gmap K bytes :=
  map_imap (fun k raw =>
    match decode_ok old raw with
    | None => Some raw
    | Some a => enc new <$> f k a
    end) m.

(** [StorageValue::translate]: nothing happens when the old value does not decode. *)
Definition translate_value {A B} (old : Codec A) (new : Codec B)
    (f : option A -> option B) (v : option bytes) : option bytes :=
  match v with
  | None => enc new <$> f None
  | Some raw =>
      match decode_ok old raw with
      | None => Some raw
      | Some a => enc new <$> f (Some a)
      end
  end.

(** ** [SetRetentionPeriodIfZero] *)

Definition SetRetentionPeriodIfZero (NewValue : BlockNumber) (s : Stored) : Stored :=
  if st_retention_period s =? 0 then set_retention_period NewValue s else s.

(** ** v0 -> v1 *)

Definition to_v1_info (old : OldTransactionInfo) : V2TransactionInfo :=
  mkV2Info (old_chunk_root old) (old_content_hash old) Blake2b256 RAW_CODEC
    (old_size old) (old_block_chunks old).

Section TransactionLayouts.
Context `{ScaleHost} `{Config}.

(** What becomes of the bytes under one key: kept, rewritten or removed. *)
Definition v0_to_v1_entry (raw : bytes) : option bytes :=
  if decodes info_vec_codec raw then Some raw
  else match decode_ok old_vec_codec raw with
       | Some old_txs =>
           let new_txs := map to_v1_info old_txs in
           if len new_txs <=? MaxBlockTransactions then Some (enc v2_vec_codec new_txs)
           else Some raw
       | None => None
       end.

Definition VersionUncheckedMigrateV0ToV1 (s : Stored) : Stored :=
  set_transactions (omap v0_to_v1_entry (raw_Transactions s)) s.

Definition MigrateV0ToV1 : Stored -> Stored := versioned 0 1 VersionUncheckedMigrateV0ToV1.

Definition maybe_migrate_v0_to_v1 (s : Stored) : Stored :=
  if 1 <=? storage_version s then s
  else set_version 1 (VersionUncheckedMigrateV0ToV1 s).
End TransactionLayouts.

(** ** v1 -> v2 *)

Record V1Authorization := mkV1Authorization {
  v1_transactions : Z;
  v1_bytes : Z;
  v1_expiration : BlockNumber }.

Definition v1_expired (a : V1Authorization) (now : BlockNumber) : bool := v1_expiration a <=? now.

Section Authorizations.
Context `{ScaleHost}.

Definition v1_authorization_codec : Codec V1Authorization :=
  struct_codec (fun '((t, b), e) => mkV1Authorization t b e)
    (fun a => ((v1_transactions a, v1_bytes a), v1_expiration a))
    (pair_codec (pair_codec u32_codec u64_codec) u32_codec).

(** [Authorization<BlockNumber, PermanentExtent>]. *)
Definition authorization_codec : Codec Authorization :=
  struct_codec
    (fun '((t, (ta, (b, (x, ba)))), e) =>
      mkAuthorization (mkExtent t ta b (mkPermanentExtent x) ba) e)
    (fun a => let x := extent a in
      ((extent_transactions x, (transactions_allowance x, (extent_bytes x,
        (bytes_permanent (extra x), bytes_allowance x)))), expiration a))
    (pair_codec (pair_codec u32_codec (pair_codec u32_codec (pair_codec u64_codec
      (pair_codec u64_codec u64_codec)))) u32_codec).

(** The closure over [Authorizations]. *)
Definition v1_to_v2_authorization (now : BlockNumber) (old : V1Authorization) : option Authorization :=
  if (v1_bytes old =? 0) || v1_expired old now then None
  else Some (mkAuthorization
    (mkExtent 0 (v1_transactions old) 0 PermanentExtent_default (v1_bytes old))
    (v1_expiration old)).

Context `{Config}.

Definition VersionUncheckedMigrateV1ToV2 (s : Stored) : Stored :=
  mkStored (storage_version s) (st_now s) (st_retention_period s) (raw_Transactions s)
    (translate_value v2_vec_codec info_vec_codec
      (fun maybe_old => map materialize_v2 <$> maybe_old) (raw_BlockTransactions s))
    (translate v1_authorization_codec authorization_codec
      (fun _scope old => v1_to_v2_authorization (st_now s) old) (raw_Authorizations s))
    (raw_AllowedAuthorizers s) (old_AutoRenewals s)
    (old_PendingAutoRenewals s) (old_PermanentStorageUsed s) (raw_Renewals s)
    (raw_PendingRenewals s) (raw_PermanentStorageUsed s) (st_provider_calls s).

Definition MigrateV1ToV2 : Stored -> Stored := versioned 1 2 VersionUncheckedMigrateV1ToV2.
End Authorizations.

(** ** v2 -> v3, stepped *)

Inductive SteppedMigrationError `{WeightHost} :=
| InsufficientWeight (required : Weight)
| Failed.

(** The order in which the trie lists the keys of [Transactions]: the storage key of
    a block, read as a number.  Distinct blocks have distinct keys. *)
Class StorageKeys := {
  key_pos : BlockNumber -> Z;
  key_pos_inj : Inj (=) (=) key_pos }.
#[export] Existing Instance key_pos_inj.

Section Stepped.
Context `{StorageKeys} `{WeightHost}.

(** Past the cursor ([iter_keys], [iter_keys_from]). *)
Definition past (cursor : option BlockNumber) (b : BlockNumber) : bool :=
  match cursor with None => true | Some last => key_pos last <? key_pos b end.

(** The next key of an iteration: the least one past the cursor. *)
Definition next_key (cursor : option BlockNumber) (keys : list BlockNumber) : option BlockNumber :=
  foldr (fun b acc =>
    if past cursor b then
      match acc with
      | Some a => if key_pos b <? key_pos a then Some b else acc
      | None => Some b
      end
    else acc) None keys.

Context `{ScaleHost} `{Config}.

(** [T::WeightInfo::migrate_v2_to_v3_step]. *)
Context (required : Weight).

(** The body of the loop at one key: the bytes left there, or the failure. *)
Definition v2_to_v3_entry (oldest_valid block_number : BlockNumber) (raw : bytes)
    : result SteppedMigrationError (option bytes) :=
  if block_number <? oldest_valid then Ok None
  else if decodes info_vec_codec raw then Ok (Some raw)
  else match decode_ok v2_vec_codec raw with
       | None => Err Failed
       | Some v2 =>
           let v3 := map materialize_v2 v2 in
           if len v3 <=? MaxBlockTransactions then Ok (Some (enc info_vec_codec v3))
           else Err Failed
       end.

(** The loop.  Each iteration moves the cursor to a later key, so [fuel] above the
    number of keys is never used up; [None] is that case. *)
Fixpoint v2_to_v3_loop (fuel : nat) (cursor : option BlockNumber) (meter : WeightMeter) (s : Stored)
    : option (result SteppedMigrationError (option BlockNumber) * WeightMeter * Stored) :=
  match fuel with
  | O => None
  | S fuel' =>
      match meter_try_consume required meter with
      | None => Some (Ok cursor, meter, s)
      | Some meter' =>
          match next_key cursor (map_to_list (raw_Transactions s)).*1 with
          | None =>
              Some (Ok None, meter', if storage_version s <? 3 then set_version 3 s else s)
          | Some block_number =>
              match raw_Transactions s !! block_number with
              | None => v2_to_v3_loop fuel' (Some block_number) meter' s
              | Some raw =>
                  match v2_to_v3_entry (sat_sub (st_now s) (st_retention_period s)) block_number raw with
                  | Err e => Some (Err e, meter', s)
                  | Ok o =>
                      v2_to_v3_loop fuel' (Some block_number) meter'
                        (set_transactions (partial_alter (fun _ => o) block_number
                          (raw_Transactions s)) s)
                  end
              end
          end
      end
  end.

Definition loop_fuel (s : Stored) : nat := S (S (size (raw_Transactions s))).

(** [MigrateV2ToV3::step]. *)
Definition step (cursor : option BlockNumber) (meter : WeightMeter) (s : Stored)
    : option (result SteppedMigrationError (option BlockNumber) * WeightMeter * Stored) :=
  if any_lt (remaining meter) required
  then Some (Err (InsufficientWeight required), meter, s)
  else v2_to_v3_loop (loop_fuel s) cursor meter s.
End Stepped.

(** ** v3 -> v4 and v4 -> v5 *)

Definition VersionUncheckedMigrateV3ToV4 (s : Stored) : Stored := s.

Definition MigrateV3ToV4 : Stored -> Stored := versioned 3 4 VersionUncheckedMigrateV3ToV4.

Record V4AuthorizerBudget := mkV4Budget {
  v4_quota : option Quota;
  v4_authorization_period : option BlockNumber;
  v4_valid_until : option BlockNumber }.

Section Authorizers.
Context `{ScaleHost}.

Definition quota_codec : Codec Quota :=
  struct_codec (fun '(t, b) => mkQuota t b) (fun q => (quota_transactions q, quota_bytes q))
    (pair_codec u32_codec u64_codec).

Definition v4_budget_codec : Codec V4AuthorizerBudget :=
  struct_codec (fun '(q, (p, v)) => mkV4Budget q p v)
    (fun b => (v4_quota b, (v4_authorization_period b, v4_valid_until b)))
    (pair_codec (option_codec quota_codec) (pair_codec (option_codec u32_codec) (option_codec u32_codec))).

Definition budget_codec : Codec AuthorizerBudget :=
  struct_codec (fun '(q, (v, f)) => mkBudget q v f)
    (fun b => (quota b, (valid_until b, feeless b)))
    (pair_codec (option_codec quota_codec) (pair_codec (option_codec u32_codec) bool_codec)).

Definition v4_to_v5_budget (old : V4AuthorizerBudget) : AuthorizerBudget :=
  mkBudget (v4_quota old) (v4_valid_until old) true.

(** The authorizers the translation visits, each of which gets a provider. *)
Definition v4_authorizers (s : Stored) : list AccountId :=
  map fst (List.filter (fun p => decodes v4_budget_codec p.2)
    (map_to_list (raw_AllowedAuthorizers s))).

Definition VersionUncheckedMigrateV4ToV5 (s : Stored) : Stored :=
  mkStored (storage_version s) (st_now s) (st_retention_period s) (raw_Transactions s)
    (raw_BlockTransactions s) (raw_Authorizations s)
    (translate v4_budget_codec budget_codec (fun _who old => Some (v4_to_v5_budget old))
      (raw_AllowedAuthorizers s))
    (old_AutoRenewals s)
    (old_PendingAutoRenewals s) (old_PermanentStorageUsed s) (raw_Renewals s)
    (raw_PendingRenewals s) (raw_PermanentStorageUsed s)
    (st_provider_calls s ++ map IncProviders (v4_authorizers s)).

Definition MigrateV4ToV5 : Stored -> Stored := versioned 4 5 VersionUncheckedMigrateV4ToV5.
End Authorizers.

(** ** [RelocateFromTransactionStorage] *)

Section Relocation.
Context `{ScaleHost}.

(** The value written under the new prefix; [None] for an entry that is skipped. *)
Definition relocated_value (raw : bytes) : option bytes :=
  if decodes renewal_data_codec raw then Some raw
  else match decode_ok (array_codec 32) raw with
       | Some account => Some (enc renewal_data_codec (mkRenewalData account true false))
       | None => None
       end.

(** One key of the scan. *)
Definition relocate_one (p : ContentHash * bytes) (s : Stored) : Stored :=
  match relocated_value p.2 with
  | None => s
  | Some value =>
      mkStored (storage_version s) (st_now s) (st_retention_period s) (raw_Transactions s)
        (raw_BlockTransactions s) (raw_Authorizations s) (raw_AllowedAuthorizers s)
        (delete p.1 (old_AutoRenewals s)) (old_PendingAutoRenewals s) (old_PermanentStorageUsed s)
        (<[p.1 := value]> (raw_Renewals s)) (raw_PendingRenewals s) (raw_PermanentStorageUsed s)
        (st_provider_calls s)
  end.

(** The two values: moved when the old key exists. *)
Definition relocate_value (old new : option bytes) : option bytes * option bytes :=
  match old with Some raw => (None, Some raw) | None => (None, new) end.

Definition RelocateFromTransactionStorage (s : Stored) : Stored :=
  let s := foldr relocate_one s (map_to_list (old_AutoRenewals s)) in
  let pending := relocate_value (old_PendingAutoRenewals s) (raw_PendingRenewals s) in
  let used := relocate_value (old_PermanentStorageUsed s) (raw_PermanentStorageUsed s) in
  mkStored (storage_version s) (st_now s) (st_retention_period s) (raw_Transactions s)
    (raw_BlockTransactions s) (raw_Authorizations s) (raw_AllowedAuthorizers s)
    (old_AutoRenewals s) pending.1 used.1 (raw_Renewals s) pending.2 used.2
    (st_provider_calls s).

(** ** What the runtimes run *)

Context `{Config}.

(** [SingleBlockMigrations] of the Westend runtime, this repository's part. *)
Definition westend_SingleBlockMigrations (s : Stored) : Stored :=
  SetRetentionPeriodIfZero DEFAULT_RETENTION_PERIOD
    (RelocateFromTransactionStorage
      (MigrateV4ToV5 (MigrateV3ToV4 (MigrateV1ToV2 (MigrateV0ToV1 s))))).

(** [SingleBlockMigrations] of the Paseo runtime. *)
Definition paseo_SingleBlockMigrations (s : Stored) : Stored :=
  SetRetentionPeriodIfZero DEFAULT_RETENTION_PERIOD (RelocateFromTransactionStorage s).
End Relocation.
