(* ===== verification/MigrationFacts.v ===== *)
(** Facts about the migrations: what each does to the bytes under one key, and the
    stepped migration as a loop over the keys. *)

From S2P Require Import Prelude Primitives Types State Authorizations Codec Weights Migrations.

(** ** One entry *)

Section Entries.
Context `{WeightHost} `{ScaleLaws} `{!Config} `{!ConfigLaws}.

Lemma map_ok {A B} (f : A -> B) P Q l :
  (forall x, P x -> Q (f x)) -> vec_ok MaxBlockTransactions P l -> vec_ok MaxBlockTransactions Q (map f l).
Proof.
  intros Hf [Hl HP]. split; [unfold len in *; by rewrite length_map|].
  apply Forall_map. eapply Forall_impl; [exact HP|exact Hf].
Qed.

Lemma materialize_ok t : v2_info_ok t -> info_ok (materialize_v2 t).
Proof. unfold v2_info_ok, info_ok, is_u32. simpl. unfold u32_max. intuition lia. Qed.

Lemma to_v1_ok t : old_info_ok t -> v2_info_ok (to_v1_info t).
Proof. unfold v2_info_ok, old_info_ok, is_u64. simpl. unfold RAW_CODEC, u64_max. intuition lia. Qed.

Lemma vec_len_ok {A} P (l : list A) :
  vec_ok MaxBlockTransactions P l -> (len l <=? MaxBlockTransactions) = true.
Proof. intros [Hl _]. by apply Z.leb_le. Qed.

Lemma decodes_spec {A} (c : Codec A) raw : decodes c raw = true <-> is_Some (decode_ok c raw).
Proof. unfold decodes. destruct (decode_ok c raw); by split. Qed.

(** v0 -> v1 rewrites an entry of the first layout. *)
Lemma v0_to_v1_entry_old l :
  olds_ok l -> v0_to_v1_entry (enc old_vec_codec l) = Some (enc v2_vec_codec (map to_v1_info l)).
Proof.
  intros Hl. pose proof (map_ok _ _ _ _ to_v1_ok Hl) as Hm. destruct l as [|t l].
  - unfold v0_to_v1_entry.
    assert (decodes info_vec_codec (enc old_vec_codec []) = true) as ->; [|done].
    apply decodes_spec. change (enc old_vec_codec []) with (enc info_vec_codec []).
    unfold info_vec_codec. rewrite (decode_vec _ info_ok); [by eexists|apply _|]. split; [apply Hl|constructor].
  - unfold v0_to_v1_entry, decodes, info_vec_codec, old_vec_codec.
    rewrite (decode_longer old_info_codec info_codec old_info_ok info_ok 72 86 (t :: l) _ _ ltac:(lia) ltac:(done) Hl).
    rewrite (decode_vec _ old_info_ok _ _ Hl). by rewrite (vec_len_ok _ _ Hm).
Qed.

(** The shape-tolerant read of the earlier layout, empty vectors included. *)
Lemma read_v2 v :
  v2s_ok v -> transactions_at_raw (Some (enc v2_vec_codec v)) = Some (map materialize_v2 v).
Proof.
  intros Hv. rewrite transactions_at_layout.
  destruct v as [|t v]; [by rewrite layout_of_empty|by rewrite layout_of_v2].
Qed.

(** v2 -> v3 on an entry that is in range: the shape-tolerant read does not change
    and the bytes are in the current layout afterwards. *)
Lemma v2_to_v3_entry_read o b raw raw' :
  v2_to_v3_entry o b raw = Ok (Some raw') ->
  transactions_at_raw (Some raw') = transactions_at_raw (Some raw) /\ decodes info_vec_codec raw' = true.
Proof.
  unfold v2_to_v3_entry. destruct (_ <? _); [done|].
  destruct (decodes info_vec_codec raw) eqn:Ed; [intros [= <-]; done|].
  destruct (decode_ok v2_vec_codec raw) as [v2|] eqn:E2; [|done].
  pose proof (decode_vec_ok _ _ _ _ v2_info_range E2) as Hv.
  pose proof (map_ok _ _ _ _ materialize_ok Hv) as Hm. rewrite (vec_len_ok _ _ Hm).
  intros Heq. assert (raw' = enc info_vec_codec (map materialize_v2 v2)) as -> by congruence. clear Heq.
  assert (decode_ok info_vec_codec (enc info_vec_codec (map materialize_v2 v2))
    = Some (map materialize_v2 v2)) as Hd by (apply (decode_vec _ info_ok); [apply _|done]).
  split; [|by unfold decodes; rewrite Hd].
  unfold transactions_at_raw. rewrite Hd. unfold decodes in Ed.
  destruct (decode_ok info_vec_codec raw); [done|]. by rewrite E2, (vec_len_ok _ _ Hm).
Qed.

(** It fails only on bytes no layout reads. *)
Lemma v2_to_v3_entry_total o b raw :
  is_Some (transactions_at_raw (Some raw)) -> exists r, v2_to_v3_entry o b raw = Ok r.
Proof.
  unfold v2_to_v3_entry, decodes, transactions_at_raw. intros [txs Ht].
  destruct (_ <? _); [by eexists|]. destruct (decode_ok info_vec_codec raw); [by eexists|].
  destruct (decode_ok v2_vec_codec raw); [|done]. destruct (_ <=? _); [by eexists|done].
Qed.

Lemma v2_to_v3_entry_kept o b raw : o <= b -> v2_to_v3_entry o b raw <> Ok None.
Proof.
  unfold v2_to_v3_entry. destruct (b <? o) eqn:E; b2p; [lia|]. intros _.
  repeat case_match; done.
Qed.
End Entries.

(** ** The next key *)

Section Keys.
Context `{StorageKeys}.

Lemma next_key_spec cursor keys :
  match next_key cursor keys with
  | Some b => b ∈ keys /\ past cursor b = true /\
      Forall (fun k => past cursor k = true -> key_pos b <= key_pos k) keys
  | None => Forall (fun k => past cursor k = false) keys
  end.
Proof.
  induction keys as [|k keys IH]; simpl; [constructor|].
  destruct (past cursor k) eqn:Ep.
  - destruct (next_key cursor keys) as [a|] eqn:En.
    + destruct IH as (Ha & Hp & Hmin). destruct (key_pos k <? key_pos a) eqn:E; b2p.
      * split_and!; [left|done|]. constructor; [lia|]. eapply Forall_impl; [exact Hmin|].
        simpl. intros x Hx Hpx. specialize (Hx Hpx). lia.
      * split_and!; [by right|done|]. by constructor.
    + split_and!; [left|done|]. constructor; [lia|].
      eapply Forall_impl; [exact IH|]. simpl. congruence.
  - destruct (next_key cursor keys) as [a|] eqn:En.
    + destruct IH as (Ha & Hp & Hmin). split_and!; [by right|done|]. constructor; [congruence|done].
    + by constructor.
Qed.

Lemma next_key_map {V} cursor (m : gmap BlockNumber V) :
  match next_key cursor (map_to_list m).*1 with
  | Some b => is_Some (m !! b) /\ past cursor b = true /\
      forall k, is_Some (m !! k) -> past cursor k = true -> key_pos b <= key_pos k
  | None => forall k, is_Some (m !! k) -> past cursor k = false
  end.
Proof.
  assert (forall k, k ∈ (map_to_list m).*1 <-> is_Some (m !! k)) as Hk.
  { intros k. rewrite list_elem_of_fmap. split.
    - intros [[k' v] [-> Hin]]. apply elem_of_map_to_list in Hin. by eexists.
    - intros [v Hv]. exists (k, v). split; [done|]. by apply elem_of_map_to_list. }
  pose proof (next_key_spec cursor (map_to_list m).*1) as Hs.
  destruct (next_key _ _) as [b|].
  - destruct Hs as (Hb & Hp & Hmin). split_and!; [by apply Hk|done|].
    intros k Hin. rewrite Forall_forall in Hmin. by apply Hmin, Hk.
  - intros k Hin. rewrite Forall_forall in Hs. by apply Hs, Hk.
Qed.

(** The keys still ahead of the cursor. *)
Definition todo {V} (cursor : option BlockNumber) (m : gmap BlockNumber V) : nat :=
  size (filter (fun p => past cursor p.1 = true) m).

Lemma todo_advance {V} cursor (m : gmap BlockNumber V) b o :
  is_Some (m !! b) -> past cursor b = true ->
  (todo (Some b) (partial_alter (fun _ => o) b m) < todo cursor m)%nat.
Proof.
  intros [v Hv] Hp. unfold todo.
  assert (filter (fun p : BlockNumber * V => past (Some b) p.1 = true) (partial_alter (fun _ => o) b m)
    ⊆ delete b (filter (fun p : BlockNumber * V => past cursor p.1 = true) m)) as Hsub.
  { apply map_subseteq_spec. intros k x Hx. apply map_lookup_filter_Some in Hx as [Hx Hk]. simpl in Hk.
    unfold past in Hk. apply Z.ltb_lt in Hk. assert (k <> b) as Hne by (intros ->; lia).
    rewrite lookup_partial_alter_ne in Hx by done. rewrite lookup_delete_ne by done.
    apply map_lookup_filter_Some. split; [done|]. simpl. unfold past in *.
    destruct cursor as [c|]; [|done]. apply Z.ltb_lt in Hp. apply Z.ltb_lt. lia. }
  apply map_subseteq_size in Hsub. rewrite map_size_delete_Some in Hsub.
  - assert (size (filter (fun p : BlockNumber * V => past cursor p.1 = true) m) <> 0%nat); [|lia].
    intros Hz. apply map_size_empty_iff in Hz.
    assert (filter (fun p : BlockNumber * V => past cursor p.1 = true) m !! b = Some v) as Hb
      by (by apply map_lookup_filter_Some). rewrite Hz in Hb. by rewrite lookup_empty in Hb.
  - exists v. by apply map_lookup_filter_Some.
Qed.

Lemma todo_le {V} cursor (m : gmap BlockNumber V) : (todo cursor m <= size m)%nat.
Proof. unfold todo. apply map_subseteq_size, map_filter_subseteq. Qed.
End Keys.

(** ** The loop of a step *)

Section Loop.
Context `{StorageKeys} `{WeightLaws} `{ScaleLaws} `{!Config} `{!ConfigLaws} (required : Weight).

#[local] Arguments past : simpl never.

(** Older blocks have left the retention window. *)
Definition oldest_valid (s : Stored) : BlockNumber := sat_sub (st_now s) (st_retention_period s).

(** What one visit does to a block. *)
Definition processed (s s' : Stored) (b : BlockNumber) : Prop :=
  match raw_Transactions s !! b with
  | None => raw_Transactions s' !! b = None
  | Some raw => v2_to_v3_entry (oldest_valid s) b raw = Ok (raw_Transactions s' !! b)
  end.

(** The blocks between the cursor a step started from and the one it ended with. *)
Definition swept (cursor r : option BlockNumber) (b : BlockNumber) : bool :=
  past cursor b && match r with None => true | Some c => negb (past (Some c) b) end.

Definition loop_post (cursor : option BlockNumber) (s : Stored)
    (r : result SteppedMigrationError (option BlockNumber)) (s' : Stored) : Prop :=
  (exists v m, s' = set_version v (set_transactions m s) /\ storage_version s <= v) /\
  match r with
  | Ok r =>
      (forall b, if swept cursor r b then processed s s' b
                 else raw_Transactions s' !! b = raw_Transactions s !! b) /\
      match r with
      | None => 3 <= storage_version s'
      | Some c => (forall c0, cursor = Some c0 -> past (Some c) c0 = false) /\
          (todo (Some c) (raw_Transactions s') <= todo cursor (raw_Transactions s))%nat
      end
  | Err e => e = Failed /\
      exists b raw, raw_Transactions s !! b = Some raw /\ transactions_at_raw (Some raw) = None
  end.

Lemma past_trans cursor b k : past cursor b = true -> past (Some b) k = true -> past cursor k = true.
Proof. unfold past. destruct cursor; [|done]. rewrite !Z.ltb_lt. lia. Qed.

Lemma past_self b : past (Some b) b = false.
Proof. apply Z.ltb_irrefl. Qed.

(** A key at or before the next one is that one or absent. *)
Lemma next_key_gap {V} cursor (m : gmap BlockNumber V) b k :
  next_key cursor (map_to_list m).*1 = Some b ->
  past cursor k = true -> past (Some b) k = false -> k <> b -> m !! k = None.
Proof.
  intros Hn Hp Hb Hne. pose proof (next_key_map cursor m) as Hs. rewrite Hn in Hs.
  destruct Hs as (_ & _ & Hmin). destruct (m !! k) eqn:Ek; [exfalso|done].
  specialize (Hmin k ltac:(by eexists) Hp). unfold past in Hb. apply Z.ltb_ge in Hb.
  apply Hne, (inj key_pos). lia.
Qed.

Lemma visit_post cursor s b raw o r s' :
  next_key cursor (map_to_list (raw_Transactions s)).*1 = Some b ->
  raw_Transactions s !! b = Some raw ->
  v2_to_v3_entry (oldest_valid s) b raw = Ok o ->
  loop_post (Some b) (set_transactions (partial_alter (fun _ => o) b (raw_Transactions s)) s) r s' ->
  loop_post cursor s r s'.
Proof.
  intros Hn Hb Ho. pose proof (next_key_map cursor (raw_Transactions s)) as Hs. rewrite Hn in Hs.
  destruct Hs as (_ & Hp & _). intros [(v & m & -> & Hv) Hr]. simpl in *.
  split; [by exists v, m|]. destruct r as [r|e].
  - destruct Hr as [Hr Hend]. split.
    + intros k. specialize (Hr k). unfold processed, swept in *. simpl in *.
      destruct (decide (k = b)) as [->|Hne].
      * rewrite past_self in Hr. simpl in Hr. rewrite lookup_partial_alter_eq in Hr.
        rewrite Hp, Hb. simpl.
        assert (match r with None => true | Some c => negb (past (Some c) b) end = true) as ->;
          [|by rewrite Ho, Hr].
        destruct r as [c|]; [|done]. by rewrite (proj1 Hend b eq_refl).
      * rewrite lookup_partial_alter_ne in Hr by done. destruct (past (Some b) k) eqn:Eb.
        -- by rewrite (past_trans cursor b k Hp Eb).
        -- simpl in Hr. destruct (past cursor k) eqn:Ec; [|done].
           rewrite (next_key_gap cursor _ b k Hn Ec Eb Hne) in Hr |- *. by destruct (_ && _).
    + destruct r as [c|]; [|done]. destruct Hend as [Hc Ht].
      pose proof (todo_advance cursor (raw_Transactions s) b o ltac:(by eexists) Hp). split; [|etransitivity; [exact Ht|by apply Nat.lt_le_incl]].
      intros c0 ->. specialize (Hc b eq_refl). unfold past in *. rewrite Z.ltb_ge in Hc |- *.
      rewrite Z.ltb_lt in Hp. lia.
  - destruct Hr as (-> & k & raw' & Hk & Hu). split; [done|].
    destruct (decide (k = b)) as [->|Hne].
    + rewrite lookup_partial_alter_eq in Hk. simplify_eq. exists b, raw. split; [done|].
      apply v2_to_v3_entry_read in Ho as [<- _]. done.
    + rewrite lookup_partial_alter_ne in Hk by done. by exists k, raw'.
Qed.

(** A step of the loop, whatever the meter: [loop_post], provided the meter allows
    one visit or there is a cursor to return. *)
Lemma loop_spec fuel cursor meter s r meter' s' :
  is_Some (meter_try_consume required meter) \/ is_Some cursor ->
  v2_to_v3_loop required fuel cursor meter s = Some (r, meter', s') -> loop_post cursor s r s'.
Proof.
  revert cursor meter s. induction fuel as [|fuel IH]; intros cursor meter s Hm; simpl; [done|].
  destruct (meter_try_consume required meter) as [meter1|] eqn:Em.
  - destruct (next_key cursor (map_to_list (raw_Transactions s)).*1) as [b|] eqn:En.
    + destruct (raw_Transactions s !! b) as [raw|] eqn:Eb.
      * destruct (v2_to_v3_entry _ b raw) as [o|e] eqn:Eo.
        -- intros Hl. eapply visit_post; [exact En|exact Eb|exact Eo|].
           eapply IH; [right; by eexists|exact Hl].
        -- intros [= <- <- <-]. split; [by exists (storage_version s), (raw_Transactions s); destruct s|].
           assert (transactions_at_raw (Some raw) = None) as Hu.
           { destruct (transactions_at_raw (Some raw)) eqn:Et; [|done].
             destruct (v2_to_v3_entry_total (sat_sub (st_now s) (st_retention_period s)) b raw
               ltac:(rewrite Et; by eexists)) as [o Ho]. congruence. }
           split; [|by exists b, raw]. unfold v2_to_v3_entry in Eo. repeat case_match; congruence.
      * pose proof (next_key_map cursor (raw_Transactions s)) as Hs. rewrite En in Hs.
        destruct Hs as [[? ?] _]. congruence.
    + intros [= <- <- <-]. pose proof (next_key_map cursor (raw_Transactions s)) as Hs. rewrite En in Hs.
      split; [destruct s as [v ? ? m]; simpl; destruct (v <? 3) eqn:E; b2p;
        [by exists 3, m; split; [|lia]|by exists v, m]|].
      split; [|destruct (_ <? 3) eqn:E; b2p; simpl; lia].
      intros b. unfold swept, processed. rewrite andb_true_r.
      assert (raw_Transactions (if storage_version s <? 3 then set_version 3 s else s)
        = raw_Transactions s) as -> by (by destruct (_ <? 3)).
      destruct (past cursor b) eqn:Ep; [|done].
      destruct (raw_Transactions s !! b) eqn:Eb; [|done]. by rewrite (Hs b ltac:(by eexists)) in Ep.
  - intros [= <- <- <-]. destruct Hm as [[? ?]|[c ->]]; [done|].
    split; [by exists (storage_version s), (raw_Transactions s); destruct s|].
    split; [|split; [intros c0 [= ->]; apply past_self|lia]].
    intros b. unfold swept. by destruct (past (Some c) b).
Qed.

(** A step that starts a visit and does not end the migration leaves fewer keys. *)
Lemma loop_progress fuel cursor meter s c meter' s' :
  is_Some (meter_try_consume required meter) ->
  v2_to_v3_loop required fuel cursor meter s = Some (Ok (Some c), meter', s') ->
  (todo (Some c) (raw_Transactions s') < todo cursor (raw_Transactions s))%nat.
Proof.
  intros [meter1 Em]. destruct fuel as [|fuel]; simpl; [done|]. rewrite Em.
  pose proof (next_key_map cursor (raw_Transactions s)) as Hs.
  destruct (next_key cursor _) as [b|]; [|done]. destruct Hs as ([raw Eb] & Hp & _). rewrite Eb.
  destruct (v2_to_v3_entry _ b raw) as [o|e]; [|done]. intros Hl.
  apply loop_spec in Hl as (_ & _ & _ & Ht); [|right; by eexists].
  eapply Nat.le_lt_trans; [exact Ht|]. apply todo_advance; [by eexists|done].
Qed.

(** The fuel is enough. *)
Lemma loop_total fuel cursor meter s :
  (todo cursor (raw_Transactions s) < fuel)%nat ->
  is_Some (v2_to_v3_loop required fuel cursor meter s).
Proof.
  revert cursor meter s. induction fuel as [|fuel IH]; intros cursor meter s Hf; [lia|simpl].
  destruct (meter_try_consume required meter) as [meter1|]; [|by eexists].
  pose proof (next_key_map cursor (raw_Transactions s)) as Hs.
  destruct (next_key cursor _) as [b|]; [|by eexists]. destruct Hs as ([raw Eb] & Hp & _).
  rewrite Eb. destruct (v2_to_v3_entry _ b raw) as [o|e]; [|by eexists].
  apply IH. simpl. pose proof (todo_advance cursor _ b o ltac:(by eexists) Hp). lia.
Qed.
End Loop.

(** ** Steps *)

(** A meter in use never exceeds its limit. *)
Definition meter_ok `{WeightHost} (m : WeightMeter) : Prop :=
  ref_time (consumed m) <= ref_time (limit m) /\ proof_size (consumed m) <= proof_size (limit m).

(** The meter of a block that has room for at least one visit. *)
Definition allows `{WeightHost} (required : Weight) (m : WeightMeter) : Prop :=
  meter_ok m /\ any_lt (remaining m) required = false.

(** Every value is in a layout the pallet reads. *)
Definition readable `{ScaleHost} `{Config} (s : Stored) : Prop :=
  map_Forall (fun _ raw => is_Some (transactions_at_raw (Some raw))) (raw_Transactions s).

(** The migration as a single pass over the map. *)
Definition one_pass `{WeightHost} `{ScaleHost} `{Config} (s : Stored) : gmap BlockNumber bytes :=
  map_imap (fun b raw =>
    match v2_to_v3_entry (oldest_valid s) b raw with Ok o => o | Err _ => Some raw end)
    (raw_Transactions s).

(** Steps in a row, one meter each: whether the migration has ended, and the state. *)
Fixpoint run_steps `{StorageKeys} `{WeightHost} `{ScaleHost} `{Config} (required : Weight)
    (meters : list WeightMeter) (cursor : option BlockNumber) (s : Stored) : option (bool * Stored) :=
  match meters with
  | [] => Some (false, s)
  | meter :: meters' =>
      match step required cursor meter s with
      | Some (Ok None, _, s') => Some (true, s')
      | Some (Ok (Some c), _, s') => run_steps required meters' (Some c) s'
      | _ => None
      end
  end.

Section Steps.
Context `{StorageKeys} `{WeightLaws} `{ScaleLaws} `{!Config} `{!ConfigLaws} (required : Weight).
#[local] Arguments past : simpl never.

Lemma allows_consume m : allows required m -> is_Some (meter_try_consume required m).
Proof.
  unfold allows, meter_ok. rewrite any_lt_spec, remaining_spec. autorewrite with weight.
  intros [[Hr Hp] Ha]. apply orb_false_iff in Ha as [Ha Hb]. apply Z.ltb_ge in Ha, Hb. unfold sat_sub in *.
  apply try_consume_fits; lia.
Qed.

(** A step always returns, and [loop_post] says what it did; on a readable state it
    does not fail, and unless it ends the migration fewer keys remain. *)
Lemma step_spec cursor meter s :
  allows required meter ->
  exists r meter' s', step required cursor meter s = Some (r, meter', s') /\ loop_post cursor s r s' /\
    forall c, r = Ok (Some c) -> (todo (Some c) (raw_Transactions s') < todo cursor (raw_Transactions s))%nat.
Proof.
  intros Ha. unfold step. rewrite (proj2 Ha).
  destruct (loop_total required (loop_fuel s) cursor meter s) as [[[r meter'] s'] Hl].
  { pose proof (todo_le cursor (raw_Transactions s)). unfold loop_fuel. lia. }
  pose proof (allows_consume meter Ha) as Hm.
  exists r, meter', s'. split_and!; [done|by eapply loop_spec; [left|]|].
  intros c ->. by eapply loop_progress.
Qed.

Lemma readable_ok cursor s r s' :
  readable s -> loop_post cursor s r s' -> exists o, r = Ok o.
Proof.
  intros Hread [_ Hr]. destruct r as [o|e]; [by eexists|].
  destruct Hr as (_ & b & raw & Hb & Hu). destruct (Hread b raw Hb) as [txs Ht]. congruence.
Qed.

Lemma processed_read s s' b raw raw' :
  raw_Transactions s !! b = Some raw -> raw_Transactions s' !! b = Some raw' -> processed s s' b ->
  transactions_at_raw (Some raw') = transactions_at_raw (Some raw) /\ decodes info_vec_codec raw' = true.
Proof. unfold processed. intros -> -> Hp. by eapply v2_to_v3_entry_read. Qed.

Lemma readable_step cursor s r s' : readable s -> loop_post cursor s (Ok r) s' -> readable s'.
Proof.
  intros Hread (_ & Hb & _) b raw' Hraw'. specialize (Hb b).
  destruct (swept cursor r b); [|rewrite Hraw' in Hb; by apply (Hread b)].
  destruct (raw_Transactions s !! b) as [raw|] eqn:Er.
  - destruct (processed_read s s' b raw raw' Er Hraw' Hb) as [-> _]. by apply (Hread b).
  - unfold processed in Hb. rewrite Er in Hb. congruence.
Qed.

(** *** Steps in a row *)

(** Blocks behind the cursor are migrated, the others as they were. *)
Definition between (s0 : Stored) (cursor : option BlockNumber) (s : Stored) : Prop :=
  (exists v m, s = set_version v (set_transactions m s0) /\ storage_version s0 <= v) /\
  forall b, if past cursor b then raw_Transactions s !! b = raw_Transactions s0 !! b
            else processed s0 s b.

Lemma oldest_same s0 v m : oldest_valid (set_version v (set_transactions m s0)) = oldest_valid s0.
Proof. done. Qed.

Lemma between_step s0 cursor s r s' :
  between s0 cursor s -> loop_post cursor s (Ok r) s' ->
  match r with
  | Some c => between s0 (Some c) s'
  | None => (exists v m, s' = set_version v (set_transactions m s0)) /\ forall b, processed s0 s' b
  end.
Proof.
  intros [(v & m & -> & Hv) Hbe] [(v' & m' & -> & Hv') [Hb Hend]].
  assert (forall b, if swept cursor r b then processed s0 (set_version v' (set_transactions m' s0)) b
    else if past cursor b then m' !! b = raw_Transactions s0 !! b
         else processed s0 (set_version v' (set_transactions m' s0)) b) as Hall.
  { intros b. specialize (Hb b). specialize (Hbe b). unfold swept, processed in *. simpl in *.
    change (oldest_valid (set_version v (set_transactions m s0))) with (oldest_valid s0) in Hb.
    destruct (past cursor b); simpl in *; [|by rewrite Hb].
    destruct (match r with None => true | Some c => negb (past (Some c) b) end); rewrite Hbe in Hb; done. }
  destruct r as [c|]; simpl in *.
  - split; [exists v', m'; split; [done|lia]|]. intros b. specialize (Hall b). unfold swept in Hall.
    destruct (past (Some c) b) eqn:Ec; simpl in Hall.
    + rewrite andb_false_r in Hall. destruct (past cursor b) eqn:Ep; [done|].
      destruct cursor as [c0|]; [|done]. pose proof (proj1 Hend c0 eq_refl) as Hle.
      unfold past in *. apply Z.ltb_lt in Ec. apply Z.ltb_ge in Ep, Hle. lia.
    + destruct (past cursor b); done.
  - split; [by exists v', m'|]. intros b. specialize (Hall b). unfold swept in Hall.
    rewrite andb_true_r in Hall. by destruct (past cursor b).
Qed.

(** Enough steps end the migration, whatever each meter allows, with the result of
    the single pass. *)
Lemma run_steps_finish s0 meters cursor s :
  readable s -> between s0 cursor s -> Forall (allows required) meters ->
  (todo cursor (raw_Transactions s) < length meters)%nat ->
  exists v m, run_steps required meters cursor s = Some (true, set_version v (set_transactions m s0)) /\
    3 <= v /\ forall b, processed s0 (set_version v (set_transactions m s0)) b.
Proof.
  intros Hread Hbe Hall. revert cursor s Hread Hbe.
  induction Hall as [|meter meters Ha _ IH]; intros cursor s Hread Hbe Hl; [simpl in Hl; lia|].
  destruct (step_spec cursor meter s Ha) as (r & meter' & s' & Hs & Hp & Hlt).
  destruct (readable_ok _ _ _ _ Hread Hp) as [o ->]. cbn [run_steps]. rewrite Hs.
  pose proof (between_step _ _ _ _ _ Hbe Hp) as Hn. destruct o as [c|].
  - eapply IH; [by eapply readable_step|done|].
    specialize (Hlt c eq_refl). simpl in Hl. eapply Nat.lt_le_trans; [exact Hlt|by apply Nat.lt_succ_r].
  - destruct Hn as [(v & m & ->) Hb]. exists v, m. split; [done|]. split; [|done]. apply Hp.
Qed.
End Steps.

(** ** Steps between blocks *)

(** What the blocks between two steps may do: time passes, blocks that left the
    window are removed by the sweep, and new blocks are sealed in the current
    layout. *)
Definition block_between `{ScaleHost} `{Config} (s s' : Stored) : Prop :=
  st_now s <= st_now s' /\ st_retention_period s' = st_retention_period s /\
  storage_version s' = storage_version s /\
  forall b, raw_Transactions s' !! b = raw_Transactions s !! b
    \/ (b < oldest_valid s' /\ raw_Transactions s' !! b = None)
    \/ (raw_Transactions s !! b = None /\
        exists txs, infos_ok txs /\ raw_Transactions s' !! b = Some (enc info_vec_codec txs)).

(** A migration in progress: started in the first state, at the cursor in the
    second. *)
Inductive migration_run `{StorageKeys} `{WeightHost} `{ScaleHost} `{Config} (required : Weight) (s0 : Stored)
    : option BlockNumber -> Stored -> Prop :=
| run_start : migration_run required s0 None s0
| run_step cursor s meter c meter' s' :
    migration_run required s0 cursor s -> allows required meter ->
    step required cursor meter s = Some (Ok (Some c), meter', s') ->
    migration_run required s0 (Some c) s'
| run_block cursor s s' :
    migration_run required s0 cursor s -> block_between s s' -> migration_run required s0 cursor s'.

Section Run.
Context `{StorageKeys} `{WeightLaws} `{ScaleLaws} `{!Config} `{!ConfigLaws} (required : Weight).
#[local] Arguments past : simpl never.

(** Blocks behind the cursor are in the current layout. *)
Definition migrated (cursor : option BlockNumber) (s : Stored) : Prop :=
  forall b raw, raw_Transactions s !! b = Some raw -> past cursor b = false ->
    decodes info_vec_codec raw = true.

(** Blocks inside the window read as they did. *)
Definition reads_kept (s s' : Stored) : Prop :=
  oldest_valid s <= oldest_valid s' /\
  forall b raw, oldest_valid s' <= b -> raw_Transactions s !! b = Some raw ->
    exists raw', raw_Transactions s' !! b = Some raw' /\
      transactions_at_raw (Some raw') = transactions_at_raw (Some raw).

#[export] Instance reads_kept_preorder : PreOrder reads_kept.
Proof.
  split.
  - intros s. split; [done|]. by intros b raw _ Hb; exists raw.
  - intros s1 s2 s3 [Ho H12] [Ho' H23]. split; [lia|]. intros b raw Hb Hr.
    destruct (H12 b raw ltac:(lia) Hr) as (raw' & Hr' & <-). by apply H23.
Qed.

Lemma step_reads_kept cursor s r s' : loop_post cursor s (Ok r) s' -> reads_kept s s'.
Proof.
  intros [(v & m & -> & _) [Hb _]]. split; [done|]. intros b raw Ho Hr. specialize (Hb b).
  destruct (swept cursor r b); [|exists raw; by rewrite Hb].
  destruct (raw_Transactions (set_version v (set_transactions m s)) !! b) as [raw'|] eqn:E.
  - exists raw'. split; [done|]. by eapply processed_read.
  - unfold processed in Hb. rewrite Hr, E in Hb. by apply v2_to_v3_entry_kept in Hb.
Qed.

Lemma step_migrated cursor s r s' :
  migrated cursor s -> loop_post cursor s (Ok r) s' ->
  forall b raw, raw_Transactions s' !! b = Some raw ->
    match r with Some c => past (Some c) b = false | None => True end ->
    decodes info_vec_codec raw = true.
Proof.
  intros Hm [_ [Hb Hend]] b raw Hr Hp. specialize (Hb b). unfold swept in Hb.
  destruct (past cursor b) eqn:Ep.
  - assert (match r with None => true | Some c => negb (past (Some c) b) end = true) as Hr1
      by (by destruct r; [rewrite Hp|]). rewrite Hr1 in Hb. simpl in Hb.
    unfold processed in Hb. destruct (raw_Transactions s !! b) as [raw0|]; [|congruence].
    rewrite Hr in Hb. by apply v2_to_v3_entry_read in Hb as [_ ?].
  - simpl in Hb. rewrite Hr in Hb. by apply (Hm b).
Qed.

Lemma block_readable s s' : readable s -> block_between s s' -> readable s'.
Proof.
  intros Hr (_ & _ & _ & Hb) b raw' E. destruct (Hb b) as [Hs|[[_ Hs]|[_ (txs & Hok & Hs)]]].
  - rewrite E in Hs. by apply (Hr b).
  - congruence.
  - assert (raw' = enc info_vec_codec txs) as -> by congruence. cbv beta.
    rewrite transactions_at_layout, layout_of_current by done. by eexists.
Qed.

Lemma block_reads_kept s s' : block_between s s' -> reads_kept s s'.
Proof.
  intros (Hn & Hp & _ & Hb). split; [unfold oldest_valid, sat_sub; rewrite Hp; lia|].
  intros b raw Ho Hr. destruct (Hb b) as [Hs|[[Hlt _]|[Hs _]]]; [|lia|congruence].
  exists raw. by rewrite Hs.
Qed.

Lemma block_migrated cursor s s' : migrated cursor s -> block_between s s' -> migrated cursor s'.
Proof.
  intros Hm (_ & _ & _ & Hb) b raw Hr Hp. destruct (Hb b) as [Hs|[[_ Hs]|[_ (txs & Hok & Hs)]]].
  - rewrite Hr in Hs. by apply (Hm b).
  - congruence.
  - assert (raw = enc info_vec_codec txs) as -> by congruence. unfold decodes, info_vec_codec.
    by rewrite (decode_vec _ info_ok _ _ Hok).
Qed.

(** The invariant of a migration in progress. *)
Lemma run_inv s0 cursor s :
  readable s0 -> migration_run required s0 cursor s ->
  readable s /\ migrated cursor s /\ reads_kept s0 s.
Proof.
  intros Hr0. induction 1 as [|cursor s meter c meter' s' _ IH Ha Hs|cursor s s' _ IH Hb].
  - split_and!; [done| |done]. intros b raw _ Hp. done.
  - destruct IH as (Hr & Hm & Hk). destruct (step_spec required cursor meter s Ha) as (r & m1 & s1 & Hs1 & Hp & _).
    rewrite Hs in Hs1. simplify_eq. split_and!.
    + by eapply readable_step.
    + intros b raw E Hc. by eapply (step_migrated _ _ _ _ Hm Hp).
    + etransitivity; [exact Hk|by eapply step_reads_kept].
  - destruct IH as (Hr & Hm & Hk). split_and!; [by eapply block_readable|by eapply block_migrated|].
    etransitivity; [exact Hk|by apply block_reads_kept].
Qed.
End Run.

(** ** Authorizations and authorizers *)

Definition v1_authorization_ok (a : V1Authorization) : Prop :=
  is_u32 (v1_transactions a) /\ is_u64 (v1_bytes a) /\ is_u32 (v1_expiration a).

Definition authorization_ok (a : Authorization) : Prop :=
  is_u32 (extent_transactions (extent a)) /\ is_u32 (transactions_allowance (extent a)) /\
  is_u64 (extent_bytes (extent a)) /\ is_u64 (bytes_permanent (extra (extent a))) /\
  is_u64 (bytes_allowance (extent a)) /\ is_u32 (expiration a).

Definition option_ok {A} (P : A -> Prop) (o : option A) : Prop :=
  match o with Some x => P x | None => True end.

Definition quota_ok (q : Quota) : Prop := is_u32 (quota_transactions q) /\ is_u64 (quota_bytes q).

Definition v4_budget_ok (b : V4AuthorizerBudget) : Prop :=
  option_ok quota_ok (v4_quota b) /\ option_ok is_u32 (v4_authorization_period b) /\
  option_ok is_u32 (v4_valid_until b).

Definition budget_ok (b : AuthorizerBudget) : Prop :=
  option_ok quota_ok (quota b) /\ option_ok is_u32 (valid_until b).

Lemma translate_lookup {K A B} `{Countable K} (old : Codec A) (new : Codec B) f (m : gmap K bytes) k a :
  m !! k ≫= decode_ok old = Some a -> translate old new f m !! k = enc new <$> f k a.
Proof.
  intros Ha. unfold translate. rewrite map_lookup_imap. destruct (m !! k) as [raw|]; [|done].
  simpl in *. by rewrite Ha.
Qed.

Section Conversions.
Context `{ScaleLaws}.

#[export] Instance v1_authorization_round : RoundTrip v1_authorization_codec v1_authorization_ok.
Proof. unfold v1_authorization_ok. derive_round. Qed.

#[export] Instance authorization_round : RoundTrip authorization_codec authorization_ok.
Proof.
  unfold authorization_ok. intros t rest Ht. refine (struct_round _ _ _ _ _ _ t rest _);
  [by intros [[? ? ? [] ?] ?]|simpl in *; tauto].
Qed.

#[export] Instance quota_round : RoundTrip quota_codec quota_ok.
Proof. unfold quota_ok. derive_round. Qed.

#[export] Instance v4_budget_round : RoundTrip v4_budget_codec v4_budget_ok.
Proof. unfold v4_budget_ok. derive_round. Qed.

#[export] Instance budget_round : RoundTrip budget_codec budget_ok.
Proof. unfold budget_ok. derive_round. Qed.

(** A translated value reads as the converted one. *)
Lemma translate_decodes {K A B} `{Countable K} (old : Codec A) (new : Codec B) P Q f (m : gmap K bytes) k a :
  RoundTrip old P -> RoundTrip new Q -> P a -> (forall b, f k a = Some b -> Q b) ->
  m !! k = Some (enc old a) -> translate old new f m !! k ≫= decode_ok new = f k a.
Proof.
  intros Hold Hnew Ha Hf Hk. rewrite (translate_lookup old new f m k a).
  - destruct (f k a) as [b|] eqn:E; [|done]. simpl. by rewrite (decode_ok_enc new Q b Hnew (Hf b eq_refl)).
  - rewrite Hk. simpl. by apply (decode_ok_enc old P).
Qed.

(** One provider reference for each translated key of a list without duplicates. *)
Definition incs (f : bytes -> bool) (l : list (AccountId * bytes)) : list ProviderCall :=
  map IncProviders (map fst (List.filter (fun p => f p.2) l)).

Lemma incs_absent f l who : who ∉ l.*1 -> provider_balance (incs f l) who = 0.
Proof.
  unfold incs. induction l as [|[w r] l IH]; intros Hn; [done|].
  simpl in Hn. apply not_elem_of_cons in Hn as [Hw Hn].
  simpl. destruct (f r); simpl; [|by apply IH]. rewrite decide_False by congruence. by apply IH.
Qed.

Lemma incs_once f l who raw :
  NoDup l.*1 -> (who, raw) ∈ l -> f raw = true -> provider_balance (incs f l) who = 1.
Proof.
  induction l as [|[w r] l IH]; intros Hnd Hin Hf; [by apply not_elem_of_nil in Hin|].
  inversion Hnd as [|? ? Hnin Hnd']; subst. apply elem_of_cons in Hin as [[= <- <-]|Hin].
  - pose proof (incs_absent f l who Hnin) as Hz. unfold incs in *. simpl. rewrite Hf. simpl.
    rewrite decide_True by done. lia.
  - assert (w <> who) as Hw by (intros ->; apply Hnin, list_elem_of_fmap; by exists (who, raw)).
    specialize (IH Hnd' Hin Hf). unfold incs in *. simpl. destruct (f r); simpl; [|done].
    rewrite decide_False by done. lia.
Qed.

Lemma v4_authorizers_providers s who b :
  v4_budget_ok b -> raw_AllowedAuthorizers s !! who = Some (enc v4_budget_codec b) ->
  provider_balance (map IncProviders (v4_authorizers s)) who = 1.
Proof.
  intros Hb Hw. eapply (incs_once (decodes v4_budget_codec)).
  - apply NoDup_fst_map_to_list.
  - apply elem_of_map_to_list, Hw.
  - unfold decodes. by rewrite (decode_ok_enc _ _ _ v4_budget_round Hb).
Qed.
End Conversions.

(** ** Relocation *)

Section Relocation.
Context `{ScaleLaws}.

(** What the scan does to one hash. *)
Lemma relocate_scan_lookup l s h :
  NoDup l.*1 ->
  let s' := foldr relocate_one s l in
  (old_AutoRenewals s' !! h, raw_Renewals s' !! h) =
    match (list_to_map l : gmap ContentHash bytes) !! h ≫= relocated_value with
    | Some v => (None, Some v)
    | None => (old_AutoRenewals s !! h, raw_Renewals s !! h)
    end.
Proof.
  induction l as [|[k raw] l IH]; intros Hnd; simpl; [by rewrite lookup_empty|].
  inversion Hnd as [|? ? Hnin Hnd']; subst. specialize (IH Hnd'). simpl in IH.
  unfold relocate_one at 1 3. simpl. destruct (decide (h = k)) as [->|Hne].
  - rewrite lookup_insert_eq. simpl.
    assert ((list_to_map l : gmap ContentHash bytes) !! k = None) as Hl by (by apply not_elem_of_list_to_map_1).
    rewrite Hl in IH. simpl in IH. destruct (relocated_value raw) as [v|]; [|done].
    simpl. by rewrite lookup_delete_eq, lookup_insert_eq.
  - rewrite lookup_insert_ne by done. destruct (relocated_value raw) as [v|]; [|done].
    simpl. by rewrite lookup_delete_ne, lookup_insert_ne by done.
Qed.

Lemma relocate_scan_frame l s :
  exists o n, foldr relocate_one s l =
    mkStored (storage_version s) (st_now s) (st_retention_period s) (raw_Transactions s)
      (raw_BlockTransactions s) (raw_Authorizations s) (raw_AllowedAuthorizers s) o
      (old_PendingAutoRenewals s) (old_PermanentStorageUsed s) n (raw_PendingRenewals s)
      (raw_PermanentStorageUsed s) (st_provider_calls s).
Proof.
  induction l as [|p l (o & n & IH)]; [exists (old_AutoRenewals s), (raw_Renewals s); by destruct s|].
  simpl. rewrite IH. unfold relocate_one. simpl. destruct (relocated_value p.2); eauto.
Qed.

Lemma relocate_lookup s h :
  let s' := RelocateFromTransactionStorage s in
  (old_AutoRenewals s' !! h, raw_Renewals s' !! h) =
    match old_AutoRenewals s !! h ≫= relocated_value with
    | Some v => (None, Some v)
    | None => (old_AutoRenewals s !! h, raw_Renewals s !! h)
    end.
Proof.
  pose proof (relocate_scan_lookup (map_to_list (old_AutoRenewals s)) s h
    (NoDup_fst_map_to_list _)) as Hl. by rewrite list_to_map_to_list in Hl.
Qed.

Lemma relocate_moved s h raw v :
  old_AutoRenewals s !! h = Some raw -> relocated_value raw = Some v ->
  old_AutoRenewals (RelocateFromTransactionStorage s) !! h = None /\
  raw_Renewals (RelocateFromTransactionStorage s) !! h = Some v.
Proof.
  intros Ho Hv. pose proof (relocate_lookup s h) as Hl. cbv zeta in Hl. rewrite Ho in Hl.
  cbn [mbind option_bind] in Hl. rewrite Hv in Hl. by simplify_eq.
Qed.

Lemma relocate_left s h :
  old_AutoRenewals s !! h ≫= relocated_value = None ->
  old_AutoRenewals (RelocateFromTransactionStorage s) !! h = old_AutoRenewals s !! h /\
  raw_Renewals (RelocateFromTransactionStorage s) !! h = raw_Renewals s !! h.
Proof.
  intros Hn. pose proof (relocate_lookup s h) as Hl. cbv zeta in Hl. rewrite Hn in Hl. by simplify_eq.
Qed.

Lemma relocate_frame s :
  exists o n,
    let pending := relocate_value (old_PendingAutoRenewals s) (raw_PendingRenewals s) in
    let used := relocate_value (old_PermanentStorageUsed s) (raw_PermanentStorageUsed s) in
    RelocateFromTransactionStorage s =
    mkStored (storage_version s) (st_now s) (st_retention_period s) (raw_Transactions s)
      (raw_BlockTransactions s) (raw_Authorizations s) (raw_AllowedAuthorizers s) o
      pending.1 used.1 n pending.2 used.2 (st_provider_calls s).
Proof.
  destruct (relocate_scan_frame (map_to_list (old_AutoRenewals s)) s) as (o & n & E).
  exists o, n. unfold RelocateFromTransactionStorage. cbv zeta. by rewrite E.
Qed.

(** Running it again does nothing. *)
Lemma relocate_idempotent s :
  RelocateFromTransactionStorage (RelocateFromTransactionStorage s) = RelocateFromTransactionStorage s.
Proof.
  set (s' := RelocateFromTransactionStorage s).
  assert (foldr relocate_one s' (map_to_list (old_AutoRenewals s')) = s') as Hscan.
  { assert (forall p, p ∈ map_to_list (old_AutoRenewals s') -> relocated_value p.2 = None) as Hn.
    { intros [h raw] Hin. apply elem_of_map_to_list in Hin. simpl.
      pose proof (relocate_lookup s h) as Hl. cbv zeta in Hl. fold s' in Hl. rewrite Hin in Hl.
      destruct (old_AutoRenewals s !! h) as [raw0|]; simpl in Hl; [|done].
      destruct (relocated_value raw0) eqn:E; [done|]. by simplify_eq. }
    induction (map_to_list (old_AutoRenewals s')) as [|p l IH]; [done|]. simpl.
    rewrite IH by (intros q Hq; apply Hn; by right). unfold relocate_one. by rewrite Hn by left. }
  unfold RelocateFromTransactionStorage at 1. cbv zeta. rewrite Hscan.
  destruct (relocate_scan_frame (map_to_list (old_AutoRenewals s)) s) as (o & n & E).
  subst s'. unfold RelocateFromTransactionStorage. cbv zeta. rewrite E. simpl.
  by destruct (old_PendingAutoRenewals s), (old_PermanentStorageUsed s).
Qed.

Lemma relocated_current d :
  length (rd_account d) = 32%nat ->
  relocated_value (enc renewal_data_codec d) = Some (enc renewal_data_codec d).
Proof.
  intros Hd. unfold relocated_value, decodes.
  by rewrite (decode_ok_enc _ _ _ renewal_data_round Hd).
Qed.

Lemma relocated_account a :
  length a = 32%nat -> relocated_value a = Some (enc renewal_data_codec (mkRenewalData a true false)).
Proof.
  intros Ha. unfold relocated_value, decodes, decode_ok.
  destruct (dec renewal_data_codec a) as [[d rest]|] eqn:E; simpl.
  - apply (dec_size (FixedSize := renewal_data_size)) in E. lia.
  - rewrite Ha. simpl. by rewrite firstn_all2 by lia.
Qed.

Lemma relocated_none raw : relocated_value raw = None <-> (length raw < 32)%nat.
Proof.
  unfold relocated_value, decodes, decode_ok.
  destruct (dec renewal_data_codec raw) as [[d rest]|] eqn:E; cbn [fmap option_fmap option_map].
  - apply (dec_size (FixedSize := renewal_data_size)) in E. split; [done|lia].
  - cbn [dec array_codec]. destruct (32 <=? length raw)%nat eqn:E2.
    + apply Nat.leb_le in E2. split; [done|lia].
    + apply Nat.leb_gt in E2. done.
Qed.
End Relocation.

(** ** Gates *)

Section Gates.
Context `{WeightHost} `{ScaleLaws} `{!Config} `{!ConfigLaws}.

Lemma versioned_run from to f s : storage_version s = from -> versioned from to f s = set_version to (f s).
Proof. intros Hv. unfold versioned. by rewrite Hv, Z.eqb_refl. Qed.

Lemma versioned_skip from to f s : storage_version s <> from -> versioned from to f s = s.
Proof. intros Hv. unfold versioned. by destruct (_ =? _) eqn:E; b2p. Qed.

(** What follows the versioned migrations keeps the storage pallet's items. *)
Lemma after_versioned s :
  let s' := SetRetentionPeriodIfZero DEFAULT_RETENTION_PERIOD (RelocateFromTransactionStorage s) in
  storage_version s' = storage_version s /\ raw_Transactions s' = raw_Transactions s /\
  raw_Authorizations s' = raw_Authorizations s /\ raw_AllowedAuthorizers s' = raw_AllowedAuthorizers s /\
  st_provider_calls s' = st_provider_calls s /\ st_retention_period s' <> 0.
Proof.
  destruct (relocate_frame s) as (o & n & E). cbv zeta in *. rewrite E.
  unfold SetRetentionPeriodIfZero. simpl. destruct (_ =? 0) eqn:Ez; b2p; split_and!; done.
Qed.

Lemma SetRetentionPeriodIfZero_twice v s :
  st_retention_period s <> 0 -> SetRetentionPeriodIfZero v s = s.
Proof. intros Hz. unfold SetRetentionPeriodIfZero. by destruct (_ =? 0) eqn:E; b2p. Qed.

Lemma relocate_scan_retention v l s :
  foldr relocate_one (set_retention_period v s) l = set_retention_period v (foldr relocate_one s l).
Proof.
  induction l as [|p l IH]; simpl; [done|]. rewrite IH. unfold relocate_one.
  by destruct (relocated_value p.2).
Qed.

Lemma relocate_set_retention v s :
  RelocateFromTransactionStorage (SetRetentionPeriodIfZero v s)
    = SetRetentionPeriodIfZero v (RelocateFromTransactionStorage s).
Proof.
  assert (st_retention_period (RelocateFromTransactionStorage s) = st_retention_period s) as Hr
    by (destruct (relocate_frame s) as (o & n & E); cbv zeta in E; by rewrite E).
  unfold SetRetentionPeriodIfZero. rewrite Hr. destruct (_ =? 0); [|done].
  unfold RelocateFromTransactionStorage. cbv zeta.
  change (old_AutoRenewals (set_retention_period v s)) with (old_AutoRenewals s).
  by rewrite relocate_scan_retention.
Qed.

Lemma after_versioned_twice v s :
  v <> 0 ->
  let s' := SetRetentionPeriodIfZero v (RelocateFromTransactionStorage s) in
  SetRetentionPeriodIfZero v (RelocateFromTransactionStorage s') = s'.
Proof.
  intros Hv. cbv zeta. rewrite relocate_set_retention, relocate_idempotent.
  apply SetRetentionPeriodIfZero_twice. unfold SetRetentionPeriodIfZero.
  destruct (_ =? 0) eqn:E; b2p; done.
Qed.
End Gates.
