(* ===== verification/DryRuns.v ===== *)
(** The checks a dry run of the migrations makes around them: the [pre_upgrade] and
    [post_upgrade] hooks ([try-runtime]) of
    [pallets/transaction-storage/src/migrations.rs] and
    [pallets/data-renewal/src/migrations.rs].

    What [pre_upgrade] saves is passed to [post_upgrade] as a value; the codec
    between them is left out.  A failed check is [false]. *)

From S2P Require Import Prelude Primitives Types State Authorizations Codec Weights Migrations MigrationFacts.

(** The number of keys under a prefix. *)
Definition count_keys {K} `{Countable K} (m : gmap K bytes) : Z := Z.min u64_max (Z.of_nat (size m)).

(** The number of values [iter()] yields: it skips the ones that do not decode. *)
Definition count_decoded {K A} `{Countable K} (c : Codec A) (m : gmap K bytes) : Z :=
  count_keys (filter (fun p => decodes c p.2 = true) m).

(** [SetRetentionPeriodIfZero::post_upgrade]. *)
Definition retention_post_upgrade (s : Stored) : bool := negb (st_retention_period s =? 0).

Section Storage.
Context `{ScaleHost} `{Config}.

(** [v1]'s hooks. *)
Definition v1_pre_upgrade (s : Stored) : Z := count_keys (raw_Transactions s).
Definition v1_post_upgrade (old_count : Z) (s : Stored) : bool :=
  count_decoded info_vec_codec (raw_Transactions s) <=? old_count.

(** [v3]'s hooks. *)
Definition v3_pre_upgrade (s : Stored) : Z := count_keys (raw_Transactions s).
Definition v3_post_upgrade (old_count : Z) (s : Stored) : bool :=
  forallb (fun p : BlockNumber * bytes => decodes info_vec_codec p.2) (map_to_list (raw_Transactions s))
  && (count_keys (raw_Transactions s) <=? old_count).

(** [v5]'s hooks. *)
Definition v5_pre_upgrade (s : Stored) : Z := count_keys (raw_AllowedAuthorizers s).
Definition v5_post_upgrade (old_count : Z) (s : Stored) : bool :=
  count_decoded budget_codec (raw_AllowedAuthorizers s) =? old_count.
End Storage.

(** ** The relocation *)

Definition MAX_SINGLE_BLOCK_ENTRIES : Z := 5000.

Record PreUpgradeState := mkPreUpgrade {
  pre_renewals : Z;
  already_relocated : Z;
  permanent_used : option Z;
  pre_pending : option bytes }.

Section Relocation.
Context `{ScaleHost}.

(** [RelocateFromTransactionStorage::pre_upgrade]. *)
Definition relocate_pre_upgrade (s : Stored) : option PreUpgradeState :=
  let renewals := count_keys (old_AutoRenewals s) in
  if renewals <=? MAX_SINGLE_BLOCK_ENTRIES then
    Some (mkPreUpgrade renewals (count_keys (raw_Renewals s))
      (old_PermanentStorageUsed s ≫= decode_ok u64_codec) (old_PendingAutoRenewals s))
  else None.

(** [PermanentStorageUsed::get], with its default. *)
Definition permanent_storage_used (s : Stored) : Z :=
  default 0 (raw_PermanentStorageUsed s ≫= decode_ok u64_codec).

(** [RelocateFromTransactionStorage::post_upgrade]. *)
Definition relocate_post_upgrade (pre : PreUpgradeState) (s : Stored) : bool :=
  forallb (fun p : ContentHash * bytes => decodes renewal_data_codec p.2) (map_to_list (raw_Renewals s))
  && (count_keys (raw_Renewals s) =? sat_add_u64 (pre_renewals pre) (already_relocated pre))
  && bool_decide (old_AutoRenewals s = ∅)
  && (match permanent_used pre with Some used => permanent_storage_used s =? used | None => true end)
  && bool_decide (old_PermanentStorageUsed s = None)
  && bool_decide (raw_PendingRenewals s = pre_pending pre)
  && bool_decide (old_PendingAutoRenewals s = None).
End Relocation.

(** ** Facts *)

Lemma count_small {K} `{Countable K} (m : gmap K bytes) :
  Z.of_nat (size m) <= u64_max -> count_keys m = Z.of_nat (size m).
Proof. unfold count_keys. lia. Qed.

Lemma count_keys_mono {K} `{Countable K} (m m' : gmap K bytes) :
  (size m <= size m')%nat -> count_keys m <= count_keys m'.
Proof. unfold count_keys. lia. Qed.

Lemma count_decoded_le {K A} `{Countable K} (c : Codec A) (m : gmap K bytes) : count_decoded c m <= count_keys m.
Proof. apply count_keys_mono, map_subseteq_size, map_filter_subseteq. Qed.

Lemma count_decoded_all {K A} `{Countable K} (c : Codec A) (m : gmap K bytes) :
  map_Forall (fun _ raw => decodes c raw = true) m -> count_decoded c m = count_keys m.
Proof. intros Hm. unfold count_decoded. f_equal. by apply map_filter_id. Qed.

Lemma forallb_map_Forall {K} `{Countable K} (P : bytes -> bool) (m : gmap K bytes) :
  forallb (fun p : K * bytes => P p.2) (map_to_list m) = true <-> map_Forall (fun _ raw => P raw = true) m.
Proof.
  rewrite forallb_forall. split.
  - intros Hf k v Hk. apply (Hf (k, v)), list_elem_of_In. by apply elem_of_map_to_list.
  - intros Hm [k v] Hin. apply list_elem_of_In, elem_of_map_to_list in Hin. exact (Hm k v Hin).
Qed.

Lemma imap_size_le {K} `{Countable K} (f : K -> bytes -> option bytes) (m : gmap K bytes) :
  (size (map_imap f m) <= size m)%nat.
Proof.
  rewrite <-!size_dom. apply subseteq_size. intros k. rewrite !elem_of_dom, map_lookup_imap.
  intros [v Hv]. destruct (m !! k); [by eexists|done].
Qed.

Lemma omap_size_le {K} `{Countable K} (f : bytes -> option bytes) (m : gmap K bytes) :
  (size (omap f m) <= size m)%nat.
Proof.
  rewrite <-!size_dom. apply subseteq_size. intros k. rewrite !elem_of_dom, lookup_omap.
  intros [v Hv]. destruct (m !! k); [by eexists|done].
Qed.

(** The sizes of two maps add up exactly when they share no key. *)
Lemma union_size_disjoint {K} `{Countable K} (m n : gmap K bytes) :
  size (m ∪ n) = (size m + size n)%nat <-> m ##ₘ n.
Proof.
  rewrite <-!size_dom, dom_union_L, size_union_alt, map_disjoint_dom. split.
  - intros Hs. assert (dom n ∖ dom m = dom n) as E; [|set_solver].
    apply set_subseteq_size_eq; [set_solver|lia].
  - intros Hd. do 2 f_equal. set_solver.
Qed.

Section RelocationFacts.
Context `{ScaleLaws}.

Lemma relocated_decodes raw v : relocated_value raw = Some v -> decodes renewal_data_codec v = true.
Proof.
  unfold relocated_value. destruct (decodes renewal_data_codec raw) eqn:E; [by intros [= <-]|].
  destruct (decode_ok (array_codec 32) raw) as [a|] eqn:Ea; [|done].
  intros Hv. apply (inj Some) in Hv as <-.
  assert (length a = 32%nat) as Ha.
  { unfold decode_ok in Ea. cbn [dec array_codec] in Ea. destruct (32 <=? length raw)%nat eqn:El; [|done].
    apply Nat.leb_le in El. cbn in Ea. simplify_eq. rewrite length_take. lia. }
  unfold decodes. by rewrite (decode_ok_enc _ _ (mkRenewalData a true false) renewal_data_round Ha).
Qed.

(** The new prefix after the relocation: what was moved, over what was there. *)
Lemma relocate_union s :
  raw_Renewals (RelocateFromTransactionStorage s) =
    omap relocated_value (old_AutoRenewals s) ∪ raw_Renewals s.
Proof.
  apply map_eq. intros h. rewrite lookup_union, lookup_omap.
  destruct (old_AutoRenewals s !! h ≫= relocated_value) as [v|] eqn:E.
  - destruct (old_AutoRenewals s !! h) as [raw|] eqn:Ho; [|done].
    destruct (relocate_moved s h raw v Ho E) as [_ ->]. by destruct (raw_Renewals s !! h).
  - destruct (relocate_left s h E) as [_ ->]. by destruct (raw_Renewals s !! h).
Qed.

(** The old prefix is empty when every entry could be read. *)
Lemma relocate_emptied s :
  old_AutoRenewals (RelocateFromTransactionStorage s) = ∅ <->
  map_Forall (fun _ raw => (32 <= length raw)%nat) (old_AutoRenewals s).
Proof.
  split.
  - intros He h raw Ho. destruct (relocated_value raw) as [v|] eqn:Ev.
    + destruct (Nat.le_gt_cases 32 (length raw)) as [|Hlt]; [done|]. apply relocated_none in Hlt. congruence.
    + assert (old_AutoRenewals s !! h ≫= relocated_value = None) as Hn by (by rewrite Ho).
      apply relocate_left in Hn as [Hk _]. rewrite He, Ho, lookup_empty in Hk. done.
  - intros Hm. apply map_empty. intros h. destruct (old_AutoRenewals s !! h) as [raw|] eqn:Ho.
    + destruct (relocated_value raw) as [v|] eqn:Ev; [by destruct (relocate_moved s h raw v Ho Ev)|].
      apply relocated_none in Ev. specialize (Hm h raw Ho). simpl in Hm. lia.
    + assert (old_AutoRenewals s !! h ≫= relocated_value = None) as Hn by (by rewrite Ho).
      destruct (relocate_left s h Hn) as [-> _]. done.
Qed.

Lemma moved_dom s :
  map_Forall (fun _ raw => (32 <= length raw)%nat) (old_AutoRenewals s) ->
  dom (omap relocated_value (old_AutoRenewals s)) = dom (old_AutoRenewals s).
Proof.
  intros Hm. apply set_eq. intros h. rewrite !elem_of_dom, lookup_omap.
  destruct (old_AutoRenewals s !! h) as [raw|] eqn:Ho; simpl; [|done].
  specialize (Hm h raw Ho). simpl in Hm.
  destruct (relocated_value raw) eqn:Ev; [split; by eexists|]. apply relocated_none in Ev. lia.
Qed.

(** The dry run accepts the relocation exactly when every old entry can be read, no
    content hash is registered on both sides, what is on the new side already reads,
    and the new queue is empty unless the old one replaces it. *)
Lemma relocate_post_iff s pre :
  relocate_pre_upgrade s = Some pre ->
  Z.of_nat (size (old_AutoRenewals s)) + Z.of_nat (size (raw_Renewals s)) <= u64_max ->
  relocate_post_upgrade pre (RelocateFromTransactionStorage s) = true <->
  map_Forall (fun _ raw => (32 <= length raw)%nat) (old_AutoRenewals s) /\
  old_AutoRenewals s ##ₘ raw_Renewals s /\
  map_Forall (fun _ raw => decodes renewal_data_codec raw = true) (raw_Renewals s) /\
  (old_PendingAutoRenewals s = None -> raw_PendingRenewals s = None).
Proof.
  intros Hpre Hsize. unfold relocate_pre_upgrade in Hpre. destruct (_ <=? _); [|done]. simplify_eq.
  destruct (relocate_frame s) as (o & n & E). cbv zeta in E. set (s' := RelocateFromTransactionStorage s) in *.
  assert (old_PermanentStorageUsed s' = None /\ old_PendingAutoRenewals s' = None /\
    raw_PendingRenewals s' = match old_PendingAutoRenewals s with Some raw => Some raw | None => raw_PendingRenewals s end /\
    (forall raw, old_PermanentStorageUsed s = Some raw -> raw_PermanentStorageUsed s' = Some raw))
    as (Hu & Hq & Hp & Hused).
  { rewrite E. simpl. destruct (old_PermanentStorageUsed s), (old_PendingAutoRenewals s); split_and!; try done.
    all: by intros raw [= ->]. }
  unfold relocate_post_upgrade. cbn [pre_renewals already_relocated permanent_used pre_pending].
  rewrite !andb_true_iff, !bool_decide_eq_true, forallb_map_Forall, Z.eqb_eq, Hu, Hq, Hp.
  assert ((match old_PermanentStorageUsed s ≫= decode_ok u64_codec with
           | Some used => permanent_storage_used s' =? used | None => true end) = true) as ->.
  { unfold permanent_storage_used. destruct (old_PermanentStorageUsed s) as [raw|] eqn:Eu; [|done].
    rewrite (Hused raw eq_refl). cbn [mbind option_bind]. destruct (decode_ok u64_codec raw); [|done].
    simpl. by apply Z.eqb_eq. }
  unfold s'. rewrite relocate_emptied, relocate_union. clear s' E Hu Hq Hp Hused.
  assert (map_Forall (fun _ raw => (32 <= length raw)%nat) (old_AutoRenewals s) ->
    count_keys (omap relocated_value (old_AutoRenewals s) ∪ raw_Renewals s) =
      sat_add_u64 (count_keys (old_AutoRenewals s)) (count_keys (raw_Renewals s)) <->
    old_AutoRenewals s ##ₘ raw_Renewals s) as Hcount.
  { intros Hm. pose proof (moved_dom s Hm) as Hd.
    assert (size (omap relocated_value (old_AutoRenewals s)) = size (old_AutoRenewals s)) as Hs
      by (rewrite <-!size_dom; by f_equal).
    rewrite (map_disjoint_dom (old_AutoRenewals s)), <-Hd, <-map_disjoint_dom, <-union_size_disjoint, Hs.
    assert (size (omap relocated_value (old_AutoRenewals s) ∪ raw_Renewals s)
      <= size (old_AutoRenewals s) + size (raw_Renewals s))%nat as Hle.
    { rewrite <-Hs, <-!size_dom, dom_union_L. rewrite size_union_alt.
      pose proof (subseteq_size (dom (raw_Renewals s) ∖ dom (omap relocated_value (old_AutoRenewals s)))
        (dom (raw_Renewals s)) ltac:(set_solver)). lia. }
    unfold count_keys, sat_add. lia. }
  split.
  - intros ((((((Hdec & Hc) & Hm) & _) & _) & Hpend) & _). split_and!; [done|by apply Hcount| |].
    + apply Hcount in Hc; [|done]. intros h raw Hh. apply (Hdec h). rewrite lookup_union_r; [done|].
      apply (map_disjoint_Some_r _ _ h raw) in Hc; [|done]. by rewrite lookup_omap, Hc.
    + intros Hn. by rewrite Hn in Hpend.
  - intros (Hm & Hdis & Hdec & Hpend). split_and!; try done; [|by apply Hcount|].
    + intros h raw. rewrite lookup_union, lookup_omap. intros Hl.
      destruct (old_AutoRenewals s !! h ≫= relocated_value) as [v|] eqn:Ev.
      * destruct (old_AutoRenewals s !! h) as [r|]; [|done]. simpl in Ev.
        assert (v = raw) as <- by (destruct (raw_Renewals s !! h); cbn in Hl; congruence).
        by eapply relocated_decodes.
      * apply (Hdec h). by destruct (raw_Renewals s !! h).
    + destruct (old_PendingAutoRenewals s); [done|by apply Hpend].
Qed.
End RelocationFacts.

Section StorageFacts.
Context `{WeightHost} `{ScaleLaws} `{!Config} `{!ConfigLaws}.

(** No first migration adds entries, so its check always passes. *)
Lemma v1_post_accepts s : v1_post_upgrade (v1_pre_upgrade s) (MigrateV0ToV1 s) = true.
Proof.
  apply Z.leb_le. etransitivity; [apply count_decoded_le|]. apply count_keys_mono.
  unfold MigrateV0ToV1, versioned. destruct (_ =? 0); [|done]. simpl. apply omap_size_le.
Qed.

(** The check only bounds the count from above: an emptied map passes too. *)
Lemma v1_post_empty s : v1_post_upgrade (v1_pre_upgrade s) (set_transactions ∅ s) = true.
Proof.
  apply Z.leb_le. etransitivity; [apply count_decoded_le|]. apply count_keys_mono.
  simpl. rewrite map_size_empty. lia.
Qed.

(** A readable map after one pass: entries in the current layout, no more than before. *)
Lemma v3_post_accepts s v :
  readable s -> v3_post_upgrade (v3_pre_upgrade s) (set_version v (set_transactions (one_pass s) s)) = true.
Proof.
  intros Hr. unfold v3_post_upgrade, v3_pre_upgrade. simpl raw_Transactions.
  rewrite andb_true_iff, (forallb_map_Forall (decodes info_vec_codec)), Z.leb_le. split; [|apply count_keys_mono, imap_size_le].
  intros b raw. unfold one_pass. rewrite map_lookup_imap.
  destruct (raw_Transactions s !! b) as [raw0|] eqn:Eb; [|done]. simpl.
  destruct (v2_to_v3_entry_total (oldest_valid s) b raw0 (Hr b raw0 Eb)) as [o Ho]. rewrite Ho.
  intros ->. by apply v2_to_v3_entry_read in Ho as [_ ?].
Qed.

(** Budgets of version 4 all read afterwards. *)
Lemma v5_post_accepts s s' :
  raw_AllowedAuthorizers s' = raw_AllowedAuthorizers (VersionUncheckedMigrateV4ToV5 s) ->
  map_Forall (fun _ raw => exists b, v4_budget_ok b /\ raw = enc v4_budget_codec b) (raw_AllowedAuthorizers s) ->
  v5_post_upgrade (v5_pre_upgrade s) s' = true.
Proof.
  intros Es Hall. apply Z.eqb_eq. unfold v5_pre_upgrade. rewrite Es.
  assert (forall who, is_Some (raw_AllowedAuthorizers (VersionUncheckedMigrateV4ToV5 s) !! who) <->
    is_Some (raw_AllowedAuthorizers s !! who)) as Hdom.
  { intros who. simpl. unfold translate. rewrite map_lookup_imap.
    destruct (raw_AllowedAuthorizers s !! who) as [raw|]; simpl; [|done]. destr_match; split; by eexists. }
  rewrite count_decoded_all.
  - unfold count_keys. do 2 f_equal. rewrite <-!size_dom. f_equal. apply set_eq. intros who.
    by rewrite !elem_of_dom.
  - intros who raw Hraw. destruct (proj1 (Hdom who)) as [raw0 Hraw0]; [by eexists|].
    destruct (Hall who raw0 Hraw0) as (b & Hb & ->).
    assert (raw_AllowedAuthorizers (VersionUncheckedMigrateV4ToV5 s) !! who ≫= decode_ok budget_codec
      = Some (v4_to_v5_budget b)) as Hd.
    { simpl. erewrite (translate_decodes _ _ v4_budget_ok budget_ok _ _ who b _ _ Hb); [done| |done].
      intros b' [= <-]. unfold budget_ok, v4_budget_ok in *. simpl. tauto. }
    rewrite Hraw in Hd. cbn [mbind option_bind] in Hd. unfold decodes. by rewrite Hd.
Qed.
End StorageFacts.
