(* ===== verification/Sdk.v ===== *)
(** The Rust SDK's offline part ([sdk/rust/src]): chunking, CIDs, DAG-PB manifests,
    storage and renewal operations, authorization estimates and the client that
    combines them ([chunker.rs], [cid.rs], [dag.rs], [storage.rs], [renewal.rs],
    [authorization.rs], [types.rs], [client.rs]).

    Error values keep the variant and its numbers; the message texts are left out. *)

From S2P Require Import Prelude Slice Primitives.

(** ** Errors *)

Inductive SdkError :=
| ChunkTooLarge (n : Z)
| FileTooLarge (n : Z)
| EmptyData
| InvalidCid
| SdkAuthorizationNotFound
| InsufficientAuthorization (need available : Z)
| SdkAuthorizationExpired (expired_at current_block : Z)
| StorageFailed
| DagEncodingFailed
| NetworkError
| InvalidConfig
| ChunkingFailed
| RetrievalFailed
| RenewalNotFound (block index : Z)
| RenewalFailed
| CidCalculationFailed
| TransactionFailed
| InvalidChunkSize.

(** [Error::code]. *)
Definition error_code (e : SdkError) : string :=
  match e with
  | ChunkTooLarge _ => "CHUNK_TOO_LARGE"
  | FileTooLarge _ => "FILE_TOO_LARGE"
  | EmptyData => "EMPTY_DATA"
  | InvalidCid => "INVALID_CID"
  | SdkAuthorizationNotFound => "AUTHORIZATION_NOT_FOUND"
  | InsufficientAuthorization _ _ => "INSUFFICIENT_AUTHORIZATION"
  | SdkAuthorizationExpired _ _ => "AUTHORIZATION_EXPIRED"
  | StorageFailed => "STORAGE_FAILED"
  | DagEncodingFailed => "DAG_ENCODING_FAILED"
  | NetworkError => "NETWORK_ERROR"
  | InvalidConfig => "INVALID_CONFIG"
  | ChunkingFailed => "CHUNKING_FAILED"
  | RetrievalFailed => "RETRIEVAL_FAILED"
  | RenewalNotFound _ _ => "RENEWAL_NOT_FOUND"
  | RenewalFailed => "RENEWAL_FAILED"
  | CidCalculationFailed => "CID_CALCULATION_FAILED"
  | TransactionFailed => "TRANSACTION_FAILED"
  | InvalidChunkSize => "INVALID_CHUNK_SIZE"
  end.

(** [Error::is_retryable]. *)
Definition is_retryable (e : SdkError) : bool :=
  match e with
  | SdkAuthorizationExpired _ _ | NetworkError | StorageFailed | TransactionFailed
  | RetrievalFailed | RenewalFailed => true
  | _ => false
  end.

(** [Error::recovery_hint]. *)
Definition recovery_hint (e : SdkError) : string :=
  match e with
  | ChunkTooLarge _ => "Reduce chunk size to 2 MiB or less"
  | FileTooLarge _ => "Reduce file size or use chunked upload"
  | EmptyData => "Provide non-empty data"
  | InvalidCid => "Verify CID format"
  | SdkAuthorizationNotFound => "Call authorizeAccount() or authorizePreimage() first"
  | InsufficientAuthorization _ _ => "Request additional authorization via authorize_account()"
  | SdkAuthorizationExpired _ _ => "Call refreshAccountAuthorization() to extend expiry"
  | StorageFailed => "Check node connectivity and try again"
  | DagEncodingFailed => "Check chunk CIDs and data integrity"
  | NetworkError => "Check network connectivity to the RPC endpoint"
  | InvalidConfig => "Check configuration parameters"
  | ChunkingFailed => "Verify data integrity and chunker configuration"
  | RetrievalFailed => "The data may not be available yet; try again"
  | RenewalNotFound _ _ => "Verify the block number and extrinsic index"
  | RenewalFailed => "Check that storage hasn't expired, then retry"
  | CidCalculationFailed => "Verify data and hash algorithm"
  | TransactionFailed => "Verify transaction parameters and account nonce"
  | InvalidChunkSize => "Use a chunk size between 1 byte and 2 MiB"
  end.

Abbreviation SdkResult := (result SdkError).

Definition bind_ok {E A B} (r : result E A) (k : A -> result E B) : result E B :=
  match r with Ok a => k a | Err e => Err e end.

Notation "'let?' x ':=' r 'in' k" := (bind_ok r (fun x => k))
  (at level 10, x name, r at level 200, k at level 200) : chain_scope.

(** [iter().map(f).collect::<Result<Vec<_>>>()]: stops at the first error. *)
Fixpoint collect {E A B} (f : A -> result E B) (l : list A) : result E (list B) :=
  match l with
  | [] => Ok []
  | x :: l' => let? y := f x in let? ys := collect f l' in Ok (y :: ys)
  end.

(** ** Chunks *)

Record ChunkerConfig := mkChunkerConfig {
  chunk_size : Z;
  max_parallel : Z;
  create_manifest : bool }.

Definition ChunkerConfig_default : ChunkerConfig := mkChunkerConfig (1024 * 1024) 8 true.

Record Chunk := mkChunk {
  chunk_data : bytes;
  chunk_index : Z;
  chunk_total : Z }.

Definition MAX_CHUNK_SIZE : Z := 2 * 1024 * 1024.
Definition MAX_FILE_SIZE : Z := 64 * 1024 * 1024.
Definition DEFAULT_CHUNK_SIZE : Z := 1024 * 1024.

(** [Chunker::validate_chunk_size]. *)
Definition validate_chunk_size (size : Z) : SdkResult unit :=
  if size =? 0 then Err InvalidChunkSize
  else if MAX_CHUNK_SIZE <? size then Err (ChunkTooLarge size)
  else Ok tt.

(** [FixedSizeChunker::new]; the chunker is its configuration. *)
Definition FixedSizeChunker_new (config : ChunkerConfig) : SdkResult ChunkerConfig :=
  if chunk_size config =? 0 then Err InvalidChunkSize
  else if as_u32 MAX_CHUNK_SIZE <? chunk_size config then Err (ChunkTooLarge (chunk_size config))
  else Ok config.

(** [FixedSizeChunker::num_chunks]. *)
Definition chunker_num_chunks (config : ChunkerConfig) (data_size : Z) : Z :=
  if data_size =? 0 then 0 else div_ceil data_size (chunk_size config).

(** [FixedSizeChunker::chunk]. *)
Definition chunker_chunk (config : ChunkerConfig) (data : bytes) : SdkResult (list Chunk) :=
  if len data =? 0 then Err EmptyData
  else if MAX_FILE_SIZE <? len data then Err (FileTooLarge (len data))
  else
    let total_chunks := as_u32 (chunker_num_chunks config (len data)) in
    Ok (imap (fun index chunk_data => mkChunk chunk_data (as_u32 (Z.of_nat index)) total_chunks)
      (chunks (Z.to_nat (chunk_size config)) data)).

(** The checks of [reassemble_chunks] on the chunk at a position. *)
Fixpoint chunks_in_order (expected_total : Z) (i : Z) (cs : list Chunk) : bool :=
  match cs with
  | [] => true
  | c :: cs' =>
      (chunk_total c =? expected_total) && (chunk_index c =? as_u32 i)
      && chunks_in_order expected_total (i + 1) cs'
  end.

Definition reassemble_chunks (cs : list Chunk) : SdkResult bytes :=
  match cs with
  | [] => Err EmptyData
  | c :: _ =>
      let expected_total := chunk_total c in
      if negb (expected_total =? as_u32 (len cs)) then Err ChunkingFailed
      else if negb (chunks_in_order expected_total 0 cs) then Err ChunkingFailed
      else Ok (concat (map chunk_data cs))
  end.

(** ** CIDs *)

Inductive SdkCidCodec := Raw | DagPb | DagCbor | CustomCodec (code : Z).

(** [CidCodec::code]. *)
Definition codec_code (c : SdkCidCodec) : Z :=
  match c with Raw => 85 | DagPb => 112 | DagCbor => 113 | CustomCodec code => code end.

Inductive WaitFor := InBlock | FinalizedBlock.

#[global] Instance WaitFor_eq_dec : EqDecision WaitFor.
Proof. solve_decision. Defined.

Record StoreOptions := mkStoreOptions {
  cid_codec : SdkCidCodec;
  hash_algorithm : HashingAlgorithm;
  wait_for : WaitFor }.

Definition StoreOptions_default : StoreOptions := mkStoreOptions Raw Blake2b256 InBlock.

Section Cids.
Context `{Host}.

Definition calculate_cid_with_config (data : bytes) (codec : SdkCidCodec) (a : HashingAlgorithm)
    : SdkResult CidData :=
  match calculate_cid data (mkCidConfig (codec_code codec) a) with
  | Ok c => Ok c
  | Err _ => Err CidCalculationFailed
  end.

Definition calculate_cid_default (data : bytes) : SdkResult CidData :=
  match calculate_cid data (mkCidConfig (codec_code Raw) Blake2b256) with
  | Ok c => Ok c
  | Err _ => Err CidCalculationFailed
  end.

Definition cid_to_bytes (c : CidData) : SdkResult Cid :=
  ok_or (to_bytes c) InvalidCid.
End Cids.

(** ** Storage operations *)

Record StorageOperation := mkStorageOperation {
  op_data : bytes;
  op_cid_config : CidConfig;
  op_wait_for : WaitFor }.

(** [StorageOperation::new] never fails. *)
Definition StorageOperation_new (data : bytes) (options : StoreOptions) : SdkResult StorageOperation :=
  Ok (mkStorageOperation data (mkCidConfig (codec_code (cid_codec options)) (hash_algorithm options))
    (wait_for options)).

(** [StorageOperation::validate]. *)
Definition op_validate (op : StorageOperation) : SdkResult unit :=
  if len (op_data op) =? 0 then Err EmptyData
  else if MAX_CHUNK_SIZE <? len (op_data op) then Err (ChunkTooLarge (len (op_data op)))
  else Ok tt.

Record BatchStorageOperation := mkBatch {
  operations : list StorageOperation;
  batch_wait_for : WaitFor }.

(** [BatchStorageOperation::from_chunks]. *)
Definition Batch_from_chunks (datas : list bytes) (options : StoreOptions)
    : SdkResult BatchStorageOperation :=
  let cid_config := mkCidConfig (codec_code (cid_codec options)) (hash_algorithm options) in
  let? ops := collect (fun data =>
      let op := mkStorageOperation data cid_config (wait_for options) in
      let? _ := op_validate op in Ok op) datas in
  Ok (mkBatch ops (wait_for options)).

(** [BatchStorageOperation::new]. *)
Definition Batch_new (cs : list Chunk) (options : StoreOptions) : SdkResult BatchStorageOperation :=
  Batch_from_chunks (map chunk_data cs) options.

Definition batch_len (b : BatchStorageOperation) : Z := len (operations b).

Definition batch_is_empty (b : BatchStorageOperation) : bool :=
  match operations b with [] => true | _ => false end.

Definition batch_total_size (b : BatchStorageOperation) : Z :=
  lsum (fun op => len (op_data op)) (operations b).

Section OperationCids.
Context `{Host}.

(** [StorageOperation::calculate_cid]. *)
Definition op_calculate_cid (op : StorageOperation) : SdkResult CidData :=
  match calculate_cid (op_data op) (op_cid_config op) with
  | Ok c => Ok c
  | Err _ => Err CidCalculationFailed
  end.

(** [BatchStorageOperation::calculate_cids]. *)
Definition batch_calculate_cids (b : BatchStorageOperation) : SdkResult (list CidData) :=
  collect op_calculate_cid (operations b).
End OperationCids.

(** ** DAG-PB manifests *)

(** [encode_varint]: seven bits a byte, least significant first, the high bit on all
    but the last.  Ten rounds hold 70 bits, more than a [u64] has. *)
Fixpoint encode_varint_fuel (fuel : nat) (value : Z) : bytes :=
  match fuel with
  | O => []
  | S fuel' =>
      let byte := Z.land value 127 in
      let value := Z.shiftr value 7 in
      if value =? 0 then [byte_of_Z byte]
      else byte_of_Z (Z.lor byte 128) :: encode_varint_fuel fuel' value
  end.

Definition encode_varint (value : Z) : bytes := encode_varint_fuel 10 value.

(** [UnixFsDagBuilder::encode_unixfs_file_data]. *)
Definition encode_unixfs_file_data (block_sizes : list Z) (total_size : Z) : bytes :=
  [byte_of_Z (Z.shiftl 1 3); byte_of_Z 2]
  ++ byte_of_Z (Z.shiftl 3 3) :: encode_varint total_size
  ++ concat (map (fun size => byte_of_Z (Z.shiftl 4 3) :: encode_varint size) block_sizes).

(** [UnixFsDagBuilder::encode_dag_link]. *)
Definition encode_dag_link (cid_bytes name : bytes) (tsize : Z) : bytes :=
  byte_of_Z (Z.lor (Z.shiftl 1 3) 2) :: encode_varint (len cid_bytes) ++ cid_bytes
  ++ (if len name =? 0 then []
      else byte_of_Z (Z.lor (Z.shiftl 2 3) 2) :: encode_varint (len name) ++ name)
  ++ byte_of_Z (Z.shiftl 3 3) :: encode_varint tsize.

(** [UnixFsDagBuilder::encode_dag_node]. *)
Definition encode_dag_node (links : list bytes) (data : bytes) : bytes :=
  concat (map (fun link =>
    byte_of_Z (Z.lor (Z.shiftl 2 3) 2) :: encode_varint (len link) ++ link) links)
  ++ (if len data =? 0 then []
      else byte_of_Z (Z.lor (Z.shiftl 1 3) 2) :: encode_varint (len data) ++ data).

Record DagManifest := mkManifest {
  root_cid : CidData;
  chunk_cids : list CidData;
  total_size : Z;
  dag_bytes : bytes }.

Definition MAX_MANIFEST_CHUNKS : Z := 1000000.

Section Manifests.
Context `{Host}.

(** [UnixFsDagBuilder::build]. *)
Definition dag_build (cs : list Chunk) (hash_algo : HashingAlgorithm) : SdkResult DagManifest :=
  if len cs =? 0 then Err EmptyData
  else if MAX_MANIFEST_CHUNKS <? len cs then Err DagEncodingFailed
  else
    let dag_cid data codec :=
      match calculate_cid data (mkCidConfig (codec_code codec) hash_algo) with
      | Ok c => Ok c
      | Err _ => Err DagEncodingFailed
      end in
    let? cids := collect (fun c => dag_cid (chunk_data c) Raw) cs in
    let block_sizes := map (fun c => len (chunk_data c)) cs in
    let total := as_u64 (lsum (fun c => len (chunk_data c)) cs) in
    let unixfs_data := encode_unixfs_file_data block_sizes total in
    let? links := collect (fun p : CidData * Chunk =>
        let? cid_bytes := ok_or (to_bytes p.1) DagEncodingFailed in
        Ok (encode_dag_link cid_bytes [] (len (chunk_data p.2)))) (zip cids cs) in
    let dag := encode_dag_node links unixfs_data in
    let? root := dag_cid dag DagPb in
    Ok (mkManifest root cids total dag).
End Manifests.

(** ** Authorization estimates *)

Inductive SdkScope := AccountScope | PreimageScope.

(** [authorization::Authorization]. *)
Record SdkAuthorization := mkSdkAuthorization {
  sa_scope : SdkScope;
  sa_transactions : Z;
  sa_max_size : Z;
  sa_expires_at : option Z }.

(** [AuthorizationManager::check_authorization]. *)
Definition manager_check_authorization (available : SdkAuthorization)
    (required_size num_transactions : Z) : SdkResult unit :=
  if sa_transactions available <? num_transactions
  then Err (InsufficientAuthorization num_transactions (sa_transactions available))
  else if sa_max_size available <? required_size
  then Err (InsufficientAuthorization required_size (sa_max_size available))
  else Ok tt.

(** [AuthorizationManager::calculate_requirements]. *)
Definition calculate_requirements (total_size num_chunks : Z) (include_manifest : bool) : Z * Z :=
  let transactions := if num_chunks <=? u32_max then num_chunks else u32_max in
  if include_manifest then
    let manifest_estimate := sat_add_u64 (sat_mul u64_max num_chunks 10) 1000 in
    (sat_add_u32 transactions 1, sat_add_u64 total_size manifest_estimate)
  else (transactions, total_size).

(** [AuthorizationManager::estimate_authorization]. *)
Definition estimate_authorization (data_size : Z) (with_manifest : bool) : Z * Z :=
  let num_chunks := if data_size =? 0 then 1 else div_ceil data_size DEFAULT_CHUNK_SIZE in
  calculate_requirements data_size num_chunks with_manifest.

(** ** Renewals *)

Record StorageRef := mkStorageRef { ref_block : Z; ref_index : Z }.

(** [RenewalOperation::validate]; the operation is its reference. *)
Definition RenewalOperation_validate (r : StorageRef) : SdkResult unit :=
  if ref_block r =? 0 then Err RenewalFailed else Ok tt.

Record TrackedEntry := mkTracked {
  te_ref : StorageRef;
  te_content_hash : bytes;
  te_size : Z;
  te_expires_at : Z }.

(** [RenewalTracker::track]; the tracker is its entries. *)
Definition track (r : StorageRef) (content_hash : bytes) (size retention_period : Z)
    (entries : list TrackedEntry) : list TrackedEntry :=
  entries ++ [mkTracked r content_hash size (sat_add_u32 (ref_block r) retention_period)].

(** [RenewalTracker::update_after_renewal]: the first match is updated. *)
Fixpoint update_after_renewal (old_ref new_ref : StorageRef) (retention_period : Z)
    (entries : list TrackedEntry) : bool * list TrackedEntry :=
  match entries with
  | [] => (false, [])
  | e :: entries' =>
      if (ref_block (te_ref e) =? ref_block old_ref) && (ref_index (te_ref e) =? ref_index old_ref)
      then (true, mkTracked new_ref (te_content_hash e) (te_size e)
              (sat_add_u32 (ref_block new_ref) retention_period) :: entries')
      else let '(found, rest) := update_after_renewal old_ref new_ref retention_period entries' in
           (found, e :: rest)
  end.

(** [RenewalTracker::expiring_before]. *)
Definition expiring_before (block : Z) (entries : list TrackedEntry) : list TrackedEntry :=
  List.filter (fun e => te_expires_at e <=? block) entries.

(** [RenewalTracker::remove_by_content_hash]. *)
Definition remove_by_content_hash (h : bytes) (entries : list TrackedEntry)
    : bool * list TrackedEntry :=
  let rest := List.filter (fun e => negb (bool_decide (te_content_hash e = h))) entries in
  (negb (len rest =? len entries), rest).

(** ** The client *)

Record ClientConfig := mkClientConfig {
  default_chunk_size : Z;
  cl_max_parallel : Z;
  cl_create_manifest : bool }.

Definition ClientConfig_default : ClientConfig := mkClientConfig (1024 * 1024) 8 true.

(** The progress events of an upload; the text of a failure is left out. *)
Inductive ChunkProgressEvent :=
| ChunkStarted (index total : Z)
| ChunkCompleted (index total : Z) (cid : bytes)
| ChunkFailed (index total : Z)
| ManifestStarted
| ManifestCreated (cid : bytes)
| Completed (manifest_cid : option bytes).

Section Client.
Context `{Host} (client : ClientConfig).

(** [BulletinClient::prepare_store]. *)
Definition prepare_store (data : bytes) (options : StoreOptions) : SdkResult StorageOperation :=
  let? op := StorageOperation_new data options in
  let? _ := op_validate op in
  Ok op.

(** [BulletinClient::prepare_store_chunked]; the events are those reported when there
    is a callback. *)
Definition prepare_store_chunked (data : bytes) (config : option ChunkerConfig)
    (options : StoreOptions) (has_callback : bool)
    : SdkResult (BatchStorageOperation * option bytes * list ChunkProgressEvent) :=
  if len data =? 0 then Err EmptyData
  else
    let chunker_config := default (mkChunkerConfig (default_chunk_size client)
      (cl_max_parallel client) (cl_create_manifest client)) config in
    let? chunker := FixedSizeChunker_new chunker_config in
    let? cs := chunker_chunk chunker data in
    let started := if has_callback then [ChunkStarted 0 (as_u32 (len cs))] else [] in
    let? manifest :=
      (if create_manifest chunker_config then
         let? m := dag_build cs (hash_algorithm options) in
         let? created :=
           (if has_callback then
              let? cid_bytes := ok_or (to_bytes (root_cid m)) DagEncodingFailed in
              Ok [ManifestStarted; ManifestCreated cid_bytes]
            else Ok []) in
         Ok (Some (dag_bytes m), started ++ created)
       else Ok (None, started)) in
    let? batch := Batch_from_chunks (map chunk_data cs) options in
    Ok (batch, manifest.1, manifest.2).

(** [BulletinClient::estimate_authorization]. *)
Definition client_estimate_authorization (data_size : Z) : Z * Z :=
  estimate_authorization data_size (cl_create_manifest client).

(** [BulletinClient::prepare_renew], [prepare_renew_raw]. *)
Definition prepare_renew (r : StorageRef) : SdkResult StorageRef :=
  let? _ := RenewalOperation_validate r in Ok r.

Definition prepare_renew_raw (block index : Z) : SdkResult StorageRef :=
  prepare_renew (mkStorageRef block index).
End Client.
