(* ===== verification/SdkFacts.v ===== *)
(** Facts about the SDK: the protobuf wire format its manifests are written in, and
    what chunking and batching produce.

    The wire format is specified by a reader: [read_fields] parses any sequence of
    varint and length-delimited fields, and the writers of [Sdk.v] are shown to be
    its right inverses. *)

From S2P Require Import Prelude Slice Primitives Sdk.

(** ** The wire format *)

Fixpoint read_varint (raw : bytes) : option (Z * bytes) :=
  match raw with
  | [] => None
  | b :: raw' =>
      let x := byte_to_Z b in
      if x <? 128 then Some (x, raw')
      else match read_varint raw' with
           | Some (v, rest) => Some (x - 128 + 128 * v, rest)
           | None => None
           end
  end.

Inductive Field :=
| VarintField (number value : Z)
| BytesField (number : Z) (value : bytes).

(** One field: the tag, then a varint (wire type 0) or a length and that many bytes
    (wire type 2). *)
Definition read_field (raw : bytes) : option (Field * bytes) :=
  match read_varint raw with
  | None => None
  | Some (tag, rest) =>
      match read_varint rest with
      | None => None
      | Some (v, rest') =>
          if tag mod 8 =? 0 then Some (VarintField (tag / 8) v, rest')
          else if (tag mod 8 =? 2) && (v <=? len rest')
          then Some (BytesField (tag / 8) (take (Z.to_nat v) rest'), drop (Z.to_nat v) rest')
          else None
      end
  end.

(** All fields; every field takes a byte at least, so the length is enough fuel. *)
Fixpoint read_fields_fuel (fuel : nat) (raw : bytes) : option (list Field) :=
  match raw, fuel with
  | [], _ => Some []
  | _, O => None
  | _, S fuel' =>
      match read_field raw with
      | None => None
      | Some (f, rest) => cons f <$> read_fields_fuel fuel' rest
      end
  end.

Definition read_fields (raw : bytes) : option (list Field) := read_fields_fuel (length raw) raw.

(** The values of the fields with a number, in order. *)
Fixpoint varints_of (number : Z) (fs : list Field) : list Z :=
  match fs with
  | [] => []
  | VarintField n v :: fs' => if n =? number then v :: varints_of number fs' else varints_of number fs'
  | _ :: fs' => varints_of number fs'
  end.

Fixpoint bytes_of (number : Z) (fs : list Field) : list bytes :=
  match fs with
  | [] => []
  | BytesField n v :: fs' => if n =? number then v :: bytes_of number fs' else bytes_of number fs'
  | _ :: fs' => bytes_of number fs'
  end.

(** A UnixFS file over DAG-PB links: [PBNode], [PBLink] and [Data] of the
    specifications quoted in [dag.rs]. *)
Record FileView := mkFileView {
  fv_links : list (bytes * Z); (* the CID and size of each link *)
  fv_type : option Z;
  fv_filesize : option Z;
  fv_blocksizes : list Z }.

Definition read_link (raw : bytes) : option (bytes * Z) :=
  match read_fields raw with
  | None => None
  | Some fs =>
      match head (bytes_of 1 fs), head (varints_of 3 fs) with
      | Some cid, Some tsize => Some (cid, tsize)
      | _, _ => None
      end
  end.

Definition read_manifest (raw : bytes) : option FileView :=
  match read_fields raw with
  | None => None
  | Some node =>
      match mapM read_link (bytes_of 2 node), head (bytes_of 1 node) ≫= read_fields with
      | Some links, Some data =>
          Some (mkFileView links (head (varints_of 1 data)) (head (varints_of 3 data)) (varints_of 4 data))
      | _, _ => None
      end
  end.

(** ** Writers and the reader *)

Lemma land_127 v : 0 <= v -> Z.land v 127 = v mod 128.
Proof. intros Hv. change 127 with (Z.ones 7). by rewrite Z.land_ones. Qed.

Lemma lor_128 x : 0 <= x < 128 -> Z.lor x 128 = x + 128.
Proof.
  intros Hx. symmetry. apply Z.add_nocarry_lor.
  rewrite <-(Z.mod_small x 128), <-land_127, <-Z.land_assoc by lia. apply Z.land_0_r.
Qed.

Lemma byte_round x : 0 <= x < 256 -> byte_to_Z (byte_of_Z x) = x.
Proof. intros Hx. rewrite byte_of_Z_to_Z. by apply Z.mod_small. Qed.

Lemma encode_varint_fuel_read fuel v rest :
  0 <= v < 128 ^ Z.of_nat fuel -> (0 < fuel)%nat ->
  read_varint (encode_varint_fuel fuel v ++ rest) = Some (v, rest).
Proof.
  revert v. induction fuel as [|fuel IH]; intros v Hv Hf; [lia|].
  cbn [encode_varint_fuel]. rewrite land_127, Z.shiftr_div_pow2 by lia. change (2 ^ 7) with 128.
  rewrite Nat2Z.inj_succ, Z.pow_succ_r in Hv by lia.
  pose proof (Z.mod_pos_bound v 128 ltac:(lia)) as Hm.
  pose proof (Z.div_mod v 128 ltac:(lia)) as Hd.
  destruct (v / 128 =? 0) eqn:E; b2p.
  - cbn [read_varint app]. rewrite byte_round by lia. rewrite (proj2 (Z.ltb_lt _ _)) by lia.
    do 2 f_equal. lia.
  - rewrite lor_128 by lia. cbn [read_varint app]. rewrite byte_round by lia.
    rewrite (proj2 (Z.ltb_ge _ _)) by lia.
    assert (0 <= v / 128 < 128 ^ Z.of_nat fuel)
      by (split; [apply Z.div_pos; lia|apply Z.div_lt_upper_bound; lia]).
    rewrite IH; [do 2 f_equal; lia|done|].
    destruct fuel; [simpl in *; lia|lia].
Qed.

Definition is_varint (v : Z) : Prop := 0 <= v < 128 ^ 10.

Lemma encode_varint_read v rest : is_varint v -> read_varint (encode_varint v ++ rest) = Some (v, rest).
Proof. intros Hv. apply encode_varint_fuel_read; [done|lia]. Qed.

(** A written field. *)
Definition write_field (f : Field) : bytes :=
  match f with
  | VarintField n v => byte_of_Z (n * 8) :: encode_varint v
  | BytesField n b => byte_of_Z (n * 8 + 2) :: encode_varint (len b) ++ b
  end.

(** Field numbers below 16 have one-byte tags. *)
Definition field_ok (f : Field) : Prop :=
  match f with
  | VarintField n v => 0 <= n < 16 /\ is_varint v
  | BytesField n b => 0 <= n < 16 /\ is_varint (len b)
  end.

Lemma read_tag n rest : 0 <= n < 128 -> read_varint (byte_of_Z n :: rest) = Some (n, rest).
Proof.
  intros Hn. cbn [read_varint]. rewrite byte_round by lia. by rewrite (proj2 (Z.ltb_lt _ _)) by lia.
Qed.

Lemma write_field_read f rest : field_ok f -> read_field (write_field f ++ rest) = Some (f, rest).
Proof.
  destruct f as [n v|n b]; intros [Hn Hv]; unfold read_field; cbn [write_field app].
  - rewrite read_tag by lia. rewrite encode_varint_read by done.
    rewrite Z.mod_mul by lia. by rewrite Z.div_mul by lia.
  - rewrite read_tag by lia. rewrite <-(assoc_L (++)), encode_varint_read by done.
    rewrite (Z.add_comm (n * 8)), Z.mod_add, Z.div_add by lia. change (2 mod 8) with 2. simpl.
    rewrite len_app. rewrite (proj2 (Z.leb_le _ _)) by (pose proof (len_nonneg rest); lia).
    unfold len. by rewrite Nat2Z.id, take_app_length, drop_app_length.
Qed.

Lemma write_field_cons f : exists b l, write_field f = b :: l.
Proof. destruct f; eexists _, _; reflexivity. Qed.

Lemma read_fields_fuel_write fuel fs :
  Forall field_ok fs -> (length fs <= fuel)%nat ->
  read_fields_fuel fuel (concat (map write_field fs)) = Some fs.
Proof.
  intros Hfs. revert fuel. induction Hfs as [|f fs Hf _ IH]; intros fuel Hl; [by destruct fuel|].
  destruct fuel as [|fuel]; [simpl in Hl; lia|]. cbn [map concat].
  destruct (write_field_cons f) as (b & l & Hw).
  assert (read_field ((b :: l) ++ concat (map write_field fs)) = Some (f, concat (map write_field fs))) as Hr
    by (rewrite <-Hw; by apply write_field_read).
  rewrite Hw. cbn [read_fields_fuel app]. cbn [app] in Hr. rewrite Hr, IH by (simpl in Hl; lia). done.
Qed.

Lemma concat_write_length fs : (length fs <= length (concat (map write_field fs)))%nat.
Proof.
  induction fs as [|f fs IH]; [done|]. cbn [map concat length]. rewrite length_app.
  destruct (write_field_cons f) as (b & l & ->). simpl. lia.
Qed.

Lemma read_fields_write fs :
  Forall field_ok fs -> read_fields (concat (map write_field fs)) = Some fs.
Proof. intros Hf. apply read_fields_fuel_write; [done|apply concat_write_length]. Qed.

(** The writers of [dag.rs] write fields. *)
Lemma encode_unixfs_fields sizes total :
  encode_unixfs_file_data sizes total =
    concat (map write_field (VarintField 1 2 :: VarintField 3 total :: map (VarintField 4) sizes)).
Proof.
  unfold encode_unixfs_file_data. cbn [map concat]. rewrite map_map.
  change (write_field (VarintField 1 2)) with [byte_of_Z (Z.shiftl 1 3); byte_of_Z 2]. done.
Qed.

Lemma encode_link_fields cid tsize :
  encode_dag_link cid [] tsize = concat (map write_field [BytesField 1 cid; VarintField 3 tsize]).
Proof.
  unfold encode_dag_link. cbn [map concat].
  change (write_field (BytesField 1 cid)) with (byte_of_Z 10 :: encode_varint (len cid) ++ cid).
  change (write_field (VarintField 3 tsize)) with (byte_of_Z 24 :: encode_varint tsize).
  change (len [] =? 0) with true. cbn [app]. f_equal. by rewrite <-(assoc_L (++)), app_nil_r.
Qed.

Lemma encode_node_fields links data :
  data <> [] ->
  encode_dag_node links data = concat (map write_field (map (BytesField 2) links ++ [BytesField 1 data])).
Proof.
  intros Hd. unfold encode_dag_node. rewrite map_app, map_map, concat_app. f_equal.
  destruct (len data =? 0) eqn:E; b2p; [destruct data; [done|unfold len in E; simpl in E; lia]|].
  cbn [map concat]. by rewrite app_nil_r.
Qed.

Lemma bytes_of_links n links fs : bytes_of n (map (BytesField n) links ++ fs) = links ++ bytes_of n fs.
Proof. induction links as [|l links IH]; [done|]. cbn [map app bytes_of]. by rewrite Z.eqb_refl, IH. Qed.

Lemma bytes_of_other n k links fs : n <> k -> bytes_of n (map (BytesField k) links ++ fs) = bytes_of n fs.
Proof.
  intros Hn. induction links as [|l links IH]; [done|]. cbn [map app bytes_of].
  by rewrite (proj2 (Z.eqb_neq _ _)) by done.
Qed.

Lemma varints_of_all n vs : varints_of n (map (VarintField n) vs) = vs.
Proof. induction vs as [|v vs IH]; [done|]. cbn [map varints_of]. by rewrite Z.eqb_refl, IH. Qed.

(** ** Sizes *)

Lemma encode_varint_fuel_length fuel v : (length (encode_varint_fuel fuel v) <= fuel)%nat.
Proof.
  revert v. induction fuel as [|fuel IH]; intros v; [done|]. cbn [encode_varint_fuel].
  destruct (_ =? 0); simpl; [lia|]. specialize (IH (Z.shiftr v 7)). lia.
Qed.

Lemma encode_varint_length v : 0 <= len (encode_varint v) <= 10.
Proof. unfold len. pose proof (encode_varint_fuel_length 10 v). unfold encode_varint. lia. Qed.

(** The number of bytes of a varint: one per seven bits. *)
Definition varint_len (v : Z) : Z := len (encode_varint v).

Lemma varint_fuel_len fuel k v :
  (k < fuel)%nat -> 128 ^ Z.of_nat k <= v < 128 ^ (Z.of_nat k + 1) \/ k = 0%nat /\ 0 <= v < 128 ->
  length (encode_varint_fuel fuel v) = S k.
Proof.
  revert k v. induction fuel as [|fuel IH]; intros k v Hk Hv; [lia|].
  cbn [encode_varint_fuel]. rewrite Z.shiftr_div_pow2 by lia. change (2 ^ 7) with 128.
  destruct k as [|k].
  - assert (0 <= v < 128) by (destruct Hv as [Hv|[_ Hv]]; [simpl in Hv|]; lia).
    by rewrite Z.div_small by lia.
  - destruct Hv as [Hv|[? _]]; [|done].
    replace (Z.of_nat (S k)) with (Z.of_nat k + 1) in Hv by lia.
    rewrite (Z.pow_add_r 128 (Z.of_nat k + 1) 1), (Z.pow_add_r 128 (Z.of_nat k) 1) in Hv by lia.
    change (128 ^ 1) with 128 in Hv.
    assert (0 < 128 ^ Z.of_nat k) by (apply Z.pow_pos_nonneg; lia).
    assert (128 ^ Z.of_nat k <= v / 128) by (apply Z.div_le_lower_bound; lia).
    assert (v / 128 < 128 ^ Z.of_nat k * 128) by (apply Z.div_lt_upper_bound; lia).
    destruct (v / 128 =? 0) eqn:E; b2p; [lia|]. cbn [length]. f_equal.
    apply IH; [lia|]. left. rewrite Z.pow_add_r by lia. change (128 ^ 1) with 128. lia.
Qed.

Lemma varint_len_small v : 0 <= v < 128 -> varint_len v = 1.
Proof. intros Hv. unfold varint_len, len, encode_varint. rewrite (varint_fuel_len 10 0); [done|lia|by right]. Qed.

Lemma varint_len_eq (k : nat) v :
  (k < 10)%nat -> 128 ^ Z.of_nat k <= v < 128 ^ (Z.of_nat k + 1) -> varint_len v = Z.of_nat k + 1.
Proof.
  intros Hk Hv. unfold varint_len, len, encode_varint. rewrite (varint_fuel_len 10 k); [lia|done|by left].
Qed.

(** ** CIDs *)

(** The binary form of a CIDv1: version, codec, and the multihash (code, length,
    digest), the numbers as varints. *)
Class CidLayout `{Host} : Prop :=
  cid_layout codec code digest mh :
    Multihash_wrap code digest = Some mh ->
    len (CidGeneric_to_bytes (CidGeneric_new_v1 codec mh)) =
      1 + varint_len codec + varint_len code + varint_len (len digest) + len digest.

Section Cids.
Context `{HostLaws}.

(** The CID of data under a codec and an algorithm. *)
Definition cid_of (codec : SdkCidCodec) (a : HashingAlgorithm) (data : bytes) : CidData :=
  mkCidData (hash a data) a (codec_code codec).

Definition cid_bytes_of (codec : SdkCidCodec) (a : HashingAlgorithm) (data : bytes) : bytes :=
  default [] (to_bytes (cid_of codec a data)).

Lemma calculate_cid_of codec a data :
  calculate_cid data (mkCidConfig (codec_code codec) a) = Ok (cid_of codec a data).
Proof. apply calculate_cid_total. Qed.

Lemma to_bytes_of codec a data : to_bytes (cid_of codec a data) = Some (cid_bytes_of codec a data).
Proof.
  unfold cid_bytes_of, to_bytes, CidGeneric_try_from. simpl.
  destruct (Multihash_wrap_fits (multihash_code a) (hash a data)) as [mh ->]; [rewrite hash_length; lia|done].
Qed.

Lemma cid_bytes_len `{!CidLayout} codec a data :
  len (cid_bytes_of codec a data) = 34 + varint_len (codec_code codec) + varint_len (multihash_code a).
Proof.
  unfold cid_bytes_of, to_bytes, CidGeneric_try_from. simpl.
  destruct (Multihash_wrap_fits (multihash_code a) (hash a data)) as [mh E]; [rewrite hash_length; lia|].
  rewrite E. simpl. rewrite (cid_layout _ _ _ _ E).
  replace (len (hash a data)) with 32 by (unfold len; by rewrite hash_length).
  rewrite (varint_len_small 32) by lia. lia.
Qed.
End Cids.

(** ** Results *)

Lemma collect_all {E A B} (f : A -> result E B) g l :
  Forall (fun x => f x = Ok (g x)) l -> collect f l = Ok (map g l).
Proof. induction 1 as [|x l Hx _ IH]; [done|]. cbn [collect]. by rewrite Hx; simpl; rewrite IH. Qed.

Lemma collect_inv {E A B} (f : A -> result E B) l ys :
  collect f l = Ok ys -> Forall2 (fun x y => f x = Ok y) l ys.
Proof.
  revert ys. induction l as [|x l IH]; intros ys; cbn [collect].
  - intros [= <-]. constructor.
  - destruct (f x) as [y|] eqn:Ex; [|done]. simpl. destruct (collect f l) as [ys'|] eqn:El; [|done].
    intros [= <-]. constructor; [done|by apply IH].
Qed.

(** ** Chunking *)

Definition config_ok (c : ChunkerConfig) : Prop := 1 <= chunk_size c <= MAX_CHUNK_SIZE.

Lemma FixedSizeChunker_new_ok c k :
  0 <= chunk_size c -> FixedSizeChunker_new c = Ok k <-> k = c /\ config_ok c.
Proof.
  intros Hc. unfold FixedSizeChunker_new, config_ok. rewrite as_u32_small by done.
  destruct (_ =? 0) eqn:E1; b2p; [split; [done|lia]|].
  destruct (_ <? _) eqn:E2; b2p; [split; [done|lia]|]. split; [intros [= ->]; split; [done|lia]|by intros [-> _]].
Qed.

Lemma imap_data n total (l : list bytes) :
  map chunk_data (imap (fun index d => mkChunk d (as_u32 (Z.of_nat (n + index))) total) l) = l.
Proof.
  revert n. induction l as [|d l IH]; intros n; [done|]. rewrite imap_cons. cbn [map chunk_data]. f_equal.
  rewrite <-(IH (S n)) at 2. f_equal. apply imap_ext. intros i x Hx. simpl. by rewrite Nat.add_succ_r.
Qed.

Lemma imap_in_order n total (l : list bytes) :
  chunks_in_order total (Z.of_nat n)
    (imap (fun index d => mkChunk d (as_u32 (Z.of_nat (n + index))) total) l) = true.
Proof.
  revert n. induction l as [|d l IH]; intros n; [done|]. rewrite imap_cons. cbn [chunks_in_order chunk_total chunk_index].
  rewrite Z.eqb_refl, Nat.add_0_r, Z.eqb_refl. simpl. replace (Z.of_nat n + 1) with (Z.of_nat (S n)) by lia.
  rewrite <-(IH (S n)). f_equal. apply imap_ext. intros i x Hx. simpl. by rewrite Nat.add_succ_r.
Qed.

Lemma reassemble_ok cs total :
  cs <> [] -> total = as_u32 (len cs) -> chunks_in_order total 0 cs = true ->
  reassemble_chunks cs = Ok (concat (map chunk_data cs)).
Proof.
  intros Hne Ht Ho. destruct cs as [|k cs]; [done|]. unfold reassemble_chunks.
  pose proof Ho as Hk. cbn [chunks_in_order] in Hk. apply andb_true_iff in Hk as [Hk _].
  apply andb_true_iff in Hk as [Hk _]. apply Z.eqb_eq in Hk. rewrite Hk, <-Ht, Z.eqb_refl, Ho. done.
Qed.

Section Chunking.
Context (c : ChunkerConfig) (Hc : config_ok c).

(** Chunking splits the data into pieces of the configured size. *)
Lemma chunker_chunk_spec data cs :
  chunker_chunk c data = Ok cs ->
  0 < len data <= MAX_FILE_SIZE /\ map chunk_data cs = chunks (Z.to_nat (chunk_size c)) data /\
  len cs = div_ceil (len data) (chunk_size c) /\ 0 < len cs <= MAX_FILE_SIZE /\
  reassemble_chunks cs = Ok data.
Proof.
  unfold config_ok in Hc. unfold chunker_chunk. destruct (len data =? 0) eqn:E0; b2p; [done|].
  destruct (MAX_FILE_SIZE <? len data) eqn:E1; b2p; [done|]. pose proof (len_nonneg data).
  set (pieces := chunks (Z.to_nat (chunk_size c)) data).
  set (total := as_u32 (chunker_num_chunks c (len data))). intros [= <-].
  set (cs := imap _ _).
  assert (map chunk_data cs = pieces) as Hd by apply (imap_data 0 total pieces).
  assert (len cs = len pieces) as Hl by (rewrite <-Hd; unfold len; by rewrite length_map).
  assert (len pieces = div_ceil (len data) (chunk_size c)) as Hp
    by (unfold pieces; rewrite len_chunks, Z2Nat.id by lia; done).
  assert (0 < len pieces <= len data) as Hb.
  { rewrite Hp. unfold div_ceil. split; [apply Z.div_str_pos; lia|].
    apply Z.div_le_upper_bound; nia. }
  assert (total = len cs) as Ht.
  { unfold total, chunker_num_chunks. rewrite (proj2 (Z.eqb_neq _ _)) by done.
    rewrite <-Hp, as_u32_small, Hl; [done|]. unfold is_u32, u32_max, MAX_FILE_SIZE in *. lia. }
  assert (concat pieces = data) as Hcat by (apply concat_chunks; lia).
  split_and!; [lia|lia|done|by rewrite Hl|lia|lia|].
  rewrite (reassemble_ok cs total), Hd, Hcat; [done|..].
  - intros Hn. rewrite Hn in Hl. unfold len in *. simpl in Hl. lia.
  - rewrite Ht. symmetry. apply as_u32_small. unfold is_u32, u32_max, MAX_FILE_SIZE in *. lia.
  - exact (imap_in_order 0 total pieces).
Qed.
End Chunking.

(** ** Batches *)

Definition size_ok (d : bytes) : Prop := 0 < len d <= MAX_CHUNK_SIZE.

Lemma op_validate_ok op : op_validate op = Ok tt <-> size_ok (op_data op).
Proof.
  unfold op_validate, size_ok. pose proof (len_nonneg (op_data op)).
  destruct (_ =? 0) eqn:E; b2p; [split; [done|lia]|].
  destruct (_ <? _) eqn:E1; b2p; [split; [done|lia]|]. split; [lia|done].
Qed.

Definition operation (options : StoreOptions) (d : bytes) : StorageOperation :=
  mkStorageOperation d (mkCidConfig (codec_code (cid_codec options)) (hash_algorithm options))
    (wait_for options).

Lemma Batch_from_chunks_ok datas options :
  Forall size_ok datas ->
  Batch_from_chunks datas options = Ok (mkBatch (map (operation options) datas) (wait_for options)).
Proof.
  intros Hd. unfold Batch_from_chunks. rewrite (collect_all _ (operation options)); [done|].
  eapply Forall_impl; [exact Hd|]. intros d Hs. simpl.
  pose proof (proj2 (op_validate_ok (operation options d)) Hs) as Hv. unfold operation in Hv.
  by rewrite Hv.
Qed.

(** ** Manifests *)

Section Manifests.
Context `{HostLaws}.

(** The bytes of the manifest of a list of pieces. *)
Definition manifest_bytes (a : HashingAlgorithm) (datas : list bytes) : bytes :=
  encode_dag_node
    (map (fun d => encode_dag_link (cid_bytes_of Raw a d) [] (len d)) datas)
    (encode_unixfs_file_data (map len datas) (as_u64 (lsum len datas))).

Lemma collect_links a cs :
  collect (fun p : CidData * Chunk =>
    let? cid_bytes := ok_or (to_bytes p.1) DagEncodingFailed in
    Ok (encode_dag_link cid_bytes [] (len (chunk_data p.2))))
    (zip (map (fun c => cid_of Raw a (chunk_data c)) cs) cs)
  = Ok (map (fun d => encode_dag_link (cid_bytes_of Raw a d) [] (len d)) (map chunk_data cs)).
Proof.
  induction cs as [|c cs IH]; [done|]. cbn [map zip_with collect fst snd].
  rewrite to_bytes_of. cbn [ok_or bind_ok]. by rewrite IH.
Qed.

Lemma lsum_map {A B} (f : B -> Z) (g : A -> B) l : lsum f (map g l) = lsum (fun x => f (g x)) l.
Proof. induction l as [|x l IH]; [done|]. unfold lsum in *. simpl. by rewrite IH. Qed.

Lemma dag_build_ok cs a :
  0 < len cs <= MAX_MANIFEST_CHUNKS ->
  let datas := map chunk_data cs in
  dag_build cs a = Ok (mkManifest (cid_of DagPb a (manifest_bytes a datas)) (map (cid_of Raw a) datas)
    (as_u64 (lsum len datas)) (manifest_bytes a datas)).
Proof.
  intros Hl datas. unfold dag_build.
  rewrite (proj2 (Z.eqb_neq _ _)), (proj2 (Z.ltb_ge _ _)) by lia.
  rewrite (collect_all _ (fun c => cid_of Raw a (chunk_data c)))
    by (apply Forall_true; intros c; by rewrite calculate_cid_of).
  cbn [bind_ok]. rewrite collect_links. cbn [bind_ok]. fold datas.
  assert (map (fun c => len (chunk_data c)) cs = map len datas) as -> by (unfold datas; by rewrite map_map).
  assert (lsum (fun c => len (chunk_data c)) cs = lsum len datas) as -> by (unfold datas; by rewrite lsum_map).
  fold (manifest_bytes a datas). rewrite calculate_cid_of. cbn [bind_ok]. unfold datas. by rewrite map_map.
Qed.

Lemma dag_build_err cs a :
  MAX_MANIFEST_CHUNKS < len cs -> dag_build cs a = Err DagEncodingFailed.
Proof.
  intros Hl. unfold dag_build. rewrite (proj2 (Z.eqb_neq _ _)) by (unfold MAX_MANIFEST_CHUNKS in *; lia).
  by rewrite (proj2 (Z.ltb_lt _ _)).
Qed.

Lemma lsum_bound {A} (f : A -> Z) k l : Forall (fun x => 0 <= f x <= k) l -> 0 <= lsum f l <= k * len l.
Proof.
  induction 1 as [|x l Hx _ IH]; [unfold lsum, len; simpl; lia|].
  unfold lsum, len in *. cbn [foldr length]. rewrite Nat2Z.inj_succ. nia.
Qed.

Lemma concat_len {A} (l : list (list A)) : len (concat l) = lsum len l.
Proof. induction l as [|x l IH]; [done|]. cbn [concat]. rewrite len_app, IH. done. Qed.

Context `{!CidLayout}.

Lemma cid_bytes_small a d : 0 <= len (cid_bytes_of Raw a d) <= 54.
Proof.
  split; [apply len_nonneg|]. rewrite cid_bytes_len.
  pose proof (encode_varint_length (codec_code Raw)). pose proof (encode_varint_length (multihash_code a)).
  unfold varint_len. lia.
Qed.

Lemma link_len a d :
  len (encode_dag_link (cid_bytes_of Raw a d) [] (len d)) =
    2 + varint_len (len (cid_bytes_of Raw a d)) + len (cid_bytes_of Raw a d) + varint_len (len d).
Proof.
  rewrite encode_link_fields, concat_len. unfold lsum, varint_len. cbn [map foldr write_field].
  unfold len. rewrite !length_cons, length_app. unfold len. lia.
Qed.

Lemma unixfs_len sizes total :
  len (encode_unixfs_file_data sizes total) = 3 + varint_len total + lsum (fun n => 1 + varint_len n) sizes.
Proof.
  rewrite encode_unixfs_fields, concat_len. cbn [map lsum foldr]. rewrite map_map.
  change (len (write_field (VarintField 1 2))) with 2.
  assert (len (write_field (VarintField 3 total)) = 1 + varint_len total) as ->
    by (unfold varint_len, len; simpl write_field; rewrite length_cons; lia).
  fold (lsum len (map (fun n => write_field (VarintField 4 n)) sizes)). rewrite lsum_map.
  assert (lsum (fun n => len (write_field (VarintField 4 n))) sizes = lsum (fun n => 1 + varint_len n) sizes) as ->.
  { induction sizes as [|n sizes IH]; [done|]. unfold lsum in *. cbn [foldr]. rewrite IH.
    f_equal. unfold varint_len, len. simpl write_field. rewrite length_cons. lia. }
  lia.
Qed.

Lemma size_ok_bound datas : Forall size_ok datas -> Forall (fun d => 0 <= len d <= MAX_CHUNK_SIZE) datas.
Proof. intros Hd. eapply Forall_impl; [exact Hd|]. unfold size_ok. intros d Hs. simpl. lia. Qed.

Lemma read_link_of a d :
  size_ok d ->
  read_link (encode_dag_link (cid_bytes_of Raw a d) [] (len d)) = Some (cid_bytes_of Raw a d, len d).
Proof.
  intros Hd. unfold read_link. rewrite encode_link_fields, read_fields_write; [done|].
  pose proof (cid_bytes_small a d). unfold size_ok, MAX_CHUNK_SIZE in Hd.
  repeat constructor; unfold is_varint; lia.
Qed.

Lemma read_links_of a datas :
  Forall size_ok datas ->
  mapM read_link (map (fun d => encode_dag_link (cid_bytes_of Raw a d) [] (len d)) datas)
    = Some (map (fun d => (cid_bytes_of Raw a d, len d)) datas).
Proof.
  induction 1 as [|d datas Hd _ IH]; [done|]. cbn [map mapM]. rewrite read_link_of by done.
  cbn [mbind option_bind]. by rewrite IH.
Qed.

Lemma unixfs_small datas total :
  Forall size_ok datas -> 0 <= total -> 0 < len (encode_unixfs_file_data (map len datas) total) <= 13 + 11 * len datas.
Proof.
  intros Hd Ht. rewrite unixfs_len, lsum_map. pose proof (encode_varint_length total).
  assert (0 <= lsum (fun d : bytes => 1 + varint_len (len d)) datas <= 11 * len datas).
  { apply lsum_bound, Forall_true. intros d. pose proof (encode_varint_length (len d)). unfold varint_len. lia. }
  unfold varint_len in *. lia.
Qed.

Lemma read_unixfs sizes total :
  is_varint total -> Forall is_varint sizes ->
  read_fields (encode_unixfs_file_data sizes total)
    = Some (VarintField 1 2 :: VarintField 3 total :: map (VarintField 4) sizes).
Proof.
  intros Ht Hs. rewrite encode_unixfs_fields. apply read_fields_write.
  constructor; [split; [lia|unfold is_varint; lia]|]. constructor; [split; [lia|done]|].
  apply Forall_map. eapply Forall_impl; [exact Hs|]. intros n Hn. split; [lia|done].
Qed.

Lemma varints_of_unixfs sizes total n :
  n <> 4 -> varints_of n (VarintField 1 2 :: VarintField 3 total :: map (VarintField 4) sizes)
    = (if 1 =? n then [2] else []) ++ (if 3 =? n then [total] else []).
Proof.
  intros Hn. assert (varints_of n (map (VarintField 4) sizes) = []) as Hs.
  { induction sizes as [|x sizes IH]; [done|]. cbn [map varints_of].
    by rewrite (proj2 (Z.eqb_neq _ _)) by done. }
  cbn [varints_of]. rewrite Hs. destruct (1 =? n), (3 =? n); done.
Qed.

(** Reading the manifest of pieces of a storable size gives the pieces' CIDs and
    sizes in order. *)
Lemma read_manifest_bytes a datas :
  datas <> [] -> Forall size_ok datas -> len datas <= MAX_MANIFEST_CHUNKS ->
  read_manifest (manifest_bytes a datas) =
    Some (mkFileView (map (fun d => (cid_bytes_of Raw a d, len d)) datas) (Some 2) (Some (lsum len datas))
      (map len datas)).
Proof.
  intros Hne Hd Hl. unfold MAX_MANIFEST_CHUNKS in Hl.
  pose proof (lsum_bound len MAX_CHUNK_SIZE datas (size_ok_bound _ Hd)) as Ht. unfold MAX_CHUNK_SIZE in Ht.
  pose proof (len_nonneg datas) as Hn.
  assert (as_u64 (lsum len datas) = lsum len datas) as Hu by (apply Z.mod_small; nia).
  pose proof (unixfs_small datas (lsum len datas) Hd (proj1 Ht)) as Hx.
  assert (read_fields (manifest_bytes a datas) = Some (map (BytesField 2)
    (map (fun d => encode_dag_link (cid_bytes_of Raw a d) [] (len d)) datas)
      ++ [BytesField 1 (encode_unixfs_file_data (map len datas) (lsum len datas))])) as Hf.
  { unfold manifest_bytes. rewrite Hu, encode_node_fields.
    - apply read_fields_write, Forall_app. split.
      + apply Forall_map, Forall_map, Forall_true. intros d. split; [lia|].
        rewrite link_len. pose proof (cid_bytes_small a d).
        pose proof (encode_varint_length (len (cid_bytes_of Raw a d))).
        pose proof (encode_varint_length (len d)). unfold is_varint, varint_len. lia.
      + repeat constructor; unfold is_varint; lia.
    - intros E. rewrite E in Hx. unfold len in Hx. simpl in Hx. lia. }
  unfold read_manifest. rewrite Hf. rewrite bytes_of_links, (bytes_of_other 1 2) by done.
  cbn [bytes_of app]. change (1 =? 2) with false. change (1 =? 1) with true. cbv iota.
  rewrite app_nil_r, read_links_of by done. cbn [head mbind option_bind].
  rewrite read_unixfs.
  - rewrite !varints_of_unixfs by done. cbn [varints_of]. change (1 =? 4) with false. change (3 =? 4) with false.
    cbv iota. by rewrite varints_of_all.
  - unfold is_varint. nia.
  - apply Forall_map. eapply Forall_impl; [exact Hd|]. unfold size_ok, is_varint, MAX_CHUNK_SIZE. intros d ?. simpl. lia.
Qed.
End Manifests.

(** ** How long a manifest is *)

Section ManifestSize.
Context `{HostLaws} `{!CidLayout}.

Lemma piece_varint (d : bytes) : 0 < len d <= DEFAULT_CHUNK_SIZE -> 1 <= varint_len (len d) <= 3.
Proof.
  unfold DEFAULT_CHUNK_SIZE. intros Hd. destruct (Z.lt_ge_cases (len d) 128).
  - rewrite varint_len_small; lia.
  - destruct (Z.lt_ge_cases (len d) (128 * 128)).
    + rewrite (varint_len_eq 1); [lia|lia|simpl; lia].
    + rewrite (varint_len_eq 2); [lia|lia|simpl; lia].
Qed.

Lemma full_piece_varint (d : bytes) : len d = DEFAULT_CHUNK_SIZE -> varint_len (len d) = 3.
Proof. intros ->. done. Qed.

(** Among the pieces of a file all but the last are full. *)
Lemma pieces_varints n (data : bytes) :
  Z.of_nat n = DEFAULT_CHUNK_SIZE -> data <> [] ->
  3 * len (chunks n data) - 2 <= lsum (fun d : bytes => varint_len (len d)) (chunks n data)
    <= 3 * len (chunks n data).
Proof.
  intros Hn. assert (0 < n)%nat as Hp by (unfold DEFAULT_CHUNK_SIZE in Hn; lia).
  revert data. refine (chunks_ind n _ Hp _ _); [done|]. intros data Hne IH _. rewrite chunks_cons by done.
  set (rest := drop n data) in *. set (piece := take n data).
  assert (0 < len piece <= DEFAULT_CHUNK_SIZE) as Hpiece.
  { pose proof (chunks_bounds n data Hp) as Hb. rewrite chunks_cons in Hb by done.
    apply Forall_cons_1 in Hb as [Hb _]. by rewrite Hn in Hb. }
  pose proof (piece_varint piece Hpiece) as Hv.
  assert (forall k : list bytes, len (piece :: k) = 1 + len k) as Hlen
    by (intros k; unfold len; cbn [length]; lia).
  assert (forall k : list bytes, lsum (fun d : bytes => varint_len (len d)) (piece :: k)
    = varint_len (len piece) + lsum (fun d : bytes => varint_len (len d)) k) as Hsum by done.
  rewrite Hlen, Hsum. destruct (decide (rest = [])) as [E|Hrest].
  - rewrite E. change (chunks n (@nil byte)) with (@nil bytes). unfold lsum. simpl foldr.
    change (len (@nil bytes)) with 0. lia.
  - specialize (IH Hrest). rewrite (full_piece_varint piece); [lia|].
    rewrite <-Hn. unfold piece, len. f_equal. apply length_take_le.
    destruct (Nat.le_gt_cases n (length data)); [done|]. exfalso. apply Hrest, drop_ge. lia.
Qed.

Lemma blake2_cid_len d : len (cid_bytes_of Raw Blake2b256 d) = 38.
Proof. rewrite cid_bytes_len. reflexivity. Qed.

Lemma link_cost (d : bytes) :
  0 < len d <= DEFAULT_CHUNK_SIZE ->
  let link := encode_dag_link (cid_bytes_of Raw Blake2b256 d) [] (len d) in
  1 + varint_len (len link) + len link = 43 + varint_len (len d).
Proof.
  intros Hd link. pose proof (piece_varint d Hd). unfold link. rewrite link_len, blake2_cid_len.
  rewrite (varint_len_small 38) by lia. rewrite varint_len_small by lia. lia.
Qed.

(** Fifty bytes a piece, and at most ten more. *)
Lemma manifest_len n (data : bytes) :
  Z.of_nat n = DEFAULT_CHUNK_SIZE -> 0 < len data <= MAX_FILE_SIZE ->
  let pieces := chunks n data in
  50 * len pieces + 2 <= len (manifest_bytes Blake2b256 pieces) <= 50 * len pieces + 10.
Proof.
  intros Hc Hd pieces. unfold MAX_FILE_SIZE in Hd.
  assert (data <> []) as Hne by (intros ->; unfold len in Hd; simpl in Hd; lia).
  assert (0 < n)%nat as Hp by (unfold DEFAULT_CHUNK_SIZE in Hc; lia).
  pose proof (pieces_varints n data Hc Hne) as Hs. fold pieces in Hs.
  pose proof (chunks_bounds n data Hp) as Hb. fold pieces in Hb. rewrite Hc in Hb.
  pose proof (len_chunks n data Hp) as Hn. fold pieces in Hn. rewrite Hc in Hn.
  assert (lsum len pieces = len data) as Ht
    by (unfold pieces; rewrite <-concat_len, concat_chunks by done; done).
  assert (1 <= len pieces <= 64) as Hk.
  { rewrite Hn. unfold div_ceil, DEFAULT_CHUNK_SIZE.
    split; [apply Z.div_le_lower_bound|apply Z.lt_succ_r, Z.div_lt_upper_bound]; lia. }
  unfold manifest_bytes. rewrite Ht.
  assert (as_u64 (len data) = len data) as -> by (apply Z.mod_small; lia).
  set (unixfs := encode_unixfs_file_data _ _). set (S := lsum (fun d : bytes => varint_len (len d)) pieces) in *.
  assert (1 <= varint_len (len data) <= 4) as Hvt.
  { destruct (Z.lt_ge_cases (len data) 128); [rewrite varint_len_small; lia|].
    destruct (Z.lt_ge_cases (len data) (128 ^ 2)); [rewrite (varint_len_eq 1); simpl in *; lia|].
    destruct (Z.lt_ge_cases (len data) (128 ^ 3)); [rewrite (varint_len_eq 2); simpl in *; lia|].
    rewrite (varint_len_eq 3); simpl in *; lia. }
  assert (len unixfs = 3 + varint_len (len data) + len pieces + S) as Hu.
  { unfold unixfs. rewrite unixfs_len, lsum_map. unfold S. clear.
    assert (lsum (fun d : bytes => 1 + varint_len (len d)) pieces
      = len pieces + lsum (fun d : bytes => varint_len (len d)) pieces) as ->; [|lia].
    induction pieces as [|d l IH]; [done|]. unfold lsum, len in *. cbn [foldr length].
    rewrite Nat2Z.inj_succ, IH. lia. }
  assert (1 <= varint_len (len unixfs) <= 2) as Hvu.
  { destruct (Z.lt_ge_cases (len unixfs) 128); [rewrite varint_len_small; lia|].
    rewrite (varint_len_eq 1); simpl in *; lia. }
  rewrite encode_node_fields by (intros E; rewrite E in Hu; change (len []) with 0 in Hu; lia).
  rewrite concat_len, map_app, lsum_app.
  assert (lsum len (map write_field [BytesField 1 unixfs]) = 1 + varint_len (len unixfs) + len unixfs) as ->.
  { unfold lsum, varint_len, len. cbn [map foldr write_field]. rewrite length_cons, length_app. unfold len. lia. }
  rewrite !map_map, lsum_map.
  assert (lsum (fun d => len (write_field (BytesField 2
    (encode_dag_link (cid_bytes_of Raw Blake2b256 d) [] (len d))))) pieces = 43 * len pieces + S) as ->; [|lia].
  unfold S. clear -Hb H0 H1. induction Hb as [|d l Hd _ IH]; [done|].
  unfold lsum in *. cbn [foldr]. rewrite IH. pose proof (link_cost d Hd) as Hc. cbv zeta in Hc.
  cbn [write_field]. unfold len at 1. rewrite length_cons, length_app.
  unfold varint_len, len in *. cbn [length]. lia.
Qed.
End ManifestSize.
