(* ===== verification/SdkClient.v ===== *)
(** The Rust SDK's transaction client ([sdk/rust/src/transaction.rs]): the loop that
    follows a submitted transaction, the authorization query and the preflight of a
    store, and the call each method submits.

    The node is a parameter: what it answers to a submission (a finite stream of
    statuses), and the snapshot it gives of the latest block. *)

From S2P Require Import Prelude Slice Primitives Types State Authorizations Blocks Checks Renewal Hop Extension Codec Sdk.

(** ** Statuses *)

(** A block a transaction was seen in, and what the node answers about it: its number
    and whether the dispatch succeeded ([wait_for_success]). *)
Record TxInBlock := mkTxInBlock {
  ib_block_hash : bytes;
  ib_extrinsic_hash : bytes;
  ib_block_number : option Z;
  ib_success : bool }.

(** [subxt::tx::TxStatus], and an error of the stream itself. *)
Inductive TxStatus :=
| TxValidated
| TxBroadcasted
| TxInBestBlock (b : TxInBlock)
| TxInFinalizedBlock (b : TxInBlock)
| TxNoLongerInBestBlock
| TxInvalid
| TxDropped
| TxError
| TxStreamError.

(** [TransactionStatusEvent], as passed to the callback. *)
Inductive TransactionStatusEvent :=
| EvValidated
| EvBroadcasted
| EvInBestBlock (block_hash : bytes) (block_number extrinsic_index : option Z)
| EvFinalized (block_hash : bytes) (block_number extrinsic_index : option Z)
| EvNoLongerInBestBlock
| EvInvalid
| EvDropped.

Record SubmitResult := mkSubmitResult {
  sr_block_hash : bytes;
  sr_extrinsic_hash : bytes }.

(** The loop of [submit_and_watch]: [seen] is the block of the last in-block status.
    Returns the outcome and the events reported. *)
Fixpoint watch (target : WaitFor) (error : SdkError) (seen : option SubmitResult)
    (progress : list TxStatus) : SdkResult SubmitResult * list TransactionStatusEvent :=
  match progress with
  | [] => (match seen with Some r => Ok r | None => Err error end, [])
  | status :: progress' =>
      let continue seen' ev :=
        let '(r, evs) := watch target error seen' progress' in (r, ev :: evs) in
      let settle b ev :=
        (if ib_success b
         then Ok (mkSubmitResult (ib_block_hash b) (ib_extrinsic_hash b)) else Err error, [ev]) in
      match status with
      | TxValidated => continue seen EvValidated
      | TxBroadcasted => continue seen EvBroadcasted
      | TxInBestBlock b =>
          let ev := EvInBestBlock (ib_block_hash b) (ib_block_number b) None in
          if bool_decide (target = InBlock) then settle b ev
          else continue (Some (mkSubmitResult (ib_block_hash b) (ib_extrinsic_hash b))) ev
      | TxInFinalizedBlock b => settle b (EvFinalized (ib_block_hash b) (ib_block_number b) None)
      | TxNoLongerInBestBlock => continue seen EvNoLongerInBestBlock
      | TxInvalid => (Err error, [EvInvalid])
      | TxDropped => (Err error, [EvDropped])
      | TxError => (Err error, [])
      | TxStreamError => (Err error, [])
      end
  end.

(** ** Receipts *)

Record StoreReceipt := mkStoreReceipt {
  rc_block_hash : bytes;
  rc_extrinsic_hash : bytes;
  rc_data_size : Z }.

Record AuthorizationReceipt := mkAuthorizationReceipt {
  ar_account : AccountId;
  ar_transactions : Z;
  ar_bytes : Z;
  ar_block_hash : bytes }.

Record PreimageAuthorizationReceipt := mkPreimageReceipt {
  pr_content_hash : ContentHash;
  pr_max_size : Z;
  pr_block_hash : bytes }.

Record RenewReceipt := mkRenewReceipt {
  rr_entry : TransactionRef;
  rr_block_hash : bytes }.

(** ** The node *)

(** A connection: submitting a call yields the stream, or fails
    ([submit_at_best_block]); the latest block gives its number and raw storage
    values, each request may fail. *)
Record Node `{HopHost} := mkNode {
  node_submit : AccountId -> RuntimeCall -> option (list TxStatus);
  node_latest : option Z;
  node_fetch_authorization : AccountId -> option (option bytes) }.

(** [StoredAuthorization]: the value of [Authorizations], decoded by position. *)
Record StoredAuthorization := mkStoredAuthorization {
  st_transactions : Z;
  st_transactions_allowance : Z;
  st_bytes : Z;
  st_extra : Z;
  st_bytes_allowance : Z;
  st_expiration : Z }.

Section Client.
Context `{ScaleHost} `{HopHost} (node : Node).

Definition stored_authorization_codec : Codec StoredAuthorization :=
  struct_codec
    (fun '(t, (ta, (b, (x, (ba, e))))) => mkStoredAuthorization t ta b x ba e)
    (fun a => (st_transactions a, (st_transactions_allowance a, (st_bytes a, (st_extra a,
      (st_bytes_allowance a, st_expiration a))))))
    (pair_codec u32_codec (pair_codec u32_codec (pair_codec u64_codec (pair_codec u64_codec
      (pair_codec u64_codec u32_codec))))).

(** [submit_and_watch]. *)
Definition submit_and_watch (signer : AccountId) (tx : RuntimeCall) (target : WaitFor)
    (error : SdkError) : SdkResult SubmitResult * list TransactionStatusEvent :=
  match node_submit node signer tx with
  | None => (Err error, [])
  | Some progress => watch target error None progress
  end.

(** [query_account_authorization]. *)
Definition query_account_authorization (who : AccountId) : SdkResult (option (Z * Z)) :=
  match node_latest node with
  | None => Err NetworkError
  | Some current_block_number =>
      match node_fetch_authorization node who with
      | None => Err NetworkError
      | Some None => Ok None
      | Some (Some raw) =>
          match decode_ok stored_authorization_codec raw with
          | None => Err NetworkError
          | Some auth =>
              if st_expiration auth <=? current_block_number then Ok None
              else Ok (Some (sat_sub (st_transactions_allowance auth) (st_transactions auth),
                             sat_sub (st_bytes_allowance auth) (st_bytes auth)))
          end
      end
  end.

(** [check_authorization_for_store]. *)
Definition check_authorization_for_store (who : AccountId)
    (required_transactions required_bytes : Z) : SdkResult unit :=
  let? auth_data := query_account_authorization who in
  match auth_data with
  | Some (transactions, bytes) =>
      manager_check_authorization (mkSdkAuthorization AccountScope transactions bytes None)
        required_bytes required_transactions
  | None => Err SdkAuthorizationNotFound
  end.

(** [store_with_progress]. *)
Definition store_with_progress (data : bytes) (signer : AccountId) (target : WaitFor)
    : SdkResult StoreReceipt * list TransactionStatusEvent :=
  let data_size := as_u64 (len data) in
  match check_authorization_for_store signer 1 data_size with
  | Err e => (Err e, [])
  | Ok _ =>
      let '(r, evs) :=
        submit_and_watch signer (TransactionStorage (CallStore data)) target StorageFailed in
      (result_map (fun r => mkStoreReceipt (sr_block_hash r) (sr_extrinsic_hash r) data_size) r, evs)
  end.

(** [TransactionClient::store]: no callback. *)
Definition client_store (data : bytes) (signer : AccountId) (target : WaitFor) : SdkResult StoreReceipt :=
  (store_with_progress data signer target).1.

(** The other methods submit one call each and report no progress. *)
Definition client_authorize_account (who : AccountId) (transactions bytes : Z) (signer : AccountId)
    (target : WaitFor) : SdkResult AuthorizationReceipt :=
  let? result := (submit_and_watch signer
    (TransactionStorage (CallAuthorizeAccount who transactions bytes)) target TransactionFailed).1 in
  Ok (mkAuthorizationReceipt who transactions bytes (sr_block_hash result)).

Definition client_authorize_preimage (h : ContentHash) (max_size : Z) (signer : AccountId)
    (target : WaitFor) : SdkResult PreimageAuthorizationReceipt :=
  let? result := (submit_and_watch signer
    (TransactionStorage (CallAuthorizePreimage h max_size)) target TransactionFailed).1 in
  Ok (mkPreimageReceipt h max_size (sr_block_hash result)).

Definition client_renew (entry : TransactionRef) (signer : AccountId) (target : WaitFor)
    : SdkResult RenewReceipt :=
  let? result := (submit_and_watch signer (DataRenewal (CallRenew entry)) target RenewalFailed).1 in
  Ok (mkRenewReceipt entry (sr_block_hash result)).

Definition client_force_renew (entry : TransactionRef) (signer : AccountId) (target : WaitFor)
    : SdkResult RenewReceipt :=
  let? result := (submit_and_watch signer (DataRenewal (CallForceRenew entry)) target RenewalFailed).1 in
  Ok (mkRenewReceipt entry (sr_block_hash result)).

Definition client_refresh_account_authorization (who signer : AccountId) (target : WaitFor)
    : SdkResult unit :=
  let? _ := (submit_and_watch signer
    (TransactionStorage (CallRefreshAccountAuthorization who)) target TransactionFailed).1 in
  Ok tt.

Definition client_refresh_preimage_authorization (h : ContentHash) (signer : AccountId)
    (target : WaitFor) : SdkResult unit :=
  let? _ := (submit_and_watch signer
    (TransactionStorage (CallRefreshPreimageAuthorization h)) target TransactionFailed).1 in
  Ok tt.

Definition client_remove_expired_account_authorization (who signer : AccountId) (target : WaitFor)
    : SdkResult unit :=
  let? _ := (submit_and_watch signer
    (TransactionStorage (CallRemoveExpiredAccountAuthorization who)) target TransactionFailed).1 in
  Ok tt.

Definition client_remove_expired_preimage_authorization (h : ContentHash) (signer : AccountId)
    (target : WaitFor) : SdkResult unit :=
  let? _ := (submit_and_watch signer
    (TransactionStorage (CallRemoveExpiredPreimageAuthorization h)) target TransactionFailed).1 in
  Ok tt.
End Client.
