(* ===== verification/Stress.v ===== *)
(** The readers and signers of the stress-test tool ([stress-test/src]) that depend on
    what the pallets store and verify: the discovery of CIDs from raw storage
    ([scenarios/bitswap_bulk_read.rs]) and the payloads of HOP requests ([hop.rs]). *)

From S2P Require Import Prelude Slice Primitives Types State Hop Codec.

(** ** Reading [Transactions] *)

(** Code outside the repository: [Compact<u64>] of the codec crate and [cid::Cid], whose
    multihash holds up to 64 bytes. *)
Class ReaderHost := {
  compact_u64 : Codec Z;
  Multihash64 : Type;
  Multihash64_wrap : Z -> bytes -> option Multihash64;
  LongCid : Type;
  LongCid_new_v1 : Z -> Multihash64 -> LongCid;
  LongCid_to_bytes : LongCid -> bytes;
}.

(** Compact integers are written the same whatever the width of their type; digests of
    up to 64 bytes are wrapped; and the bytes of a CID do not depend on the capacity of
    the multihash it is kept in. *)
Class ReaderLaws `{Host} `{ScaleHost} `{ReaderHost} : Prop := {
  compact_widths n rest : is_u32 n -> dec compact_u64 (enc compact_codec n ++ rest) = Some (n, rest);
  Multihash64_wrap_fits code digest : (length digest <= 64)%nat -> is_Some (Multihash64_wrap code digest);
  long_cid_bytes codec code digest mh mh' :
    Multihash64_wrap code digest = Some mh -> Multihash_wrap code digest = Some mh' ->
    LongCid_to_bytes (LongCid_new_v1 codec mh) = CidGeneric_to_bytes (CidGeneric_new_v1 codec mh');
}.

(** [u8]. *)
Definition u8_codec : Codec byte := {|
  enc b := [b];
  dec raw := match raw with b :: rest => Some (b, rest) | [] => None end |}.

Section Reader.
Context `{ScaleHost} `{ReaderHost}.

Record DiscoveredItem := mkDiscovered {
  di_cid : LongCid;
  di_size : Z;
  di_chunk_root : bytes;
  di_content_hash : bytes;
  di_hashing_variant : byte;
  di_cid_codec : Z;
  di_block_chunks : Z;
  di_block_number : Z }.

(** The multihash code of a hashing variant. *)
Definition mh_code (hashing_variant : byte) : option Z :=
  match byte_to_Z hashing_variant with
  | 0 => Some 45600
  | 1 => Some 18
  | 2 => Some 27
  | _ => None
  end.

(** [decode_one_transaction_info]: [None] is a decoding error, an inner [None] an entry
    that is skipped. *)
Definition decode_one_transaction_info (input : bytes) (block_number : Z) : option (option DiscoveredItem * bytes) :=
  '(chunk_root, input) ← dec (array_codec 32) input;
  '(content_hash, input) ← dec (array_codec 32) input;
  '(hashing_variant, input) ← dec u8_codec input;
  '(cid_codec, input) ← dec u64_codec input;
  '(size, input) ← dec u32_codec input;
  '(_, input) ← dec u32_codec input;
  '(block_chunks, input) ← dec u32_codec input;
  '(_, input) ← dec u8_codec input;
  Some (match mh_code hashing_variant with
        | None => None
        | Some code =>
            match Multihash64_wrap code content_hash with
            | None => None
            | Some mh => Some (mkDiscovered (LongCid_new_v1 cid_codec mh) size chunk_root content_hash
                hashing_variant cid_codec block_chunks block_number)
            end
        end, input).

(** The loop over the entries, which stops at the first that does not decode. *)
Fixpoint decode_entries (count : nat) (input : bytes) (block_number : Z) : list DiscoveredItem :=
  match count with
  | O => []
  | S count' =>
      match decode_one_transaction_info input block_number with
      | Some (Some item, input') => item :: decode_entries count' input' block_number
      | Some (None, input') => decode_entries count' input' block_number
      | None => []
      end
  end.

(** [decode_transaction_infos]. *)
Definition decode_transaction_infos (data : bytes) (block_number : Z) : list DiscoveredItem :=
  match dec compact_u64 data with
  | None => []
  | Some (count, input) => decode_entries (Z.to_nat count) input block_number
  end.

(** The block number at the end of a storage key. *)
Definition key_block_number (key_bytes : bytes) : Z :=
  if (36 <=? length key_bytes)%nat then le_value (drop (length key_bytes - 4) key_bytes) else 0.

(** The size filter of [discover_cids]. *)
Definition size_matches (min_size max_size : Z) (item : DiscoveredItem) : bool :=
  (min_size <=? di_size item) && (di_size item <=? max_size).

(** The loop of [discover_cids] over what the storage iterator yields ([None] for an
    error it reports): the items so far, their bytes and the number skipped. *)
Fixpoint discover_loop (target_bytes min_size max_size : Z) (entries : list (option (bytes * bytes)))
    (acc : list DiscoveredItem * Z * Z) : list DiscoveredItem * Z * Z :=
  match entries with
  | [] => acc
  | None :: entries' => discover_loop target_bytes min_size max_size entries' acc
  | Some (key_bytes, encoded) :: entries' =>
      let parsed := decode_transaction_infos encoded (key_block_number key_bytes) in
      let acc' := foldl (fun '(items, total_bytes, skipped) item =>
        if size_matches min_size max_size item
        then (items ++ [item], total_bytes + di_size item, skipped)
        else (items, total_bytes, skipped + 1)) acc parsed in
      if target_bytes <=? acc'.1.2 then acc' else discover_loop target_bytes min_size max_size entries' acc'
  end.

(** [discover_cids]: no item is an error. *)
Definition discover_cids (target_bytes min_size max_size : Z) (entries : list (option (bytes * bytes)))
    : option (list DiscoveredItem) :=
  match discover_loop target_bytes min_size max_size entries ([], 0, 0) with
  | ([], _, _) => None
  | (items, _, _) => Some items
  end.
End Reader.

(** ** HOP requests *)

Definition client_HOP_SUBMIT_CONTEXT : bytes := String.list_byte_of_string "hop-submit-v1:".
Definition HOP_CLAIM_CONTEXT : bytes := String.list_byte_of_string "hop-claim-v1:".

Section HopClient.
Context `{Host}.

(** [op_signing_payload]. *)
Definition op_signing_payload (context hash : bytes) : bytes := blake2_256 (context ++ hash).

(** [submit_signing_payload]. *)
Definition submit_signing_payload (data : bytes) (submit_timestamp : Z) : bytes :=
  let data_hash := blake2_256 data in
  blake2_256 (client_HOP_SUBMIT_CONTEXT ++ data_hash ++ u64_to_le_bytes submit_timestamp).
End HopClient.

(** ** Facts *)

Section ReaderFacts.
Context `{HostLaws} `{ScaleLaws} `{!ReaderHost} `{!ReaderLaws}.

(** A discovered item describes an entry: its fields, and the CID the pallet gives it. *)
Definition describes (block_number : Z) (t : TransactionInfoFor) (item : DiscoveredItem) : Prop :=
  di_size item = ti_size t /\ di_chunk_root item = ti_chunk_root t /\
  di_content_hash item = ti_content_hash t /\ di_cid_codec item = ti_cid_codec t /\
  di_block_chunks item = ti_block_chunks t /\ di_block_number item = block_number /\
  to_bytes (mkCidData (ti_content_hash t) (ti_hashing t) (ti_cid_codec t)) = Some (LongCid_to_bytes (di_cid item)).

Lemma u8_round b rest : dec u8_codec (b :: rest) = Some (b, rest).
Proof. done. Qed.

(** The reader's variants and codes are the pallet's. *)
Lemma mh_code_hashing a :
  mh_code (byte_of_Z (match a with Blake2b256 => 0 | Sha2_256 => 1 | Keccak256 => 2 end)) = Some (multihash_code a).
Proof. by destruct a. Qed.

Lemma decode_one_info t b :
  info_ok t -> exists item, describes b t item /\
    forall rest, decode_one_transaction_info (enc info_codec t ++ rest) b = Some (Some item, rest).
Proof.
  intros (Hr & Hh & Hk & Hn & Hx & Hc).
  destruct (Multihash64_wrap_fits (multihash_code (ti_hashing t)) (ti_content_hash t)) as [mh Hm];
    [simpl in *; lia|].
  destruct (Multihash_wrap_fits (multihash_code (ti_hashing t)) (ti_content_hash t)) as [mh' Hm'];
    [simpl in *; lia|].
  exists (mkDiscovered (LongCid_new_v1 (ti_cid_codec t) mh) (ti_size t) (ti_chunk_root t) (ti_content_hash t)
    (byte_of_Z (match ti_hashing t with Blake2b256 => 0 | Sha2_256 => 1 | Keccak256 => 2 end))
    (ti_cid_codec t) (ti_block_chunks t) b). split.
  - unfold describes, to_bytes, CidGeneric_try_from. cbn -[multihash_code]. rewrite Hm'.
    split_and!; try done. by rewrite (long_cid_bytes _ _ _ _ _ Hm Hm').
  - intros rest. unfold decode_one_transaction_info. cbn [enc info_codec struct_codec pair_codec fst snd].
    cbn [enc hashing_codec entry_kind_codec enum_codec]. rewrite <-!(assoc_L (++)). cbn [app].
    rewrite (round_trip (c := array_codec 32)) by exact Hr. cbn [mbind option_bind].
    rewrite (round_trip (c := array_codec 32)) by exact Hh. cbn [mbind option_bind].
    rewrite u8_round. cbn [mbind option_bind].
    rewrite (round_trip (c := u64_codec)) by exact Hk. cbn [mbind option_bind].
    rewrite (round_trip (c := u32_codec)) by exact Hn. cbn [mbind option_bind].
    rewrite (round_trip (c := u32_codec)) by exact Hx. cbn [mbind option_bind].
    rewrite (round_trip (c := u32_codec)) by exact Hc. cbn [mbind option_bind].
    rewrite u8_round. cbn [mbind option_bind]. by rewrite mh_code_hashing, Hm.
Qed.

Lemma bind_length {A B} n (c : Codec A) P (f : A -> bytes -> option (B * bytes)) k raw y rest :
  FixedSize c P n ->
  (forall x r, f x r = Some (y, rest) -> length r = (k + length rest)%nat) ->
  ('(x, r) ← dec c raw; f x r) = Some (y, rest) -> length raw = (n + k + length rest)%nat.
Proof.
  intros Hc Hf. destruct (dec c raw) as [[x r]|] eqn:E; [|done]. cbn [mbind option_bind].
  intros Hy. erewrite (dec_size (c := c)) by exact E. rewrite (Hf x r Hy). lia.
Qed.

#[export] Instance u8_size : FixedSize u8_codec (fun _ => True) 1.
Proof. constructor; [done|]. intros [|b raw] x rest; [done|]. by intros [= _ <-]. Qed.

(** An entry takes exactly 86 bytes. *)
Lemma decode_one_length raw b o rest :
  decode_one_transaction_info raw b = Some (o, rest) -> length raw = (86 + length rest)%nat.
Proof.
  unfold decode_one_transaction_info.
  apply (bind_length 32 (array_codec 32) _ _ 54 raw _ _ _); clear raw; intros ? raw.
  apply (bind_length 32 (array_codec 32) _ _ 22 raw _ _ _); clear raw; intros ? raw.
  apply (bind_length 1 u8_codec _ _ 21 raw _ _ _); clear raw; intros ? raw.
  apply (bind_length 8 u64_codec _ _ 13 raw _ _ _); clear raw; intros ? raw.
  apply (bind_length 4 u32_codec _ _ 9 raw _ _ _); clear raw; intros ? raw.
  apply (bind_length 4 u32_codec _ _ 5 raw _ _ _); clear raw; intros ? raw.
  apply (bind_length 4 u32_codec _ _ 1 raw _ _ _); clear raw; intros ? raw.
  apply (bind_length 1 u8_codec _ _ 0 raw _ _ _); clear raw; intros ? raw.
  by intros [= _ <-].
Qed.

Lemma info_length t : info_ok t -> length (enc info_codec t) = 86%nat.
Proof. apply (enc_size (c := info_codec)). Qed.

(** What is read of the entries, when only the first [k] bytes are there. *)
Lemma decode_entries_infos b l : Forall info_ok l -> exists items,
  Forall2 (describes b) l items /\
  forall k, decode_entries (length l) (take k (concat (map (enc info_codec) l))) b = take (k / 86)%nat items.
Proof.
  induction 1 as [|t l Ht Hl (items & Hd & IH)].
  - exists []. split; [done|]. intros k. by rewrite take_nil.
  - destruct (decode_one_info t b Ht) as (item & Hi & Hone).
    exists (item :: items). split; [by constructor|]. intros k. cbn [map concat length decode_entries].
    destruct (Nat.lt_ge_cases k 86) as [Hk|Hk].
    + rewrite Nat.div_small by done. destruct (decode_one_transaction_info _ b) as [[o rest]|] eqn:E; [|done].
      apply decode_one_length in E. rewrite length_take in E. lia.
    + rewrite take_app_ge by (rewrite info_length; [lia|done]). rewrite info_length, Hone, IH by done.
      replace (k / 86)%nat with (S ((k - 86) / 86)); [done|].
      replace k with (1 * 86 + (k - 86))%nat at 2 by lia. rewrite Nat.div_add_l by lia. lia.
Qed.

(** The whole value, as the pallet writes it, and its beginnings. *)
Lemma decode_infos `{!Config} `{!ConfigLaws} b l :
  infos_ok l -> exists items,
    Forall2 (describes b) l items /\ decode_transaction_infos (enc info_vec_codec l) b = items /\
    forall k, decode_transaction_infos (enc compact_codec (len l) ++ take k (concat (map (enc info_codec) l))) b
      = take (k / 86)%nat items.
Proof.
  intros [Hlen Hl]. destruct (decode_entries_infos b l Hl) as (items & Hd & Hk).
  assert (forall k, decode_transaction_infos (enc compact_codec (len l) ++ take k (concat (map (enc info_codec) l))) b
    = take (k / 86)%nat items) as Hpre.
  { intros k. unfold decode_transaction_infos. pose proof MaxBlockTransactions_range.
    rewrite compact_widths by (unfold is_u32; pose proof (len_nonneg l); lia).
    rewrite <-Hk. f_equal. unfold len. lia. }
  exists items. split; [done|]. split; [|exact Hpre].
  specialize (Hpre (86 * length l)%nat). rewrite take_ge in Hpre.
  - etransitivity; [exact Hpre|]. rewrite (Nat.mul_comm 86), Nat.div_mul by done.
    apply take_ge. by rewrite (Forall2_length _ _ _ Hd).
  - clear -Hl H2. induction Hl as [|t l Ht Hl IH]; [done|]. cbn [map concat length]. rewrite length_app, info_length by done. lia.
Qed.

(** What a scan of storage returns. *)
Definition read_entry (e : option (bytes * bytes)) : list DiscoveredItem :=
  match e with None => [] | Some (k, v) => decode_transaction_infos v (key_block_number k) end.

Definition size_sum (items : list DiscoveredItem) : Z := foldr (fun i z => di_size i + z) 0 items.

Lemma size_sum_app l k : size_sum (l ++ k) = size_sum l + size_sum k.
Proof. induction l as [|i l IH]; [done|]. unfold size_sum in *. simpl. rewrite IH. lia. Qed.

Lemma collect_items lo hi parsed items total skipped :
  let kept := List.filter (size_matches lo hi) parsed in
  foldl (fun '(items, total_bytes, skipped) item =>
    if size_matches lo hi item then (items ++ [item], total_bytes + di_size item, skipped)
    else (items, total_bytes, skipped + 1)) (items, total, skipped) parsed
  = (items ++ kept, total + size_sum kept, skipped + (len parsed - len kept)).
Proof.
  revert items total skipped. induction parsed as [|i l IH]; intros items total skipped; cbn [foldl List.filter].
  - rewrite app_nil_r. simpl. f_equal; [f_equal|]; unfold len; simpl; lia.
  - destruct (size_matches lo hi i); rewrite IH.
    + rewrite <-(assoc_L (++)). cbn [app]. f_equal; [f_equal; unfold size_sum; simpl; lia|unfold len; simpl; lia].
    + f_equal. unfold len. simpl. lia.
Qed.

Lemma discover_loop_spec target lo hi entries items total skipped :
  exists n, let kept := List.filter (size_matches lo hi) (concat (map read_entry (take n entries))) in
    let '(items', total', _) := discover_loop target lo hi entries (items, total, skipped) in
    items' = items ++ kept /\ total' = total + size_sum kept /\ ((length entries <= n)%nat \/ target <= total').
Proof.
  revert items total skipped. induction entries as [|[[k v]|] entries IH]; intros items total skipped.
  - exists 0%nat. simpl. rewrite app_nil_r. split_and!; [done|lia|by left].
  - cbn [discover_loop]. rewrite collect_items.
    set (parsed := decode_transaction_infos v (key_block_number k)).
    set (kept := List.filter (size_matches lo hi) parsed). cbn [fst snd].
    destruct (target <=? total + size_sum kept) eqn:E; b2p.
    + exists 1%nat. cbn [take map concat read_entry]. rewrite take_0. cbn [map concat]. rewrite app_nil_r.
      fold parsed kept. split_and!; [done|done|by right].
    + destruct (IH (items ++ kept) (total + size_sum kept) (skipped + (len parsed - len kept))) as [n Hn].
      exists (S n). cbn [take map concat read_entry length]. fold parsed. cbv zeta in *.
      rewrite List.filter_app. fold kept. destruct (discover_loop _ _ _ _ _) as [[items' total'] sk'].
      destruct Hn as (-> & -> & Hn). rewrite (assoc_L (++)), size_sum_app.
      split_and!; [done|lia|]. destruct Hn; [left; lia|right; lia].
  - cbn [discover_loop]. destruct (IH items total skipped) as [n Hn]. exists (S n).
    cbn [take map concat read_entry length app]. cbv zeta in *.
    destruct (discover_loop _ _ _ _ _) as [[items' total'] sk']. destruct Hn as (-> & -> & Hn).
    split_and!; [done|done|]. destruct Hn; [left; lia|by right].
Qed.

(** A storage key ends in the block number. *)
Lemma key_block_number_suffix prefix n :
  (32 <= length prefix)%nat -> is_u32 n -> key_block_number (prefix ++ le_bytes 4 n) = n.
Proof.
  intros Hp Hn. unfold key_block_number. rewrite length_app, length_le_bytes.
  rewrite (proj2 (Nat.leb_le _ _)) by lia. replace (length prefix + 4 - 4)%nat with (length prefix) by lia.
  rewrite drop_app_length, le_value_bytes. apply Z.mod_small. unfold is_u32, u32_max in Hn. lia.
Qed.
End ReaderFacts.
