(* ===== verification/StressPlan.v ===== *)
(** Load planning of the stress-test tool: payload mixes and the stream of work for the
    block-capacity pipeline ([stress-test/src/pipeline.rs], [accounts.rs],
    [scenarios/throughput.rs]), and the reader that consumes the stream. *)

From Stdlib Require Import Ascii.
From stdpp Require Import pretty.
From S2P Require Import Prelude Slice Primitives Types.

Definition usize_max : Z := u64_max.

(** ** Payload mixes *)

Record PayloadSizeMix := mkMix {
  mix_sizes : list Z;
  mix_weights : list Z;
  mix_total : Z }.

(** The loop of [from_weighted_sizes]. *)
Definition add_weighted (acc : list Z * list Z * Z) (p : Z * Z) : list Z * list Z * Z :=
  let '(sizes, weights, total) := acc in
  let '(sz, w) := p in
  if w =? 0 then acc else (sizes ++ [sz], weights ++ [w], sat_add_u32 total w).

(** [PayloadSizeMix::from_weighted_sizes]. *)
Definition from_weighted_sizes (pairs : list (Z * Z)) : option PayloadSizeMix :=
  match pairs with
  | [] => None
  | _ =>
      let '(sizes, weights, total) := foldl add_weighted ([], [], 0) pairs in
      if total =? 0 then None else Some (mkMix sizes weights total)
  end.

Definition max_payload_bytes (m : PayloadSizeMix) : Z :=
  match mix_sizes m with [] => 0 | s :: ss => foldl Z.max s ss end.

Definition min_payload_bytes (m : PayloadSizeMix) : Z :=
  match mix_sizes m with [] => 0 | s :: ss => foldl Z.min s ss end.

(** The loop of [sample] on the drawn number; [None] when it falls through. *)
Fixpoint sample_loop (sizes weights : list Z) (r : Z) : option Z :=
  match sizes, weights with
  | s :: sizes', w :: weights' => if r <? w then Some s else sample_loop sizes' weights' (r - w)
  | _, _ => None
  end.

(** [PayloadSizeMix::sample], given the draw of [gen_range(0..total)]. *)
Definition sample (m : PayloadSizeMix) (r : Z) : option Z :=
  match sample_loop (mix_sizes m) (mix_weights m) r with
  | Some s => Some s
  | None => last (mix_sizes m)
  end.

Inductive StorePayloadMode := FixedPayload (size : Z) | MixedPayload (mix : PayloadSizeMix).

(** [StorePayloadMode::authorize_bytes_per_account]. *)
Definition authorize_bytes_per_account (mode : StorePayloadMode) : Z :=
  let max_payload := match mode with FixedPayload n => n | MixedPayload m => max_payload_bytes m end in
  as_u64 (sat_add usize_max max_payload 1024).

Definition MAX_STORE_PAYLOAD_BYTES : Z := 2 * 1024 * 1024.

Definition ALL_PAYLOAD_SIZES : list (Z * string) := [
  (1024, "1KB"); (4096, "4KB"); (32 * 1024, "32KB"); (128 * 1024, "128KB"); (512 * 1024, "512KB");
  (1024 * 1024, "1MB"); (MAX_STORE_PAYLOAD_BYTES, "2MB")].

Definition REAL_WORLD_MIX_LABEL_WEIGHTS : list (string * Z) := [
  ("1KB", 230); ("4KB", 150); ("32KB", 120); ("128KB", 175); ("512KB", 155); ("1MB", 90); ("2MB", 80)].

Definition size_of_label (label : string) : option Z :=
  fst <$> List.find (fun p => bool_decide (p.2 = label)) ALL_PAYLOAD_SIZES.

(** [real_world_payload_mix]. *)
Definition real_world_payload_mix : option PayloadSizeMix :=
  pairs ← mapM (fun p => size ← size_of_label p.1; Some (size, p.2)) REAL_WORLD_MIX_LABEL_WEIGHTS;
  from_weighted_sizes pairs.

(** ** Accounts *)

(** Code outside the repository: keys derived from a secret URI. *)
Class KeyHost := {
  Keypair : Type;
  from_uri : string -> Keypair;
  to_account_id32 : Keypair -> AccountId;
}.

(** The URI of [keypair_at_derivation_prefix]. *)
Definition derivation_uri (prefix : string) (index : Z) : string :=
  "//" +:+ (prefix +:+ ("/" +:+ pretty index)).

Record IterationPlan := mkPlan { account_count : Z; derivation_prefix : string }.

(** The loop of [build_iteration_plans]; every round takes an account at least, so
    [fuel] of as many rounds as there are accounts is enough. *)
Fixpoint plans_loop (fuel : nat) (max_per_iteration : Z) (seed_prefix : string) (offset remaining : Z)
    : list IterationPlan :=
  match fuel with
  | O => []
  | S fuel' =>
      if 0 <? remaining then
        let taken := Z.min remaining max_per_iteration in
        mkPlan taken (seed_prefix +:+ ("_" +:+ pretty offset))
          :: plans_loop fuel' max_per_iteration seed_prefix (offset + taken) (remaining - taken)
      else []
  end.

(** [build_iteration_plans]. *)
Definition build_iteration_plans (total_accounts max_per_iteration : Z) (seed_prefix : string)
    : list IterationPlan :=
  let max_per_iteration := Z.max max_per_iteration 1 in
  match plans_loop (Z.to_nat total_accounts) max_per_iteration seed_prefix 0 total_accounts with
  | [] => [mkPlan 0 ""]
  | plans => plans
  end.

(** [block_capacity_accounts_per_iteration]. *)
Definition block_capacity_accounts_per_iteration (est_block_cap measured_blocks_per_iteration : Z) : Z :=
  as_u32 (Z.max (as_u64 (measured_blocks_per_iteration * est_block_cap)) 1).

(** ** The work stream *)

Definition AUTHORIZE_BATCH_SIZE : Z := 2048.

Inductive StressWorkItem :=
| Authorize (batches : list (list AccountId))
| AwaitPendingAuth
| StoreItem (account_id : AccountId) (extrinsic content_hash : bytes).

(** The batches of one plan. *)
Fixpoint ranges_loop (fuel : nat) (batch_start count : Z) : list (Z * Z) :=
  match fuel with
  | O => []
  | S fuel' =>
      if batch_start <? count then
        let batch_end := Z.min (sat_add_u32 batch_start AUTHORIZE_BATCH_SIZE) count in
        (batch_start, batch_end) :: ranges_loop fuel' batch_end count
      else []
  end.

Definition batch_ranges (count : Z) : list (Z * Z) := ranges_loop (Z.to_nat count) 0 count.

(** The batches of all plans, in order. *)
Definition plan_batches (plans : list IterationPlan) : list (IterationPlan * Z * Z) :=
  concat (map (fun p => if account_count p =? 0 then [] else map (fun '(s, e) => (p, s, e)) (batch_ranges (account_count p))) plans).

Section Generator.
Context `{KeyHost}.

Definition keypair_at_derivation_prefix (prefix : string) (index : Z) : Keypair :=
  from_uri (derivation_uri prefix index).

Definition keypairs_for_range (plan : IterationPlan) (range_start range_end : Z) : list Keypair :=
  map (keypair_at_derivation_prefix (derivation_prefix plan)) (seqZ range_start (range_end - range_start)).

Definition auth_batches_from_keypairs (keypairs : list Keypair) : list (list AccountId) :=
  map (map to_account_id32) (chunks (Z.to_nat AUTHORIZE_BATCH_SIZE) keypairs).

(** Randomness, the content digest, offline signing at nonce 0 (which may fail) and the
    order in which parallel signing tasks complete. *)
Variable generate_payload : Keypair -> Z -> bytes.
Variable blake2b_256 : bytes -> bytes.
Variable sign_store : Keypair -> bytes -> option bytes.
Variable draws : Z -> nat -> Z.
Variable arrival : list StressWorkItem -> list StressWorkItem.

(** The sizes of a batch; [from] numbers its first account. *)
Definition payload_sizes (mode : StorePayloadMode) (from : Z) (n : nat) : option (list Z) :=
  match mode with
  | FixedPayload s => Some (replicate n s)
  | MixedPayload m => mapM (fun j => sample m (draws from j)) (seq 0 n)
  end.

(** One signing task of [build_store_work_items]. *)
Definition store_work_item (kp : Keypair) (payload_size : Z) : option StressWorkItem :=
  let payload := generate_payload kp payload_size in
  encoded ← sign_store kp payload;
  Some (StoreItem (to_account_id32 kp) encoded (blake2b_256 payload)).

(** [build_store_work_items]. *)
Definition build_store_work_items (from : Z) (keypairs : list Keypair) (mode : StorePayloadMode)
    : option (list StressWorkItem) :=
  sizes ← payload_sizes mode from (length keypairs);
  items ← mapM (fun p => store_work_item p.1 p.2) (zip keypairs sizes);
  Some (arrival items).

(** The loop of [generate_block_capacity_work]: what it sends, and whether it returns
    [Ok].  A batch that cannot be signed ends it before anything of the batch is sent. *)
Fixpoint generate_loop (mode : StorePayloadMode) (from : Z) (batches : list (IterationPlan * Z * Z))
    : list StressWorkItem * bool :=
  match batches with
  | [] => ([], true)
  | (plan, s, e) :: batches' =>
      let keypairs := keypairs_for_range plan s e in
      match build_store_work_items from keypairs mode with
      | None => ([], false)
      | Some store_items =>
          let '(rest, ok) := generate_loop mode (from + len keypairs) batches' in
          (Authorize (auth_batches_from_keypairs keypairs) :: AwaitPendingAuth :: store_items ++ rest, ok)
      end
  end.

(** [generate_block_capacity_work]. *)
Definition generate_block_capacity_work (plans : list IterationPlan) (mode : StorePayloadMode)
    : list StressWorkItem * bool :=
  if forallb (fun p => account_count p =? 0) plans then ([], true)
  else generate_loop mode 0 (plan_batches plans).
End Generator.

(** ** The reader *)

(** What the work loop of [run_block_capacity_pipeline] keeps: the authorization task in
    the background, the accounts whose authorization it has awaited, the stores it has
    handed to workers, and how many since the last look at the pool. *)
Record ReaderState := mkReader {
  pending_auth : option (list (list AccountId));
  awaited : list AccountId;
  dispatched : list AccountId;
  stores_dispatched_since_txpool : Z }.

Definition reader_start : ReaderState := mkReader None [] [] 0.

Definition POOL_PENDING_PAUSE_THRESHOLD : Z := 4000.

(** One item; [None] when the assertion fails that no authorization is pending.  The
    reader looks at the pool before it takes an item. *)
Definition read_item (st : ReaderState) (item : StressWorkItem) : option ReaderState :=
  let since := if POOL_PENDING_PAUSE_THRESHOLD <=? stores_dispatched_since_txpool st then 0
               else stores_dispatched_since_txpool st in
  match item with
  | Authorize [] => Some (mkReader (pending_auth st) (awaited st) (dispatched st) since)
  | Authorize batches =>
      match pending_auth st with
      | Some _ => None
      | None => Some (mkReader (Some batches) (awaited st) (dispatched st) since)
      end
  | AwaitPendingAuth =>
      Some (mkReader None (awaited st ++ concat (default [] (pending_auth st))) (dispatched st) since)
  | StoreItem account_id _ _ =>
      Some (mkReader (pending_auth st) (awaited st) (dispatched st ++ [account_id]) (since + 1))
  end.

Fixpoint read_items (st : ReaderState) (items : list StressWorkItem) : option ReaderState :=
  match items with
  | [] => Some st
  | item :: items' => match read_item st item with Some st' => read_items st' items' | None => None end
  end.

(** [wait_until_txpool_can_pull_work] returns when this holds. *)
Definition can_pull_work (submitted confirmed : Z) : bool :=
  sat_sub submitted confirmed <=? POOL_PENDING_PAUSE_THRESHOLD.

(** ** Facts: mixes *)

Lemma add_weighted_foldl pairs sizes weights total :
  foldl add_weighted (sizes, weights, total) pairs =
    (sizes ++ map fst (List.filter (fun p => negb (p.2 =? 0)) pairs),
     weights ++ map snd (List.filter (fun p => negb (p.2 =? 0)) pairs),
     (foldl add_weighted (sizes, weights, total) pairs).2).
Proof.
  revert sizes weights total. induction pairs as [|[sz w] pairs IH]; intros sizes weights total; simpl.
  - by rewrite !app_nil_r.
  - destruct (w =? 0); simpl; [apply IH|]. rewrite IH at 1. by rewrite <-!(assoc_L (++)).
Qed.

(** A mix has a size for every weight, all of them from the given pairs. *)
Lemma mix_sizes_spec pairs m :
  from_weighted_sizes pairs = Some m ->
  mix_sizes m = map fst (List.filter (fun p => negb (p.2 =? 0)) pairs) /\
  mix_weights m = map snd (List.filter (fun p => negb (p.2 =? 0)) pairs) /\ mix_sizes m <> [].
Proof.
  unfold from_weighted_sizes. destruct pairs as [|p pairs]; [done|]. set (l := p :: pairs).
  rewrite (add_weighted_foldl l [] [] 0). destruct (_ =? 0) eqn:E; [done|]. intros [= <-]. simpl mix_sizes. simpl mix_weights.
  split_and!; [done|done|]. simpl app. intros Hn. apply map_eq_nil in Hn.
  assert (forall l acc, List.filter (fun p : Z * Z => negb (p.2 =? 0)) l = [] -> foldl add_weighted acc l = acc) as Hid.
  { clear. induction l as [|[sz w] l IH]; intros [[s ws] t] Hf; [done|]. simpl in *.
    destruct (w =? 0); simpl in *; [by apply IH|done]. }
  rewrite (Hid l _ Hn) in E. done.
Qed.

Lemma sample_loop_elem sizes weights r s : sample_loop sizes weights r = Some s -> s ∈ sizes.
Proof.
  revert weights r. induction sizes as [|x sizes IH]; intros [|w weights] r; simpl; try done.
  destruct (r <? w); [intros [= ->]; by left|]. intros Hs. right. by eapply IH.
Qed.

(** A draw always gives a size of the mix. *)
Lemma sample_elem m r : mix_sizes m <> [] -> exists s, sample m r = Some s /\ s ∈ mix_sizes m.
Proof.
  intros Hne. unfold sample. destruct (sample_loop _ _ _) as [s|] eqn:E.
  - exists s. split; [done|]. by eapply sample_loop_elem.
  - destruct (last (mix_sizes m)) as [s|] eqn:El; [|by apply last_None in El].
    exists s. split; [done|]. by apply last_Some_elem_of.
Qed.

Lemma foldl_max_ge l x y : y ∈ x :: l -> y <= foldl Z.max x l.
Proof.
  assert (forall l x, x <= foldl Z.max x l) as Hx.
  { clear. induction l as [|z l IH]; intros x; simpl; [lia|]. specialize (IH (Z.max x z)). lia. }
  revert x. induction l as [|z l IH]; intros x; simpl.
  - rewrite list_elem_of_singleton. lia.
  - rewrite !elem_of_cons. intros [->|[->|Hl]].
    + specialize (Hx l (Z.max x z)). lia.
    + specialize (Hx l (Z.max x z)). lia.
    + apply IH. by right.
Qed.

Lemma max_payload_ge m s : s ∈ mix_sizes m -> s <= max_payload_bytes m.
Proof. unfold max_payload_bytes. destruct (mix_sizes m); [by intros ?%elem_of_nil|apply foldl_max_ge]. Qed.

(** The sizes a mode can draw. *)
Definition mode_size (mode : StorePayloadMode) (s : Z) : Prop :=
  match mode with FixedPayload n => s = n | MixedPayload m => s ∈ mix_sizes m end.

Definition mode_ok (mode : StorePayloadMode) : Prop :=
  (forall s, mode_size mode s -> 0 <= s <= usize_max) /\
  match mode with FixedPayload _ => True | MixedPayload m => mix_sizes m <> [] end.

(** What is authorized covers any size that is drawn. *)
Lemma authorized_covers mode s : mode_ok mode -> mode_size mode s -> s <= authorize_bytes_per_account mode.
Proof.
  intros [Hr Hne] Hs. pose proof (Hr s Hs) as Hb. unfold authorize_bytes_per_account.
  set (mx := match mode with FixedPayload n => n | MixedPayload m => max_payload_bytes m end).
  assert (s <= mx) as Hm by (destruct mode; simpl in Hs; [by subst|by apply max_payload_ge]).
  unfold as_u64, sat_add, usize_max, u64_max in *.
  rewrite Z.mod_small by lia. lia.
Qed.

Lemma authorized_positive mode s : mode_ok mode -> mode_size mode s -> 0 < authorize_bytes_per_account mode.
Proof.
  intros [Hr Hne] Hs. pose proof (Hr s Hs) as Hb. unfold authorize_bytes_per_account.
  set (mx := match mode with FixedPayload n => n | MixedPayload m => max_payload_bytes m end).
  assert (s <= mx) as Hm by (destruct mode; simpl in Hs; [by subst|by apply max_payload_ge]).
  unfold as_u64, sat_add, usize_max, u64_max in *. rewrite Z.mod_small by lia. lia.
Qed.

(** ** Facts: accounts *)

Fixpoint no_slash (s : string) : Prop :=
  match s with EmptyString => True | String a s' => a <> "/"%char /\ no_slash s' end.

Lemma pretty_N_go_no_slash x s : no_slash s -> no_slash (pretty_N_go x s).
Proof.
  revert s. induction (N.lt_wf_0 x) as [x _ IH]; intros s Hs.
  destruct (N.eq_0_gt_0_cases x) as [->|Hx]; [by rewrite pretty_N_go_0|].
  rewrite pretty_N_go_step by done. apply IH; [by apply N.div_lt|]. split; [|done].
  unfold pretty_N_char. by repeat case_match.
Qed.

Lemma pretty_no_slash z : 0 <= z -> no_slash (pretty z).
Proof.
  intros Hz. destruct z as [|p|p]; [by split|..|lia]. unfold pretty, pretty_Z, pretty, pretty_positive, pretty, pretty_N.
  destruct (decide _); [by split|]. by apply pretty_N_go_no_slash.
Qed.

Lemma slash_split s s' t t' :
  no_slash s -> no_slash s' -> s +:+ String "/" t = s' +:+ String "/" t' -> s = s' /\ t = t'.
Proof.
  revert s'. induction s as [|a s IH]; intros [|a' s'] Hs Hs' He; simpl in *.
  - by simplify_eq.
  - injection He as <- _. by destruct Hs'.
  - injection He as -> _. by destruct Hs.
  - injection He as -> He. destruct Hs as [_ Hs], Hs' as [_ Hs'].
    apply (IH s' Hs Hs') in He as [-> ->]. done.
Qed.

Lemma string_app_assoc (a b c : string) : (a +:+ b) +:+ c = a +:+ (b +:+ c).
Proof. induction a as [|x a IH]; [done|]. exact (f_equal (String x) IH). Qed.

(** Accounts of different iterations, or of different positions in one, have different
    secret URIs. *)
Lemma uri_inj seed o i o' i' :
  0 <= o -> 0 <= o' ->
  derivation_uri (seed +:+ ("_" +:+ pretty o)) i = derivation_uri (seed +:+ ("_" +:+ pretty o')) i' -> o = o' /\ i = i'.
Proof.
  intros Ho Ho'. unfold derivation_uri. rewrite !string_app_assoc. intros He.
  do 3 apply (inj (String.append _)) in He.
  apply slash_split in He as [He1 He2]; [|by apply pretty_no_slash..].
  split; by apply (inj pretty).
Qed.

(** The plans of an iteration: consecutive offsets from [offset], counts in range. *)
Fixpoint consecutive (max : Z) (seed : string) (offset : Z) (plans : list IterationPlan) : Prop :=
  match plans with
  | [] => True
  | p :: plans' =>
      derivation_prefix p = seed +:+ ("_" +:+ pretty offset) /\ 0 < account_count p <= max /\
      consecutive max seed (offset + account_count p) plans'
  end.

Definition count_sum (plans : list IterationPlan) : Z := foldr (fun p z => account_count p + z) 0 plans.

Lemma plans_loop_spec fuel max seed offset remaining :
  0 < max -> 0 <= remaining <= Z.of_nat fuel ->
  let plans := plans_loop fuel max seed offset remaining in
  consecutive max seed offset plans /\ count_sum plans = remaining.
Proof.
  intros Hm. revert offset remaining. induction fuel as [|fuel IH]; intros offset remaining Hr; simpl.
  - split; [done|]. lia.
  - destruct (0 <? remaining) eqn:E; b2p; [|split; [done|simpl; lia]].
    destruct (IH (offset + Z.min remaining max) (remaining - Z.min remaining max)) as [Hc Hs]; [lia|].
    simpl. rewrite Hs. split; [split_and!; [done|lia|lia|done]|lia].
Qed.

(** The URIs of the accounts of the plans, in order. *)
Definition plan_uris (p : IterationPlan) : list string :=
  map (derivation_uri (derivation_prefix p)) (seqZ 0 (account_count p)).

Lemma plan_uris_fresh max seed offset plans u o i :
  consecutive max seed offset plans -> 0 <= o < offset -> u = derivation_uri (seed +:+ ("_" +:+ pretty o)) i ->
  u ∉ concat (map plan_uris plans).
Proof.
  revert offset. induction plans as [|p plans IH]; intros offset Hc Ho ->; [by apply not_elem_of_nil|].
  destruct Hc as (Hp & Hn & Hc). simpl. rewrite elem_of_app. intros [Hin|Hin].
  - unfold plan_uris in Hin. apply list_elem_of_In, in_map_iff in Hin as (j & Hj & _). rewrite Hp in Hj.
    apply uri_inj in Hj as [-> _]; lia.
  - revert Hin. apply (IH (offset + account_count p)); [done|lia|done].
Qed.

Lemma uris_nodup max seed offset plans :
  0 <= offset -> consecutive max seed offset plans -> NoDup (concat (map plan_uris plans)).
Proof.
  revert offset. induction plans as [|p plans IH]; intros offset Ho Hc; [constructor|].
  pose proof Hc as (Hp & Hn & Hc'). simpl. apply NoDup_app. split_and!.
  - unfold plan_uris. rewrite Hp. apply (NoDup_fmap_2_strong (derivation_uri _)); [|apply NoDup_seqZ].
    intros i j _ _ Hij. by apply uri_inj in Hij as [_ ?].
  - intros u Hu. unfold plan_uris in Hu. apply list_elem_of_In, in_map_iff in Hu as (j & <- & _).
    rewrite Hp. apply (plan_uris_fresh max seed (offset + account_count p) plans _ offset j); [done|lia|done].
  - apply (IH (offset + account_count p)); [lia|done].
Qed.

Lemma ranges_loop_cover fuel s count :
  0 <= s <= count -> count <= u32_max -> count - s <= Z.of_nat fuel ->
  concat (map (fun '(a, b) => seqZ a (b - a)) (ranges_loop fuel s count)) = seqZ s (count - s) /\
  Forall (fun '(a, b) => a < b <= a + AUTHORIZE_BATCH_SIZE) (ranges_loop fuel s count).
Proof.
  intros Hs Hc. revert s Hs. induction fuel as [|fuel IH]; intros s Hs Hf; simpl.
  - rewrite seqZ_nil by lia. split; [done|constructor].
  - destruct (s <? count) eqn:E; b2p; [|rewrite seqZ_nil by lia; split; [done|constructor]].
    set (e := Z.min (sat_add_u32 s AUTHORIZE_BATCH_SIZE) count).
    assert (s < e <= s + AUTHORIZE_BATCH_SIZE /\ e <= count) as [He Hec]
      by (unfold e, sat_add, AUTHORIZE_BATCH_SIZE in *; lia).
    destruct (IH e) as [Hcat Hall]; [lia|lia|]. simpl. rewrite Hcat. split; [|by constructor].
    replace (count - s) with ((e - s) + (count - e)) by lia.
    rewrite seqZ_app by lia. do 2 f_equal. lia.
Qed.

(** The batches run through the accounts of the plans in order. *)
Lemma plan_batches_cover max seed offset plans :
  consecutive max seed offset plans -> max <= u32_max ->
  concat (map (fun '(p, s, e) => map (derivation_uri (derivation_prefix p)) (seqZ s (e - s))) (plan_batches plans))
    = concat (map plan_uris plans) /\
  Forall (fun '(p, s, e) => s < e <= s + AUTHORIZE_BATCH_SIZE) (plan_batches plans).
Proof.
  intros Hc Hm. revert offset Hc. induction plans as [|p plans IH]; intros offset Hc; [by split|].
  destruct Hc as (_ & Hn & Hc). destruct (IH _ Hc) as [IH1 IH2]. unfold plan_batches in *. cbn [map concat].
  rewrite (proj2 (Z.eqb_neq _ _)) by lia. rewrite map_app, concat_app, IH1.
  destruct (ranges_loop_cover (Z.to_nat (account_count p)) 0 (account_count p)) as [Hr1 Hr2]; [lia..|].
  split.
  - f_equal. unfold plan_uris, batch_ranges. rewrite Z.sub_0_r in Hr1. rewrite <-Hr1.
    rewrite map_map, concat_map, map_map. f_equal. apply map_ext. by intros [a b].
  - apply Forall_app. split; [|done]. unfold batch_ranges. apply Forall_map. eapply Forall_impl; [exact Hr2|]. by intros [a b].
Qed.

(** ** Facts: the stream *)

Definition stored_account (item : StressWorkItem) : option AccountId :=
  match item with StoreItem a _ _ => Some a | _ => None end.

Definition accounts_of (items : list StressWorkItem) : list AccountId := omap stored_account items.

Lemma accounts_of_app l k : accounts_of (l ++ k) = accounts_of l ++ accounts_of k.
Proof. apply omap_app. Qed.

Lemma chunks_one {A} n (l : list A) : l <> [] -> (length l <= n)%nat -> chunks n l = [l].
Proof.
  intros Hl Hn. assert (0 < n)%nat by (destruct l; [done|simpl in Hn; lia]).
  rewrite chunks_cons by done. rewrite take_ge, drop_ge by done. done.
Qed.

(** The reader's assertion, and what it has dispatched. *)
Lemma read_items_dispatched items st st' :
  read_items st items = Some st' -> dispatched st' = dispatched st ++ accounts_of items.
Proof.
  revert st. induction items as [|item items IH]; intros st; simpl; [intros [= <-]; by rewrite app_nil_r|].
  destruct (read_item st item) as [st1|] eqn:E; [|done]. intros Hr. rewrite (IH st1 Hr).
  destruct item as [[|b bs]| |a x h]; simpl in E; [|destruct (pending_auth st)|..]; simplify_eq/=; try done.
  by rewrite <-(assoc_L (++)).
Qed.

Lemma read_items_app l k st :
  read_items st (l ++ k) = match read_items st l with Some st' => read_items st' k | None => None end.
Proof.
  revert st. induction l as [|item l IH]; intros st; [done|]. simpl. destruct (read_item st item); [apply IH|done].
Qed.

(** Stores alone always dispatch. *)
Lemma read_stores l st :
  Forall (fun i => is_Some (stored_account i)) l ->
  exists st', read_items st l = Some st' /\ awaited st' = awaited st /\ pending_auth st' = pending_auth st.
Proof.
  intros Hl. revert st. induction Hl as [|i l [a Ha] _ IH]; intros st; [by eexists|].
  destruct i; simplify_eq/=. apply (IH (mkReader _ _ _ _)).
Qed.

(** A reader between two batches. *)
Definition settled (st : ReaderState) : Prop := pending_auth st = None /\ dispatched st ⊆ awaited st.

(** One batch: any beginning of it is read, with every store behind its authorization. *)
Lemma read_batch batch stores st k :
  settled st -> batch <> [] -> Forall (fun i => is_Some (stored_account i)) stores -> accounts_of stores ⊆ batch ->
  exists st', read_items st (take k (Authorize [batch] :: AwaitPendingAuth :: stores)) = Some st' /\
    dispatched st' ⊆ awaited st' /\ ((2 <= k)%nat -> pending_auth st' = None).
Proof.
  intros [Hp Hd] Hb Hs Ha. destruct k as [|[|k]].
  - exists st. split_and!; [done|done|lia].
  - simpl. rewrite Hp. eexists. split_and!; [done|done|lia].
  - cbn [take read_items read_item]. rewrite Hp. cbn [read_items read_item pending_auth awaited default].
    edestruct (read_stores (take k stores)) as (st' & Hr & Haw & Hpe); [by apply Forall_take|].
    exists st'. split_and!; [exact Hr| |done].
    rewrite (read_items_dispatched _ _ _ Hr), Haw. simpl. rewrite app_nil_r.
    intros x. rewrite !elem_of_app. intros [Hx|Hx]; [left; by apply Hd|right].
    apply Ha. rewrite <-(take_drop k stores), accounts_of_app. apply elem_of_app. by left.
Qed.

Section GeneratorFacts.
Context `{KeyHost}.
Context (generate_payload : Keypair -> Z -> bytes) (blake2b_256 : bytes -> bytes).
Context (sign_store : Keypair -> bytes -> option bytes) (draws : Z -> nat -> Z).
Context (arrival : list StressWorkItem -> list StressWorkItem).
Context (arrival_perm : forall l, arrival l ≡ₚ l).

Abbreviation item_for := (store_work_item generate_payload blake2b_256 sign_store).
Abbreviation build := (build_store_work_items generate_payload blake2b_256 sign_store draws arrival).
Abbreviation generate := (generate_loop generate_payload blake2b_256 sign_store draws arrival).

Lemma payload_sizes_ok mode from n sizes :
  mode_ok mode -> payload_sizes draws mode from n = Some sizes -> length sizes = n /\ Forall (mode_size mode) sizes.
Proof.
  intros [_ Hne] Hs. destruct mode as [s|m]; simpl in Hs.
  - simplify_eq. split; [apply length_replicate|]. by apply Forall_replicate.
  - apply mapM_Some in Hs. split; [by rewrite <-(Forall2_length _ _ _ Hs), length_seq|].
    apply Forall_lookup. intros i s Hi. destruct (Forall2_lookup_r _ _ _ _ _ Hs Hi) as (j & _ & Hj).
    destruct (sample_elem m (draws from j) Hne) as (s' & Hs' & Hin). simpl. congruence.
Qed.

(** A batch of stores: one for every account, at a size of the mode. *)
Lemma build_ok mode from kps items :
  mode_ok mode -> build from kps mode = Some items ->
  accounts_of items ≡ₚ map to_account_id32 kps /\
  Forall (fun i => exists kp s, mode_size mode s /\ item_for kp s = Some i) items.
Proof.
  intros Hm. unfold build_store_work_items. destruct (payload_sizes _ _ _ _) as [sizes|] eqn:Es; [|done].
  destruct (payload_sizes_ok _ _ _ _ Hm Es) as [Hl Hall]. cbn [mbind option_bind].
  destruct (mapM _ _) as [l|] eqn:El; [|done]. cbn [mbind option_bind]. intros [= <-].
  apply mapM_Some in El. clear Es.
  assert (accounts_of l = map to_account_id32 kps /\ Forall (fun i => exists kp s, mode_size mode s /\ item_for kp s = Some i) l)
    as [Ha Hi].
  { revert sizes l Hl Hall El. induction kps as [|kp kps IH]; intros sizes l Hl Hall El.
    - apply Forall2_nil_inv_l in El as ->. split; [done|constructor].
    - destruct sizes as [|s sizes]; [done|]. simpl in El. apply Forall2_cons_inv_l in El as (i & l' & Hi & El & ->).
      apply Forall_cons in Hall as [Hs Hall]. simpl in Hl. destruct (IH sizes l') as [IH1 IH2]; [lia|done|done|].
      split; [|constructor; [by exists kp, s|done]]. unfold store_work_item in Hi. simpl in Hi.
      destruct (sign_store kp _); [|done]. simplify_eq/=. by f_equal. }
  split; [|by rewrite arrival_perm]. rewrite <-Ha. by apply omap_Permutation, arrival_perm.
Qed.

Lemma build_stores mode from kps items :
  mode_ok mode -> build from kps mode = Some items -> Forall (fun i => is_Some (stored_account i)) items.
Proof.
  intros Hm Hb. destruct (build_ok _ _ _ _ Hm Hb) as [_ Hi]. eapply Forall_impl; [exact Hi|].
  intros i (kp & s & _ & Hs). unfold store_work_item in Hs. destruct (sign_store kp _); simplify_eq/=. by eexists.
Qed.

Definition batch_uris (b : IterationPlan * Z * Z) : list string :=
  let '(p, s, e) := b in map (derivation_uri (derivation_prefix p)) (seqZ s (e - s)).

Definition account_of_uri (u : string) : AccountId := to_account_id32 (from_uri u).

(** The shape of each item. *)
Definition item_ok (mode : StorePayloadMode) (i : StressWorkItem) : Prop :=
  match i with
  | Authorize batches => exists b, batches = [b] /\ 0 < len b <= AUTHORIZE_BATCH_SIZE
  | AwaitPendingAuth => True
  | StoreItem _ _ _ => exists kp s, mode_size mode s /\ item_for kp s = Some i
  end.

Lemma generate_ok mode from batches items ok :
  mode_ok mode -> Forall (fun '(_, s, e) => s < e <= s + AUTHORIZE_BATCH_SIZE) batches ->
  generate mode from batches = (items, ok) ->
  exists pre post, batches = pre ++ post /\ (ok = true -> post = []) /\
    accounts_of items ≡ₚ map account_of_uri (concat (map batch_uris pre)) /\
    Forall (item_ok mode) items /\
    forall st k, settled st -> exists st', read_items st (take k items) = Some st' /\ dispatched st' ⊆ awaited st'.
Proof.
  intros Hm Hb. revert from items ok. induction Hb as [|[[p s] e] batches Hse Hb IH]; intros from items ok; simpl.
  { intros [= <- <-]. exists [], []. split_and!; try done. intros st k [_ Hd]. exists st. by rewrite take_nil. }
  set (kps := keypairs_for_range p s e). destruct (build from kps mode) as [stores|] eqn:Es.
  2: { intros [= <- <-]. exists [], ((p, s, e) :: batches). split_and!; try done.
       intros st k [_ Hd]. exists st. by rewrite take_nil. }
  destruct (generate_loop _ _ _ _ _ _ _ batches) as [rest ok'] eqn:Eg. intros [= <- <-].
  destruct (IH _ _ _ Eg) as (pre & post & -> & Hok & Hacc & Hitems & Hread).
  destruct (build_ok _ _ _ _ Hm Es) as [Ha Hi]. pose proof (build_stores _ _ _ _ Hm Es) as Hst.
  assert (length kps = Z.to_nat (e - s)) as Hlk by (unfold kps, keypairs_for_range; by rewrite length_map, length_seqZ).
  assert (auth_batches_from_keypairs kps = [map to_account_id32 kps]) as Hauth.
  { unfold auth_batches_from_keypairs. rewrite chunks_one; [done|by intros E; rewrite E in Hlk; simpl in Hlk; lia|lia]. }
  assert (map to_account_id32 kps <> []) as Hne by (intros E%(f_equal length); rewrite length_map in E; simpl in E; lia).
  rewrite Hauth. exists ((p, s, e) :: pre), post. split_and!; [done|done| | |].
  - cbn [accounts_of]. change (accounts_of (stores ++ rest) ≡ₚ map account_of_uri (concat (map batch_uris ((p, s, e) :: pre)))).
    cbn [map concat]. rewrite accounts_of_app, map_app, Ha, Hacc. apply Permutation_app_tail.
    unfold kps, keypairs_for_range, batch_uris, account_of_uri. by rewrite !map_map.
  - repeat constructor.
    + exists (map to_account_id32 kps). split; [done|]. unfold len. rewrite length_map. lia.
    + apply Forall_app. split; [|done]. eapply Forall_impl; [exact Hi|]. intros i (kp & z & Hz & Hk).
      pose proof Hk as Hk'. unfold store_work_item in Hk'. destruct (sign_store kp _); simplify_eq/=. by exists kp, z.
  - intros st k Hs. set (batch := Authorize [map to_account_id32 kps] :: AwaitPendingAuth :: stores).
    change (Authorize [map to_account_id32 kps] :: AwaitPendingAuth :: stores ++ rest) with (batch ++ rest).
    assert (accounts_of stores ⊆ map to_account_id32 kps) as Hsub by (intros x; by rewrite Ha).
    destruct (decide (k <= length batch)%nat) as [Hk|Hk].
    + rewrite take_app_le by done. destruct (read_batch _ stores st k Hs Hne Hst Hsub) as (st' & ? & ? & _). by exists st'.
    + rewrite take_app_ge by lia. rewrite read_items_app.
      destruct (read_batch _ stores st (length batch) Hs Hne Hst Hsub) as (st1 & Hr & Hd & Hp).
      fold batch in Hr. rewrite take_ge in Hr by done. rewrite Hr. apply Hread. split; [|done]. apply Hp. simpl. lia.
Qed.
End GeneratorFacts.
