(* ===== verification/Submission.v ===== *)
(** Submitting transactions in the stress-test tool: pool errors and their classes,
    the nonce tracker, the worker that submits one pre-signed store, block statistics
    ([stress-test/src/store.rs], [accounts.rs], [pipeline.rs], [report.rs]). *)

From Stdlib Require Import Ascii.
From S2P Require Import Prelude Slice Primitives Types StressPlan.

(** ** Pool errors *)

Inductive TxPoolError :=
| PoolFull | TxDropped | AlreadyImported | StaleNonce | FutureNonce | Banned | ExhaustsResources
| ConnectionDead | Other.

#[global] Instance TxPoolError_eq_dec : EqDecision TxPoolError.
Proof. solve_decision. Defined.

(** [TxPoolError::metric_class]. *)
Definition metric_class (e : TxPoolError) : string :=
  match e with
  | PoolFull => "pool_full"
  | TxDropped => "dropped"
  | AlreadyImported => "already_imported"
  | StaleNonce => "stale_nonce"
  | FutureNonce => "future_nonce"
  | Banned => "banned"
  | ExhaustsResources => "exhausts_resources"
  | ConnectionDead => "connection_dead"
  | Other => "other"
  end.

(** [str::to_lowercase] and [str::contains], on ASCII text. *)
Definition lower_char (a : ascii) : ascii :=
  let n := nat_of_ascii a in
  if ((65 <=? n) && (n <=? 90))%nat then ascii_of_nat (n + 32) else a.

Fixpoint to_lowercase (s : string) : string :=
  match s with EmptyString => EmptyString | String a s' => String (lower_char a) (to_lowercase s') end.

Fixpoint str_contains (s needle : string) : bool :=
  String.prefix needle s || match s with EmptyString => false | String _ s' => str_contains s' needle end.

(** [classify_tx_error] on the error's text. *)
Definition classify_tx_error (text : string) : TxPoolError :=
  let msg := to_lowercase text in
  let has := str_contains msg in
  if has "1016" || has "immediately dropped" || has "1014" || has "priority is too low" then PoolFull
  else if has "transaction dropped" || has "was dropped" then TxDropped
  else if has "1013" || has "already imported" then AlreadyImported
  else if has "1012" || has "temporarily banned" then Banned
  else if has "stale" || (has "1010" && has "outdated") then StaleNonce
  else if has "1021" || (has "1010" && has "future") || has "will be valid in the future" then FutureNonce
  else if has "exhaust" then ExhaustsResources
  else if has "connection reset" || has "background task closed" || has "connection closed"
       || has "broken pipe" || has "restart required" || has "not connected" || has "i/o error" then ConnectionDead
  else if has "1010" || has "invalid transaction" then StaleNonce
  else Other.

(** ** The nonce tracker *)

Definition NonceTracker := gmap AccountId Z.

(** [NonceTracker::next_nonce]: the nonce to use and the tracker that has passed it on. *)
Definition next_nonce (nonces : NonceTracker) (account_id : AccountId) : Z * NonceTracker :=
  let current := default 0 (nonces !! account_id) in
  (current, <[account_id := current + 1]> nonces).

(** [NonceTracker::rollback]. *)
Definition rollback (nonces : NonceTracker) (account_id : AccountId) : NonceTracker :=
  match nonces !! account_id with
  | Some nonce => <[account_id := sat_sub nonce 1]> nonces
  | None => nonces
  end.

(** [NonceTracker::init_from_chain] and [refresh], which do the same with the node's answer. *)
Definition init_from_chain (nonces : NonceTracker) (account_id : AccountId) (answer : option Z) : option NonceTracker :=
  nonce ← answer; Some (<[account_id := nonce]> nonces).

(** [batch_init_nonces]: the tracker, the queries that succeeded, those that failed. *)
Definition batch_init_nonces (account_nonce : AccountId -> option Z) (nonces : NonceTracker)
    (accounts : list AccountId) : NonceTracker * (Z * Z) :=
  foldl (fun '(nonces, (ok, failed)) a =>
    match init_from_chain nonces a (account_nonce a) with
    | Some nonces' => (nonces', (ok + 1, failed))
    | None => (nonces, (ok, failed + 1))
    end) (nonces, (0, 0)) accounts.

(** ** Block statistics *)

(** A hash stands for its text. *)
Record BlockStats := mkStats {
  bs_number : Z;
  bs_tx_count : Z;
  bs_payload_bytes : Z;
  bs_prefill : bool;
  bs_timestamp_ms : option Z;
  bs_hash : option bytes;
  bs_finalized : bool;
  bs_received_at_ms : option Z;
  bs_interval_ms : option Z }.

Definition tx_sum (l : list BlockStats) : Z := foldr (fun b z => bs_tx_count b + z) 0 l.
Definition bytes_sum (l : list BlockStats) : Z := foldr (fun b z => bs_payload_bytes b + z) 0 l.

Lemma tx_sum_app l k : tx_sum (l ++ k) = tx_sum l + tx_sum k.
Proof. unfold tx_sum. induction l as [|b l IH]; [done|]. cbn [app foldr]. rewrite IH. lia. Qed.

Lemma bytes_sum_app l k : bytes_sum (l ++ k) = bytes_sum l + bytes_sum k.
Proof. unfold bytes_sum. induction l as [|b l IH]; [done|]. cbn [app foldr]. rewrite IH. lia. Qed.

(** [stored_content_hashes]: the content hashes of the [Stored] events of a block, each
    event given by its pallet, its variant and the bytes of its fields; none when the
    events cannot be fetched. *)
Definition stored_content_hashes (events : option (list (option (string * string * bytes)))) : list bytes :=
  omap (fun ev =>
    ev ← ev;
    if bool_decide (ev.1.1 = "TransactionStorage") && bool_decide (ev.1.2 = "Stored") && (36 <=? length ev.2)%nat
    then Some (take 32 (drop 4 ev.2)) else None) (default [] events).

(** ** The pipeline's worker *)

Record SubmitCounters := mkCounters {
  c_submitted : Z;
  c_submitted_bytes : Z;
  c_errors : Z;
  c_pool_full_retries : Z;
  c_stale_nonces : Z }.

Abbreviation ContentHashMap := (gmap bytes Z).

Record StoreWorker := mkStoreWorker {
  sw_counters : SubmitCounters;
  sw_map : ContentHashMap;
  sw_conn_errors : Z }.

(** What a node answers to one submission, and whether a reconnect would succeed. *)
Inductive Attempt := Accepted | Refused (class : TxPoolError) (reconnect_ok : bool).

Definition add_counters (submitted submitted_bytes errors retries stale : Z) (c : SubmitCounters) : SubmitCounters :=
  mkCounters (c_submitted c + submitted) (c_submitted_bytes c + submitted_bytes) (c_errors c + errors)
    (c_pool_full_retries c + retries) (c_stale_nonces c + stale).

Definition CONN_GIVE_UP : Z := 60.

(** [StoreWorker::submit]: the result ([Some true] for [Ok], [Some false] for [Err]) or
    [None] while it is still retrying after the given answers, and the worker then. *)
Fixpoint submit (extrinsic content_hash : bytes) (answers : list Attempt) (w : StoreWorker)
    : option bool * StoreWorker :=
  match answers with
  | [] => (None, w)
  | Accepted :: _ =>
      (Some true, mkStoreWorker (add_counters 1 (len extrinsic) 0 0 0 (sw_counters w))
                    (<[content_hash := len extrinsic]> (sw_map w)) 0)
  | Refused class reconnect_ok :: answers' =>
      let count e r s conn := mkStoreWorker (add_counters 0 0 e r s (sw_counters w)) (sw_map w) conn in
      match class with
      | PoolFull | Banned | ExhaustsResources => submit extrinsic content_hash answers' (count 0 1 0 0)
      | ConnectionDead =>
          let conn := sw_conn_errors w + 1 in
          if reconnect_ok then submit extrinsic content_hash answers' (count 0 0 0 0)
          else if CONN_GIVE_UP <=? conn then (Some false, count 1 0 0 conn)
          else submit extrinsic content_hash answers' (count 0 0 0 conn)
      | TxDropped => (Some true, count 0 1 0 0)
      | AlreadyImported => (Some true, count 0 0 0 0)
      | StaleNonce => (Some true, count 0 0 1 0)
      | FutureNonce | Other => (Some true, count 1 0 0 0)
      end
  end.

(** A channel to a worker: free places left, and whether its receiver is gone. *)
Record Channel := mkChannel { ch_queue : list bytes; ch_capacity : nat; ch_closed : bool }.

(** [Blocked] waits for a place at that worker; with no workers the index panics. *)
Inductive Dispatch := Sent (txs : list Channel) (rr : nat) | WorkerClosed (i : nat) | Blocked (i : nat) | NoWorkers.

Definition push_msg (msg : bytes) (ch : Channel) : Channel :=
  mkChannel (ch_queue ch ++ [msg]) (ch_capacity ch) (ch_closed ch).

(** The loop of [dispatch_store_to_workers] over the workers after the last one used. *)
Fixpoint try_workers (msg : bytes) (txs : list Channel) (rr : nat) (attempts : list nat) : Dispatch :=
  let n := Nat.max (length txs) 1 in
  match attempts with
  | [] => let i := (rr mod n)%nat in
          match txs !! i with
          | Some ch => if ch_closed ch then WorkerClosed i else Blocked i
          | None => NoWorkers
          end
  | attempt :: attempts' =>
      let i := ((rr + attempt) mod n)%nat in
      match txs !! i with
      | None => NoWorkers
      | Some ch =>
          if ch_closed ch then WorkerClosed i
          else if (length (ch_queue ch) <? ch_capacity ch)%nat
               then Sent (<[i := push_msg msg ch]> txs) ((i + 1) mod n)
               else try_workers msg txs rr attempts'
      end
  end.

(** [dispatch_store_to_workers]. *)
Definition dispatch_store_to_workers (msg : bytes) (txs : list Channel) (rr : nat) : Dispatch :=
  try_workers msg txs rr (seq 0 (Nat.max (length txs) 1)).

Example classify_stale : classify_tx_error "RPC error: Invalid Transaction (1010): Transaction is outdated" = StaleNonce.
Proof. vm_compute. reflexivity. Qed.
