(* ===== verification/Upload.v ===== *)
(** Sequential upload from one account ([stress-test/src/store.rs]) within the limits
    queried from the chain ([chain_info.rs]).  Plain arithmetic on [u64] panics on
    overflow, as in a build with overflow checks; where it does not, builds agree. *)

From Stdlib Require Import Ascii.
From stdpp Require Import pretty.
From S2P Require Import Prelude Slice Primitives Types StressPlan Submission.

Definition add64 (a b : Z) : option Z := if a + b <=? u64_max then Some (a + b) else None.
Definition mul64 (a b : Z) : option Z := if a * b <=? u64_max then Some (a * b) else None.
Definition add32 (a b : Z) : option Z := if a + b <=? u32_max then Some (a + b) else None.

(** ** Limits *)

Record ChainLimits := mkLimits {
  max_normal_weight : Z;
  extrinsic_base_weight : Z;
  normal_block_length : Z;
  max_block_transactions : Z;
  max_transaction_size : Z;
  store_weight_base : Z;
  store_weight_per_byte : Z;
  extrinsic_length_overhead : Z }.

Record TheoreticalLimits := mkTheoretical {
  weight_cap : Z;
  length_cap : Z;
  count_cap : Z;
  effective_cap : Z;
  bottleneck : string }.

Section Limits.
Variable limits : ChainLimits.

(** The weight and the length of one store. *)
Definition tx_weight (payload_len : Z) : option Z :=
  per ← mul64 (store_weight_per_byte limits) payload_len; add64 (store_weight_base limits) per.

Definition tx_length (payload_len : Z) : option Z := add64 payload_len (extrinsic_length_overhead limits).

(** [ChainLimits::compute_theoretical_limits]; [None] on overflow or division by zero. *)
Definition compute_theoretical_limits (payload_size : Z) : option TheoreticalLimits :=
  weight_per_tx ← tx_weight payload_size;
  length_per_tx ← tx_length payload_size;
  if (weight_per_tx =? 0) || (length_per_tx =? 0) then None else
  let weight_cap := max_normal_weight limits / weight_per_tx in
  let length_cap := normal_block_length limits / length_per_tx in
  let count_cap := max_block_transactions limits in
  let effective_cap := Z.min (Z.min weight_cap length_cap) count_cap in
  let bottleneck :=
    if effective_cap =? count_cap then "MaxBlockTxs (" +:+ (pretty count_cap +:+ ")")
    else if effective_cap =? length_cap then "block length" else "block weight" in
  Some (mkTheoretical weight_cap length_cap count_cap effective_cap bottleneck).

(** [ChainLimits::estimate_block_capacity]. *)
Definition estimate_block_capacity (payload_size : Z) : option Z :=
  effective_cap <$> compute_theoretical_limits payload_size.

(** The loop of [compute_batch_end] on the payloads from [idx]. *)
Fixpoint batch_loop (payloads : list bytes) (weight length count idx : Z) : option Z :=
  match payloads with
  | [] => Some idx
  | p :: payloads' =>
      w ← tx_weight (len p);
      l ← tx_length (len p);
      weight' ← add64 weight w;
      if max_normal_weight limits <? weight' then Some idx else
      length' ← add64 length l;
      if normal_block_length limits <? length' then Some idx else
      count' ← add32 count 1;
      if max_block_transactions limits <? count' then Some idx else
      batch_loop payloads' weight' length' count' (idx + 1)
  end.

(** [compute_batch_end]. *)
Definition compute_batch_end (payloads : list bytes) (from_idx : Z) : option Z :=
  batch_loop (drop (Z.to_nat from_idx) payloads) 0 0 0 from_idx.
End Limits.

(** ** Signing and submitting a wave *)

Record PreSignedTx := mkPreSigned {
  ps_nonce : Z;
  ps_encoded : bytes;
  ps_hash : bytes;
  ps_size : Z }.

(** One round of submissions: the endpoints that could be reached, what each answers to
    each transaction ([None] when it accepts), the order in which answers arrive. *)
Record WaveIO := mkWave {
  num_clients : nat;
  wave_answer : nat -> PreSignedTx -> option TxPoolError;
  wave_arrival : list (Z * option TxPoolError) -> list (Z * option TxPoolError) }.

(** [submit_sequential_wave]: the nonces some endpoint accepted, counted, and the errors. *)
Definition submit_sequential_wave (io : WaveIO) (txs : list PreSignedTx) : Z * list (Z * TxPoolError) :=
  if (num_clients io =? 0)%nat then (0, []) else
  let results := wave_arrival io
    (concat (map (fun pre => map (fun i => (ps_nonce pre, wave_answer io i pre)) (seq 0 (num_clients io))) txs)) in
  let accepted : gset Z := list_to_set (omap (fun r => match r.2 with None => Some r.1 | Some _ => None end) results) in
  let errors := omap (fun r => match r.2 with Some e => Some (r.1, e) | None => None end) results in
  (Z.of_nat (size accepted), errors).

(** The states of the upload's loop; [sq_waves] records every wave signed. *)
Record SeqState := mkSeq {
  best_nonce : Z;
  finalized_nonce : Z;
  waves_submitted : Z;
  total_submitted : Z;
  total_errors : Z;
  measure_start : option Z;
  measure_end : option Z;
  end_finalized_block : Z;
  sq_waves : list (list PreSignedTx) }.

(** What the loop wakes up to.  A best block comes with the answer of
    [system_accountNextIndex] and, should it feed the pool, of the endpoints; a finalized
    one with the account's nonce in its state. *)
Inductive SeqEvent :=
| BestBlock (now number : Z) (hash : bytes) (next_index : option Z) (io : WaveIO)
| FinalizedBlock (number : Z) (nonce_at : option Z)
| SubscriptionEnded
| Deadline
| NoEvents.

Inductive Flow := Continue (s : SeqState) | Break (s : SeqState) | Panic.

(** What a scanned block answers: hash, the account's nonce, timestamp, the clock. *)
Record ScanAnswer := mkScan {
  sc_hash : option bytes;
  sc_nonce : option Z;
  sc_timestamp : option Z;
  sc_now : Z }.

Record SequentialUploadResult := mkSeqResult {
  sr_total_submitted : Z;
  sr_total_confirmed : Z;
  sr_total_errors : Z;
  sr_waves_submitted : Z;
  sr_blocks : list BlockStats }.

Section Upload.
(** Offline signing of a store at a nonce with a mortality anchor, the node's hash, the
    finalized block the anchor falls back to. *)
Variable sign_store_at : Z -> bytes -> Z * bytes -> option bytes.
Variable hasher : bytes -> bytes.
Variable finalized_anchor : option (Z * bytes).
Variable limits : ChainLimits.
Variable payloads : list bytes.
Variable start_nonce : Z.

(** The loop of [sign_sequential_txs]: [None] on panic, [Some None] when signing fails. *)
Fixpoint sign_loop (anchor : Z * bytes) (from_nonce i : Z) (ps : list bytes) : option (option (list PreSignedTx)) :=
  match ps with
  | [] => Some (Some [])
  | p :: ps' =>
      nonce ← add64 from_nonce i;
      match sign_store_at nonce p anchor with
      | None => Some None
      | Some encoded =>
          rest ← sign_loop anchor from_nonce (i + 1) ps';
          Some (txs ← rest; Some (mkPreSigned nonce encoded (hasher encoded) (len p) :: txs))
      end
  end.

(** [sign_sequential_txs]. *)
Definition sign_sequential_txs (ps : list bytes) (from_nonce : Z) (mortality_block : option (Z * bytes))
    : option (option (list PreSignedTx)) :=
  match match mortality_block with Some a => Some a | None => finalized_anchor end with
  | None => Some None
  | Some anchor => sign_loop anchor from_nonce 0 ps
  end.

(** [&payloads[from..to]]: panics outside the vector. *)
Definition slice (from to : Z) : option (list bytes) :=
  if (from <=? to) && (to <=? len payloads) then Some (take (Z.to_nat (to - from)) (drop (Z.to_nat from) payloads))
  else None.

(** [sign_and_submit]: the wave and the numbers of accepted nonces and of errors. *)
Definition sign_and_submit (from_nonce to_nonce : Z) (mortality_block : option (Z * bytes)) (io : WaveIO)
    : option (option (list PreSignedTx * Z * Z)) :=
  from_idx ← checked_sub from_nonce start_nonce;
  to_idx ← checked_sub to_nonce start_nonce;
  batch ← slice from_idx to_idx;
  signed ← sign_sequential_txs batch from_nonce mortality_block;
  Some (txs ← signed;
        let '(ok, errs) := submit_sequential_wave io txs in
        Some (txs, ok, len errs)).

Definition expected_final : Z := start_nonce + len payloads.

(** A wave that was signed is counted; one that failed only as a wave. *)
Definition feed (s : SeqState) (from_nonce to_nonce : Z) (mortality_block : option (Z * bytes)) (io : WaveIO)
    : option (bool * SeqState) :=
  r ← sign_and_submit from_nonce to_nonce mortality_block io;
  Some (match r with
        | Some (txs, ok, errs) =>
            (true, mkSeq (best_nonce s) (finalized_nonce s) (waves_submitted s + 1) (total_submitted s + ok)
              (total_errors s + errs) (measure_start s) (measure_end s) (end_finalized_block s) (sq_waves s ++ [txs]))
        | None =>
            (false, mkSeq (best_nonce s) (finalized_nonce s) (waves_submitted s + 1) (total_submitted s)
              (total_errors s) (measure_start s) (measure_end s) (end_finalized_block s) (sq_waves s))
        end).

(** The state with the nonce a best block reports. *)
Definition at_best (s : SeqState) (now n : Z) (me : option Z) : SeqState :=
  let ms := match measure_start s with None => if start_nonce <? n then Some now else None | t => t end in
  mkSeq n (finalized_nonce s) (waves_submitted s) (total_submitted s) (total_errors s)
    ms me (end_finalized_block s) (sq_waves s).

(** The branch for a best block. *)
Definition best_step (s : SeqState) (now number : Z) (hash : bytes) (next_index : option Z) (io : WaveIO) : Flow :=
  match next_index with
  | None => Continue s
  | Some n =>
      if expected_final <=? n then Continue (at_best s now n (Some (default now (measure_end s)))) else
      match
        from_idx ← checked_sub n start_nonce;
        end_idx ← compute_batch_end limits payloads from_idx;
        feed_to ← add64 start_nonce end_idx;
        _ ← checked_sub feed_to n;
        _ ← checked_sub feed_to 1;
        feed (at_best s now n None) n feed_to (Some (number, hash)) io
      with
      | Some (_, s') => Continue s'
      | None => Panic
      end
  end.

(** The branch for a finalized block. *)
Definition finalized_step (s : SeqState) (number : Z) (nonce_at : option Z) : Flow :=
  let new_fin := default (finalized_nonce s) nonce_at in
  let fin := if finalized_nonce s <? new_fin then new_fin else finalized_nonce s in
  let at_ e := mkSeq (best_nonce s) fin (waves_submitted s) (total_submitted s) (total_errors s)
                 (measure_start s) (measure_end s) e (sq_waves s) in
  if expected_final <=? fin then Break (at_ number) else Continue (at_ (end_finalized_block s)).

Definition seq_step (s : SeqState) (ev : SeqEvent) : Flow :=
  match ev with
  | BestBlock now number hash next_index io => best_step s now number hash next_index io
  | FinalizedBlock number nonce_at => finalized_step s number nonce_at
  | SubscriptionEnded | Deadline => Break s
  | NoEvents => Continue s
  end.

(** The main loop on the events it sees; it is still running when they run out. *)
Fixpoint seq_loop (s : SeqState) (events : list SeqEvent) : Flow :=
  match events with
  | [] => Continue s
  | ev :: events' => match seq_step s ev with Continue s' => seq_loop s' events' | r => r end
  end.

Definition seq_start : SeqState := mkSeq start_nonce start_nonce 0 0 0 None None 0 [].

(** The initial wave; an error of signing ends the upload. *)
Definition initial_wave (io : WaveIO) : option (bool * SeqState) :=
  _ ← add64 start_nonce (len payloads);
  end_idx ← compute_batch_end limits payloads 0;
  initial_to ← add64 start_nonce end_idx;
  _ ← checked_sub initial_to 1;
  feed seq_start start_nonce initial_to None io.

(** The scan of the finalized blocks, given what each answers. *)
Fixpoint scan_loop (scan : Z -> ScanAnswer) (numbers : list Z) (prev_nonce : Z) : option (list BlockStats) :=
  match numbers with
  | [] => Some []
  | block_num :: numbers' =>
      let a := scan block_num in
      match sc_hash a with
      | None => scan_loop scan numbers' prev_nonce
      | Some h =>
          if bool_decide (h = replicate 32 Byte.x00) then scan_loop scan numbers' prev_nonce else
          let nonce_at_block := default prev_nonce (sc_nonce a) in
          let our_tx_count := sat_sub nonce_at_block prev_nonce in
          our_payload_bytes ←
            (if 0 <? our_tx_count then
               from_idx ← checked_sub prev_nonce start_nonce;
               to_idx ← checked_sub nonce_at_block start_nonce;
               ps ← slice from_idx (Z.min to_idx (len payloads));
               Some (foldr (fun p z => len p + z) 0 ps)
             else Some 0);
          let b := mkStats block_num our_tx_count our_payload_bytes false (sc_timestamp a) (Some h) true
                     (Some (sc_now a)) None in
          if expected_final <=? nonce_at_block then Some [b]
          else rest ← scan_loop scan numbers' nonce_at_block; Some (b :: rest)
      end
  end.

(** The result, once the loop has ended. *)
Definition seq_finish (start_finalized_block : Z) (scan : Z -> ScanAnswer) (s : SeqState) : option SequentialUploadResult :=
  blocks ←
    (if start_finalized_block <? end_finalized_block s then
       scan_loop scan (seqZ start_finalized_block (end_finalized_block s - start_finalized_block + 1)) start_nonce
     else Some []);
  Some (mkSeqResult (total_submitted s) (sat_sub (Z.max (finalized_nonce s) (best_nonce s)) start_nonce)
          (total_errors s) (waves_submitted s) blocks).
End Upload.

(** How an upload ends. *)
Inductive UploadOutcome :=
| Uploaded (r : SequentialUploadResult)
| SigningFailed
| StillRunning (s : SeqState)
| Panicked.

(** [sequential_nonce_upload] from the reported start nonce on. *)
Definition sequential_nonce_upload sign_store_at hasher finalized_anchor limits payloads start_nonce
    (io : WaveIO) (events : list SeqEvent) (start_finalized_block : Z) (scan : Z -> ScanAnswer) : UploadOutcome :=
  match initial_wave sign_store_at hasher finalized_anchor limits payloads start_nonce io with
  | None => Panicked
  | Some (false, _) => SigningFailed
  | Some (true, s) =>
      match seq_loop sign_store_at hasher finalized_anchor limits payloads start_nonce s events with
      | Panic => Panicked
      | Continue s' => StillRunning s'
      | Break s' =>
          match seq_finish payloads start_nonce start_finalized_block scan s' with
          | Some r => Uploaded r
          | None => Panicked
          end
      end
  end.

(** ** Facts: batches *)

Section BatchFacts.
Context (limits : ChainLimits).

Definition weight_of (p : bytes) : Z := store_weight_base limits + store_weight_per_byte limits * len p.
Definition length_of (p : bytes) : Z := len p + extrinsic_length_overhead limits.
Definition weight_sum (ps : list bytes) : Z := foldr (fun p z => weight_of p + z) 0 ps.
Definition length_sum (ps : list bytes) : Z := foldr (fun p z => length_of p + z) 0 ps.

(** Payloads that fit one block together. *)
Definition fits (ps : list bytes) : Prop :=
  weight_sum ps <= max_normal_weight limits /\ length_sum ps <= normal_block_length limits /\
  len ps <= max_block_transactions limits.

(** Limits for which the loop's arithmetic stays in range. *)
Definition limits_ok (ps : list bytes) : Prop :=
  0 <= max_normal_weight limits /\ 0 <= normal_block_length limits /\ 0 <= max_block_transactions limits < u32_max /\
  0 <= store_weight_base limits /\ 0 <= store_weight_per_byte limits /\ 0 <= extrinsic_length_overhead limits /\
  Forall (fun p => max_normal_weight limits + weight_of p <= u64_max /\
                   normal_block_length limits + length_of p <= u64_max) ps.

Lemma limits_ok_tail p ps : limits_ok (p :: ps) -> limits_ok ps.
Proof. unfold limits_ok. rewrite Forall_cons. naive_solver. Qed.

Lemma tx_costs p ps :
  limits_ok (p :: ps) ->
  tx_weight limits (len p) = Some (weight_of p) /\ tx_length limits (len p) = Some (length_of p) /\
  0 <= weight_of p /\ 0 <= length_of p /\
  max_normal_weight limits + weight_of p <= u64_max /\ normal_block_length limits + length_of p <= u64_max.
Proof.
  intros (Hw & Hl & Hc & Hb & Hp & Ho & Hall). apply Forall_cons in Hall as [[H1 H2] _].
  pose proof (len_nonneg p) as Hn. unfold tx_weight, tx_length, weight_of, length_of, add64, mul64 in *.
  assert (0 <= store_weight_per_byte limits * len p) by nia.
  rewrite (proj2 (Z.leb_le (store_weight_per_byte limits * len p) _)) by lia. cbn [mbind option_bind].
  rewrite (proj2 (Z.leb_le _ u64_max)) by lia. rewrite (proj2 (Z.leb_le _ u64_max)) by lia.
  split_and!; [done..|lia|lia|lia|lia].
Qed.

Lemma sums_nonneg ps : limits_ok ps -> 0 <= weight_sum ps /\ 0 <= length_sum ps.
Proof.
  induction ps as [|p ps IH]; intros Hok; [cbn; lia|].
  destruct (tx_costs _ _ Hok) as (_ & _ & H1 & H2 & _). destruct (IH (limits_ok_tail _ _ Hok)).
  cbn [weight_sum length_sum foldr]. unfold weight_sum, length_sum in *. lia.
Qed.

Lemma limits_ok_take n ps : limits_ok ps -> limits_ok (take n ps).
Proof. unfold limits_ok. intros (?&?&?&?&?&?&?). split_and!; try done; try lia. by apply Forall_take. Qed.

Lemma limits_ok_drop n ps : limits_ok ps -> limits_ok (drop n ps).
Proof. unfold limits_ok. intros (?&?&?&?&?&?&?). split_and!; try done; try lia. by apply Forall_drop. Qed.

(** The loop takes the longest beginning that still fits behind what it has. *)
Lemma batch_loop_spec ps w l c idx :
  limits_ok ps -> 0 <= w <= max_normal_weight limits -> 0 <= l <= normal_block_length limits ->
  0 <= c <= max_block_transactions limits ->
  exists k, (k <= length ps)%nat /\ batch_loop limits ps w l c idx = Some (idx + Z.of_nat k) /\
    forall j, (j <= length ps)%nat ->
      (w + weight_sum (take j ps) <= max_normal_weight limits /\ l + length_sum (take j ps) <= normal_block_length limits /\
       c + Z.of_nat j <= max_block_transactions limits) <-> (j <= k)%nat.
Proof.
  intros Hok. revert w l c idx. induction ps as [|p ps IH]; intros w l c idx Hw Hl Hc.
  { exists 0%nat. cbn. rewrite Z.add_0_r. split_and!; [lia|done|]. intros j Hj. rewrite take_nil. cbn. lia. }
  destruct (tx_costs _ _ Hok) as (E1 & E2 & Hp1 & Hp2 & Hb1 & Hb2). pose proof Hok as (_ & _ & Hm & _).
  assert (forall j, 0 <= weight_sum (take j ps) /\ 0 <= length_sum (take j ps)) as Hnn.
  { intros j. by apply sums_nonneg, limits_ok_take, (limits_ok_tail p). }
  cbn [batch_loop]. rewrite E1. cbn [mbind option_bind]. rewrite E2. cbn [mbind option_bind]. unfold add64, add32.
  rewrite (proj2 (Z.leb_le (w + weight_of p) _)) by lia. cbn [mbind option_bind].
  assert (forall j, weight_sum (take (S j) (p :: ps)) = weight_of p + weight_sum (take j ps)) as Ew by done.
  assert (forall j, length_sum (take (S j) (p :: ps)) = length_of p + length_sum (take j ps)) as El by done.
  destruct (max_normal_weight limits <? w + weight_of p) eqn:T1; b2p.
  { exists 0%nat. split_and!; [lia|by rewrite Z.add_0_r|]. intros [|j] Hj; [cbn; lia|]. rewrite Ew. specialize (Hnn j). lia. }
  rewrite (proj2 (Z.leb_le (l + length_of p) _)) by lia. cbn [mbind option_bind].
  destruct (normal_block_length limits <? l + length_of p) eqn:T2; b2p.
  { exists 0%nat. split_and!; [lia|by rewrite Z.add_0_r|]. intros [|j] Hj; [cbn; lia|]. rewrite El. specialize (Hnn j). lia. }
  rewrite (proj2 (Z.leb_le (c + 1) _)) by lia. cbn [mbind option_bind].
  destruct (max_block_transactions limits <? c + 1) eqn:T3; b2p.
  { exists 0%nat. split_and!; [lia|by rewrite Z.add_0_r|]. intros [|j] Hj; [cbn; lia|]. lia. }
  destruct (IH (limits_ok_tail _ _ Hok) (w + weight_of p) (l + length_of p) (c + 1) (idx + 1)) as (k & Hk & -> & Hmax); [lia..|].
  exists (S k). split_and!; [simpl; lia|f_equal; lia|]. intros [|j] Hj; [cbn; lia|].
  simpl in Hj. rewrite Ew, El. specialize (Hmax j ltac:(lia)). lia.
Qed.

(** A batch is the longest run of payloads from its start that fits one block. *)
Lemma compute_batch_end_spec ps from :
  limits_ok ps -> 0 <= from <= len ps ->
  exists k, compute_batch_end limits ps from = Some (from + Z.of_nat k) /\ from + Z.of_nat k <= len ps /\
    forall j, (j <= length (drop (Z.to_nat from) ps))%nat -> fits (take j (drop (Z.to_nat from) ps)) <-> (j <= k)%nat.
Proof.
  intros Hok Hf. unfold compute_batch_end. pose proof Hok as (? & ? & ? & _).
  destruct (batch_loop_spec (drop (Z.to_nat from) ps) 0 0 0 from) as (k & Hk & -> & Hmax);
    [by apply limits_ok_drop|lia..|].
  exists k. split; [done|]. rewrite length_drop in Hk. split; [unfold len in *; lia|].
  intros j Hj. rewrite <-(Hmax j Hj). unfold fits, len. rewrite length_take_le by done. lia.
Qed.

Lemma uniform_sums n p : weight_sum (replicate n p) = Z.of_nat n * weight_of p /\
  length_sum (replicate n p) = Z.of_nat n * length_of p.
Proof.
  induction n as [|n [IH1 IH2]]; [done|]. cbn [replicate weight_sum length_sum foldr].
  unfold weight_sum, length_sum in *. rewrite IH1, IH2. lia.
Qed.

Lemma le_div_iff a b j : 0 < b -> j <= a / b <-> j * b <= a.
Proof.
  intros Hb. split; [intros Hj|intros Hj; apply Z.div_le_lower_bound; lia].
  pose proof (Z.mul_div_le a b Hb). nia.
Qed.

(** On payloads of one size the batches are the estimated block capacity. *)
Lemma uniform_batches n p from cap :
  limits_ok (replicate n p) -> 0 <= from < Z.of_nat n -> estimate_block_capacity limits (len p) = Some cap ->
  compute_batch_end limits (replicate n p) from = Some (Z.min (Z.of_nat n) (from + cap)).
Proof.
  intros Hok Hf He.
  destruct (compute_batch_end_spec (replicate n p) from) as (k & -> & Hk & Hmax);
    [done|unfold len; rewrite length_replicate; lia|].
  f_equal. unfold len in Hk. rewrite length_replicate in Hk.
  rewrite drop_replicate in Hmax. destruct n as [|n]; [lia|].
  destruct (tx_costs p (replicate n p) Hok) as (E1 & E2 & Hp1 & Hp2 & _).
  unfold estimate_block_capacity, compute_theoretical_limits in He. rewrite E1 in He. cbn [mbind option_bind] in He.
  rewrite E2 in He. cbn [mbind option_bind] in He. destruct (_ || _) eqn:Ez; [done|]. cbn in He. simplify_eq.
  apply orb_false_iff in Ez as [Z1 Z2]. b2p.
  set (m := (S n - Z.to_nat from)%nat) in *. rewrite length_replicate in Hmax.
  assert (forall j, (j <= m)%nat -> (Z.of_nat j <= Z.min (Z.min (max_normal_weight limits / weight_of p)
    (normal_block_length limits / length_of p)) (max_block_transactions limits) <-> (j <= k)%nat)) as Hj.
  { intros j Hj. rewrite <-(Hmax j Hj). rewrite take_replicate, Nat.min_l by done. unfold fits.
    destruct (uniform_sums j p) as [-> ->]. unfold len. rewrite length_replicate.
    rewrite !Z.min_glb_iff. rewrite !le_div_iff by lia. lia. }
  clear Hmax. destruct Hok as (H1 & H2 & H3 & _).
  set (cap := Z.min _ (max_block_transactions limits)) in *.
  assert (0 <= cap) by (unfold cap; repeat apply Z.min_glb; try apply Z.div_pos; lia).
  assert (Z.of_nat k <= cap) by (apply Hj; lia).
  destruct (decide (k = m)) as [->|Hkm]; [lia|].
  assert (~ Z.of_nat (S k) <= cap) by (intros Hc; apply Hj in Hc; lia). lia.
Qed.
End BatchFacts.

(** ** Facts: waves *)

(** Some endpoint accepted the transaction. *)
Definition accepted_somewhere (io : WaveIO) (pre : PreSignedTx) : bool :=
  existsb (fun i => match wave_answer io i pre with None => true | Some _ => false end) (seq 0 (num_clients io)).

Lemma size_of_nodup (l : list Z) : NoDup l -> size (list_to_set l : gset Z) = length l.
Proof.
  induction 1 as [|x l Hx _ IH]; [done|]. cbn [list_to_set]. rewrite size_union, size_singleton, IH; [done|].
  intros y. rewrite elem_of_singleton, elem_of_list_to_set. by intros ->.
Qed.

(** A wave counts each nonce once, however many endpoints take it. *)
Lemma wave_ok_count io txs :
  (forall l, wave_arrival io l ≡ₚ l) -> NoDup (map ps_nonce txs) ->
  (submit_sequential_wave io txs).1 = len (List.filter (accepted_somewhere io) txs).
Proof.
  intros Hperm Hnd. unfold submit_sequential_wave. destruct (num_clients io =? 0)%nat eqn:E0.
  { apply Nat.eqb_eq in E0. cbn [fst]. unfold accepted_somewhere. rewrite E0. cbn.
    clear. induction txs; [done|]. by cbn. }
  clear E0. cbn [fst]. unfold len. f_equal. set (acc := fun r : Z * option TxPoolError => _).
  assert (NoDup (map ps_nonce (List.filter (accepted_somewhere io) txs))) as Hnf.
  { clear -Hnd. induction txs as [|t txs IH]; [constructor|]. cbn in Hnd |- *. apply NoDup_cons in Hnd as [Ht Hnd].
    destruct (accepted_somewhere io t); cbn; [|by apply IH]. apply NoDup_cons. split; [|by apply IH].
    intros Hin. apply Ht. apply list_elem_of_In, in_map_iff in Hin as (u & <- & Hu%filter_In).
    by apply list_elem_of_In, in_map, Hu. }
  rewrite <-(length_map ps_nonce), <-(size_of_nodup _ Hnf). f_equal. apply set_eq. intros n.
  rewrite !elem_of_list_to_set, list_elem_of_omap. split.
  - intros (r & Hr & Ha). rewrite Hperm in Hr. apply list_elem_of_In, in_concat in Hr as (l & Hl & Hr).
    apply in_map_iff in Hl as (t & <- & Ht). apply in_map_iff in Hr as (i & <- & Hi).
    unfold acc in Ha. cbn in Ha. destruct (wave_answer io i t) eqn:Ea; [done|]. simplify_eq.
    apply list_elem_of_In, in_map, filter_In. split; [done|]. apply existsb_exists. exists i. by rewrite Ea.
  - intros Hin. apply list_elem_of_In, in_map_iff in Hin as (t & <- & Ht%filter_In). destruct Ht as [Ht Ha].
    apply existsb_exists in Ha as (i & Hi & Ha). exists (ps_nonce t, wave_answer io i t). split.
    + rewrite Hperm. apply list_elem_of_In, in_concat. eexists. split; [apply in_map; exact Ht|].
      by apply (in_map (fun i => (ps_nonce t, wave_answer io i t))).
    + unfold acc. cbn. by destruct (wave_answer io i t).
Qed.

Section UploadFacts.
Context (sign_store_at : Z -> bytes -> Z * bytes -> option bytes) (hasher : bytes -> bytes).
Context (finalized_anchor : option (Z * bytes)) (limits : ChainLimits) (payloads : list bytes) (start_nonce : Z).

(** A transaction that carries payload number [i]. *)
Definition carries (anchor : Z * bytes) (i : nat) (pre : PreSignedTx) : Prop :=
  ps_nonce pre = start_nonce + Z.of_nat i /\
  exists p, payloads !! i = Some p /\ sign_store_at (ps_nonce pre) p anchor = Some (ps_encoded pre) /\
    ps_hash pre = hasher (ps_encoded pre) /\ ps_size pre = len p.

(** A wave from nonce [n]: the payloads from [n - start_nonce] on, each at its own nonce,
    as many as fit one block, at least one. *)
Definition wave_from (n : Z) (txs : list PreSignedTx) : Prop :=
  start_nonce <= n /\ txs <> [] /\
  (exists anchor, forall j pre, txs !! j = Some pre -> carries anchor (Z.to_nat (n - start_nonce) + j) pre) /\
  let rest := drop (Z.to_nat (n - start_nonce)) payloads in
  forall j, (j <= length rest)%nat -> fits limits (take j rest) <-> (j <= length txs)%nat.

Lemma sign_loop_spec anchor from i ps :
  from + i + len ps <= u64_max + 1 ->
  exists r, sign_loop sign_store_at hasher anchor from i ps = Some r /\
    forall txs, r = Some txs -> length txs = length ps /\
      forall j pre, txs !! j = Some pre -> ps_nonce pre = from + i + Z.of_nat j /\
        exists p, ps !! j = Some p /\ sign_store_at (ps_nonce pre) p anchor = Some (ps_encoded pre) /\
          ps_hash pre = hasher (ps_encoded pre) /\ ps_size pre = len p.
Proof.
  revert i. induction ps as [|p ps IH]; intros i Hb.
  { exists (Some []). split; [done|]. intros ? [= <-]. done. }
  unfold len in Hb. cbn [length] in Hb. cbn [sign_loop]. unfold add64. rewrite (proj2 (Z.leb_le _ _)) by lia. cbn [mbind option_bind].
  destruct (sign_store_at (from + i) p anchor) as [enc|] eqn:Es; [|by exists None].
  destruct (IH (i + 1)) as (r & -> & Hr); [unfold len; lia|]. cbn [mbind option_bind].
  eexists. split; [done|]. intros txs Ht. destruct r as [txs'|]; [|done]. cbn in Ht. simplify_eq.
  destruct (Hr txs' eq_refl) as [Hl Hj]. split; [cbn; lia|]. intros [|j] pre Hp; cbn in Hp.
  - simplify_eq. cbn. split; [lia|]. by exists p.
  - destruct (Hj j pre Hp) as [Hn Hx]. split; [lia|]. exact Hx.
Qed.

Context (Hlimits : limits_ok limits payloads).
Context (Halone : Forall (fun p => fits limits [p]) payloads).
Context (Hstart : 0 <= start_nonce) (Hend : start_nonce + len payloads <= u64_max).

Lemma batch_progress n :
  start_nonce <= n < start_nonce + len payloads ->
  exists k, compute_batch_end limits payloads (n - start_nonce) = Some (n - start_nonce + Z.of_nat k) /\
    (0 < k)%nat /\ n + Z.of_nat k <= start_nonce + len payloads /\
    let rest := drop (Z.to_nat (n - start_nonce)) payloads in
    forall j, (j <= length rest)%nat -> fits limits (take j rest) <-> (j <= k)%nat.
Proof.
  intros Hn. destruct (compute_batch_end_spec limits payloads (n - start_nonce)) as (k & Hk & Hle & Hmax); [done|lia|].
  exists k. split_and!; [done| |lia|done].
  assert (1 <= length (drop (Z.to_nat (n - start_nonce)) payloads))%nat as Hl by (rewrite length_drop; unfold len in *; lia).
  apply (Hmax 1%nat Hl). destruct (drop _ payloads) as [|p rest] eqn:E; [cbn in Hl; lia|].
  destruct rest; cbn [take]; apply (Forall_lookup_1 _ _ (Z.to_nat (n - start_nonce) + 0) p Halone); by rewrite <-lookup_drop, E.
Qed.

(** Feeding from a nonce in range: no panic, and a signed wave is in order. *)
Lemma feed_spec s n k mortality io :
  (forall l, wave_arrival io l ≡ₚ l) ->
  start_nonce <= n -> (0 < k)%nat -> n + Z.of_nat k <= start_nonce + len payloads ->
  (let rest := drop (Z.to_nat (n - start_nonce)) payloads in
   forall j, (j <= length rest)%nat -> fits limits (take j rest) <-> (j <= k)%nat) ->
  exists b s', feed sign_store_at hasher finalized_anchor payloads start_nonce s n (n + Z.of_nat k) mortality io = Some (b, s') /\
    best_nonce s' = best_nonce s /\ finalized_nonce s' = finalized_nonce s /\
    end_finalized_block s' = end_finalized_block s /\ waves_submitted s' = waves_submitted s + 1 /\
    ((b = false /\ sq_waves s' = sq_waves s /\ total_submitted s' = total_submitted s) \/
     (b = true /\ exists txs, sq_waves s' = sq_waves s ++ [txs] /\ wave_from n txs /\
       total_submitted s' = total_submitted s + len (List.filter (accepted_somewhere io) txs))).
Proof.
  intros Hperm Hn Hk Hle Hmax. unfold feed, sign_and_submit, checked_sub.
  rewrite !(proj2 (Z.leb_le start_nonce _)) by lia. cbn [mbind option_bind]. unfold slice.
  rewrite (proj2 (Z.leb_le (n - start_nonce) _)), (proj2 (Z.leb_le _ (len payloads))) by lia. cbn [andb mbind option_bind].
  set (batch := take _ _). assert (length batch = k) as Hb.
  { unfold batch. rewrite length_take_le; [lia|]. rewrite length_drop. unfold len in *. lia. }
  unfold sign_sequential_txs. destruct (match mortality with Some a => Some a | None => finalized_anchor end) as [anchor|].
  2: { exists false. eexists. cbn [mbind option_bind]. split; [done|]. cbn. split_and!; try done. by left. }
  destruct (sign_loop_spec anchor n 0 batch) as (r & -> & Hr); [unfold len; rewrite Hb; unfold len in *; lia|]. cbn [mbind option_bind].
  destruct r as [txs|].
  2: { exists false. eexists. split; [done|]. cbn. split_and!; try done. by left. }
  destruct (Hr txs eq_refl) as [Hl Hj]. cbn [mbind option_bind]. destruct (submit_sequential_wave io txs) as [ok errs] eqn:Ew.
  exists true. eexists. split; [done|]. cbn. split_and!; try done. right. split; [done|]. exists txs. split; [done|]. 
  assert (NoDup (map ps_nonce txs)) as Hnd.
  { apply NoDup_alt. intros i j x Hi Hj'.
    apply list_lookup_fmap_Some in Hi as (p1 & -> & Hi). apply list_lookup_fmap_Some in Hj' as (p2 & Hp & Hj').
    destruct (Hj i p1 Hi) as [E1 _]. destruct (Hj j p2 Hj') as [E2 _]. lia. }
  pose proof (wave_ok_count io txs Hperm Hnd) as Hc. rewrite Ew in Hc. cbn in Hc. split; [|lia].
  split_and!; [done|intros ->; cbn in Hl; lia| |by rewrite Hl, Hb].
  exists anchor. intros j pre Hp. destruct (Hj j pre Hp) as [Hnn (p & Hlp & Hs)]. split; [lia|]. exists p. split; [|done].
  unfold batch in Hlp. apply lookup_take_Some in Hlp as [Hlp _]. by rewrite lookup_drop in Hlp.
Qed.

Abbreviation loop := (seq_loop sign_store_at hasher finalized_anchor limits payloads start_nonce).
Abbreviation one_step := (seq_step sign_store_at hasher finalized_anchor limits payloads start_nonce).

(** The nonces at which the events make the loop feed the pool. *)
Definition fed_nonce (ev : SeqEvent) : option Z :=
  match ev with
  | BestBlock _ _ _ (Some n) _ => if n <? start_nonce + len payloads then Some n else None
  | _ => None
  end.

Definition event_ok (ev : SeqEvent) : Prop :=
  match ev with
  | BestBlock _ _ _ next_index io => (forall n, next_index = Some n -> start_nonce <= n) /\ forall l, wave_arrival io l ≡ₚ l
  | _ => True
  end.

(** The finalized block that ends the upload. *)
Definition completes (ev : SeqEvent) : Prop :=
  match ev with FinalizedBlock _ (Some n) => start_nonce + len payloads <= n | _ => False end.

Definition wave_total (ws : list (list PreSignedTx)) : Z := foldr (fun w z => len w + z) 0 ws.

(** What one state of the loop may become. *)
Definition advances (s s' : SeqState) (fed : list Z) : Prop :=
  finalized_nonce s <= finalized_nonce s' /\
  (start_nonce <= best_nonce s -> start_nonce <= best_nonce s') /\
  waves_submitted s' <= waves_submitted s + len fed /\
  exists ns ws, ns `sublist_of` fed /\ Forall2 wave_from ns ws /\ sq_waves s' = sq_waves s ++ ws /\
    total_submitted s <= total_submitted s' <= total_submitted s + wave_total ws.

Lemma advances_idle s s' :
  finalized_nonce s <= finalized_nonce s' -> (start_nonce <= best_nonce s -> start_nonce <= best_nonce s') ->
  waves_submitted s' = waves_submitted s -> sq_waves s' = sq_waves s -> total_submitted s' = total_submitted s ->
  advances s s' [].
Proof.
  intros Hf Hb Hw Hq Ht. split_and!; [done|done|rewrite Hw; unfold len; cbn [length]; lia|].
  exists [], []. split_and!; [constructor|constructor|by rewrite app_nil_r|lia|unfold wave_total, len in *; cbn [foldr length] in *; lia].
Qed.

Lemma wave_total_app a b : wave_total (a ++ b) = wave_total a + wave_total b.
Proof. unfold wave_total. induction a as [|w a IH]; [done|]. cbn [app foldr]. rewrite IH. lia. Qed.

Lemma advances_trans s s1 s2 l k : advances s s1 l -> advances s1 s2 k -> advances s s2 (l ++ k).
Proof.
  intros (Hf & Hb & Hw & ns & ws & Hs & Hn & Hq & Ht) (Hf' & Hb' & Hw' & ns' & ws' & Hs' & Hn' & Hq' & Ht').
  split_and!; [lia|auto|rewrite len_app; lia|]. exists (ns ++ ns'), (ws ++ ws'). rewrite wave_total_app.
  split_and!; [by apply sublist_app|by apply Forall2_app|by rewrite Hq', Hq, (assoc_L (++))|lia|lia].
Qed.

Lemma filter_len {A} (f : A -> bool) l : 0 <= len (List.filter f l) <= len l.
Proof. unfold len. pose proof (filter_length_le f l). lia. Qed.

Lemma advances_fed s s0 s' b n io :
  finalized_nonce s' = finalized_nonce s -> start_nonce <= best_nonce s' ->
  waves_submitted s' = waves_submitted s + 1 -> sq_waves s0 = sq_waves s -> total_submitted s0 = total_submitted s ->
  ((b = false /\ sq_waves s' = sq_waves s0 /\ total_submitted s' = total_submitted s0) \/
     (b = true /\ exists txs, sq_waves s' = sq_waves s0 ++ [txs] /\ wave_from n txs /\
       total_submitted s' = total_submitted s0 + len (List.filter (accepted_somewhere io) txs))) ->
  advances s s' [n].
Proof.
  intros Hf Hb Hw Hq Ht Hcase. rewrite Hq, Ht in Hcase. split_and!; [lia|done|rewrite Hw; unfold len; cbn [length]; lia|].
  destruct Hcase as [(_ & Hq' & Ht')|(_ & txs & Hq' & Hwave & Ht')].
  - exists [], []. split_and!; [apply sublist_nil_l|constructor|by rewrite app_nil_r|lia|unfold wave_total, len in *; cbn [foldr length] in *; lia].
  - exists [n], [txs]. pose proof (filter_len (accepted_somewhere io) txs).
    split_and!; [done|by constructor; [|constructor]|done|lia|unfold wave_total, len in *; cbn [foldr length] in *; lia].
Qed.

Lemma best_step_ok s now number hash n io :
  start_nonce <= n -> (forall l, wave_arrival io l ≡ₚ l) ->
  exists s', one_step s (BestBlock now number hash (Some n) io) = Continue s' /\
    advances s s' (option_list (fed_nonce (BestBlock now number hash (Some n) io))).
Proof.
  intros Hn Hperm. cbn [seq_step best_step fed_nonce]. unfold expected_final.
  destruct (start_nonce + len payloads <=? n) eqn:E; b2p.
  { eexists. split; [done|]. rewrite (proj2 (Z.ltb_ge _ _)) by lia. by apply advances_idle. }
  rewrite (proj2 (Z.ltb_lt n _)) by lia. unfold checked_sub.
  rewrite (proj2 (Z.leb_le start_nonce n)) by lia. cbn [mbind option_bind option_list].
  destruct (batch_progress n) as (k & -> & Hk & Hle & Hmax); [lia|]. cbn [mbind option_bind].
  replace (add64 start_nonce (n - start_nonce + Z.of_nat k)) with (Some (n + Z.of_nat k))
    by (unfold add64; rewrite (proj2 (Z.leb_le _ _)) by lia; f_equal; lia).
  cbn [mbind option_bind].
  rewrite (proj2 (Z.leb_le n (n + Z.of_nat k))), (proj2 (Z.leb_le 1 (n + Z.of_nat k))) by lia. cbn [mbind option_bind].
  destruct (feed_spec (at_best start_nonce s now n None) n k (Some (number, hash)) io Hperm Hn Hk Hle Hmax)
    as (b & s' & -> & Hb & Hf & He & Hw & Hcase).
  exists s'. split; [done|]. apply (advances_fed s (at_best start_nonce s now n None) s' b n io); try done. by rewrite Hb.
Qed.

Lemma step_ok s ev :
  event_ok ev -> exists s', (one_step s ev = Continue s' \/ one_step s ev = Break s') /\
    advances s s' (option_list (fed_nonce ev)) /\ (completes ev -> one_step s ev = Break s').
Proof.
  destruct ev as [now number hash [n|] io|number nonce| | |]; intros Hok;
    try (eexists; split_and!; [by (left + right)|by apply advances_idle|done]).
  - destruct Hok as [Hn Hp]. destruct (best_step_ok s now number hash n io) as (s' & Hs & Ha); [by apply Hn|done|].
    exists s'. split_and!; [by left|done|done].
  - cbn [seq_step fed_nonce option_list completes]. unfold finalized_step, expected_final.
    set (new_fin := default (finalized_nonce s) nonce).
    set (fin := if finalized_nonce s <? new_fin then new_fin else finalized_nonce s).
    assert (finalized_nonce s <= fin) by (unfold fin; destruct (_ <? _) eqn:E; b2p; lia).
    destruct (_ <=? fin) eqn:Ef; b2p; (eexists; split_and!; [by (left + right)|by apply advances_idle|]); [done|].
    destruct nonce as [m|]; [|done]. cbn in new_fin. intros Hc. exfalso. unfold fin, new_fin in *.
    destruct (_ <? _) eqn:E; b2p; lia.
Qed.

Lemma loop_ok events s :
  Forall event_ok events ->
  exists s', (loop s events = Continue s' \/ loop s events = Break s') /\
    advances s s' (omap fed_nonce events) /\ (Exists completes events -> loop s events = Break s').
Proof.
  intros Hok. revert s. induction Hok as [|ev events Hev Hok IH]; intros s.
  { exists s. split_and!; [by left|by apply advances_idle|by intros ?%Exists_nil]. }
  assert (omap fed_nonce (ev :: events) = option_list (fed_nonce ev) ++ omap fed_nonce events) as Hom
    by (cbn; by destruct (fed_nonce ev)).
  rewrite Hom. destruct (step_ok s ev Hev) as (s1 & [E|E] & Ha & Hc); cbn [seq_loop]; rewrite E.
  - destruct (IH s1) as (s' & Hs & Ha' & Hc'). exists s'. split_and!; [done|by eapply advances_trans|].
    intros [He|He]%Exists_cons; [exfalso; apply Hc in He; congruence|by apply Hc'].
  - exists s1. split_and!; [by right| |done]. destruct Ha as (Hf & Hb & Hw & ns & ws & Hs & Hrest).
    split_and!; [done|done|rewrite len_app; pose proof (len_nonneg (omap fed_nonce events)); lia|].
    exists ns, ws. split; [|done]. rewrite <-(app_nil_r ns). apply sublist_app; [done|apply sublist_nil_l].
Qed.

Lemma initial_ok io :
  payloads <> [] -> (forall l, wave_arrival io l ≡ₚ l) ->
  exists b s, initial_wave sign_store_at hasher finalized_anchor limits payloads start_nonce io = Some (b, s) /\
    finalized_nonce s = start_nonce /\ best_nonce s = start_nonce /\ advances (seq_start start_nonce) s [start_nonce] /\
    waves_submitted s = 1.
Proof.
  intros Hne Hperm. assert (0 < len payloads) by (unfold len; destruct payloads; [done|cbn; lia]).
  unfold initial_wave, add64. rewrite (proj2 (Z.leb_le (start_nonce + len payloads) _)) by lia. cbn [mbind option_bind].
  destruct (batch_progress start_nonce) as (k & Hb & Hk & Hle & Hmax); [lia|].
  rewrite Z.sub_diag in Hb. rewrite Hb, Z.add_0_l. cbn [mbind option_bind].
  rewrite (proj2 (Z.leb_le (start_nonce + Z.of_nat k) _)) by lia. cbn [mbind option_bind]. unfold checked_sub.
  rewrite (proj2 (Z.leb_le 1 _)) by lia. cbn [mbind option_bind].
  destruct (feed_spec (seq_start start_nonce) start_nonce k None io Hperm) as (b & s & -> & Hbn & Hf & He & Hw & Hcase); [lia|done..|].
  exists b, s. rewrite Hbn, Hf, Hw. split_and!; [done..| |done].
  apply (advances_fed (seq_start start_nonce) (seq_start start_nonce) s b start_nonce io); try done. by rewrite Hbn.
Qed.

(** ** Facts: the scan *)

Definition usable (a : ScanAnswer) : bool :=
  match sc_hash a with Some h => negb (bool_decide (h = replicate 32 Byte.x00)) | None => false end.

(** The scanned blocks never report a smaller nonce than the block before. *)
Fixpoint nonces_grow (scan : Z -> ScanAnswer) (numbers : list Z) (prev : Z) : Prop :=
  match numbers with
  | [] => True
  | b :: numbers' =>
      if usable (scan b) then prev <= default prev (sc_nonce (scan b)) /\ nonces_grow scan numbers' (default prev (sc_nonce (scan b)))
      else nonces_grow scan numbers' prev
  end.

Definition bytes_until (i : Z) : Z := foldr (fun p z => len p + z) 0 (take (Z.to_nat i) payloads).

Lemma bytes_between i j :
  0 <= i <= j -> j <= len payloads ->
  foldr (fun p z => len p + z) 0 (take (Z.to_nat (j - i)) (drop (Z.to_nat i) payloads)) = bytes_until j - bytes_until i.
Proof.
  intros Hi Hj. unfold bytes_until. replace (Z.to_nat j) with (Z.to_nat i + Z.to_nat (j - i))%nat by lia.
  rewrite <-take_take_drop, foldr_app.
  assert (forall l z, foldr (fun p z => len p + z) z l = foldr (fun (p : bytes) z => len p + z) 0 l + z) as Hf.
  { clear. induction l as [|x l IH]; intros z; [done|]. cbn [foldr]. rewrite IH. lia. }
  rewrite (Hf (take (Z.to_nat i) payloads)). lia.
Qed.

(** Per-block counts and bytes add up to what lies between the first nonce and the last. *)
Lemma scan_spec scan numbers prev :
  nonces_grow scan numbers prev -> start_nonce <= prev < start_nonce + len payloads ->
  exists blocks last, scan_loop payloads start_nonce scan numbers prev = Some blocks /\ prev <= last /\
    tx_sum blocks = last - prev /\
    bytes_sum blocks = bytes_until (Z.min (last - start_nonce) (len payloads)) - bytes_until (prev - start_nonce) /\
    map bs_number blocks `sublist_of` numbers /\
    (Exists (fun b => usable (scan b) = true /\ exists n, sc_nonce (scan b) = Some n /\ start_nonce + len payloads <= n) numbers ->
     start_nonce + len payloads <= last).
Proof.
  revert prev. induction numbers as [|b numbers IH]; intros prev Hg Hp.
  { exists [], prev. rewrite Z.min_l by lia. cbn. split_and!; [done|lia|lia|lia|constructor|by intros ?%Exists_nil]. }
  cbn [nonces_grow scan_loop] in *. unfold usable in *.
  assert (forall P : Z -> Prop, ~ P b -> Exists P (b :: numbers) -> Exists P numbers) as Hskip.
  { intros P Hn [?|?]%Exists_cons; [by destruct Hn|done]. }
  destruct (sc_hash (scan b)) as [h|] eqn:Eh.
  2: { destruct (IH prev Hg Hp) as (bs & last & -> & Hl & Ht & Hb & Hs & He). exists bs, last.
       split_and!; try done; [by apply sublist_cons|]. intros Hx. apply He. apply Hskip in Hx; [done|]. rewrite Eh. by intros [? _]. }
  case_bool_decide as Hz; cbn [negb] in *.
  { destruct (IH prev Hg Hp) as (bs & last & -> & Hl & Ht & Hb & Hs & He). exists bs, last.
    split_and!; try done; [by apply sublist_cons|]. intros Hx. apply He. apply Hskip in Hx; [done|]. rewrite Eh.
    rewrite bool_decide_eq_true_2 by done. by intros [? _]. }
  destruct Hg as [Hm Hg]. set (m := default prev (sc_nonce (scan b))) in *.
  assert (sat_sub m prev = m - prev) as Hc by (unfold sat_sub; lia). rewrite Hc.
  assert ((if 0 <? m - prev then from_idx ← checked_sub prev start_nonce; to_idx ← checked_sub m start_nonce;
            ps ← slice payloads from_idx (Z.min to_idx (len payloads)); Some (foldr (fun p z => len p + z) 0 ps)
           else Some 0) = Some (bytes_until (Z.min (m - start_nonce) (len payloads)) - bytes_until (prev - start_nonce))) as ->.
  { destruct (0 <? m - prev) eqn:E; b2p; [|f_equal; rewrite Z.min_l by lia; replace m with prev by lia; lia].
    unfold checked_sub. rewrite !(proj2 (Z.leb_le start_nonce _)) by lia. cbn [mbind option_bind]. unfold slice.
    rewrite (proj2 (Z.leb_le (prev - start_nonce) _)), (proj2 (Z.leb_le _ (len payloads))) by lia. cbn [andb mbind option_bind].
    f_equal. apply bytes_between; lia. }
  cbn [mbind option_bind]. unfold expected_final. set (b0 := mkStats b _ _ _ _ _ _ _ _).
  destruct (start_nonce + len payloads <=? m) eqn:E; b2p.
  { exists [b0], m.
    unfold tx_sum, bytes_sum. cbn. split_and!; [done|done|lia|lia|apply sublist_skip, sublist_nil_l|lia]. }
  destruct (IH m Hg) as (bs & last & -> & Hl & Ht & Hb & Hs & He); [lia|]. cbn [mbind option_bind].
  exists (b0 :: bs), last. unfold tx_sum, bytes_sum in *. cbn [foldr map bs_number bs_tx_count bs_payload_bytes b0].
  split_and!; [done|lia|rewrite Ht; lia| |by apply sublist_skip|].
  { rewrite Hb. rewrite (Z.min_l (m - start_nonce)) by lia. lia. }
  intros Hx. apply He. apply Hskip in Hx; [done|]. intros (_ & n & Hn & Hle). unfold m in E. rewrite Hn in E. cbn in E. lia.
Qed.
End UploadFacts.
