(* ===== verification/BulkStore.v ===== *)
(** The concurrent one-shot uploader [bulk_store_oneshot]
    ([stress-test/src/store.rs]): submitters over a shared queue, the shared nonce
    tracker and counters, and the block monitor, as interleaved steps.  A step is one
    access of a worker or the monitor to the shared state. *)

From S2P Require Import Prelude Slice Primitives Types StressPlan Submission.

Section BulkStore.
Context `{KeyHost}.

(** A keypair and its payload. *)
Definition WorkItem : Type := Keypair * bytes.

Definition item_account (it : WorkItem) : AccountId := to_account_id32 it.1.

(** How an item leaves the uploader. *)
Inductive ItemEnd :=
| Stored                          (* accepted by the pool *)
| Skipped (class : TxPoolError)   (* refused for good *)
| Abandoned.                      (* dropped when the stop signal won *)

(** Where a submitter is in its loop. *)
Inductive SubmitterPhase :=
| Top
| Polling
| Picked (it : WorkItem)
| InFlight (it : WorkItem) (nonce : Z)
| Failed (it : WorkItem) (class : TxPoolError)
| RollingBack (it : WorkItem) (class : TxPoolError)
| Requeuing (it : WorkItem) (class : TxPoolError)
| Reconnecting
| LoopEnd
| Exited.

Record Worker := mkWorker { w_phase : SubmitterPhase; empty_polls : Z; consecutive_conn_errors : Z }.

(** The shared state; the last three components record what has happened: the nonces
    used, the items that left and the workers that gave up. *)
Record Shared := mkShared {
  account_queue : list WorkItem;
  nonce_tracker : NonceTracker;
  submitted : Z;
  errors : Z;
  pool_full_retries : Z;
  stale_nonces : Z;
  stop : bool;
  pool_saturated : bool;
  block_stats : list BlockStats;
  measure_clock : option Z;
  attempts : list (AccountId * Z);
  finished : list (WorkItem * ItemEnd);
  gave_up : Z }.

Definition set_queue (q : list WorkItem) (s : Shared) : Shared :=
  mkShared q (nonce_tracker s) (submitted s) (errors s) (pool_full_retries s) (stale_nonces s) (stop s)
    (pool_saturated s) (block_stats s) (measure_clock s) (attempts s) (finished s) (gave_up s).

Definition set_nonces (n : NonceTracker) (s : Shared) : Shared :=
  mkShared (account_queue s) n (submitted s) (errors s) (pool_full_retries s) (stale_nonces s) (stop s)
    (pool_saturated s) (block_stats s) (measure_clock s) (attempts s) (finished s) (gave_up s).

Definition count (sub err full stale : Z) (saturate : bool) (s : Shared) : Shared :=
  mkShared (account_queue s) (nonce_tracker s) (submitted s + sub) (errors s + err) (pool_full_retries s + full)
    (stale_nonces s + stale) (stop s) (pool_saturated s || saturate) (block_stats s) (measure_clock s)
    (attempts s) (finished s) (gave_up s).

Definition attempted (a : AccountId) (n : Z) (s : Shared) : Shared :=
  mkShared (account_queue s) (nonce_tracker s) (submitted s) (errors s) (pool_full_retries s) (stale_nonces s) (stop s)
    (pool_saturated s) (block_stats s) (measure_clock s) (attempts s ++ [(a, n)]) (finished s) (gave_up s).

Definition leave (it : WorkItem) (e : ItemEnd) (s : Shared) : Shared :=
  mkShared (account_queue s) (nonce_tracker s) (submitted s) (errors s) (pool_full_retries s) (stale_nonces s) (stop s)
    (pool_saturated s) (block_stats s) (measure_clock s) (attempts s) (finished s ++ [(it, e)]) (gave_up s).

Definition worker_gives_up (s : Shared) : Shared :=
  mkShared (account_queue s) (nonce_tracker s) (submitted s) (errors s) (pool_full_retries s) (stale_nonces s) (stop s)
    (pool_saturated s) (block_stats s) (measure_clock s) (attempts s) (finished s) (gave_up s + 1).

(** What the world decides at a step: nothing, the answer to a submission ([None] when
    it is accepted), that the stop signal wins the race, how a reconnect ends. *)
Inductive Choice := Go | Answer (r : option TxPoolError) | StopWins | Reconnect (ok : bool).

Definition retriable (class : TxPoolError) : bool :=
  match class with PoolFull | Banned | ExhaustsResources | ConnectionDead => true | _ => false end.

(** The counters an error adds to. *)
Definition count_error (class : TxPoolError) : Shared -> Shared :=
  match class with
  | PoolFull | TxDropped => count 0 0 1 0 true
  | Banned | ExhaustsResources => count 0 0 1 0 false
  | ConnectionDead | AlreadyImported => count 0 0 0 0 false
  | StaleNonce => count 0 0 0 1 false
  | FutureNonce | Other => count 0 1 0 0 false
  end.

(** One step of a submitter; [None] when the choice does not fit its phase. *)
Definition worker_step (has_block_target : bool) (c : Choice) (s : Shared) (w : Worker) : option (Shared * Worker) :=
  let go p := mkWorker p (empty_polls w) (consecutive_conn_errors w) in
  match w_phase w, c with
  | Top, Go => Some (s, go (if stop s then Exited else Polling))
  | Polling, Go =>
      match account_queue s with
      | [] =>
          if has_block_target && negb (stop s) then
            let polls := empty_polls w + 1 in
            Some (s, mkWorker (if 25 <? polls then Exited else Top) polls (consecutive_conn_errors w))
          else Some (s, go Exited)
      | it :: q => Some (set_queue q s, mkWorker (Picked it) 0 (consecutive_conn_errors w))
      end
  | Picked it, Go =>
      let '(nonce, tracker) := next_nonce (nonce_tracker s) (item_account it) in
      Some (attempted (item_account it) nonce (set_nonces tracker s), go (InFlight it nonce))
  | Picked it, StopWins | InFlight it _, StopWins =>
      if stop s then Some (leave it Abandoned s, go Exited) else None
  | InFlight it _, Answer None =>
      Some (leave it Stored (count 1 0 0 0 false s), mkWorker LoopEnd (empty_polls w) 0)
  | InFlight it _, Answer (Some class) => Some (s, go (Failed it class))
  | Failed it class, Go =>
      if stop s then Some (leave it Abandoned s, go Exited) else
      let conn := match class with ConnectionDead => consecutive_conn_errors w + 1 | _ => 0 end in
      if retriable class then Some (count_error class s, mkWorker (RollingBack it class) (empty_polls w) conn)
      else Some (leave it (Skipped class) (count_error class s), mkWorker LoopEnd (empty_polls w) conn)
  | RollingBack it class, Go =>
      Some (set_nonces (rollback (nonce_tracker s) (item_account it)) s, go (Requeuing it class))
  | Requeuing it class, Go =>
      Some (set_queue (it :: account_queue s) s,
            go (match class with ConnectionDead => Reconnecting | _ => LoopEnd end))
  | Reconnecting, Reconnect true => Some (s, mkWorker LoopEnd (empty_polls w) 0)
  | Reconnecting, Reconnect false =>
      if CONN_GIVE_UP <=? consecutive_conn_errors w then Some (worker_gives_up (count 0 1 0 0 false s), go Exited)
      else Some (s, go LoopEnd)
  | LoopEnd, Go => Some (s, go (if stop s then Exited else Top))
  | _, _ => None
  end.

(** The monitor: at the head of its loop, waiting for a block, holding one whose phase it
    has read, ended. *)
Inductive MonitorPhase := MTop | MWaiting | MHolding (number tx_count : Z) (prefill : bool) | MDone.

(** The monitor and its count of measured blocks with stores. *)
Record Monitor := mkMonitor { m_phase : MonitorPhase; total_store_blocks : Z }.

Definition set_stop (s : Shared) : Shared :=
  mkShared (account_queue s) (nonce_tracker s) (submitted s) (errors s) (pool_full_retries s) (stale_nonces s) true
    (pool_saturated s) (block_stats s) (measure_clock s) (attempts s) (finished s) (gave_up s).

(** The head of the monitor's loop. *)
Definition monitor_top (s : Shared) (m : Monitor) : option Monitor :=
  match m_phase m with
  | MTop => Some (mkMonitor (if stop s then MDone else MWaiting) (total_store_blocks m))
  | _ => None
  end.

(** A block arrives: the monitor looks at the stores in it and at the saturation flag. *)
Definition monitor_recv (s : Shared) (m : Monitor) (number tx_count : Z) : option Monitor :=
  match m_phase m with
  | MWaiting =>
      let prefill := negb (pool_saturated s) in
      if prefill && (tx_count =? 0) then Some (mkMonitor MTop (total_store_blocks m))
      else Some (mkMonitor (MHolding number tx_count prefill) (total_store_blocks m))
  | _ => None
  end.

(** It starts the clock, records the block, and stops everyone at the target. *)
Definition monitor_record (stop_after_blocks : option Z) (now : Z) (s : Shared) (m : Monitor) : option (Shared * Monitor) :=
  match m_phase m with
  | MHolding number tx_count prefill =>
      let clock := if prefill then measure_clock s else Some (default now (measure_clock s)) in
      let b := mkStats number tx_count 0 prefill None None false None None in
      let total := if negb prefill && (0 <? tx_count) then total_store_blocks m + 1 else total_store_blocks m in
      let reached := match stop_after_blocks with
                     | Some limit => negb prefill && (0 <? tx_count) && (limit <=? total)
                     | None => false end in
      Some (mkShared (account_queue s) (nonce_tracker s) (submitted s) (errors s) (pool_full_retries s)
              (stale_nonces s) (stop s || reached) (pool_saturated s) (block_stats s ++ [b]) clock
              (attempts s) (finished s) (gave_up s),
            mkMonitor MTop total)
  | _ => None
  end.

(** When the submitters end without saturating the pool, every block counts. *)
Definition relabel (start : Z) (s : Shared) : Shared :=
  if pool_saturated s then s else
  mkShared (account_queue s) (nonce_tracker s) (submitted s) (errors s) (pool_full_retries s) (stale_nonces s) (stop s)
    true (map (fun b => mkStats (bs_number b) (bs_tx_count b) (bs_payload_bytes b) false (bs_timestamp_ms b)
                          (bs_hash b) (bs_finalized b) (bs_received_at_ms b) (bs_interval_ms b)) (block_stats s))
    (Some (default start (measure_clock s))) (attempts s) (finished s) (gave_up s).

Record Bulk := mkBulk { shared : Shared; workers : list Worker; monitor : Monitor }.

Definition exited (w : Worker) : bool := match w_phase w with Exited => true | _ => false end.

(** The uploader's steps: a submitter, the monitor, the main task once all submitters
    have ended. *)
Inductive bulk_step (stop_after_blocks : option Z) : Bulk -> Bulk -> Prop :=
| step_worker i w c st s' w' :
    workers st !! i = Some w ->
    worker_step (bool_decide (is_Some stop_after_blocks)) c (shared st) w = Some (s', w') ->
    bulk_step stop_after_blocks st (mkBulk s' (<[i := w']> (workers st)) (monitor st))
| step_top st m' :
    monitor_top (shared st) (monitor st) = Some m' ->
    bulk_step stop_after_blocks st (mkBulk (shared st) (workers st) m')
| step_recv number tx_count st m' :
    monitor_recv (shared st) (monitor st) number tx_count = Some m' ->
    bulk_step stop_after_blocks st (mkBulk (shared st) (workers st) m')
| step_record now st s' m' :
    monitor_record stop_after_blocks now (shared st) (monitor st) = Some (s', m') ->
    bulk_step stop_after_blocks st (mkBulk s' (workers st) m')
| step_relabel start st :
    forallb exited (workers st) = true ->
    bulk_step stop_after_blocks st (mkBulk (relabel start (shared st)) (workers st) (monitor st))
| step_stop st :
    forallb exited (workers st) = true ->
    bulk_step stop_after_blocks st (mkBulk (set_stop (shared st)) (workers st) (monitor st)).

(** How many submitters there are. *)
Definition num_submitters (submitters total_items : nat) : nat := Nat.max (Nat.min submitters total_items) 1.

(** The state once the nonces are read and the submitters are spawned. *)
Definition bulk_start (account_nonce : AccountId -> option Z) (stop_after_blocks : option Z) (submitters : nat)
    (work_items : list WorkItem) : Bulk :=
  let tracker := (batch_init_nonces account_nonce ∅ (map item_account work_items)).1 in
  mkBulk (mkShared work_items tracker 0 0 0 0 false (bool_decide (stop_after_blocks = None)) [] None [] [] 0)
    (replicate (num_submitters submitters (length work_items)) (mkWorker Top 0 0)) (mkMonitor MTop 0).

Record BulkStoreResult := mkBulkResult {
  br_total_submitted : Z;
  br_total_confirmed : Z;
  br_total_errors : Z;
  br_stale_nonces : Z;
  br_pool_full_retries : Z;
  br_remaining_in_queue : Z;
  br_nonces_initialized : Z;
  br_nonces_failed : Z;
  br_blocks : list BlockStats;
  br_fork_detections : Z }.

(** The result read from the shared state. *)
Definition bulk_result (nonces : Z * Z) (s : Shared) : BulkStoreResult :=
  mkBulkResult (submitted s) (tx_sum (block_stats s)) (errors s) (stale_nonces s) (pool_full_retries s)
    (len (account_queue s)) nonces.1 nonces.2 (block_stats s) 0.

(** The result for no work at all. *)
Definition bulk_empty : BulkStoreResult := mkBulkResult 0 0 0 0 0 0 0 0 [] 0.

(** ** Facts *)

(** The item a submitter holds, and whether its nonce is taken. *)
Definition holding (w : Worker) : option (WorkItem * bool) :=
  match w_phase w with
  | Picked it | Requeuing it _ => Some (it, false)
  | InFlight it _ | Failed it _ | RollingBack it _ => Some (it, true)
  | _ => None
  end.

(** The items still with the uploader. *)
Definition owned (s : Shared) (ws : list Worker) : list (WorkItem * bool) :=
  map (fun it => (it, false)) (account_queue s) ++ omap holding ws.

Definition ends (f : ItemEnd -> bool) (s : Shared) : Z := len (List.filter (fun p : WorkItem * ItemEnd => f p.2) (finished s)).

Definition is_stored (e : ItemEnd) : bool := match e with Stored => true | _ => false end.
Definition is_stale (e : ItemEnd) : bool := match e with Skipped StaleNonce => true | _ => false end.
Definition is_error (e : ItemEnd) : bool := match e with Skipped FutureNonce | Skipped Other => true | _ => false end.
Definition is_dropped (e : ItemEnd) : bool := match e with Skipped TxDropped => true | _ => false end.
Definition is_imported (e : ItemEnd) : bool := match e with Skipped AlreadyImported => true | _ => false end.
Definition is_retriable_end (e : ItemEnd) : bool := match e with Skipped c => retriable c | _ => false end.
Definition is_abandoned (e : ItemEnd) : bool := match e with Abandoned => true | _ => false end.

(** Measured blocks with stores. *)
Definition measured (s : Shared) : Z :=
  len (List.filter (fun b => negb (bs_prefill b) && (0 <? bs_tx_count b)) (block_stats s)).

Lemma replace_worker i w w' ws :
  ws !! i = Some w ->
  exists others, omap holding ws ≡ₚ option_list (holding w) ++ others /\
    omap holding (<[i := w']> ws) ≡ₚ option_list (holding w') ++ others.
Proof.
  intros Hi. exists (omap holding (delete i ws)).
  assert (forall x (l k : list Worker), omap holding (l ++ x :: k) ≡ₚ option_list (holding x) ++ omap holding (l ++ k)) as Hx.
  { intros x l k. rewrite !omap_app. cbn. destruct (holding x) as [h|]; cbn; [|done].
    symmetry. apply Permutation_middle. }
  split.
  - rewrite <-(take_drop_middle _ _ _ Hi) at 1. rewrite Hx. by rewrite delete_take_drop.
  - rewrite insert_take_drop by (by eapply lookup_lt_Some). rewrite Hx. by rewrite delete_take_drop.
Qed.

Lemma exited_insert i w w' ws :
  ws !! i = Some w -> exited w' = false -> forallb exited (<[i := w']> ws) = false.
Proof.
  intros Hi He. apply not_true_iff_false. rewrite forallb_forall. intros Hf.
  assert (exited w' = true); [|congruence]. apply Hf, list_elem_of_In, list_elem_of_lookup. exists i.
  apply list_lookup_insert_eq. by eapply lookup_lt_Some.
Qed.

Lemma exited_not_all i w ws : ws !! i = Some w -> exited w = false -> forallb exited ws = false.
Proof.
  intros Hi He. apply not_true_iff_false. rewrite forallb_forall. intros Hf.
  assert (exited w = true); [|congruence]. apply Hf, list_elem_of_In. by eapply list_elem_of_lookup_2.
Qed.

Lemma ends_leave f it e s : ends f (leave it e s) = ends f s + (if f e then 1 else 0).
Proof. unfold ends, len. cbn. rewrite List.filter_app, length_app. cbn. destruct (f e); cbn; lia. Qed.

Section Preservation.
Context (first : AccountId -> Z) (target : option Z) (items : list WorkItem).
Context (distinct : NoDup (map item_account items)).

(** Every item is accounted for, and each account's nonce is its first one, or the next
    while a submission may have used it. *)
Definition core (s : Shared) (ws : list Worker) : Prop :=
  items ≡ₚ map fst (owned s ws) ++ map fst (finished s) /\
  Forall (fun p : WorkItem * bool => default 0 (nonce_tracker s !! item_account p.1) =
            first (item_account p.1) + (if p.2 then 1 else 0)) (owned s ws).

Lemma core_same s ws s' ws' :
  core s ws -> owned s' ws' ≡ₚ owned s ws -> finished s' = finished s -> nonce_tracker s' = nonce_tracker s -> core s' ws'.
Proof.
  intros [Hp Hn] Ho Hf Ht. split; [by rewrite Hf, Ho|]. rewrite Ht. by rewrite Ho.
Qed.

Lemma core_nonce it b b' R s ws s' ws' :
  core s ws -> owned s ws ≡ₚ (it, b) :: R -> owned s' ws' ≡ₚ (it, b') :: R -> finished s' = finished s ->
  (forall a, a <> item_account it -> nonce_tracker s' !! a = nonce_tracker s !! a) ->
  default 0 (nonce_tracker s' !! item_account it) = first (item_account it) + (if b' then 1 else 0) -> core s' ws'.
Proof.
  intros [Hp Hn] Ho Ho' Hf Ht Hit. split; [by rewrite Hp, Ho, Ho', Hf|].
  rewrite Ho' . rewrite Ho in Hn. apply Forall_cons in Hn as [_ Hn]. constructor; [done|].
  rewrite Forall_forall in Hn. apply Forall_forall. intros p Hpin. rewrite Ht; [by apply Hn|].
  intros He. rewrite Hp, Ho in distinct. cbn in distinct. apply NoDup_cons in distinct as [Hnot _]. apply Hnot.
  rewrite <-He. apply list_elem_of_fmap_2. apply elem_of_app. left. by apply list_elem_of_fmap_2.
Qed.

Lemma core_leave it b e R s ws s' ws' :
  core s ws -> owned s ws ≡ₚ (it, b) :: R -> owned s' ws' ≡ₚ R -> finished s' = finished s ++ [(it, e)] ->
  nonce_tracker s' = nonce_tracker s -> core s' ws'.
Proof.
  intros [Hp Hn] Ho Ho' Hf Ht. split.
  - rewrite Hp, Ho, Ho', Hf. rewrite map_app. cbn. rewrite (assoc_L (++)). by rewrite <-Permutation_cons_append.
  - rewrite Ht, Ho'. rewrite Ho in Hn. by apply Forall_cons in Hn as [_ Hn].
Qed.

(** The nonce of an item at rest, and of one in flight. *)
Lemma next_nonce_spec tr a :
  (next_nonce tr a).1 = default 0 (tr !! a) /\
  (forall a', a' <> a -> (next_nonce tr a).2 !! a' = tr !! a') /\
  default 0 ((next_nonce tr a).2 !! a) = default 0 (tr !! a) + 1.
Proof.
  unfold next_nonce, NonceTracker in *. cbn [fst snd].
  split_and!; [done|intros a' Ha; by rewrite lookup_insert_ne|by rewrite lookup_insert_eq].
Qed.

Lemma rollback_spec tr a n :
  0 <= n -> default 0 (tr !! a) = n + 1 ->
  (forall a', a' <> a -> rollback tr a !! a' = tr !! a') /\ default 0 (rollback tr a !! a) = n.
Proof.
  intros Hn Hd. unfold rollback, NonceTracker in *. destruct (tr !! a) as [m|] eqn:E; cbn in Hd; [|lia].
  split; [intros a' Ha; by rewrite lookup_insert_ne|]. rewrite lookup_insert_eq. cbn. unfold sat_sub. lia.
Qed.

Context (first_nonneg : forall a, 0 <= first a).

Lemma count_error_frame class s :
  account_queue (count_error class s) = account_queue s /\ nonce_tracker (count_error class s) = nonce_tracker s /\
  finished (count_error class s) = finished s /\ attempts (count_error class s) = attempts s /\
  stop (count_error class s) = stop s /\ gave_up (count_error class s) = gave_up s /\
  block_stats (count_error class s) = block_stats s.
Proof. by destruct class. Qed.

Lemma owned_held i w w' ws s s' :
  ws !! i = Some w -> account_queue s' = account_queue s ->
  exists R, owned s ws ≡ₚ option_list (holding w) ++ R /\ owned s' (<[i := w']> ws) ≡ₚ option_list (holding w') ++ R.
Proof.
  intros Hi Hq. destruct (replace_worker i w w' ws Hi) as (R & H1 & H2).
  exists (map (fun it => (it, false)) (account_queue s) ++ R). unfold owned. rewrite H1, H2, Hq.
  split; by rewrite !(Permutation_app_swap_app (option_list _)).
Qed.

(** A step that keeps the queue, the tracker and what the worker holds. *)
Lemma core_quiet i w w' ws s s' :
  core s ws -> ws !! i = Some w -> holding w' = holding w -> account_queue s' = account_queue s ->
  finished s' = finished s -> nonce_tracker s' = nonce_tracker s -> core s' (<[i := w']> ws).
Proof.
  intros Hc Hi Hh Hq Hf Ht. destruct (owned_held i w w' ws s s' Hi Hq) as (R & H1 & H2).
  apply (core_same s ws); [done| |done|done]. by rewrite H1, H2, Hh.
Qed.

(** A step in which the worker's item leaves. *)
Lemma core_done i w w' ws s s' it b e :
  core s ws -> ws !! i = Some w -> holding w = Some (it, b) -> holding w' = None -> account_queue s' = account_queue s ->
  finished s' = finished s ++ [(it, e)] -> nonce_tracker s' = nonce_tracker s -> core s' (<[i := w']> ws).
Proof.
  intros Hc Hi Hh Hh' Hq Hf Ht. destruct (owned_held i w w' ws s s' Hi Hq) as (R & H1 & H2).
  rewrite Hh in H1. rewrite Hh' in H2. by apply (core_leave it b e R s ws).
Qed.

Lemma core_held_nonce i w ws s it b :
  core s ws -> ws !! i = Some w -> holding w = Some (it, b) ->
  default 0 (nonce_tracker s !! item_account it) = first (item_account it) + (if b then 1 else 0).
Proof.
  intros [_ Hn] Hi Hh. rewrite Forall_forall in Hn. apply (Hn (it, b)). unfold owned. apply elem_of_app. right.
  apply list_elem_of_omap. exists w. split; [by eapply list_elem_of_lookup_2|done].
Qed.

Lemma worker_core t c i w w' ws s s' :
  core s ws -> ws !! i = Some w -> worker_step t c s w = Some (s', w') -> core s' (<[i := w']> ws).
Proof.
  intros Hc Hi. destruct w as [ph polls conn].
  destruct ph as [| |it|it nonce|it class|it class|it class| | |]; destruct c as [|[class'|]| |[]]; cbn [worker_step w_phase empty_polls consecutive_conn_errors]; try done.
  - intros [= <- <-]. apply (core_quiet i (mkWorker Top polls conn) _ ws s s); try done. cbn. by destruct (stop s).
  - destruct (account_queue s) as [|it q] eqn:Eq.
    + destruct (t && negb (stop s)); intros [= <- <-]; apply (core_quiet i (mkWorker Polling polls conn) _ ws s s); try done.
      cbn. by destruct (25 <? _).
    + intros [= <- <-]. destruct (replace_worker i _ (mkWorker (Picked it) 0 conn) ws Hi) as (R & H1 & H2).
      apply (core_same s ws); [done| |done|done]. unfold owned. rewrite H1, H2, Eq. cbn.
      symmetry. apply Permutation_middle.
  - intros Hs. destruct (next_nonce_spec (nonce_tracker s) (item_account it)) as (H1 & H2 & H3).
    destruct (next_nonce _ _) as [n tr]. simplify_eq. cbn [fst snd] in *.
    destruct (owned_held i (mkWorker (Picked it) polls conn) (mkWorker (InFlight it n) polls conn) ws s
      (attempted (item_account it) n (set_nonces tr s)) Hi eq_refl) as (R & Ho & Ho').
    apply (core_nonce it false true R s ws); try done. cbn. rewrite H3.
    rewrite (core_held_nonce i _ ws s it false Hc Hi eq_refl). lia.
  - destruct (stop s); [|done]. intros [= <- <-].
    by apply (core_done i (mkWorker (Picked it) polls conn) _ ws s _ it false Abandoned).
  - intros [= <- <-]. by apply (core_quiet i (mkWorker (InFlight it nonce) polls conn) _ ws s).
  - intros [= <- <-]. by apply (core_done i (mkWorker (InFlight it nonce) polls conn) _ ws s _ it true Stored).
  - destruct (stop s); [|done]. intros [= <- <-].
    by apply (core_done i (mkWorker (InFlight it nonce) polls conn) _ ws s _ it true Abandoned).
  - destruct (stop s).
    { intros [= <- <-]. by apply (core_done i (mkWorker (Failed it class) polls conn) _ ws s _ it true Abandoned). }
    destruct (count_error_frame class s) as (Hq & Ht & Hf & _).
    destruct (retriable class); intros [= <- <-].
    + by apply (core_quiet i (mkWorker (Failed it class) polls conn) _ ws s).
    + apply (core_done i (mkWorker (Failed it class) polls conn) _ ws s _ it true (Skipped class)); try done.
      cbn. by rewrite Hf.
  - intros [= <- <-].
    destruct (owned_held i (mkWorker (RollingBack it class) polls conn) (mkWorker (Requeuing it class) polls conn) ws s
      (set_nonces (rollback (nonce_tracker s) (item_account it)) s) Hi eq_refl) as (R & Ho & Ho').
    pose proof (core_held_nonce i _ ws s it true Hc Hi eq_refl) as Hn.
    destruct (rollback_spec _ _ _ (first_nonneg (item_account it)) Hn) as [H1 H2].
    apply (core_nonce it true false R s ws); try done. cbn. rewrite H2. lia.
  - intros [= <- <-]. set (w' := mkWorker _ _ _).
    destruct (replace_worker i _ w' ws Hi) as (R & H1 & H2).
    assert (holding w' = None) as Hw by (unfold w'; by destruct class). rewrite Hw in H2.
    apply (core_same s ws); [done| |done|done]. unfold owned. rewrite H1, H2. cbn.
    rewrite <-Permutation_middle. done.
  - intros [= <- <-]. by apply (core_quiet i (mkWorker Reconnecting polls conn) _ ws s).
  - destruct (CONN_GIVE_UP <=? conn); intros [= <- <-]; by apply (core_quiet i (mkWorker Reconnecting polls conn) _ ws s).
  - intros [= <- <-]. apply (core_quiet i (mkWorker LoopEnd polls conn) _ ws s); try done. cbn. by destruct (stop s).
Qed.

(** What a submitter's step does besides. *)
Lemma worker_shape t c s w s' w' :
  worker_step t c s w = Some (s', w') ->
  exited w = false /\ stop s' = stop s /\ block_stats s' = block_stats s /\
  (exited w' = true -> stop s = true \/ account_queue s' = [] \/ gave_up s' = gave_up s + 1) /\
  gave_up s <= gave_up s' /\
  submitted s' - ends is_stored s' = submitted s - ends is_stored s /\
  stale_nonces s' - ends is_stale s' = stale_nonces s - ends is_stale s /\
  errors s' - ends is_error s' - gave_up s' = errors s - ends is_error s - gave_up s /\
  ends is_retriable_end s' = ends is_retriable_end s /\
  (stop s = false -> ends is_abandoned s' = ends is_abandoned s) /\
  (attempts s' = attempts s \/
   exists it, holding w = Some (it, false) /\
     attempts s' = attempts s ++ [(item_account it, default 0 (nonce_tracker s !! item_account it))]).
Proof.
  destruct w as [ph polls conn].
  destruct ph as [| |it|it nonce|it class|it class|it class| | |]; destruct c as [|[class'|]| |[]];
    cbn [worker_step w_phase empty_polls consecutive_conn_errors]; try done.
  - destruct (stop s) eqn:Es; intros [= <- <-]; split_and!; auto; try done; cbn; lia.
  - destruct (account_queue s) as [|it q] eqn:Eq.
    + destruct (t && negb (stop s)); intros [= <- <-]; split_and!; auto; try done; cbn; lia.
    + intros [= <- <-]. split_and!; auto; try done; cbn; lia.
  - intros [= <- <-]. split_and!; try done; try (cbn; lia). right. by exists it.
  - destruct (stop s) eqn:Es; [|done]. intros [= <- <-]. rewrite !ends_leave. cbn. split_and!; auto; try done; cbn; lia.
  - intros [= <- <-]. split_and!; auto; try done; cbn; lia.
  - intros [= <- <-]. rewrite !ends_leave. unfold ends. cbn. split_and!; auto; try done; lia.
  - destruct (stop s) eqn:Es; [|done]. intros [= <- <-]. rewrite !ends_leave. cbn. split_and!; auto; try done; cbn; lia.
  - destruct (stop s) eqn:Es.
    { intros [= <- <-]. rewrite !ends_leave. cbn. split_and!; auto; try done; cbn; lia. }
    destruct class; cbn [retriable count_error]; intros [= <- <-]; rewrite ?ends_leave; unfold ends; cbn;
      split_and!; auto; try done; lia.
  - intros [= <- <-]. split_and!; auto; try done; cbn; lia.
  - intros [= <- <-]. split_and!; auto; try done; [by destruct class|cbn; lia..].
  - intros [= <- <-]. split_and!; auto; try done; cbn; lia.
  - destruct (CONN_GIVE_UP <=? conn); intros [= <- <-]; unfold ends; cbn; split_and!; auto; try done; lia.
  - destruct (stop s) eqn:Es; intros [= <- <-]; split_and!; auto; try done; lia.
Qed.

Record BulkInv (st : Bulk) : Prop := {
  inv_core : core (shared st) (workers st);
  inv_attempts : Forall (fun p : bytes * Z => p.2 = first p.1) (attempts (shared st));
  inv_submitted : submitted (shared st) = ends is_stored (shared st);
  inv_stale : stale_nonces (shared st) = ends is_stale (shared st);
  inv_errors : errors (shared st) = ends is_error (shared st) + gave_up (shared st);
  inv_retry : ends is_retriable_end (shared st) = 0;
  inv_running : stop (shared st) = false -> ends is_abandoned (shared st) = 0;
  inv_alive : stop (shared st) = false -> gave_up (shared st) = 0 -> account_queue (shared st) <> [] ->
              forallb exited (workers st) = false;
  inv_gave_up : 0 <= gave_up (shared st);
  inv_target : stop (shared st) = true -> forallb exited (workers st) = true \/
               exists limit, target = Some limit /\ limit <= measured (shared st);
  inv_blocks : total_store_blocks (monitor st) <= measured (shared st) }.

Lemma inv_worker t c i w st s' w' :
  BulkInv st -> workers st !! i = Some w -> worker_step t c (shared st) w = Some (s', w') ->
  BulkInv (mkBulk s' (<[i := w']> (workers st)) (monitor st)).
Proof.
  intros [Hc Ha Hsub Hst Her Hre Hrun Hal Hg Ht Hb] Hi Hs.
  pose proof (worker_core t c i w w' _ _ _ Hc Hi Hs) as Hc'.
  destruct (worker_shape t c _ w s' w' Hs) as (Hw & E1 & E2 & Hex & Hgm & D1 & D2 & D3 & D5 & D4 & Hat).
  constructor; cbn [shared workers monitor]; try done; try lia.
  - destruct Hat as [->|(it & Hh & ->)]; [done|]. apply Forall_app. split; [done|]. constructor; [|done]. cbn.
    rewrite (core_held_nonce i w _ _ it false Hc Hi Hh). lia.
  - rewrite E1. intros Hf. rewrite (D4 Hf). by apply Hrun.
  - rewrite E1. intros Hf Hg0 Hq. destruct (exited w') eqn:Ew; [|by eapply exited_insert].
    destruct (Hex eq_refl) as [?|[?|?]]; [congruence|done|lia].
  - rewrite E1. unfold measured. rewrite E2. intros Hf. destruct (Ht Hf) as [Hall|Hl]; [|by right].
    rewrite (exited_not_all i w _ Hi Hw) in Hall. done.
  - unfold measured. by rewrite E2.
Qed.

Lemma inv_record now st s' m' :
  BulkInv st -> monitor_record target now (shared st) (monitor st) = Some (s', m') ->
  BulkInv (mkBulk s' (workers st) m').
Proof.
  intros [Hc Ha Hsub Hst Her Hre Hrun Hal Hg Ht Hb]. unfold monitor_record.
  destruct (m_phase (monitor st)) as [| |number tx prefill|]; try done. intros [= <- <-].
  set (total := if negb prefill && (0 <? tx) then _ else _).
  set (b := mkStats number tx 0 prefill None None false None None). set (s := shared st) in *.
  assert (measured (mkShared (account_queue s) (nonce_tracker s) (submitted s) (errors s) (pool_full_retries s)
    (stale_nonces s) true (pool_saturated s) (block_stats s ++ [b]) None (attempts s) (finished s) (gave_up s))
    = measured s + (if negb prefill && (0 <? tx) then 1 else 0)) as Hm.
  { unfold measured, len. cbn. rewrite List.filter_app, length_app. cbn. destruct (_ && _); cbn; lia. }
  unfold measured in Hm. cbn in Hm.
  assert (total <= measured s + (if negb prefill && (0 <? tx) then 1 else 0)) as Htot
    by (unfold total; destruct (_ && _); lia).
  constructor; cbn [shared workers monitor stop]; try done.
  - intros [Hf _]%orb_false_iff. by apply Hrun.
  - intros [Hf _]%orb_false_iff. by apply Hal.
  - unfold measured. cbn. rewrite Hm. intros [Hf|Hf]%orb_true_iff.
    + destruct (Ht Hf) as [Hall|(limit & -> & Hl)]; [by left|right]. exists limit. split; [done|].
      unfold measured in *. destruct (_ && _); lia.
    + right. destruct target as [limit|]; [|done]. exists limit. split; [done|].
      apply andb_true_iff in Hf as [Hf Hle]. b2p. unfold measured in *. lia.
  - unfold measured. cbn. rewrite Hm. unfold measured in Htot. done.
Qed.

Lemma measured_relabel start s : measured s <= measured (relabel start s).
Proof.
  unfold relabel. destruct (pool_saturated s); [done|]. unfold measured, len. cbn.
  induction (block_stats s) as [|b l IH]; cbn; [lia|]. destruct (bs_prefill b), (0 <? bs_tx_count b); cbn; lia.
Qed.

Lemma inv_step st st' : BulkInv st -> bulk_step target st st' -> BulkInv st'.
Proof.
  intros Hinv Hs. pose proof Hinv as [Hc Ha Hsub Hst Her Hre Hrun Hal Hg Ht Hb].
  destruct Hs as [i w c st s' w' Hi Hs|st m' Hm|number tx st m' Hm|now st s' m' Hm|start st Hall|st Hall].
  - by eapply inv_worker.
  - unfold monitor_top in Hm. destruct (m_phase (monitor st)); try done. injection Hm as <-. by constructor.
  - unfold monitor_recv in Hm. destruct (m_phase (monitor st)); try done.
    destruct (_ && _); injection Hm as <-; by constructor.
  - by eapply inv_record.
  - pose proof (measured_relabel start (shared st)) as Hme. unfold relabel in *.
    destruct (pool_saturated (shared st)); [by destruct st|].
    constructor; cbn [shared workers monitor]; try done; [|lia]. intros _. by left.
  - constructor; cbn [shared workers monitor]; try done. intros _. by left.
Qed.

Lemma inv_reachable st st' : BulkInv st -> rtc (bulk_step target) st st' -> BulkInv st'.
Proof. intros Hi Hr. induction Hr; [done|]. eauto using inv_step. Qed.
End Preservation.

(** ** The start *)

Lemma batch_init_spec account_nonce accounts tr ok failed :
  let r := foldl (fun '(nonces, (ok, failed)) a =>
    match init_from_chain nonces a (account_nonce a) with
    | Some nonces' => (nonces', (ok + 1, failed))
    | None => (nonces, (ok, failed + 1))
    end) (tr, (ok, failed)) accounts in
  (forall a, default 0 (r.1 !! a) = (if bool_decide (a ∈ accounts) then default (default 0 (tr !! a)) (account_nonce a)
                                     else default 0 (tr !! a))) /\
  r.2.1 + r.2.2 = ok + failed + len accounts.
Proof.
  revert tr ok failed. unfold NonceTracker. induction accounts as [|b accounts IH]; intros tr ok failed; cbn [foldl].
  - split; [intros a; by rewrite bool_decide_eq_false_2 by apply not_elem_of_nil|unfold len; cbn [fst snd length]; lia].
  - destruct (account_nonce b) as [n|] eqn:E; cbn [init_from_chain mbind option_bind].
    + destruct (IH (<[b := n]> tr) (ok + 1) failed) as [H1 H2]. split.
      * intros a. rewrite H1. destruct (decide (a = b)) as [->|Hab].
        -- rewrite lookup_insert_eq. rewrite (bool_decide_eq_true_2 (b ∈ b :: accounts)) by (by left). rewrite E. by destruct (bool_decide _).
        -- rewrite lookup_insert_ne by done. rewrite (bool_decide_ext (a ∈ b :: accounts) (a ∈ accounts)); [done|].
           rewrite elem_of_cons. naive_solver.
      * etrans; [exact H2|]. unfold len. cbn [length]. lia.
    + destruct (IH tr ok (failed + 1)) as [H1 H2]. split.
      * intros a. rewrite H1. destruct (decide (a = b)) as [->|Hab].
        -- rewrite (bool_decide_eq_true_2 (b ∈ b :: accounts)) by (by left). rewrite E. by destruct (bool_decide _).
        -- rewrite (bool_decide_ext (a ∈ b :: accounts) (a ∈ accounts)); [done|]. rewrite elem_of_cons. naive_solver.
      * etrans; [exact H2|]. unfold len. cbn [length]. lia.
Qed.

Definition first_nonce (account_nonce : AccountId -> option Z) (a : AccountId) : Z := default 0 (account_nonce a).

Lemma omap_idle n : omap holding (replicate n (mkWorker Top 0 0)) = [].
Proof. by induction n. Qed.

Lemma inv_start account_nonce target submitters items :
  BulkInv (first_nonce account_nonce) target items (bulk_start account_nonce target submitters items).
Proof.
  constructor; cbn [bulk_start shared workers monitor]; try done.
  - unfold core, owned. cbn [account_queue nonce_tracker finished]. rewrite omap_idle, !app_nil_r. split.
    + rewrite map_map. by rewrite map_id.
    + apply Forall_map, Forall_forall. intros it Hit. cbn [fst snd]. unfold batch_init_nonces.
      destruct (batch_init_spec account_nonce (map item_account items) ∅ 0 0) as [H1 _]. rewrite H1.
      rewrite bool_decide_eq_true_2 by (by apply list_elem_of_fmap_2). unfold NonceTracker, first_nonce. rewrite lookup_empty. cbn [default fst snd]. lia.
  - intros _ _ _. unfold num_submitters. by destruct (Nat.max _ 1) eqn:E; [lia|].
Qed.

Lemma all_exited_idle ws : forallb exited ws = true -> omap holding ws = [].
Proof.
  induction ws as [|w ws IH]; [done|]. cbn. intros [Hw Hws]%andb_true_iff. rewrite IH by done.
  unfold exited, holding in *. by destruct (w_phase w).
Qed.
End BulkStore.
