(* ===== verification/Monitor.v ===== *)
(** The pipeline's monitor of best and finalized blocks
    ([spawn_pipeline_dual_monitor] in [stress-test/src/pipeline.rs]) beside the workers
    that fill the map of content hashes it reads. *)

From stdpp Require Import sorting.
From S2P Require Import Prelude Slice Primitives Types StressPlan Submission.

Record PendingBlock := mkPending {
  pb_number : Z;
  pb_hash : bytes;
  pb_tx_count : Z;
  pb_payload_bytes : Z;
  pb_timestamp_ms : option Z }.

Record PipelineState := mkPipe {
  pending : gmap Z PendingBlock;
  max_finalized : Z;
  prev_confirmed_timestamp_ms : option Z;
  confirmed_count : Z;
  block_stats : list BlockStats;
  best_measured_blocks : Z;
  target_reached : bool;
  measure_start : option Z;
  counters : SubmitCounters;
  content_hash_map : ContentHashMap }.

(** [push_finalized]. *)
Definition push_finalized (pb : PendingBlock) (st : PipelineState) : PipelineState :=
  let prev := prev_confirmed_timestamp_ms st in
  let interval := match pb_timestamp_ms pb, prev with Some ts, Some p => Some (sat_sub ts p) | _, _ => None end in
  let prev' := match pb_timestamp_ms pb with Some ts => Some ts | None => prev end in
  mkPipe (pending st) (max_finalized st) prev' (confirmed_count st + pb_tx_count pb)
    (block_stats st ++ [mkStats (pb_number pb) (pb_tx_count pb) (pb_payload_bytes pb) false (pb_timestamp_ms pb)
                          (Some (pb_hash pb)) true None interval])
    (best_measured_blocks st) (target_reached st) (measure_start st) (counters st) (content_hash_map st).

Definition set_pending (p : gmap Z PendingBlock) (st : PipelineState) : PipelineState :=
  mkPipe p (max_finalized st) (prev_confirmed_timestamp_ms st) (confirmed_count st) (block_stats st)
    (best_measured_blocks st) (target_reached st) (measure_start st) (counters st) (content_hash_map st).

(** A pending block is removed and confirmed. *)
Definition confirm (n : Z) (st : PipelineState) : PipelineState :=
  match pending st !! n with
  | Some pb => push_finalized pb (set_pending (delete n (pending st)) st)
  | None => st
  end.

(** [drain_finalized]: the pending numbers in [(old_max, new_max]], in order. *)
Definition drain_numbers (p : gmap Z PendingBlock) (old_max new_max : Z) : list Z :=
  merge_sort Z.le (List.filter (fun n => (old_max <? n) && (n <=? new_max)) (map fst (map_to_list p))).

Definition drain_finalized (old_max new_max : Z) (st : PipelineState) : PipelineState :=
  foldl (fun st n => confirm n st) st (drain_numbers (pending st) old_max new_max).

(** A finalized block number. *)
Definition on_finalized (fin_number : Z) (st : PipelineState) : PipelineState :=
  let old_max := max_finalized st in
  let new_max := Z.max old_max fin_number in
  drain_finalized old_max new_max
    (mkPipe (pending st) new_max (prev_confirmed_timestamp_ms st) (confirmed_count st) (block_stats st)
       (best_measured_blocks st) (target_reached st) (measure_start st) (counters st) (content_hash_map st)).

(** The sizes of a block's stores, whose entries leave the map. *)
Fixpoint take_sizes (m : ContentHashMap) (hashes : list bytes) : Z * ContentHashMap :=
  match hashes with
  | [] => (0, m)
  | h :: hashes' =>
      match m !! h with
      | Some sz => let '(total, m') := take_sizes (delete h m) hashes' in (sz + total, m')
      | None => take_sizes m hashes'
      end
  end.

(** The timestamp of a block with stores; a failed read is tried again after a reconnect. *)
Definition block_timestamp (tx_count : Z) (first : option Z) (reconnected : bool) (second : option Z) : option Z :=
  if tx_count =? 0 then None else
  match first with Some ts => Some ts | None => if reconnected then second else None end.

(** A best block, given its events and what the timestamp reads answer. *)
Record BestEvent := mkBest {
  be_number : Z;
  be_hash : bytes;
  be_events : option (list (option (string * string * bytes)));
  be_first : option Z;
  be_reconnected : bool;
  be_second : option Z;
  be_now : Z }.

Definition on_best (target_blocks : option Z) (b : BestEvent) (st : PipelineState) : PipelineState :=
  let hashes := stored_content_hashes (be_events b) in
  let store_tx_count := len hashes in
  let '(store_tx_bytes, map') := take_sizes (content_hash_map st) hashes in
  let ts := block_timestamp store_tx_count (be_first b) (be_reconnected b) (be_second b) in
  let measured := if 0 <? store_tx_count then best_measured_blocks st + 1 else best_measured_blocks st in
  let reached := (0 <? store_tx_count) && match target_blocks with Some t => t <=? measured | None => false end in
  let pb := mkPending (be_number b) (be_hash b) store_tx_count store_tx_bytes ts in
  let st' := mkPipe (<[be_number b := pb]> (pending st)) (max_finalized st) (prev_confirmed_timestamp_ms st)
               (confirmed_count st) (block_stats st) measured (target_reached st || reached)
               (Some (default (be_now b) (measure_start st))) (counters st) map' in
  if be_number b <=? max_finalized st then confirm (be_number b) st' else st'.

(** What happens: a best block, a finalized one, a worker that submits a store until the
    node's answers run out. *)
Inductive PipeEvent :=
| BestArrives (b : BestEvent)
| FinalizedArrives (fin_number : Z)
| WorkerSubmits (conn_errors : Z) (extrinsic content_hash : bytes) (answers : list Attempt).

(** One event.  Once the target is reached no best block is taken, only finalized ones. *)
Definition pipe_step (target_blocks : option Z) (st : PipelineState) (ev : PipeEvent) : PipelineState :=
  match ev with
  | BestArrives b => if target_reached st then st else on_best target_blocks b st
  | FinalizedArrives n => on_finalized n st
  | WorkerSubmits conn ext hash answers =>
      let w := (submit ext hash answers (mkStoreWorker (counters st) (content_hash_map st) conn)).2 in
      mkPipe (pending st) (max_finalized st) (prev_confirmed_timestamp_ms st) (confirmed_count st) (block_stats st)
        (best_measured_blocks st) (target_reached st) (measure_start st) (sw_counters w) (sw_map w)
  end.

Definition pipe_start : PipelineState :=
  mkPipe ∅ 0 None 0 [] 0 false None (mkCounters 0 0 0 0 0) ∅.

Definition pipe_run (target_blocks : option Z) (events : list PipeEvent) : PipelineState :=
  foldl (pipe_step target_blocks) pipe_start events.

(** ** Facts: sums over maps *)

Definition map_sum {K} `{Countable K} (m : gmap K Z) : Z := map_fold (fun _ v z => v + z) 0 m.

Lemma map_sum_insert {K} `{Countable K} (m : gmap K Z) k v : m !! k = None -> map_sum (<[k := v]> m) = v + map_sum m.
Proof. intros Hk. unfold map_sum. rewrite map_fold_insert_L; [done|intros; lia|done]. Qed.

Lemma map_sum_delete {K} `{Countable K} (m : gmap K Z) k v : m !! k = Some v -> map_sum m = v + map_sum (delete k m).
Proof. intros Hk. rewrite <-(insert_delete_id m k v Hk) at 1. apply map_sum_insert, lookup_delete_eq. Qed.

Lemma map_sum_replace {K} `{Countable K} (m : gmap K Z) k v :
  map_sum (<[k := v]> m) = v + map_sum m - default 0 (m !! k).
Proof.
  destruct (m !! k) as [u|] eqn:E; cbn; [|rewrite map_sum_insert by done; lia].
  rewrite (map_sum_delete m k u E), <-insert_delete_eq, map_sum_insert by apply lookup_delete_eq. lia.
Qed.

Lemma take_sizes_sum hashes m :
  (take_sizes m hashes).1 + map_sum (take_sizes m hashes).2 = map_sum m.
Proof.
  revert m. induction hashes as [|h hashes IH]; intros m; [cbn [take_sizes fst snd]; lia|]. cbn [take_sizes].
  destruct (m !! h) as [sz|] eqn:E; [|apply IH].
  specialize (IH (delete h m)). destruct (take_sizes (delete h m) hashes). cbn [fst snd] in *.
  rewrite (map_sum_delete m h sz E). lia.
Qed.

(** ** Facts: confirming blocks *)

(** Block numbers with their store counts, confirmed or pending. *)
Definition view (st : PipelineState) : list (Z * Z) :=
  map (fun b => (bs_number b, bs_tx_count b)) (block_stats st) ++ map_to_list (pb_tx_count <$> pending st).

(** The bytes found in blocks, and those still awaited. *)
Definition all_bytes (st : PipelineState) : Z :=
  bytes_sum (block_stats st) + map_sum (pb_payload_bytes <$> pending st) + map_sum (content_hash_map st).

Definition keyed (p : gmap Z PendingBlock) : Prop := forall n pb, p !! n = Some pb -> pb_number pb = n.

(** Confirming moves a block from pending to the statistics, and nothing else. *)
Definition moves (st st' : PipelineState) : Prop :=
  view st' ≡ₚ view st /\ all_bytes st' = all_bytes st /\
  confirmed_count st' - tx_sum (block_stats st') = confirmed_count st - tx_sum (block_stats st) /\
  max_finalized st' = max_finalized st /\ target_reached st' = target_reached st /\
  best_measured_blocks st' = best_measured_blocks st /\ counters st' = counters st /\
  content_hash_map st' = content_hash_map st.

#[export] Instance moves_refl : Reflexive moves.
Proof. by intros st. Qed.

#[export] Instance moves_trans : Transitive moves.
Proof. intros a b c (?&?&?&?&?&?&?&?) (?&?&?&?&?&?&?&?). split_and!; try congruence; by etrans. Qed.

Lemma confirm_moves n st : keyed (pending st) -> moves st (confirm n st).
Proof.
  intros Hk. unfold confirm. destruct (pending st !! n) as [pb|] eqn:E; [|done].
  split_and!; try done.
  - unfold view. cbn [push_finalized block_stats pending set_pending]. rewrite map_app. cbn [map bs_number bs_tx_count].
    rewrite (Hk n pb E). rewrite fmap_delete. rewrite <-(assoc_L (++)). apply Permutation_app_head. cbn [app].
    rewrite <-(map_to_list_delete (pb_tx_count <$> pending st) n (pb_tx_count pb)); [done|]. by rewrite lookup_fmap, E.
  - unfold all_bytes. cbn [push_finalized block_stats pending set_pending content_hash_map]. rewrite bytes_sum_app, fmap_delete.
    rewrite (map_sum_delete (pb_payload_bytes <$> pending st) n (pb_payload_bytes pb)) by (by rewrite lookup_fmap, E).
    unfold bytes_sum at 2. cbn. lia.
  - cbn [push_finalized block_stats confirmed_count set_pending]. rewrite tx_sum_app. unfold tx_sum at 2. cbn. lia.
Qed.

Lemma confirm_pending n st : pending (confirm n st) = delete n (pending st).
Proof. unfold confirm. destruct (pending st !! n) eqn:E; [done|]. by rewrite delete_id. Qed.

Lemma keyed_delete n p : keyed p -> keyed (delete n p).
Proof. intros Hk m pb. rewrite lookup_delete_Some. intros [_ ?]. by apply Hk. Qed.

Lemma drain_moves nums st :
  keyed (pending st) ->
  moves st (foldl (fun st n => confirm n st) st nums) /\
  forall n pb, pending (foldl (fun st n => confirm n st) st nums) !! n = Some pb <-> pending st !! n = Some pb /\ n ∉ nums.
Proof.
  revert st. induction nums as [|m nums IH]; intros st Hk; cbn [foldl].
  { split; [done|]. intros n pb. split; [intros ?; split; [done|apply not_elem_of_nil]|naive_solver]. }
  destruct (IH (confirm m st)) as [H1 H2]; [rewrite confirm_pending; by apply keyed_delete|].
  split; [etrans; [by apply confirm_moves|done]|]. intros n pb. rewrite H2, confirm_pending, lookup_delete_Some.
  rewrite not_elem_of_cons. naive_solver.
Qed.

Lemma drain_numbers_elem p old new n : n ∈ drain_numbers p old new <-> is_Some (p !! n) /\ old < n <= new.
Proof.
  unfold drain_numbers. rewrite merge_sort_Permutation.
  rewrite list_elem_of_In, filter_In, in_map_iff, andb_true_iff, Z.ltb_lt, Z.leb_le.
  split.
  - intros [([k pb] & <- & Hin) ?]. split; [|lia]. exists pb. by apply elem_of_map_to_list, list_elem_of_In.
  - intros [[pb Hp] ?]. split; [|lia]. exists (n, pb). split; [done|]. by apply list_elem_of_In, elem_of_map_to_list.
Qed.

Lemma finalized_moves fin st :
  keyed (pending st) -> (forall n, is_Some (pending st !! n) -> max_finalized st < n) ->
  view (on_finalized fin st) ≡ₚ view st /\ all_bytes (on_finalized fin st) = all_bytes st /\
  confirmed_count (on_finalized fin st) - tx_sum (block_stats (on_finalized fin st))
    = confirmed_count st - tx_sum (block_stats st) /\
  max_finalized (on_finalized fin st) = Z.max (max_finalized st) fin /\
  target_reached (on_finalized fin st) = target_reached st /\
  best_measured_blocks (on_finalized fin st) = best_measured_blocks st /\ counters (on_finalized fin st) = counters st /\
  content_hash_map (on_finalized fin st) = content_hash_map st /\
  forall n pb, pending (on_finalized fin st) !! n = Some pb <->
    pending st !! n = Some pb /\ Z.max (max_finalized st) fin < n.
Proof.
  intros Hk Hp. unfold on_finalized, drain_finalized.
  set (st1 := mkPipe _ _ _ _ _ _ _ _ _ _).
  destruct (drain_moves (drain_numbers (pending st1) (max_finalized st) (Z.max (max_finalized st) fin)) st1)
    as [(H1 & H2 & H3 & H4 & H5 & H6 & H7 & H8) Hpend]; [done|].
  split_and!; try done. intros n pb. rewrite Hpend, drain_numbers_elem. cbn [st1 pending].
  split.
  - intros [Hn Hnot]. split; [done|]. assert (max_finalized st < n) by (apply Hp; by eexists).
    apply Z.nle_gt. intros Hle. apply Hnot. split; [by eexists|lia].
  - intros [Hn Hlt]. split; [done|]. intros [_ ?]. lia.
Qed.

(** A worker counts the bytes it enters in the map, and enters a store once at most. *)
Lemma submit_effect ext hash answers w :
  let w' := (submit ext hash answers w).2 in
  (sw_map w' = sw_map w /\ c_submitted_bytes (sw_counters w') = c_submitted_bytes (sw_counters w) /\
   c_submitted (sw_counters w') = c_submitted (sw_counters w)) \/
  (sw_map w' = <[hash := len ext]> (sw_map w) /\ c_submitted_bytes (sw_counters w') = c_submitted_bytes (sw_counters w) + len ext /\
   c_submitted (sw_counters w') = c_submitted (sw_counters w) + 1).
Proof.
  revert w. induction answers as [|[|class rc] answers IH]; intros w; cbn [submit snd]; [by left|by right|].
  assert (forall e r s conn, let w1 := mkStoreWorker (add_counters 0 0 e r s (sw_counters w)) (sw_map w) conn in
    sw_map w1 = sw_map w /\ c_submitted_bytes (sw_counters w1) = c_submitted_bytes (sw_counters w) /\
    c_submitted (sw_counters w1) = c_submitted (sw_counters w)) as Hw by (intros; cbn; split_and!; [done|lia|lia]).
  assert (forall e r s conn, let w1 := mkStoreWorker (add_counters 0 0 e r s (sw_counters w)) (sw_map w) conn in
    let w' := (submit ext hash answers w1).2 in
    (sw_map w' = sw_map w /\ c_submitted_bytes (sw_counters w') = c_submitted_bytes (sw_counters w) /\
     c_submitted (sw_counters w') = c_submitted (sw_counters w)) \/
    (sw_map w' = <[hash := len ext]> (sw_map w) /\ c_submitted_bytes (sw_counters w') = c_submitted_bytes (sw_counters w) + len ext /\
     c_submitted (sw_counters w') = c_submitted (sw_counters w) + 1)) as Hr.
  { intros e r s conn w1. destruct (Hw e r s conn) as (E1 & E2 & E3). fold w1 in E1, E2, E3. cbv zeta in IH.
    specialize (IH w1). rewrite E1, E2, E3 in IH. exact IH. }
  destruct class; try (left; apply Hw); try apply Hr.
  destruct rc; [apply Hr|]. destruct (CONN_GIVE_UP <=? _); [left; apply Hw|apply Hr].
Qed.

Record PipeInv (target : option Z) (st : PipelineState) : Prop := {
  pi_keyed : keyed (pending st);
  pi_above : forall n, is_Some (pending st !! n) -> max_finalized st < n;
  pi_confirmed : confirmed_count st = tx_sum (block_stats st);
  pi_bytes : all_bytes st <= c_submitted_bytes (counters st);
  pi_pending_nonneg : forall n pb, pending st !! n = Some pb -> 0 <= pb_payload_bytes pb;
  pi_map_nonneg : forall h z, content_hash_map st !! h = Some z -> 0 <= z;
  pi_target : target_reached st = true -> exists t, target = Some t /\ t <= best_measured_blocks st }.

Lemma take_sizes_nonneg hashes m :
  (forall h z, m !! h = Some z -> 0 <= z) ->
  0 <= (take_sizes m hashes).1 /\ forall h z, (take_sizes m hashes).2 !! h = Some z -> 0 <= z.
Proof.
  revert m. induction hashes as [|h hashes IH]; intros m Hm; [done|]. cbn [take_sizes].
  destruct (m !! h) as [sz|] eqn:E; [|by apply IH].
  destruct (IH (delete h m)) as [H1 H2]. { intros k z [_ Hk]%lookup_delete_Some. by eapply Hm. }
  pose proof (Hm _ _ E). destruct (take_sizes (delete h m) hashes). cbn [fst snd] in *. split; [lia|done].
Qed.

(** What a best block does to the state. *)
Lemma best_effect target b st :
  PipeInv target st ->
  let st' := on_best target b st in let n := be_number b in let c := len (stored_content_hashes (be_events b)) in
  PipeInv target st' /\ counters st' = counters st /\ max_finalized st' = max_finalized st /\
  (pending st !! n = None -> all_bytes st' = all_bytes st) /\
  exists rest, view st ≡ₚ option_list ((pair n) <$> (pb_tx_count <$> pending st !! n)) ++ rest /\ view st' ≡ₚ (n, c) :: rest.
Proof.
  intros [Hk Ha Hc Hb Hp Hm Ht]. cbv zeta. unfold on_best. set (n := be_number b). set (c := len _).
  pose proof (take_sizes_sum (stored_content_hashes (be_events b)) (content_hash_map st)) as Hsum.
  destruct (take_sizes_nonneg (stored_content_hashes (be_events b)) (content_hash_map st) Hm) as [Hz1 Hz2].
  destruct (take_sizes _ _) as [z m'] eqn:Ets. cbn [fst snd] in *.
  set (pb := mkPending n _ _ _ _). set (st1 := mkPipe _ _ _ _ _ _ _ _ _ _).
  assert (keyed (pending st1)) as Hk1.
  { intros k q. cbn [st1 pending]. rewrite lookup_insert_Some. intros [[<- <-]|[_ ?]]; [done|by apply Hk]. }
  assert (all_bytes st1 = all_bytes st - default 0 (pb_payload_bytes <$> pending st !! n)) as Hby.
  { unfold all_bytes. cbn [st1 block_stats pending content_hash_map]. rewrite fmap_insert, map_sum_replace, lookup_fmap.
    cbn [pb pb_payload_bytes]. lia. }
  assert (0 <= default 0 (pb_payload_bytes <$> pending st !! n)) as Hdn.
  { destruct (pending st !! n) as [q|] eqn:E; cbn; [by eapply Hp|lia]. }
  assert (target_reached st1 = true -> exists t, target = Some t /\ t <= best_measured_blocks st1) as Ht1.
  { cbn [st1 target_reached best_measured_blocks]. intros [Hr|Hr]%orb_true_iff.
    - destruct (Ht Hr) as (t & -> & Hle). exists t. split; [done|]. destruct (0 <? c); lia.
    - apply andb_true_iff in Hr as [Hc0 Hr]. destruct target as [t|]; [|done]. exists t. split; [done|]. rewrite Hc0 in *. b2p. lia. }
  assert (exists rest, view st ≡ₚ option_list ((pair n) <$> (pb_tx_count <$> pending st !! n)) ++ rest /\
          view st1 ≡ₚ (n, c) :: rest) as Hview.
  { exists (map (fun b => (bs_number b, bs_tx_count b)) (block_stats st) ++ map_to_list (delete n (pb_tx_count <$> pending st))).
    unfold view. cbn [st1 block_stats pending]. rewrite fmap_insert, <-insert_delete_eq.
    rewrite (map_to_list_insert (delete n _)) by apply lookup_delete_eq. cbn [pb pb_tx_count]. split; [|by rewrite Permutation_middle].
    destruct (pending st !! n) as [q|] eqn:E; cbn.
    - rewrite <-(map_to_list_delete (pb_tx_count <$> pending st) n (pb_tx_count q)) by (by rewrite lookup_fmap, E).
      by rewrite Permutation_middle.
    - by rewrite delete_id by (by rewrite lookup_fmap, E). }
  destruct (n <=? max_finalized st) eqn:El; b2p.
  - assert (pending st !! n = None) as Hnone.
    { destruct (pending st !! n) eqn:E; [|done]. assert (max_finalized st < n) by (apply Ha; by eexists). lia. }
    destruct (confirm_moves n st1 Hk1) as (V & B & C & MF & TR & BM & CT & HM).
    rewrite Hnone in *. cbn in Hby, Hdn.
    assert (pending (confirm n st1) = pending st) as Hpe.
    { rewrite confirm_pending. cbn [st1 pending]. by rewrite delete_insert_id. }
    split_and!; [constructor|done|by rewrite MF|intros _; rewrite B, Hby; lia|].
    + by rewrite Hpe.
    + rewrite Hpe, MF. exact Ha.
    + cbn [st1 confirmed_count block_stats] in C. lia.
    + rewrite B, CT, Hby. cbn [st1 counters]. lia.
    + rewrite Hpe. done.
    + rewrite HM. done.
    + rewrite TR, BM. done.
    + destruct Hview as (rest & H1 & H2). exists rest. split; [done|]. by rewrite V.
  - split_and!; [constructor|done|done|intros E; rewrite Hby, E; cbn; lia|done]; try done.
    + intros k. cbn [st1 pending max_finalized]. rewrite lookup_insert_is_Some. intros [<-|[_ ?]]; [lia|by apply Ha].
    + cbn [st1 counters]. lia.
    + intros k q. cbn [st1 pending]. rewrite lookup_insert_Some. intros [[<- <-]|[_ ?]]; [done|by eapply Hp].
Qed.

(** ** Facts: runs *)

(** The block numbers whose best block the monitor has taken, each with the store count
    of the last block it saw under that number. *)
Definition delivered (events : list PipeEvent) (target : option Z) : gmap Z Z :=
  (foldl (fun '(st, del) ev =>
     (pipe_step target st ev,
      match ev with
      | BestArrives b => if target_reached st then del else <[be_number b := len (stored_content_hashes (be_events b))]> del
      | _ => del
      end)) (pipe_start, ∅) events).2.

(** No best block arrives again once a block of its number is final. *)
Fixpoint no_late_repeats (target : option Z) (past future : list PipeEvent) : Prop :=
  match future with
  | [] => True
  | ev :: future' =>
      match ev with
      | BestArrives b => be_number b <= max_finalized (pipe_run target past) -> delivered past target !! be_number b = None
      | _ => True
      end /\ no_late_repeats target (past ++ [ev]) future'
  end.

(** Every best block has a number of its own, and every store a content hash of its own. *)
Fixpoint no_repeats (target : option Z) (past future : list PipeEvent) : Prop :=
  match future with
  | [] => True
  | ev :: future' =>
      match ev with
      | BestArrives b => pending (pipe_run target past) !! be_number b = None
      | WorkerSubmits _ _ hash _ => content_hash_map (pipe_run target past) !! hash = None
      | _ => True
      end /\ no_repeats target (past ++ [ev]) future'
  end.

Lemma pipe_run_snoc target past ev : pipe_run target (past ++ [ev]) = pipe_step target (pipe_run target past) ev.
Proof. unfold pipe_run. by rewrite foldl_app. Qed.

Lemma delivered_fst past target :
  (foldl (fun '(st, del) ev =>
     (pipe_step target st ev,
      match ev with
      | BestArrives b => if target_reached st then del else <[be_number b := len (stored_content_hashes (be_events b))]> del
      | _ => del
      end)) (pipe_start, ∅ : gmap Z Z) past).1 = pipe_run target past.
Proof.
  induction past as [|ev past IH] using rev_ind; [done|]. rewrite foldl_app, pipe_run_snoc, <-IH. cbn [foldl].
  by destruct (foldl _ _ past).
Qed.

Lemma delivered_snoc past target ev :
  delivered (past ++ [ev]) target =
    match ev with
    | BestArrives b => if target_reached (pipe_run target past) then delivered past target
                       else <[be_number b := len (stored_content_hashes (be_events b))]> (delivered past target)
    | _ => delivered past target
    end.
Proof.
  rewrite <-delivered_fst. unfold delivered. rewrite foldl_app. cbn [foldl].
  destruct (foldl _ _ past) as [st del]. cbn [snd fst]. by destruct ev.
Qed.

(** One event keeps the invariant; it loses bytes only where a block or a store repeats. *)
Lemma step_effect target st ev :
  PipeInv target st ->
  let st' := pipe_step target st ev in
  PipeInv target st' /\ max_finalized st <= max_finalized st' /\
  (match ev with
   | BestArrives b => pending st !! be_number b = None
   | WorkerSubmits _ _ hash _ => content_hash_map st !! hash = None
   | _ => True end ->
   all_bytes st' - c_submitted_bytes (counters st') = all_bytes st - c_submitted_bytes (counters st)).
Proof.
  intros Hi. pose proof Hi as [Hk Ha Hc Hb Hp Hm Ht]. destruct ev as [b|fin|conn ext hash answers]; cbn [pipe_step].
  - destruct (target_reached st); [done|]. destruct (best_effect target b st Hi) as (H1 & H2 & H3 & H4 & _).
    cbv zeta. rewrite H2, H3. split_and!; [done|lia|]. intros Hn. rewrite H4 by done. lia.
  - destruct (finalized_moves fin st Hk Ha) as (V & B & C & MF & TR & BM & CT & HM & HP). cbv zeta.
    rewrite CT, B, MF. split_and!; [|lia|lia]. constructor.
    + intros n pb [? _]%HP. by apply Hk.
    + intros n [pb [_ ?]%HP]. rewrite MF. lia.
    + lia.
    + rewrite CT, B. done.
    + intros n pb [? _]%HP. by eapply Hp.
    + by rewrite HM.
    + by rewrite TR, BM.
  - set (w := mkStoreWorker (counters st) (content_hash_map st) conn).
    pose proof (submit_effect ext hash answers w) as He. cbv zeta in He. set (w' := (submit ext hash answers w).2) in *.
    cbn [w sw_map sw_counters] in He. pose proof (len_nonneg ext) as Hlen. cbv zeta.
    set (st' := mkPipe _ _ _ _ _ _ _ _ _ _).
    assert (all_bytes st' = all_bytes st - map_sum (content_hash_map st) + map_sum (sw_map w')) as Hab
      by (unfold all_bytes; cbn [st' block_stats pending content_hash_map]; lia).
    assert (all_bytes st' - c_submitted_bytes (counters st') <= all_bytes st - c_submitted_bytes (counters st) /\
      (content_hash_map st !! hash = None ->
       all_bytes st' - c_submitted_bytes (counters st') = all_bytes st - c_submitted_bytes (counters st)) /\
      forall h z, sw_map w' !! h = Some z -> 0 <= z) as (Hle & Heq & Hnn).
    { rewrite Hab. cbn [st' counters]. destruct He as [(-> & -> & _)|(-> & -> & _)]; [split_and!; [lia|lia|done]|].
      rewrite map_sum_replace. split_and!.
      - destruct (content_hash_map st !! hash) as [u|] eqn:E; cbn [from_option id]; [pose proof (Hm _ _ E)|]; lia.
      - intros ->. cbn [from_option id]. lia.
      - intros h z [[_ <-]|[_ ?]]%lookup_insert_Some; [done|by eapply Hm]. }
    split_and!; [constructor|cbn; lia|done]; try done. cbn [st' counters] in *. lia.
Qed.

(** Every block in the statistics is final. *)
Definition stats_final (st : PipelineState) : Prop :=
  Forall (fun b => bs_number b <= max_finalized st) (block_stats st).

Lemma confirm_final n st :
  keyed (pending st) -> n <= max_finalized st -> stats_final st -> stats_final (confirm n st).
Proof.
  intros Hk Hn Hs. unfold confirm. destruct (pending st !! n) as [pb|] eqn:E; [|done].
  unfold stats_final. cbn [push_finalized set_pending block_stats max_finalized]. apply Forall_app. split; [done|].
  constructor; [|done]. cbn. by rewrite (Hk n pb E).
Qed.

Lemma drain_final nums st :
  keyed (pending st) -> Forall (fun n => n <= max_finalized st) nums -> stats_final st ->
  stats_final (foldl (fun st n => confirm n st) st nums).
Proof.
  revert st. induction nums as [|n nums IH]; intros st Hk Hn Hs; [done|]. cbn [foldl]. apply Forall_cons in Hn as [Hn Hns].
  apply IH; [rewrite confirm_pending; by apply keyed_delete| |by apply confirm_final].
  by destruct (confirm_moves n st Hk) as (_ & _ & _ & -> & _).
Qed.

Lemma step_final target st ev : PipeInv target st -> stats_final st -> stats_final (pipe_step target st ev).
Proof.
  intros [Hk Ha _ _ _ _ _] Hs. destruct ev as [b|fin|conn ext hash answers]; cbn [pipe_step]; [|..|done].
  - destruct (target_reached st); [done|]. unfold on_best. destruct (take_sizes _ _) as [z m'].
    destruct (be_number b <=? max_finalized st) eqn:E; b2p; [|done]. apply confirm_final; [|done|done].
    intros k q. cbn [pending]. rewrite lookup_insert_Some. intros [[<- <-]|[_ ?]]; [done|by apply Hk].
  - unfold on_finalized, drain_finalized. apply drain_final; [done| |].
    + apply Forall_forall. intros n [_ ?]%drain_numbers_elem. cbn [max_finalized]. lia.
    + unfold stats_final in *. cbn [block_stats max_finalized]. eapply Forall_impl; [exact Hs|]. cbn. intros. lia.
Qed.

Lemma pipe_inv target events : PipeInv target (pipe_run target events) /\ stats_final (pipe_run target events).
Proof.
  induction events as [|ev events [IH1 IH2]] using rev_ind.
  - split; [|constructor]. constructor; try done; intros n; rewrite ?lookup_empty; by (intros [? ?] || intros ? ?).
  - rewrite pipe_run_snoc. split; [by apply step_effect|by apply (step_final target)].
Qed.

Lemma view_split st n c :
  (n, c) ∈ view st -> (exists b, b ∈ block_stats st /\ bs_number b = n) \/ is_Some (pending st !! n).
Proof.
  unfold view. rewrite elem_of_app, elem_of_map_to_list, lookup_fmap. intros [Hin|Hin].
  - left. apply list_elem_of_In, in_map_iff in Hin as (b & Hb & Hin). exists b. split; [by apply list_elem_of_In|by simplify_eq].
  - right. destruct (pending st !! n); [by eexists|done].
Qed.

(** Without late repeats, confirmed and pending blocks are the delivered ones, each once. *)
Lemma view_delivered target past ev :
  view (pipe_run target past) ≡ₚ map_to_list (delivered past target) ->
  match ev with
  | BestArrives b => be_number b <= max_finalized (pipe_run target past) -> delivered past target !! be_number b = None
  | _ => True
  end ->
  view (pipe_run target (past ++ [ev])) ≡ₚ map_to_list (delivered (past ++ [ev]) target).
Proof.
  intros Hv Hlate. rewrite pipe_run_snoc, delivered_snoc. set (st := pipe_run target past) in *.
  destruct (pipe_inv target past) as [Hi Hs]. fold st in Hi, Hs. pose proof Hi as [Hk Ha _ _ _ _ _].
  destruct ev as [b|fin|conn ext hash answers]; cbn [pipe_step]; [|by rewrite (proj1 (finalized_moves fin st Hk Ha))|done].
  destruct (target_reached st); [done|].
  destruct (best_effect target b st Hi) as (_ & _ & _ & _ & rest & H1 & H2). rewrite H2. clear H2.
  set (n := be_number b) in *. set (c := len _) in *. rewrite <-insert_delete_eq.
  rewrite map_to_list_insert by apply lookup_delete_eq. apply perm_skip.
  destruct (pending st !! n) as [q|] eqn:E; cbn in H1.
  - rewrite Hv in H1. assert (delivered past target !! n = Some (pb_tx_count q)) as Hd.
    { apply elem_of_map_to_list. rewrite H1. by left. }
    rewrite <-(map_to_list_delete _ _ _ Hd) in H1. by apply Permutation_cons_inv in H1.
  - assert (delivered past target !! n = None) as Hd.
    { destruct (decide (n <= max_finalized st)); [by apply Hlate|].
      destruct (delivered past target !! n) as [d|] eqn:Ed; [|done]. apply elem_of_map_to_list in Ed. rewrite <-Hv in Ed.
      apply view_split in Ed as [(x & Hx & Hn)|[q Hq]]; [|congruence].
      unfold stats_final in Hs. rewrite Forall_forall in Hs. specialize (Hs x Hx). cbn in Hs. lia. }
    rewrite delete_id by done. by rewrite <-Hv, H1.
Qed.

Lemma run_view target past future :
  view (pipe_run target past) ≡ₚ map_to_list (delivered past target) -> no_late_repeats target past future ->
  view (pipe_run target (past ++ future)) ≡ₚ map_to_list (delivered (past ++ future) target).
Proof.
  revert past. induction future as [|ev future IH]; intros past Hv Hl; [by rewrite app_nil_r|].
  destruct Hl as [He Hl]. rewrite (cons_middle ev past future), (assoc_L (++)). apply IH; [by apply view_delivered|done].
Qed.

Lemma run_bytes target past future :
  all_bytes (pipe_run target past) = c_submitted_bytes (counters (pipe_run target past)) -> no_repeats target past future ->
  all_bytes (pipe_run target (past ++ future)) = c_submitted_bytes (counters (pipe_run target (past ++ future))).
Proof.
  revert past. induction future as [|ev future IH]; intros past Hv Hl; [by rewrite app_nil_r|].
  destruct Hl as [He Hl]. rewrite (cons_middle ev past future), (assoc_L (++)). apply IH; [|done].
  rewrite pipe_run_snoc. destruct (pipe_inv target past) as [Hi _].
  destruct (step_effect target _ ev Hi) as (_ & _ & Hb). specialize (Hb He). lia.
Qed.

Lemma view_fst_nodup target events :
  view (pipe_run target events) ≡ₚ map_to_list (delivered events target) ->
  NoDup (map bs_number (block_stats (pipe_run target events))).
Proof.
  intros Hv. assert (NoDup (map fst (view (pipe_run target events)))) as Hn.
  { rewrite Hv. apply NoDup_fst_map_to_list. }
  unfold view in Hn. rewrite map_app, map_map in Hn. by apply NoDup_app in Hn as [Hn _].
Qed.

Lemma map_sum_list {K} `{Countable K} (m : gmap K Z) : map_sum m = foldr (fun p z => p.2 + z) 0 (map_to_list m).
Proof.
  unfold map_sum. rewrite map_fold_foldr. induction (map_to_list m) as [|[k v] l IH]; [done|].
  cbn [foldr uncurry snd] in *. by rewrite IH.
Qed.

Lemma pair_sum_perm (l k : list (Z * Z)) :
  l ≡ₚ k -> foldr (fun p z => p.2 + z) 0 l = foldr (fun p z => p.2 + z) 0 k.
Proof. induction 1; cbn [foldr]; lia. Qed.

Lemma tx_sum_pairs l : tx_sum l = foldr (fun p z => p.2 + z) 0 (map (fun b => (bs_number b, bs_tx_count b)) l).
Proof. induction l as [|b l IH]; [done|]. cbn [map foldr snd]. by rewrite <-IH. Qed.
