(* ===== verification/Scenarios.v ===== *)
(** The stress-test tool's scenarios over the uploaders ([scenarios/throughput.rs],
    [scenarios/renew.rs]), the latency figures ([report.rs]) and what the tool derives
    from a node's metadata ([chain_info.rs]).  A figure the tool computes in floating
    point is kept as the numerator and denominator it divides. *)

From Stdlib Require Import Ascii.
From stdpp Require Import sorting.
From S2P Require Import Prelude Slice Primitives Types State Hop Codec Stress StressPlan Submission Upload Monitor.

(** ** Latencies *)

Record LatencyStats := mkLatency { p50 : Z; p90 : Z; p99 : Z; lat_min : Z; lat_max : Z; lat_mean : Z }.

(** [compute_latency_stats] on durations in nanoseconds: [None] for none; an index out of
    range or a division by zero would be a panic, the outer [None]. *)
Definition compute_latency_stats (durations : list Z) : option (option LatencyStats) :=
  match durations with
  | [] => Some None
  | _ =>
      let sorted := merge_sort Z.le durations in
      let n := len sorted in
      let at_ i := sorted !! Z.to_nat i in
      a ← at_ (n * 50 / 100);
      b ← at_ (Z.min (n * 90 / 100) (n - 1));
      c ← at_ (Z.min (n * 99 / 100) (n - 1));
      lo ← at_ 0;
      hi ← at_ (n - 1);
      if as_u32 n =? 0 then None else
      Some (Some (mkLatency a b c lo hi (foldr Z.add 0 sorted / as_u32 n)))
  end.

(** ** The block-capacity sweep *)

Inductive BlockCapacitySweepStep := FixedStep (size : Z) (label : string) | MixedStep (mix : PayloadSizeMix).

Inductive SweepError := EmptyVariants | BadMixTable | UnknownVariant (token : string).

Definition upper_char (a : ascii) : ascii :=
  let n := nat_of_ascii a in if ((97 <=? n) && (n <=? 122))%nat then ascii_of_nat (n - 32) else a.

Fixpoint to_uppercase (s : string) : string :=
  match s with EmptyString => EmptyString | String a s' => String (upper_char a) (to_uppercase s') end.

Definition is_space (a : ascii) : bool :=
  let n := nat_of_ascii a in ((n =? 32) || ((9 <=? n) && (n <=? 13)))%nat.

Fixpoint trim_start (s : string) : string :=
  match s with EmptyString => EmptyString | String a s' => if is_space a then trim_start s' else s end.

Fixpoint trim_end (s : string) : string :=
  match s with
  | EmptyString => EmptyString
  | String a s' => match trim_end s' with
                   | EmptyString => if is_space a then EmptyString else String a EmptyString
                   | t => String a t end
  end.

(** [split(',')]. *)
Fixpoint split_commas (s part : string) : list string :=
  match s with
  | EmptyString => [part]
  | String "," s' => part :: split_commas s' ""
  | String a s' => split_commas s' (part +:+ String a "")
  end.

(** The tokens of the [--variants] argument, of ASCII characters. *)
Definition variant_tokens (f : string) : list string :=
  List.filter (fun s => negb (bool_decide (s = ""%string)))
    (map (fun s => to_uppercase (trim_end (trim_start s))) (split_commas f "")).

(** One token, when the mix is known. *)
Definition sweep_step (mix : option PayloadSizeMix) (t : string) : result SweepError BlockCapacitySweepStep :=
  if bool_decide (t = "MIXED"%string) then
    match mix with Some m => Ok (MixedStep m) | None => Err BadMixTable end
  else match List.find (fun p => bool_decide (to_uppercase p.2 = t)) ALL_PAYLOAD_SIZES with
       | Some (size, label) => Ok (FixedStep size label)
       | None => Err (UnknownVariant t)
       end.

Fixpoint sweep_steps (mix : option PayloadSizeMix) (tokens : list string) : result SweepError (list BlockCapacitySweepStep) :=
  match tokens with
  | [] => Ok []
  | t :: tokens' =>
      match sweep_step mix t with
      | Err e => Err e
      | Ok s => match sweep_steps mix tokens' with Ok l => Ok (s :: l) | Err e => Err e end
      end
  end.

(** [build_sweep_steps]: the mix is built first, when any token asks for it. *)
Definition build_sweep_steps (variant_filter : option string) : result SweepError (list BlockCapacitySweepStep) :=
  match variant_filter with
  | None => Ok (map (fun p => FixedStep p.1 p.2) ALL_PAYLOAD_SIZES)
  | Some f =>
      match variant_tokens f with
      | [] => Err EmptyVariants
      | tokens =>
          if existsb (fun t => bool_decide (t = "MIXED"%string)) tokens then
            match real_world_payload_mix with Some mix => sweep_steps (Some mix) tokens | None => Err BadMixTable end
          else sweep_steps None tokens
      end
  end.

(** The sizing of one step. *)
Record StepSize := mkStepSize {
  st_label : string;
  st_payload_report : Z;
  st_block_cap : Z;
  st_payload : StorePayloadMode;
  st_accounts_needed : Z;
  st_accounts_per_iter : Z;
  st_iterations : Z }.

Section Sizing.
Variable limits : ChainLimits.
(** The mean of a mix, a floating-point number, rounded. *)
Variable rounded_mean : PayloadSizeMix -> Z.

(** The stores of a size that fit a block; [None] when the sum overflows. *)
Definition est_block_cap (size : Z) : option Z :=
  per ← add64 size (extrinsic_length_overhead limits);
  Some (Z.min (normal_block_length limits / Z.max per 1) (max_block_transactions limits)).

(** A step of [run_block_capacity_sweep] before it runs; [None] on overflow, and the
    number of accounts is truncated to 32 bits as the source does. *)
Definition step_size (target_blocks iteration_blocks : Z) (step : BlockCapacitySweepStep) : option StepSize :=
  let iteration_blocks := Z.max iteration_blocks 1 in
  let '(label, report, size, mode) :=
    match step with
    | FixedStep size label => (label, size, size, FixedPayload size)
    | MixedStep mix => ("mixed"%string, Z.max (rounded_mean mix) 1, Z.max (min_payload_bytes mix) 1, MixedPayload mix)
    end in
  cap ← est_block_cap size;
  blocks ← add32 target_blocks 2;
  total_block_slots ← mul64 blocks cap;
  backpressure_buffer ← mul64 cap 3;
  slots ← add64 total_block_slots backpressure_buffer;
  slots3 ← mul64 slots 3;
  let accounts_needed := as_u32 (Z.max (slots3 / 2) 1) in
  let accounts_per_iter := block_capacity_accounts_per_iteration cap iteration_blocks in
  if accounts_per_iter =? 0 then None else
  Some (mkStepSize label report cap mode accounts_needed accounts_per_iter (div_ceil accounts_needed accounts_per_iter)).
End Sizing.

(** ** What a sweep reports *)

Definition has_txs (b : BlockStats) : bool := 0 <? bs_tx_count b.

(** [position] and [rposition] of a block with stores. *)
Definition first_with_txs (l : list BlockStats) : option nat := fst <$> list_find (fun b => has_txs b = true) l.
Definition last_with_txs (l : list BlockStats) : option nat :=
  match first_with_txs (rev l) with Some i => Some (length l - 1 - i)%nat | None => None end.

(** The measured blocks strictly between the first and the last with stores, or all. *)
Definition steady_blocks (measured : list BlockStats) : list BlockStats :=
  match first_with_txs measured, last_with_txs measured with
  | Some first, Some last =>
      if (first + 1 <? last)%nat then take (last - (first + 1)) (drop (first + 1) measured) else measured
  | _, _ => measured
  end.

Definition max_tx (l : list BlockStats) : Z := foldr (fun b z => Z.max (bs_tx_count b) z) 0 l.

(** The figures of [scenario_result_from_bulk]; a ratio is a numerator and a
    denominator.  [sb_wall_ms] is zero when the clock of the steady blocks says nothing,
    and the run's own duration is used. *)
Record BulkSummary := mkBulkSummary {
  sb_steady : list BlockStats;
  sb_peak : Z;
  sb_avg : option (Z * Z);
  sb_confirmed : Z;
  sb_bytes : Z;
  sb_interval : option (Z * Z);
  sb_wall_ms : Z }.

Definition average (l : list Z) : option (Z * Z) :=
  match l with [] => None | _ => Some (foldr Z.add 0 l, len l) end.

Definition summarize_bulk (all_blocks : list BlockStats) : BulkSummary :=
  let measured := List.filter (fun b => negb (bs_prefill b)) all_blocks in
  let steady := steady_blocks measured in
  let wall := match head steady ≫= bs_received_at_ms, last steady ≫= bs_received_at_ms with
              | Some first, Some last => if first <? last then last - first else 0
              | _, _ => 0 end in
  mkBulkSummary steady (max_tx steady) (average (map bs_tx_count steady)) (tx_sum measured) (bytes_sum steady)
    (average (omap bs_interval_ms steady)) wall.

(** The transactions per second: measured transactions over the time of the steady
    blocks and one block more, in milliseconds ([wall * n / (n - 1)]). *)
Definition bulk_tps_ratio (s : BulkSummary) : option (Z * (Z * Z)) :=
  if (0 <? sb_wall_ms s) && negb (bool_decide (sb_steady s = [])) then
    let gaps := Z.max (len (sb_steady s) - 1) 1 in
    Some (sb_confirmed s, (sb_wall_ms s * (gaps + 1), gaps))
  else None.

(** ** Draining the pool *)

(** What the drain loop sees: the deadline has passed, a best block with its stores, or
    nothing. *)
Inductive DrainEvent := DrainDeadline | DrainBlock (stored_count : Z) | DrainNothing.

(** The loop ends at the second empty block in a row or at the deadline; [false] while it
    still waits. *)
Fixpoint drain_loop (consecutive_empty : Z) (events : list DrainEvent) : bool :=
  match events with
  | [] => false
  | DrainDeadline :: _ => true
  | DrainNothing :: events' => drain_loop consecutive_empty events'
  | DrainBlock stored :: events' =>
      if stored =? 0 then (if 2 <=? consecutive_empty + 1 then true else drain_loop (consecutive_empty + 1) events')
      else drain_loop 0 events'
  end.

(** ** The sequential upload's scenario *)

(** The transactions of each instance and what each account is authorized for. *)
Record SequentialSize := mkSeqSize { ss_instances : Z; ss_txs : Z; ss_auth_txs : Z; ss_auth_bytes : Z }.

(** The sizing of [run_sequential_upload]; a zero chunk size is a division by zero. *)
Definition sequential_size (total_bytes chunk_size instances : Z) : option SequentialSize :=
  let instances := Z.max instances 1 in
  let bytes_per_instance := total_bytes / instances in
  if chunk_size =? 0 then None else
  let num_txs := div_ceil bytes_per_instance chunk_size in
  auth_txs ← add32 (as_u32 num_txs) 10;
  auth_bytes ← add64 bytes_per_instance (100 * 1024 * 1024);
  Some (mkSeqSize instances num_txs auth_txs auth_bytes).

(** The payload indices of each instance. *)
Definition instance_indices (s : SequentialSize) (i : Z) : list Z :=
  map (fun j => as_u32 (i * ss_txs s + j)) (seqZ 0 (ss_txs s)).

(** A block joins the map: the first of a number gives everything but the counts. *)
Definition merge_block (m : gmap Z BlockStats) (b : BlockStats) : gmap Z BlockStats :=
  let entry := default (mkStats (bs_number b) 0 0 false (bs_timestamp_ms b) (bs_hash b) (bs_finalized b)
                          (bs_received_at_ms b) (bs_interval_ms b)) (m !! bs_number b) in
  <[bs_number b := mkStats (bs_number entry) (bs_tx_count entry + bs_tx_count b) (bs_payload_bytes entry + bs_payload_bytes b)
      (bs_prefill entry) (bs_timestamp_ms entry) (bs_hash entry) (bs_finalized entry) (bs_received_at_ms entry)
      (bs_interval_ms entry)]> m.

(** [into_values] of a map ordered by block number. *)
Definition map_values (m : gmap Z BlockStats) : list BlockStats :=
  omap (fun n => m !! n) (merge_sort Z.le (map fst (map_to_list m))).

Definition merge_blocks (runs : list (list BlockStats)) : list BlockStats :=
  map_values (foldl merge_block ∅ (concat runs)).

(** The merged result of the instances; one instance's is taken as it is. *)
Definition merge_results (results : list SequentialUploadResult) : SequentialUploadResult :=
  match results with
  | [r] => r
  | _ => mkSeqResult (foldr Z.add 0 (map sr_total_submitted results)) (foldr Z.add 0 (map sr_total_confirmed results))
           (foldr Z.add 0 (map sr_total_errors results)) (foldr Z.add 0 (map sr_waves_submitted results))
           (merge_blocks (map sr_blocks results))
  end.

(** The figures of the report: average, peak, totals, block interval, and the time
    between the first and the last block with stores on the chain's clock. *)
Record SequentialSummary := mkSeqSummary {
  sq_avg : option (Z * Z);
  sq_peak : Z;
  sq_total_txs : Z;
  sq_total_bytes : Z;
  sq_interval : option (Z * Z);
  sq_onchain_ms : option Z }.

Definition summarize_sequential (all_blocks : list BlockStats) : SequentialSummary :=
  let with_txs := List.filter has_txs all_blocks in
  mkSeqSummary (average (map bs_tx_count with_txs)) (max_tx with_txs) (tx_sum with_txs) (bytes_sum with_txs)
    (average (omap bs_interval_ms all_blocks))
    (match head with_txs ≫= bs_timestamp_ms, last with_txs ≫= bs_timestamp_ms with
     | Some first, Some last => if first <? last then Some (last - first) else None
     | _, _ => None end).

(** ** The renewal scenario *)

Record RenewSize := mkRenewSize { rn_stores : Z; rn_auth_txs : Z; rn_auth_bytes : Z }.

(** The sizing of [run_renew_stress]. *)
Definition renew_stress_size (max_block_transactions num_store_txs chunk_size target_renew_blocks : Z) : option RenewSize :=
  let stores := Z.max num_store_txs max_block_transactions in
  total_bytes ← mul64 stores chunk_size;
  blocks32 ← add32 target_renew_blocks 5;
  let renews32 := max_block_transactions * blocks32 in
  if u32_max <? renews32 then None else
  total_txs_needed ← add32 (as_u32 stores) renews32;
  per_block ← mul64 chunk_size max_block_transactions;
  renew_bytes ← mul64 per_block (target_renew_blocks + 5);
  total_bytes_needed ← add64 total_bytes renew_bytes;
  Some (mkRenewSize stores total_txs_needed total_bytes_needed).

(** The block number at the end of a storage key, and the length prefix of its value. *)
Definition stored_block (key_bytes : bytes) : option Z :=
  if (36 <=? length key_bytes)%nat then Some (le_value (drop (length key_bytes - 4) key_bytes)) else None.

Definition prefix_count (encoded : bytes) : Z :=
  match encoded with
  | [] => 0
  | b0 :: rest =>
      let b := byte_to_Z b0 in
      if Z.land b 3 =? 0 then Z.shiftr b 2
      else if Z.land b 3 =? 1 then
        match rest with b1 :: _ => Z.shiftr (le_value [b0; b1]) 2 | [] => 0 end
      else 0
  end.

(** [discover_stored_items] over what the storage iterator yields, which ends at the
    first error. *)
Fixpoint discover_stored_items (needed : Z) (entries : list (bytes * bytes)) (items : list (Z * Z)) : list (Z * Z) :=
  match entries with
  | [] => items
  | (key_bytes, encoded) :: entries' =>
      match stored_block key_bytes with
      | None => discover_stored_items needed entries' items
      | Some block_number =>
          let items := items ++ map (pair block_number) (seqZ 0 (prefix_count encoded)) in
          if needed <=? len items then items else discover_stored_items needed entries' items
      end
  end.

(** The renewal loop's state. *)
Record RenewState := mkRenewState { rw_best_nonce : Z; rw_confirmed_blocks : Z; rw_total_renewed : Z }.

(** One pass: the node's answer for the nonce, the renewals signed (by index and nonce),
    whether the next block came, and the nonce read after it. *)
Definition renew_wave (items_per_wave : Z) (next_index : option Z) (s : RenewState) : Z * list (Z * Z) :=
  let best_nonce := default (rw_best_nonce s) next_index in
  (best_nonce, map (fun i => (i, best_nonce + i)) (seqZ 0 items_per_wave)).

Definition renew_pass (items_per_wave : Z) (next_index : option Z) (next_block : option (option Z)) (s : RenewState) : RenewState :=
  let best_nonce := (renew_wave items_per_wave next_index s).1 in
  match next_block with
  | Some (Some n) =>
      let included := sat_sub n best_nonce in
      if 0 <? included then mkRenewState n (rw_confirmed_blocks s + 1) (rw_total_renewed s + included)
      else mkRenewState n (rw_confirmed_blocks s) (rw_total_renewed s)
  | _ => mkRenewState best_nonce (rw_confirmed_blocks s) (rw_total_renewed s)
  end.

(** The loop, until the target or the end of the blocks. *)
Fixpoint renew_loop (target_renew_blocks items_per_wave : Z) (passes : list (option Z * option (option Z))) (s : RenewState) : RenewState :=
  match passes with
  | [] => s
  | (next_index, next_block) :: passes' =>
      if target_renew_blocks <=? rw_confirmed_blocks s then s
      else renew_loop target_renew_blocks items_per_wave passes' (renew_pass items_per_wave next_index next_block s)
  end.

(** ** What the tool learns from a node *)

(** [scale_value]'s values as far as the tool navigates them. *)
Inductive Value :=
| PrimU128 (n : Z)
| PrimU256 (le : bytes)
| Named (fields : list (string * Value))
| VariantNamed (name : string) (fields : list (string * Value))
| VariantUnnamed (name : string) (vals : list Value)
| OtherValue.

(** [find_named_field]. *)
Definition find_named_field (def : Value) (field_name : string) : option Value :=
  match def with
  | Named fields => snd <$> List.find (fun f => bool_decide (f.1 = field_name)) fields
  | _ => None
  end.

(** [unwrap_option_some]. *)
Definition unwrap_option_some (def : Value) : option Value :=
  match def with
  | VariantUnnamed name vals => if bool_decide (name = "Some"%string) then head vals else None
  | VariantNamed name fields => if bool_decide (name = "Some"%string) then snd <$> head fields else None
  | _ => None
  end.

(** [value_to_u64]. *)
Definition value_to_u64 (def : Value) : option Z :=
  match def with
  | PrimU128 n => Some (as_u64 n)
  | PrimU256 le => Some (le_value (take 8 le))
  | _ => None
  end.

(** [query_block_limits] on the two constants. *)
Definition query_block_limits (block_weights block_length : Value) : option (Z * Z * Z) :=
  per_class ← find_named_field block_weights "per_class";
  normal_class ← find_named_field per_class "normal";
  max_total ← find_named_field normal_class "max_total";
  some_total ← unwrap_option_some max_total;
  total_ref ← find_named_field some_total "ref_time";
  max_total_ref_time ← value_to_u64 total_ref;
  base ← find_named_field normal_class "base_extrinsic";
  base_ref ← find_named_field base "ref_time";
  base_extrinsic_ref_time ← value_to_u64 base_ref;
  max ← find_named_field block_length "max";
  normal ← find_named_field max "normal";
  normal_length ← value_to_u64 normal;
  Some (max_total_ref_time, base_extrinsic_ref_time, normal_length).

(** [query_storage_limits] on the two constants. *)
Definition query_storage_limits (max_block_txs max_tx_size : Value) : option (Z * Z) :=
  a ← value_to_u64 max_block_txs; b ← value_to_u64 max_tx_size; Some (as_u32 a, as_u32 b).

(** The regression of [measure_store_weight], given the encoded length of the small store
    and the node's weight of both. *)
Definition size_small : Z := 1024.
Definition size_large : Z := 10 * 1024.

Definition store_weight_regression (len_small weight_small weight_large : Z) : option (Z * Z * Z) :=
  let extrinsic_length_overhead := sat_sub len_small size_small in
  let per_byte := sat_sub weight_large weight_small / sat_sub size_large size_small in
  at_small ← mul64 per_byte size_small;
  Some (sat_sub weight_small at_small, per_byte, extrinsic_length_overhead).

(** The nonce is taken and given back for both transactions. *)
Definition measuring_nonces (nonces : NonceTracker) (account_id : AccountId) : NonceTracker :=
  let once n := rollback (next_nonce n account_id).2 account_id in once (once nonces).

(** [redact_seed], before the arguments are joined. *)
Fixpoint redact_args (skip_next : bool) (args : list string) : list string :=
  match args with
  | [] => []
  | arg :: args' =>
      if skip_next then "<redacted>"%string :: redact_args false args'
      else if bool_decide (arg = "--authorizer-seed"%string) then arg :: redact_args true args'
      else if String.prefix "--authorizer-seed=" arg then "--authorizer-seed=<redacted>"%string :: redact_args false args'
      else arg :: redact_args false args'
  end.

Definition redact_seed (args : list string) : string := String.concat " " (redact_args false args).

(** [fetch_txpool_pending_total] on the answer of [txpool_status]: two numbers of an
    array, or of an object; [Err] when it is neither, and the length of the pending list
    when the node does not know the call. *)
Inductive TxpoolStatus := StatusArray (l : list (option Z)) | StatusObject (ready future : option Z) | StatusOther.

Definition fetch_txpool_pending_total (status : option TxpoolStatus) (pending : Z) : result unit Z :=
  match status with
  | Some (StatusArray (a :: b :: _)) => Ok (sat_add_u64 (default 0 a) (default 0 b))
  | Some (StatusObject ready future) => Ok (sat_add_u64 (default 0 ready) (default 0 future))
  | Some _ => Err tt
  | None => Ok pending
  end.

(** ** Facts: latencies *)

Lemma sorted_lookup_le (l : list Z) i j x y :
  Sorted Z.le l -> (i <= j)%nat -> l !! i = Some x -> l !! j = Some y -> x <= y.
Proof.
  intros Hs%(Sorted_StronglySorted _) Hij Hi Hj. destruct (decide (i = j)) as [->|]; [simplify_eq; lia|].
  revert i j Hij Hi Hj n. induction Hs as [|z l Hs IH Hz]; intros i j Hij Hi Hj Hne; [done|].
  destruct j as [|j]; [lia|]. destruct i as [|i]; cbn in *.
  - simplify_eq. rewrite Forall_forall in Hz. apply Hz. by eapply list_elem_of_lookup_2.
  - apply (IH i j); [lia|done|done|lia].
Qed.

(** Latency figures exist exactly when something was measured, no index is out of range,
    and they are in order. *)
Lemma latency_stats_ordered durations :
  durations <> [] -> len durations <= u32_max ->
  exists s, compute_latency_stats durations = Some (Some s) /\
    lat_min s <= p50 s /\ p50 s <= p90 s /\ p90 s <= p99 s /\ p99 s <= lat_max s /\
    p50 s ∈ durations /\ lat_min s ∈ durations /\ lat_max s ∈ durations /\
    (forall d, d ∈ durations -> lat_min s <= d <= lat_max s).
Proof.
  intros Hne Hlen. unfold compute_latency_stats. destruct durations as [|d0 ds]; [done|]. set (ds' := d0 :: ds) in *.
  pose proof (merge_sort_Permutation Z.le ds') as Hp. pose proof (Sorted_merge_sort Z.le ds') as Hs.
  set (sorted := merge_sort Z.le ds') in *.
  assert (len sorted = len ds') as Hl by (unfold len; by rewrite Hp). rewrite Hl.
  assert (1 <= len ds') as Hpos by (unfold len, ds'; cbn; lia). set (n := len ds') in *.
  assert (forall i, 0 <= i < n -> exists x, sorted !! Z.to_nat i = Some x /\ x ∈ ds') as Hget.
  { intros i Hi. destruct (lookup_lt_is_Some_2 sorted (Z.to_nat i)) as [x Hx]; [unfold len in *; lia|].
    exists x. split; [done|]. rewrite <-Hp. by eapply list_elem_of_lookup_2. }
  pose proof (Z.div_mod (n * 50) 100 ltac:(lia)). pose proof (Z.mod_pos_bound (n * 50) 100 ltac:(lia)).
  pose proof (Z.div_mod (n * 90) 100 ltac:(lia)). pose proof (Z.mod_pos_bound (n * 90) 100 ltac:(lia)).
  pose proof (Z.div_mod (n * 99) 100 ltac:(lia)). pose proof (Z.mod_pos_bound (n * 99) 100 ltac:(lia)).
  destruct (Hget (n * 50 / 100)) as (a & Ha & Ea); [lia|]. destruct (Hget (Z.min (n * 90 / 100) (n - 1))) as (b & Hb & Eb); [lia|].
  destruct (Hget (Z.min (n * 99 / 100) (n - 1))) as (c & Hc & Ec); [lia|].
  destruct (Hget 0) as (lo & Hlo & Elo); [lia|]. destruct (Hget (n - 1)) as (hi & Hhi & Ehi); [lia|].
  cbv zeta. rewrite Ha, Hb, Hc, Hlo, Hhi. cbn [mbind option_bind].
  assert (as_u32 n = n) as Hn by (unfold as_u32, u32_max in *; apply Z.mod_small; lia). rewrite Hn, (proj2 (Z.eqb_neq n 0)) by lia.
  eexists. split; [done|]. cbn [lat_min p50 p90 p99 lat_max]. split_and!; try done.
  - apply (sorted_lookup_le sorted (Z.to_nat 0) (Z.to_nat (n * 50 / 100))); [done|lia|done|done].
  - apply (sorted_lookup_le sorted (Z.to_nat (n * 50 / 100)) (Z.to_nat (Z.min (n * 90 / 100) (n - 1)))); [done|lia|done|done].
  - apply (sorted_lookup_le sorted (Z.to_nat (Z.min (n * 90 / 100) (n - 1))) (Z.to_nat (Z.min (n * 99 / 100) (n - 1)))); [done|lia|done|done].
  - apply (sorted_lookup_le sorted (Z.to_nat (Z.min (n * 99 / 100) (n - 1))) (Z.to_nat (n - 1))); [done|lia|done|done].
  - intros d Hd. rewrite <-Hp in Hd. apply list_elem_of_lookup in Hd as [k Hk]. pose proof (lookup_lt_Some _ _ _ Hk).
    split; [apply (sorted_lookup_le sorted 0 k); [done|lia|done|done]|
      apply (sorted_lookup_le sorted k (Z.to_nat (n - 1))); [done|unfold len in *; lia|done|done]].
Qed.

(** ** Facts: the sweep *)

(** Every step of a sweep has a payload size of the table, so one the chain admits. *)
Lemma sweep_steps_sizes mix tokens steps :
  sweep_steps mix tokens = Ok steps ->
  Forall (fun s => match s with FixedStep size label => (size, label) ∈ ALL_PAYLOAD_SIZES | MixedStep m => mix = Some m end) steps.
Proof.
  revert steps. induction tokens as [|t tokens IH]; intros steps; cbn [sweep_steps]; [by intros [= <-]|].
  unfold sweep_step. destruct (bool_decide _).
  - destruct mix as [m|]; [|done]. destruct (sweep_steps _ _) as [l|]; [|done]. intros [= <-]. constructor; [done|by apply IH].
  - destruct (List.find _ _) as [[size label]|] eqn:E; [|done]. destruct (sweep_steps _ _) as [l|]; [|done].
    intros [= <-]. constructor; [|by apply IH]. apply List.find_some in E as [E _]. by apply list_elem_of_In.
Qed.

(** A step's accounts fill the target blocks and a half more. *)
Lemma accounts_fill_target limits mean target iter step sz :
  step_size limits mean target iter step = Some sz -> 0 <= target -> 0 <= st_block_cap sz ->
  3 * (target + 5) * st_block_cap sz / 2 <= u32_max ->
  target * st_block_cap sz <= st_accounts_needed sz /\
  st_accounts_needed sz <= st_iterations sz * st_accounts_per_iter sz.
Proof.
  unfold step_size. destruct (match step with FixedStep _ _ => _ | _ => _ end) as [[[label report] size] mode].
  destruct (est_block_cap limits size) as [cap|]; [|done]. cbn [mbind option_bind].
  destruct (add32 target 2) as [blocks|] eqn:E1; [|done]. cbn [mbind option_bind].
  destruct (mul64 blocks cap) as [slots|] eqn:E2; [|done]. cbn [mbind option_bind].
  destruct (mul64 cap 3) as [buffer|] eqn:E3; [|done]. cbn [mbind option_bind].
  destruct (add64 slots buffer) as [s|] eqn:E4; [|done]. cbn [mbind option_bind].
  destruct (mul64 s 3) as [s3|] eqn:E5; [|done]. cbn [mbind option_bind]. cbv zeta.
  destruct (_ =? 0) eqn:E6; [done|]. b2p. intros [= <-]. cbn [st_block_cap st_accounts_needed st_iterations st_accounts_per_iter].
  unfold add32, mul64, add64 in *. repeat (destruct (_ <=? _); [|done]). simplify_eq.
  intros Ht Hcap Hmax. replace (((target + 2) * cap + cap * 3) * 3) with (3 * (target + 5) * cap) by ring.
  set (k := 3 * (target + 5) * cap / 2) in *. 
  assert (target * cap <= k) as Hk by (unfold k; apply Z.div_le_lower_bound; nia).
  assert (as_u32 (Z.max k 1) = Z.max k 1) as Hu by (unfold as_u32, u32_max in *; apply Z.mod_small; lia).
  rewrite Hu. split; [lia|]. set (per := block_capacity_accounts_per_iteration _ _) in *.
  assert (0 < per) as Hper.
  { assert (0 <= per) by apply Z.mod_pos_bound, eq_refl. lia. }
  unfold div_ceil. pose proof (Z.div_mod (Z.max k 1 + per - 1) per ltac:(lia)).
  pose proof (Z.mod_pos_bound (Z.max k 1 + per - 1) per Hper). nia.
Qed.

(** ** Facts: the sequential scenario *)

Lemma merge_block_sums (f : BlockStats -> Z) m b :
  (forall n t p pre ts h fin rec i n' t' p' pre' ts' h' fin' rec' i',
     f (mkStats n t p pre ts h fin rec i) + f (mkStats n' t' p' pre' ts' h' fin' rec' i') =
     f (mkStats n (t + t') (p + p') pre ts h fin rec i)) ->
  (forall n pre ts h fin rec i, f (mkStats n 0 0 pre ts h fin rec i) = 0) ->
  map_sum (f <$> merge_block m b) = map_sum (f <$> m) + f b.
Proof.
  intros Hadd H0. unfold merge_block. rewrite fmap_insert, map_sum_replace, lookup_fmap.
  destruct (m !! bs_number b) as [e|]; cbn [default fmap option_fmap option_map from_option].
  - destruct e as [n t p pre ts h fin rec i], b as [n' t' p' pre' ts' h' fin' rec' i']. cbn.
    rewrite <-(Hadd n t p pre ts h fin rec i n' t' p' pre' ts' h' fin' rec' i'). lia.
  - destruct b as [n t p pre ts h fin rec i]. cbn.
    rewrite <-(Hadd n 0 0 false ts h fin rec i n t p pre ts h fin rec i), H0. lia.
Qed.

Lemma merge_foldl_sums (f : BlockStats -> Z) l m :
  (forall m b, map_sum (f <$> merge_block m b) = map_sum (f <$> m) + f b) ->
  map_sum (f <$> foldl merge_block m l) = map_sum (f <$> m) + foldr (fun b z => f b + z) 0 l.
Proof.
  intros Hb. revert m. induction l as [|b l IH]; intros m; cbn [foldl foldr]; [lia|]. rewrite IH, Hb. lia.
Qed.

Lemma map_values_perm m : map_values m ≡ₚ map snd (map_to_list m).
Proof.
  unfold map_values. rewrite merge_sort_Permutation.
  assert (forall l, (forall p, p ∈ l -> m !! p.1 = Some p.2) -> omap (fun n => m !! n) (map fst l) = map snd l) as Hl.
  { induction l as [|p l IH]; intros Hm; [done|]. cbn. rewrite (Hm p) by left. f_equal. apply IH. intros q Hq. apply Hm. by right. }
  rewrite Hl; [done|]. intros [k v]. by rewrite elem_of_map_to_list.
Qed.

Lemma map_values_sum (f : BlockStats -> Z) m : foldr (fun b z => f b + z) 0 (map_values m) = map_sum (f <$> m).
Proof.
  assert (forall l k : list BlockStats, l ≡ₚ k -> foldr (fun b z => f b + z) 0 l = foldr (fun b z => f b + z) 0 k) as Hp.
  { intros l k. induction 1; cbn; lia. }
  rewrite (Hp _ _ (map_values_perm m)). unfold map_sum. rewrite map_fold_fmap, map_fold_foldr.
  induction (map_to_list m) as [|[k v] l IH]; [done|]. cbn in *. lia.
Qed.

(** Merging the instances loses no store and no byte. *)
Lemma merge_blocks_sums runs :
  tx_sum (merge_blocks runs) = tx_sum (concat runs) /\ bytes_sum (merge_blocks runs) = bytes_sum (concat runs).
Proof.
  unfold merge_blocks, tx_sum, bytes_sum. split; rewrite map_values_sum, merge_foldl_sums.
  - by rewrite fmap_empty.
  - intros m b. apply merge_block_sums; intros; cbn; lia.
  - by rewrite fmap_empty.
  - intros m b. apply merge_block_sums; intros; cbn; lia.
Qed.

(** What an account is authorized for covers what it uploads, for chunks up to 100 MiB. *)
Lemma sequential_size_covers total chunk instances s :
  sequential_size total chunk instances = Some s -> 0 <= total -> 0 < chunk <= 100 * 1024 * 1024 -> ss_txs s <= u32_max ->
  ss_txs s < ss_auth_txs s /\ ss_txs s * chunk <= ss_auth_bytes s /\
  total / ss_instances s <= ss_txs s * chunk.
Proof.
  unfold sequential_size. cbv zeta. intros Hs Ht Hc Hu. rewrite (proj2 (Z.eqb_neq chunk 0)) in Hs by lia.
  set (inst := Z.max instances 1) in *. set (bytes := total / inst) in *.
  assert (0 <= bytes) as Hb by (apply Z.div_pos; lia). unfold add32, add64 in Hs.
  cbv zeta in Hs. cbn [mbind option_bind] in Hs. repeat (case_match; simplify_eq/=).
  cbn [ss_txs ss_auth_txs ss_auth_bytes ss_instances] in *. fold bytes. unfold div_ceil in *.
  pose proof (Z.div_mod (bytes + chunk - 1) chunk ltac:(lia)) as Hd. pose proof (Z.mod_pos_bound (bytes + chunk - 1) chunk ltac:(lia)).
  assert (0 <= (bytes + chunk - 1) / chunk) by (apply Z.div_pos; lia).
  unfold as_u32, u32_max in *. rewrite Z.mod_small by lia. split_and!; [lia|nia|nia].
Qed.

(** ** Facts: the renewal scenario *)

(** The grant pays for every store and for as many full waves of renewals as are asked
    for, and five more. *)
Lemma renew_stress_size_covers max_txs num chunk target s :
  renew_stress_size max_txs num chunk target = Some s -> 0 <= max_txs -> rn_stores s <= u32_max ->
  rn_auth_txs s = rn_stores s + max_txs * (target + 5) /\ rn_auth_bytes s = rn_auth_txs s * chunk.
Proof.
  unfold renew_stress_size. cbv zeta. intros Hs Hm Hu. unfold add32, mul64, add64 in Hs.
  cbn [mbind option_bind] in Hs. repeat (case_match; simplify_eq/=). b2p.
  cbn [rn_stores rn_auth_txs rn_auth_bytes] in *. unfold as_u32, u32_max in *.
  rewrite Z.mod_small by lia. split; [done|]. ring.
Qed.

(** The renewals of a wave have consecutive nonces from the one the node last gave. *)
Lemma renew_wave_nonces n next s : 
  map snd (renew_wave n next s).2 = seqZ (default (rw_best_nonce s) next) n.
Proof.
  unfold renew_wave. cbn. rewrite map_map. cbn. change (Z.add (default (rw_best_nonce s) next) <$> seqZ 0 n = seqZ (default (rw_best_nonce s) next) n).
  rewrite fmap_add_seqZ. f_equal. lia.
Qed.

(** What is reported as renewed never exceeds the nonces the account has used, when the
    node's answers never go back. *)
Fixpoint nonces_advance (from : Z) (passes : list (option Z * option (option Z))) : Prop :=
  match passes with
  | [] => True
  | (a, b) :: passes' =>
      let n := default from a in let n' := default n (default None b) in
      from <= n /\ n <= n' /\ nonces_advance n' passes'
  end.

Lemma renew_total_bounded target n passes s :
  nonces_advance (rw_best_nonce s) passes ->
  let s' := renew_loop target n passes s in
  rw_total_renewed s' - rw_total_renewed s <= rw_best_nonce s' - rw_best_nonce s /\
  rw_confirmed_blocks s' - rw_confirmed_blocks s <= rw_total_renewed s' - rw_total_renewed s.
Proof.
  revert s. induction passes as [|[a b] passes IH]; intros s Ha; cbv zeta; [cbn [renew_loop]; lia|]. cbn [renew_loop nonces_advance] in *.
  destruct (target <=? _); [lia|]. destruct Ha as (H1 & H2 & H3).
  unfold renew_pass, renew_wave. cbn [fst]. set (n0 := from_option id (rw_best_nonce s) a) in *.
  destruct b as [[m|]|]; cbn [from_option id] in *.
  - destruct (0 <? sat_sub m _) eqn:E; b2p.
    + specialize (IH (mkRenewState m (rw_confirmed_blocks s + 1) (rw_total_renewed s + sat_sub m n0)) H3).
      cbv zeta in IH. cbn [rw_best_nonce rw_total_renewed rw_confirmed_blocks] in *. unfold sat_sub in *. lia.
    + specialize (IH (mkRenewState m (rw_confirmed_blocks s) (rw_total_renewed s)) H3).
      cbv zeta in IH. cbn [rw_best_nonce rw_total_renewed rw_confirmed_blocks] in *. lia.
  - specialize (IH (mkRenewState n0 (rw_confirmed_blocks s) (rw_total_renewed s)) H3).
    cbv zeta in IH. cbn [rw_best_nonce rw_total_renewed rw_confirmed_blocks] in *. lia.
  - specialize (IH (mkRenewState n0 (rw_confirmed_blocks s) (rw_total_renewed s)) H3).
    cbv zeta in IH. cbn [rw_best_nonce rw_total_renewed rw_confirmed_blocks] in *. lia.
Qed.

(** ** Facts: what is reported *)

Lemma steady_sublist measured : steady_blocks measured `sublist_of` measured.
Proof.
  unfold steady_blocks. destruct (first_with_txs measured), (last_with_txs measured); try done. destruct (_ <? _)%nat; [|done].
  etrans; [apply sublist_take|apply sublist_drop].
Qed.

(** The steady blocks hold no more than what counts as confirmed. *)
Lemma tx_sum_sublist l k : Forall (fun b => 0 <= bs_tx_count b) k -> l `sublist_of` k -> tx_sum l <= tx_sum k.
Proof.
  intros Hk Hs. induction Hs as [|b l k Hs IH|b l k Hs IH]; [done|..]; apply Forall_cons in Hk as [Hb Hk];
    unfold tx_sum in *; cbn [foldr]; specialize (IH Hk); lia.
Qed.

Lemma steady_confirmed all_blocks :
  Forall (fun b => 0 <= bs_tx_count b) all_blocks ->
  tx_sum (sb_steady (summarize_bulk all_blocks)) <= sb_confirmed (summarize_bulk all_blocks) <= tx_sum all_blocks.
Proof.
  intros Hb. unfold summarize_bulk. cbn [sb_steady sb_confirmed].
  assert (forall (f : BlockStats -> bool) l, List.filter f l `sublist_of` l) as Hf.
  { intros f. induction l as [|b l IH]; [done|]. cbn. destruct (f b); by constructor. }
  split; apply tx_sum_sublist; try done; [|apply steady_sublist].
  apply Forall_forall. intros b Hin. rewrite Forall_forall in Hb. apply Hb.
  eapply sublist_subseteq; [apply Hf|done].
Qed.

(** A block that holds [n] stores and was received at [t]. *)
Definition plain_block (number n t : Z) : BlockStats := mkStats number n (n * 1024) false None None true (Some t) None.

(** Throughput is reported over the steady blocks' time, but counts the transactions of
    the ramp-up and ramp-down blocks as well: two steady blocks of one store each, one
    second apart, are reported as 202 stores in two seconds. *)
Example ramp_counts_as_throughput :
  let s := summarize_bulk [plain_block 1 100 0; plain_block 2 1 1000; plain_block 3 1 2000; plain_block 4 100 3000] in
  tx_sum (sb_steady s) = 2 /\ sb_bytes s = 2048 /\ bulk_tps_ratio s = Some (202, (2000, 1)).
Proof. by vm_compute. Qed.

(** The drain ends at the second of two empty blocks in a row, whatever came before. *)
Lemma drain_two_empty c before after :
  0 <= c -> drain_loop c (before ++ DrainBlock 0 :: DrainBlock 0 :: after) = true.
Proof.
  revert c. induction before as [|[|n|] before IH]; intros c Hc; cbn [app drain_loop]; [|done| |by apply IH].
  - rewrite Z.eqb_refl. destruct (2 <=? c + 1) eqn:E; [done|]. by rewrite (proj2 (Z.leb_le 2 (c + 1 + 1))) by lia.
  - destruct (n =? 0); [|by apply IH]. destruct (2 <=? c + 1); [done|]. apply IH. lia.
Qed.

(** A block between two empty ones starts the count again. *)
Example drain_needs_two_in_a_row : drain_loop 0 [DrainBlock 0; DrainBlock 3; DrainBlock 0; DrainNothing] = false.
Proof. done. Qed.

(** ** Facts: what the tool learns *)

(** The regression recovers weights that grow linearly with the size. *)
Lemma regression_exact base per_byte overhead :
  0 <= base -> 0 <= per_byte -> 0 <= overhead -> per_byte * size_small <= u64_max ->
  store_weight_regression (size_small + overhead) (base + per_byte * size_small) (base + per_byte * size_large)
    = Some (base, per_byte, overhead).
Proof.
  intros Hb Hp Ho Hm. unfold store_weight_regression. cbv zeta.
  replace (sat_sub (base + per_byte * size_large) (base + per_byte * size_small) / sat_sub size_large size_small) with per_byte.
  - unfold mul64. rewrite (proj2 (Z.leb_le _ _)) by done. cbn [mbind option_bind]. unfold sat_sub, size_small in *. do 3 f_equal; lia.
  - unfold sat_sub, size_small, size_large in *. rewrite !Z.max_r by lia.
    replace (base + per_byte * (10 * 1024) - (base + per_byte * 1024)) with (per_byte * (10 * 1024 - 1024)) by lia.
    by rewrite Z.div_mul.
Qed.

(** Measuring gives the nonce back, and touches no other account. *)
Lemma measuring_keeps_nonces nonces a b :
  0 <= default 0 (nonces !! a) -> default 0 (measuring_nonces nonces a !! b) = default 0 (nonces !! b).
Proof.
  assert (forall m, 0 <= default 0 (m !! a) -> forall c, default 0 (rollback (next_nonce m a).2 a !! c) = default 0 (m !! c)) as Hone.
  { intros m Hm c. unfold rollback, next_nonce, NonceTracker in *. cbn [snd].
    rewrite lookup_insert_eq. cbn beta iota. destruct (decide (c = a)) as [->|Hc]; [rewrite lookup_insert_eq; cbn; unfold sat_sub; lia|].
    by rewrite !lookup_insert_ne. }
  intros Hn. unfold measuring_nonces. rewrite Hone; [by apply Hone|]. by rewrite Hone.
Qed.

(** The authorizer's seed does not survive redaction, in either form of the argument. *)
Lemma redact_hides_separate before seed after :
  Forall (fun a => a <> "--authorizer-seed"%string) before ->
  redact_args false (before ++ "--authorizer-seed"%string :: seed :: after) =
    redact_args false before ++ "--authorizer-seed"%string :: "<redacted>"%string :: redact_args false after.
Proof.
  induction 1 as [|a before Ha Hb IH]; [done|]. cbn [app redact_args]. rewrite bool_decide_eq_false_2 by done.
  destruct (String.prefix _ a); by rewrite IH.
Qed.

Lemma redact_hides_joined before seed after :
  Forall (fun a => a <> "--authorizer-seed"%string) before ->
  redact_args false (before ++ ("--authorizer-seed=" +:+ seed)%string :: after) =
    redact_args false before ++ "--authorizer-seed=<redacted>"%string :: redact_args false after.
Proof.
  induction 1 as [|a before Ha Hb IH].
  - cbn [app redact_args]. rewrite bool_decide_eq_false_2 by done. by destruct seed.
  - cbn [app redact_args]. rewrite bool_decide_eq_false_2 by done. destruct (String.prefix _ a); by rewrite IH.
Qed.

(** ** Facts: stored items *)

(** "Compact<u32>": one byte up to 63, two bytes up to 16383. *)
Class CompactModes `{ScaleHost} : Prop := {
  compact_one n : 0 <= n < 64 -> enc compact_codec n = le_bytes 1 (n * 4);
  compact_two n : 64 <= n < 16384 -> enc compact_codec n = le_bytes 2 (n * 4 + 1) }.

Section StoredItems.
Context `{CompactModes}.

Lemma prefix_count_compact n rest : 0 <= n < 16384 -> prefix_count (enc compact_codec n ++ rest) = n.
Proof.
  intros Hn. destruct (decide (n < 64)) as [Hs|Hs].
  - rewrite compact_one by lia. cbn [le_bytes app prefix_count]. rewrite byte_of_Z_to_Z, Z.mod_small by lia.
    replace (Z.land (n * 4) 3) with 0; [|change 3 with (Z.ones 2); rewrite Z.land_ones by lia; change (2 ^ 2) with 4; by rewrite Z.mod_mul].
    rewrite Z.eqb_refl, Z.shiftr_div_pow2 by lia. change (2 ^ 2) with 4. by rewrite Z.div_mul.
  - rewrite compact_two by lia. set (v := n * 4 + 1). assert (le_value (le_bytes 2 v) = v) as Hv.
    { rewrite le_value_bytes. apply Z.mod_small. unfold v. cbn. lia. }
    cbn [le_bytes app prefix_count] in *. rewrite byte_of_Z_to_Z.
    assert (Z.land (v mod 256) 3 = 1) as ->.
    { change 3 with (Z.ones 2). rewrite Z.land_ones by lia. change (2 ^ 2) with 4.
      change 256 with (4 * 64). rewrite Z.rem_mul_r by lia. rewrite Z.mul_comm, Z.mod_add, Z.mod_mod by lia.
      unfold v. rewrite Z.add_comm, Z.mod_add by lia. done. }
    cbn [Z.eqb]. change ((1 =? 0)) with false. change (1 =? 1) with true. cbv iota. rewrite Hv.
    rewrite Z.shiftr_div_pow2 by lia. change (2 ^ 2) with 4. unfold v. rewrite Z.add_comm, Z.div_add by lia. done.
Qed.
End StoredItems.
