(* ===== verification/ReadLoad.v ===== *)
(** The stress-test tool's Bitswap read loads: the bulk download
    ([scenarios/bitswap_bulk_read.rs]) and the concurrent read levels
    ([scenarios/bitswap_read.rs]), their workers as interleaved steps.  A step is one
    access of a worker to what the workers share; what a peer answers to a request is
    the choice of a step. *)

From stdpp Require Import pretty.
From S2P Require Import Prelude Scenarios.

(** The bytes of the blocks of an answer. *)
Definition batch_bytes (blocks : list bytes) : Z := total_of len blocks.

(** The read figures of a [ScenarioResult]; a rate is left out. *)
Record ReadFigures := mkReadFigures {
  total_reads : Z;
  successful_reads : Z;
  failed_reads : Z;
  read_bytes : Z;
  retrieval_latency : option LatencyStats;
  data_verified : bool }.

(** ** The bulk download *)

(** The workers that connected: [connect i] is what dialling the [i]-th client's address
    gives, [peer_id] the peer of an address.  An address without a peer is an error, as
    is no client at all; no address to begin with is a division by zero. *)
Inductive ReadError := BadAddress | NoClients | ReadPanic.

Fixpoint connect_workers {Addr Peer} (multiaddrs : list Addr) (peer_id : Addr -> option Peer) (connect : Z -> bool)
    (l : list Z) : result ReadError (list Peer) :=
  match l with
  | [] => Ok []
  | i :: l' =>
      if len multiaddrs =? 0 then Err ReadPanic else
      match multiaddrs !! Z.to_nat (i mod len multiaddrs) ≫= peer_id with
      | None => Err BadAddress
      | Some p => result_map (fun ps => if connect i then p :: ps else ps) (connect_workers multiaddrs peer_id connect l')
      end
  end.

Definition bulk_clients {Addr Peer} (multiaddrs : list Addr) (peer_id : Addr -> option Peer) (connect : Z -> bool)
    (concurrency : Z) : result ReadError (list Peer) :=
  match connect_workers multiaddrs peer_id connect (seqZ 0 concurrency) with
  | Ok [] => Err NoClients
  | r => r
  end.

(** What the workers share; the last two components record what has happened: the
    batches taken, in order, and the blocks each answered one was given. *)
Record BulkRead := mkBulkRead {
  next_idx : Z;
  bulk_abort : bool;
  bytes_downloaded : Z;
  reads_ok : Z;
  reads_failed : Z;
  taken : list (list Z);
  served : list (list bytes) }.

Definition bulk_read_start : BulkRead := mkBulkRead 0 false 0 0 0 [] [].

Inductive BulkPhase :=
| LookAbort
| LookTarget
| LookLeft
| TakeBatch
| Fetching (batch : list Z)
| Counting (batch : list Z) (elapsed : Z) (blocks : Z)
| Leaving
| Panicked.

(** A worker: where it is, its timings and its failures in a row. *)
Record BulkReader := mkBulkReader {
  br_phase : BulkPhase;
  br_timings : list (Z * bool);
  br_failures : Z }.

Definition bulk_reader_start : BulkReader := mkBulkReader LookAbort [] 0.

(** What a step depends on: nothing, or the answer of [fetch_blocks] with the time it
    took. *)
Inductive FetchChoice := NoFetch | Fetched (elapsed : Z) (blocks : list bytes) | FetchFailed (elapsed : Z).

(** The indices of a batch; [None] for a sum out of range or a division by zero. *)
Definition batch_indices (items batch_size start_raw : Z) : option (list Z) :=
  if batch_size <=? 0 then Some []
  else if (items =? 0) || (u64_max <? start_raw + batch_size - 1) then None
  else Some (map (fun i => (start_raw + i) mod items) (seqZ 0 batch_size)).

(** [elapsed.checked_div(blocks.len() as u32).unwrap_or_default()]. *)
Definition per_block (elapsed blocks : Z) : Z := if as_u32 blocks =? 0 then 0 else elapsed / as_u32 blocks.

Definition WORKER_STOPS_AFTER : Z := 10.

Definition times {A} (n : Z) (x : A) : list A := replicate (Z.to_nat n) x.

(** A step of a worker. *)
Definition bulk_reader_step (items batch_size target : Z) (c : FetchChoice) (s : BulkRead) (w : BulkReader)
    : option (BulkRead * BulkReader) :=
  let goto p := mkBulkReader p (br_timings w) (br_failures w) in
  match br_phase w, c with
  | LookAbort, NoFetch => Some (s, goto (if bulk_abort s then Leaving else LookTarget))
  | LookTarget, NoFetch => Some (s, goto (if target <=? bytes_downloaded s then Leaving else LookLeft))
  | LookLeft, NoFetch => Some (s, goto (if target <=? bytes_downloaded s then Leaving else TakeBatch))
  | TakeBatch, NoFetch =>
      let s' batch := mkBulkRead (as_u64 (next_idx s + batch_size)) (bulk_abort s) (bytes_downloaded s) (reads_ok s)
                        (reads_failed s) (taken s ++ batch) (served s) in
      match batch_indices items batch_size (next_idx s) with
      | Some batch => Some (s' [batch], goto (Fetching batch))
      | None => Some (s' [], goto Panicked)
      end
  | Fetching batch, Fetched elapsed blocks =>
      Some (mkBulkRead (next_idx s) (bulk_abort s) (as_u64 (bytes_downloaded s + batch_bytes blocks)) (reads_ok s) (reads_failed s)
              (taken s) (served s ++ [blocks]),
            goto (Counting batch elapsed (len blocks)))
  | Counting batch elapsed blocks, NoFetch =>
      Some (mkBulkRead (next_idx s) (bulk_abort s) (bytes_downloaded s) (as_u64 (reads_ok s + blocks)) (reads_failed s)
              (taken s) (served s),
            mkBulkReader (match batch with [] => Panicked | _ => LookAbort end)
              (br_timings w ++ times blocks (per_block elapsed blocks, true)) 0)
  | Fetching batch, FetchFailed elapsed =>
      let failures := br_failures w + 1 in
      let s' := mkBulkRead (next_idx s) (bulk_abort s) (bytes_downloaded s) (reads_ok s) (as_u64 (reads_failed s + len batch))
                  (taken s) (served s) in
      match batch with
      | [] => Some (s', goto Panicked)
      | _ => Some (s', mkBulkReader (if WORKER_STOPS_AFTER <=? failures then Leaving else LookAbort)
                         (br_timings w ++ times (len batch) (elapsed, false)) failures)
      end
  | _, _ => None
  end.

(** The tasks beside what they share, and one step of any of them. *)
Record BulkReadRun := mkBulkReadRun { rr_shared : BulkRead; rr_workers : list BulkReader }.

Definition bulk_read_init (workers : nat) : BulkReadRun := mkBulkReadRun bulk_read_start (replicate workers bulk_reader_start).

Inductive bulk_read_step (items batch_size target : Z) : BulkReadRun -> BulkReadRun -> Prop :=
| bulk_reader_moves i w c st s' w' :
    rr_workers st !! i = Some w ->
    bulk_reader_step items batch_size target c (rr_shared st) w = Some (s', w') ->
    bulk_read_step items batch_size target st (mkBulkReadRun s' (<[i := w']> (rr_workers st))).

Definition reader_left (w : BulkReader) : bool := match br_phase w with Leaving => true | _ => false end.
Definition reader_panicked (w : BulkReader) : bool := match br_phase w with Panicked => true | _ => false end.
Definition reader_ended (w : BulkReader) : bool := reader_left w || reader_panicked w.

Definition ok_timings (l : list (Z * bool)) : list Z := map fst (List.filter snd l).
Definition failed_timings (l : list (Z * bool)) : list Z := map fst (List.filter (fun t => negb t.2) l).

(** The end of [run_bulk_read], every task having ended: a task that panicked is an
    error; the figures are those of the timings. *)
Definition bulk_read_result (st : BulkReadRun) : result ReadError ReadFigures :=
  if existsb reader_panicked (rr_workers st) then Err ReadPanic else
  let timings := concat (map br_timings (rr_workers st)) in
  let successful := len (ok_timings timings) in
  let failed := len (failed_timings timings) in
  match compute_latency_stats (ok_timings timings) with
  | Some latency =>
      Ok (mkReadFigures (successful + failed) successful failed (bytes_downloaded (rr_shared st)) latency true)
  | None => Err ReadPanic
  end.

(** ** A read level *)

(** [bytes] of an item are what was stored; [got] records what each fetch returned. *)
Section Level.
Context {Cid : Type}.

Definition ABORT_AFTER_CONSECUTIVE_FAILURES : Z := 3.

Inductive LevelPhase := NextItem | FetchingItem (cid : Cid) (expected : bytes) | SettingAbort | LevelDone.

Record LevelReader := mkLevelReader {
  lr_phase : LevelPhase;
  lr_left : list (Cid * bytes);
  lr_timings : list (Z * bool * bool);   (* elapsed, ok, verified *)
  my_consecutive_failures : Z;
  got : list (Cid * bytes) }.

(** A client reads every item in order. *)
Definition level_reader_start (items : list (Cid * bytes)) : LevelReader := mkLevelReader NextItem items [] 0 [].

Inductive LevelChoice := NoAnswer | Data (elapsed : Z) (data : bytes) | FetchErred (elapsed : Z).

(** A step of a client: the new abort flag and the client. *)
Definition level_reader_step (c : LevelChoice) (level_abort : bool) (w : LevelReader) : option (bool * LevelReader) :=
  match lr_phase w, c with
  | NextItem, NoAnswer =>
      match lr_left w with
      | [] => Some (level_abort, mkLevelReader LevelDone [] (lr_timings w) (my_consecutive_failures w) (got w))
      | (cid, expected) :: l =>
          Some (level_abort,
                mkLevelReader (if level_abort then LevelDone else FetchingItem cid expected) l (lr_timings w)
                  (my_consecutive_failures w) (got w))
      end
  | FetchingItem cid expected, Data elapsed data =>
      Some (level_abort,
            mkLevelReader NextItem (lr_left w) (lr_timings w ++ [(elapsed, true, bool_decide (data = expected))]) 0
              (got w ++ [(cid, data)]))
  | FetchingItem cid expected, FetchErred elapsed =>
      let failures := my_consecutive_failures w + 1 in
      Some (level_abort,
            mkLevelReader (if ABORT_AFTER_CONSECUTIVE_FAILURES <=? failures then SettingAbort else NextItem) (lr_left w)
              (lr_timings w ++ [(elapsed, false, false)]) failures (got w))
  | SettingAbort, NoAnswer =>
      Some (true, mkLevelReader LevelDone (lr_left w) (lr_timings w) (my_consecutive_failures w) (got w))
  | _, _ => None
  end.

Record LevelRun := mkLevelRun { lv_abort : bool; lv_workers : list LevelReader }.

Definition level_init (items : list (Cid * bytes)) (clients : nat) : LevelRun :=
  mkLevelRun false (replicate clients (level_reader_start items)).

Inductive level_step : LevelRun -> LevelRun -> Prop :=
| level_reader_moves i w c st a' w' :
    lv_workers st !! i = Some w ->
    level_reader_step c (lv_abort st) w = Some (a', w') ->
    level_step st (mkLevelRun a' (<[i := w']> (lv_workers st))).

Definition level_done (w : LevelReader) : bool := match lr_phase w with LevelDone => true | _ => false end.

(** The end of [run_b2_concurrent_read_level]; the bytes read are the reads times the
    payload size, [None] when that overflows or the latencies panic. *)
Definition level_result (payload_size : Z) (st : LevelRun) : option ReadFigures :=
  let timings := concat (map lr_timings (lv_workers st)) in
  let oks := List.filter (fun t => t.1.2) timings in
  let failed := len (List.filter (fun t => negb t.1.2) timings) in
  latency ← compute_latency_stats (map (fun t => t.1.1) oks);
  if u64_max <? len oks * payload_size then None else
  Some (mkReadFigures (len oks + failed) (len oks) failed (len oks * payload_size) latency (forallb snd timings)).
End Level.

(** ** The sweep of levels *)

Definition B2_CONCURRENCY_LEVELS : list Z := [1; 2; 4; 8; 16; 32; 64].

(** [b2_variant]. *)
Definition b2_variant (concurrency : Z) : string := ("bitswap-b2-c" +:+ pretty concurrency)%string.

(** The clients of a level that connected; none is an error. *)
Definition level_clients (connect : Z -> bool) (concurrency : Z) : option nat :=
  match length (List.filter connect (seqZ 0 concurrency)) with O => None | n => Some n end.

(** The figures of a level that failed. *)
Definition failed_level (item_count concurrency : Z) : ReadFigures :=
  mkReadFigures 0 0 (item_count * concurrency) 0 None false.

(** What is authorized for an item of the sweep. *)
Definition b2_authorized_bytes (payload_size : Z) : Z := payload_size + 1024.

(** [run_b2_concurrent_read_sweep] after the upload: an error when nothing was stored,
    and a result per level whatever the levels do. *)
Definition run_b2_concurrent_read_sweep (item_count total_confirmed : Z) (level : Z -> option ReadFigures)
    : option (list ReadFigures) :=
  if total_confirmed =? 0 then None
  else Some (map (fun c => default (failed_level item_count c) (level c)) B2_CONCURRENCY_LEVELS).

(** ** Facts: the bulk download *)

Definition ok_count (w : BulkReader) : Z := len (ok_timings (br_timings w)).
Definition failed_count (w : BulkReader) : Z := len (failed_timings (br_timings w)).
Definition counting (w : BulkReader) : Z := match br_phase w with Counting _ _ n => n | _ => 0 end.
(** A worker that has looked at the target and may still add a batch. *)
Definition in_flight (w : BulkReader) : Z :=
  match br_phase w with LookLeft | TakeBatch | Fetching _ => 1 | _ => 0 end.
Definition phase_batch (w : BulkReader) : list Z :=
  match br_phase w with Fetching b | Counting b _ _ => b | _ => [] end.

Lemma timings_app l k :
  ok_timings (l ++ k) = ok_timings l ++ ok_timings k /\ failed_timings (l ++ k) = failed_timings l ++ failed_timings k.
Proof. unfold ok_timings, failed_timings. by rewrite !List.filter_app, !map_app. Qed.

Lemma timings_times n d b :
  0 <= n -> len (ok_timings (times n (d, b))) = (if b then n else 0) /\ len (failed_timings (times n (d, b))) = (if b then 0 else n).
Proof.
  intros Hn. unfold ok_timings, failed_timings, times. rewrite <-(Z2Nat.id n Hn) at 2 4.
  induction (Z.to_nat n) as [|k [IH1 IH2]]; [by destruct b|]. unfold len in *. cbn [replicate].
  destruct b; cbn [List.filter snd map negb length] in *; lia.
Qed.

Lemma ok_appended l n d b : 0 <= n -> len (ok_timings (l ++ times n (d, b))) = len (ok_timings l) + (if b then n else 0).
Proof. intros Hn. by rewrite (proj1 (timings_app _ _)), len_app, (proj1 (timings_times _ _ _ Hn)). Qed.

Lemma failed_appended l n d b : 0 <= n -> len (failed_timings (l ++ times n (d, b))) = len (failed_timings l) + (if b then 0 else n).
Proof. intros Hn. by rewrite (proj2 (timings_app _ _)), len_app, (proj2 (timings_times _ _ _ Hn)). Qed.

Lemma length_batch items batch_size start b : batch_indices items batch_size start = Some b -> len b = Z.max 0 batch_size.
Proof.
  unfold batch_indices, len. destruct (batch_size <=? 0) eqn:E; b2p; [intros [= <-]; cbn [length]; lia|].
  case_match; [done|]. intros [= <-]. rewrite length_map, length_seqZ. lia.
Qed.

Lemma batch_bytes_nonneg blocks : 0 <= batch_bytes blocks.
Proof. apply total_of_nonneg. intros. apply len_nonneg. Qed.

(** What was downloaded, before any wrap-around. *)
Definition total_served (s : BulkRead) : Z := total_of batch_bytes (served s).

(** The cases of a step, the worker's record and the shared one opened. *)
Ltac reader_cases Hw :=
  match type of Hw with
  | bulk_reader_step _ _ _ ?c ?s ?w = Some _ =>
      destruct w as [ph ti fa]; destruct ph, c; cbn in Hw; try done;
      repeat match type of Hw with context [match ?x with _ => _ end] => destruct x eqn:? end; simplify_eq
  end.

(** What a worker is at any time, the others aside. *)
Definition phase_ok (batch_size : Z) (p : BulkPhase) : Prop :=
  match p with Fetching b => len b = batch_size | Counting b _ n => len b = batch_size /\ 0 <= n | _ => True end.

Definition reader_ok (batch_size : Z) (w : BulkReader) : Prop :=
  phase_ok batch_size (br_phase w) /\
  0 <= br_failures w /\ br_failures w * batch_size <= failed_count w.

Record ReadInv (batch_size : Z) (st : BulkReadRun) : Prop := {
  ri_abort : bulk_abort (rr_shared st) = false;
  ri_bytes : bytes_downloaded (rr_shared st) = as_u64 (total_served (rr_shared st));
  ri_ok : reads_ok (rr_shared st) = as_u64 (total_of ok_count (rr_workers st));
  ri_failed : reads_failed (rr_shared st) = as_u64 (total_of failed_count (rr_workers st));
  ri_served : total_of len (served (rr_shared st)) = total_of ok_count (rr_workers st) + total_of counting (rr_workers st);
  ri_workers : Forall (reader_ok batch_size) (rr_workers st) }.

Lemma reader_moves_ok items batch_size target c s w s' w' :
  1 <= batch_size -> bulk_reader_step items batch_size target c s w = Some (s', w') -> reader_ok batch_size w -> reader_ok batch_size w'.
Proof.
  intros Hb Hw (Hp & Hf & Ht). unfold reader_ok, failed_count in *.
  pose proof (len_nonneg (failed_timings (br_timings w))) as Hl.
  reader_cases Hw; cbn [br_phase br_timings br_failures phase_ok] in *; try (by split_and!).
  all: try (destruct_and?; rewrite failed_appended by (try apply len_nonneg; lia); split_and!; [done|lia|nia]).
  - split_and!; [|done..]. erewrite length_batch by done. lia.
  - split_and!; [done|apply len_nonneg|done|done].
Qed.

Lemma reader_shared_moves items batch_size target c s w s' w' oks fails :
  1 <= batch_size -> bulk_reader_step items batch_size target c s w = Some (s', w') -> reader_ok batch_size w ->
  bulk_abort s = false -> bytes_downloaded s = as_u64 (total_served s) ->
  reads_ok s = as_u64 oks -> reads_failed s = as_u64 fails ->
  bulk_abort s' = false /\ bytes_downloaded s' = as_u64 (total_served s') /\
  reads_ok s' = as_u64 (oks - ok_count w + ok_count w') /\
  reads_failed s' = as_u64 (fails - failed_count w + failed_count w') /\
  total_of len (served s') - total_of len (served s) = ok_count w' + counting w' - (ok_count w + counting w).
Proof.
  intros Hb Hw (Hp & Hf & Ht) Ha Hs Ho Hx. unfold ok_count, failed_count, total_served, counting in *.
  reader_cases Hw; cbn [br_phase br_timings br_failures phase_ok bulk_abort bytes_downloaded reads_ok reads_failed served] in *;
    destruct_and?; rewrite ?ok_appended, ?failed_appended, ?total_of_snoc by (try apply len_nonneg; lia);
    split_and!; rewrite ?Hs, ?Ho, ?Hx, ?as_u64_add; try done; try lia; f_equal; try lia.
  all: unfold len; cbn [length]; lia.
Qed.

Lemma read_init_inv batch_size n : 0 <= batch_size -> ReadInv batch_size (bulk_read_init n).
Proof.
  intros Hb. constructor; try done; unfold bulk_read_init; cbn [rr_shared rr_workers];
    [by rewrite total_of_replicate, Z.mul_0_r|by rewrite total_of_replicate, Z.mul_0_r|by rewrite !total_of_replicate, !Z.mul_0_r|].
  apply Forall_replicate. split_and!; [done|done|]. cbn [bulk_reader_start br_failures]. rewrite Z.mul_0_l. apply len_nonneg.
Qed.

Lemma read_step_inv items batch_size target st st' :
  1 <= batch_size -> bulk_read_step items batch_size target st st' -> ReadInv batch_size st -> ReadInv batch_size st'.
Proof.
  intros Hb [i w c st0 s' w' Hi Hw] [H1 H2 H3 H4 H5 H6].
  pose proof (Forall_lookup_1 _ _ _ _ H6 Hi) as Hok.
  destruct (reader_shared_moves _ _ _ _ _ _ _ _ _ _ Hb Hw Hok H1 H2 H3 H4) as (? & ? & ? & ? & ?).
  constructor; cbn [rr_shared rr_workers]; rewrite ?(total_of_insert _ _ _ _ _ Hi); try done; [lia|].
  apply Forall_insert; [done|]. by eapply reader_moves_ok.
Qed.

(** In every interleaving of the workers, once all have ended: the figures count each
    block served once and each item of a failed batch once, and the bytes are those of
    the blocks served. *)
Lemma bulk_read_accounts items batch_size target n st f :
  1 <= batch_size -> rtc (bulk_read_step items batch_size target) (bulk_read_init n) st ->
  Forall (fun w => reader_ended w = true) (rr_workers st) -> bulk_read_result st = Ok f ->
  successful_reads f = total_of len (served (rr_shared st)) /\
  failed_reads f = total_of failed_count (rr_workers st) /\
  total_reads f = successful_reads f + failed_reads f /\
  read_bytes f = as_u64 (total_served (rr_shared st)) /\
  reads_ok (rr_shared st) = as_u64 (successful_reads f) /\
  reads_failed (rr_shared st) = as_u64 (failed_reads f).
Proof.
  intros Hb Hr He Hf.
  assert (ReadInv batch_size st) as [_ Hs Ho Hx Hn Hw]
    by (eapply rtc_inv; [|exact Hr|apply read_init_inv; lia]; intros; by eapply read_step_inv).
  assert (total_of counting (rr_workers st) = 0) as Hc.
  { clear -He. induction He as [|w l Hw _ IH]; [done|]. cbn [total_of]. rewrite IH. by destruct w as [[] ? ?]. }
  unfold bulk_read_result in Hf. destruct (existsb _ _); [done|].
  destruct (compute_latency_stats _) as [latency|]; [|done]. injection Hf as <-. cbn [successful_reads failed_reads total_reads read_bytes].
  rewrite (total_of_concat br_timings (fun l => len (ok_timings l))), (total_of_concat br_timings (fun l => len (failed_timings l)))
    by (done || (intros; by rewrite ?(proj1 (timings_app _ _)), ?(proj2 (timings_app _ _)), len_app)).
  change (total_of (fun x => len (ok_timings (br_timings x)))) with (total_of ok_count).
  change (total_of (fun x => len (failed_timings (br_timings x)))) with (total_of failed_count).
  split_and!; done || lia.
Qed.

(** *** When the download stops *)

(** What a worker that left has seen. *)
Definition leave_reason (target : Z) (s : BulkRead) (w : BulkReader) : Prop :=
  reader_left w = true -> WORKER_STOPS_AFTER <= br_failures w \/ target <= total_served s.

(** The bound on what is downloaded, with blocks of [most] bytes a batch at most. *)
Record StopInv (target most : Z) (n : nat) (st : BulkReadRun) : Prop := {
  st_left : Forall (leave_reason target (rr_shared st)) (rr_workers st);
  st_bound : total_served (rr_shared st) + most * total_of in_flight (rr_workers st)
               <= Z.max 0 (target - 1) + most * Z.of_nat n;
  st_length : length (rr_workers st) = n }.

Lemma served_grows items batch_size target c s w s' w' :
  bulk_reader_step items batch_size target c s w = Some (s', w') -> exists l, served s' = served s ++ l.
Proof. intros Hw. reader_cases Hw; cbn [served]; eexists; (symmetry; apply app_nil_r) || done. Qed.

Lemma served_of_step items batch_size target st st' :
  bulk_read_step items batch_size target st st' -> exists l, served (rr_shared st') = served (rr_shared st) ++ l.
Proof. intros [i w c st0 s' w' Hi Hw]. by eapply served_grows. Qed.

Lemma in_flight_le w : in_flight w <= 1.
Proof. by destruct w as [[] ? ?]. Qed.

Lemma read_step_stop items batch_size target most n st st' :
  0 <= most -> Forall (fun b => batch_bytes b <= most) (served (rr_shared st')) -> total_served (rr_shared st') <= u64_max ->
  bulk_abort (rr_shared st) = false -> bytes_downloaded (rr_shared st) = as_u64 (total_served (rr_shared st)) ->
  bulk_read_step items batch_size target st st' -> StopInv target most n st -> StopInv target most n st'.
Proof.
  intros Hm Hl Hu Ha Hs Hst. revert Hl Hu Ha Hs. destruct Hst as [i w c st0 s' w' Hi Hw]. intros Hl Hu Ha Hs [H1 H2 H3]. cbn [rr_shared rr_workers] in *.
  destruct (served_grows _ _ _ _ _ _ _ _ Hw) as [l El].
  assert (0 <= total_served (rr_shared st0) <= total_served s') as Hg.
  { unfold total_served. rewrite El, total_of_app. pose proof (total_of_nonneg batch_bytes l batch_bytes_nonneg).
    pose proof (total_of_nonneg batch_bytes (served (rr_shared st0)) batch_bytes_nonneg). lia. }
  rewrite as_u64_small in Hs by (unfold is_u64; lia).
  pose proof (Forall_lookup_1 _ _ _ _ H1 Hi) as Hr.
  constructor; cbn [rr_shared rr_workers]; [| |by rewrite length_insert].
  - apply Forall_insert.
    + eapply Forall_impl; [exact H1|]. intros x Hx Hy. destruct (Hx Hy); [by left|right; lia].
    + unfold leave_reason in *. reader_cases Hw; cbn in *; try done; intros _; b2p; first [left; lia|right; lia|congruence].
  - assert (total_of in_flight (<[i := w']> (rr_workers st0)) <= Z.of_nat n) as Hn.
    { rewrite <-H3, <-(length_insert (rr_workers st0) i w'). apply total_of_bounded, in_flight_le. }
    rewrite (total_of_insert _ _ _ _ _ Hi) in Hn |- *. unfold total_served in *.
    rewrite El in Hl. apply Forall_app in Hl as [_ Hl].
    reader_cases Hw; cbn [served in_flight br_phase] in *; b2p; rewrite ?total_of_snoc in *; try nia.
    apply app_inv_head in El as <-. pose proof (Forall_inv Hl) as Hx. cbv beta in Hx. lia.
Qed.

(** The facts hold along a run, whose final state bounds the earlier ones. *)
Lemma bulk_read_stops items batch_size target most n st :
  1 <= batch_size -> 0 <= most -> rtc (bulk_read_step items batch_size target) (bulk_read_init n) st ->
  Forall (fun b => batch_bytes b <= most) (served (rr_shared st)) -> total_served (rr_shared st) <= u64_max ->
  total_served (rr_shared st) <= Z.max 0 (target - 1) + most * Z.of_nat n /\
  (Forall (fun w => reader_left w = true) (rr_workers st) ->
   total_served (rr_shared st) < target ->
   Forall (fun w => WORKER_STOPS_AFTER <= br_failures w /\ WORKER_STOPS_AFTER * batch_size <= failed_count w) (rr_workers st)).
Proof.
  intros Hb Hm Hr Hl Hu.
  assert (ReadInv batch_size st /\ StopInv target most n st) as [[_ _ _ _ _ Hw] [H1 H2 _]].
  { revert Hl Hu. apply (rtc_ind_r (R := bulk_read_step items batch_size target) (fun st => Forall (fun b => batch_bytes b <= most) (served (rr_shared st)) ->
      total_served (rr_shared st) <= u64_max -> ReadInv batch_size st /\ StopInv target most n st) (bulk_read_init n)); [| |done].
    - intros _ _. split; [apply read_init_inv; lia|]. constructor; unfold bulk_read_init; cbn [rr_shared rr_workers].
      + by apply Forall_replicate.
      + rewrite total_of_replicate. cbn. lia.
      + apply length_replicate.
    - intros x y _ Hxy IH Hl Hu. destruct (served_of_step _ _ _ _ _ Hxy) as [l El].
      destruct IH as [Hi Hs].
      + rewrite El in Hl. by apply Forall_app in Hl as [Hl _].
      + unfold total_served in *. rewrite El, total_of_app in Hu. pose proof (total_of_nonneg batch_bytes l batch_bytes_nonneg). lia.
      + split; [by eapply read_step_inv|]. eapply read_step_stop; [done..|by destruct Hi|by destruct Hi|done|done]. }
  split.
  - assert (0 <= total_of in_flight (rr_workers st)) by (apply total_of_nonneg; by intros [[] ? ?]). nia.
  - intros Hleft Ht. rewrite Forall_forall in *. intros w Hin. destruct (H1 w Hin (Hleft w Hin)) as [Hf|]; [|lia].
    destruct (Hw w Hin) as (_ & _ & Hx). split; [done|nia].
Qed.

(** *** The order of the requests *)

(** While the counter does not wrap, the batches taken, end to end, run round the items,
    and no worker panics. *)
Record RoundInv (items batch_size : Z) (st : BulkReadRun) : Prop := {
  ro_next : next_idx (rr_shared st) = batch_size * len (taken (rr_shared st));
  ro_taken : concat (taken (rr_shared st)) = map (fun k => k mod items) (seqZ 0 (batch_size * len (taken (rr_shared st))));
  ro_alive : Forall (fun w => reader_panicked w = false) (rr_workers st) }.

Definition in_range (batch_size : Z) (st : BulkReadRun) : Prop :=
  batch_size * (len (taken (rr_shared st)) + 1) <= u64_max.

Lemma batch_in_range items batch_size start :
  0 < items -> 1 <= batch_size -> start + batch_size <= u64_max ->
  batch_indices items batch_size start = Some (map (fun k => k mod items) (seqZ start batch_size)).
Proof.
  intros Hi Hb Hu. unfold batch_indices. rewrite (proj2 (Z.leb_gt _ _)) by lia.
  rewrite (proj2 (Z.eqb_neq _ _)), (proj2 (Z.ltb_ge _ _)) by lia. cbn [orb]. f_equal.
  replace (seqZ start batch_size) with (map (Z.add start) (seqZ 0 batch_size)); [by rewrite map_map|].
  change (map (Z.add start)) with (fmap (M := list) (Z.add start)). rewrite fmap_add_seqZ. f_equal. lia.
Qed.

Lemma in_range_of_step items batch_size target c s w s' w' :
  1 <= batch_size -> bulk_reader_step items batch_size target c s w = Some (s', w') ->
  batch_size * (len (taken s') + 1) <= u64_max -> batch_size * (len (taken s) + 1) <= u64_max.
Proof.
  intros Hb Hw Hu. reader_cases Hw; cbn [taken] in *; rewrite ?len_app in *; unfold len in *; cbn [length] in *; nia.
Qed.

Lemma read_step_round items batch_size target st st' :
  0 < items -> 1 <= batch_size -> ReadInv batch_size st -> bulk_read_step items batch_size target st st' ->
  in_range batch_size st' -> RoundInv items batch_size st -> RoundInv items batch_size st'.
Proof.
  intros Hn Hb Hv Hst. revert Hv. destruct Hst as [i w c st0 s' w' Hi Hw]. intros [_ _ _ _ _ Hok]. unfold in_range. cbn [rr_shared rr_workers].
  pose proof (Forall_lookup_1 _ _ _ _ Hok Hi) as (Hp & _ & _). intros Hu [H1 H2 H3].
  assert (next_idx s' = batch_size * len (taken s') /\
    concat (taken s') = map (fun k => k mod items) (seqZ 0 (batch_size * len (taken s'))) /\ reader_panicked w' = false) as (? & ? & ?).
  { pose proof (in_range_of_step _ _ _ _ _ _ _ _ Hb Hw Hu) as Hs. pose proof (len_nonneg (taken (rr_shared st0))) as Hl.
    assert (br_phase w = TakeBatch \/ br_phase w <> TakeBatch) as [Hph|Hph] by (destruct (br_phase w); (by left) || by right).
    - destruct w as [ph ti fa]. cbn in Hph. subst ph. destruct c; try done. cbn in Hw. rewrite batch_in_range in Hw by lia. simplify_eq. cbn [next_idx taken].
      rewrite concat_app, len_app, H2, H1. change (len [_]) with 1. cbn [concat]. rewrite app_nil_r.
      replace (batch_size * (len (taken (rr_shared st0)) + 1)) with (batch_size * len (taken (rr_shared st0)) + batch_size) by lia.
      rewrite seqZ_app, map_app, Z.add_0_l by lia. split_and!; [apply as_u64_small; unfold is_u64; lia|done|done].
    - reader_cases Hw; cbn [next_idx taken br_phase phase_ok] in *; try done; exfalso; destruct_and?; unfold len in *; cbn [length] in *; lia. }
  constructor; cbn [rr_shared rr_workers]; [done|done|by apply Forall_insert].
Qed.

(** With items to read and room for another batch, the requests run round the items in
    order, so each is asked for as often as any other up to one, and the run does not
    panic. *)
Lemma bulk_read_round_robin items batch_size target n st :
  0 < items -> 1 <= batch_size -> rtc (bulk_read_step items batch_size target) (bulk_read_init n) st -> in_range batch_size st ->
  concat (taken (rr_shared st)) = map (fun k => k mod items) (seqZ 0 (batch_size * len (taken (rr_shared st)))) /\
  (items <= batch_size * len (taken (rr_shared st)) -> forall i, 0 <= i < items -> i ∈ concat (taken (rr_shared st))) /\
  existsb reader_panicked (rr_workers st) = false.
Proof.
  intros Hn Hb Hr Hu.
  assert (RoundInv items batch_size st) as [_ Ht Ha].
  { assert (ReadInv batch_size st /\ (in_range batch_size st -> RoundInv items batch_size st)) as [_ Hs]; [|by apply Hs].
    apply (rtc_inv (bulk_read_step items batch_size target) (fun st => ReadInv batch_size st /\ (in_range batch_size st -> RoundInv items batch_size st)) (bulk_read_init n)); [|done|].
    - intros x y Hxy [Hi Hs]. split; [by eapply read_step_inv|]. intros Hy. eapply read_step_round; [done..|]. apply Hs.
      destruct Hxy as [i w c st0 s' w' Hi' Hw]. by eapply in_range_of_step.
    - split; [apply read_init_inv; lia|]. intros _. constructor; unfold bulk_read_init; cbn [rr_shared rr_workers bulk_read_start next_idx taken].
      + by rewrite Z.mul_0_r.
      + by rewrite Z.mul_0_r.
      + by apply Forall_replicate. }
  split_and!; [done| |].
  - intros Hle i Hi. rewrite Ht. change (i ∈ (fun k => k mod items) <$> seqZ 0 (batch_size * len (taken (rr_shared st)))).
    apply list_elem_of_fmap. exists i. rewrite Z.mod_small by done. split; [done|]. apply elem_of_seqZ. lia.
  - clear -Ha. induction Ha as [|w l Hw _ IH]; [done|]. cbn [existsb]. by rewrite Hw, IH.
Qed.

(** A run as a list of who moves, on what. *)
Fixpoint bulk_read_play (items batch_size target : Z) (moves : list (nat * FetchChoice)) (st : BulkReadRun) : option BulkReadRun :=
  match moves with
  | [] => Some st
  | (i, c) :: moves' =>
      w ← rr_workers st !! i;
      '(s', w') ← bulk_reader_step items batch_size target c (rr_shared st) w;
      bulk_read_play items batch_size target moves' (mkBulkReadRun s' (<[i := w']> (rr_workers st)))
  end.

Lemma bulk_read_play_rtc items batch_size target moves st st' :
  bulk_read_play items batch_size target moves st = Some st' -> rtc (bulk_read_step items batch_size target) st st'.
Proof.
  revert st. induction moves as [|[i c] moves IH]; intros st; cbn [bulk_read_play]; [by intros [= ->]|].
  destruct (rr_workers st !! i) as [w|] eqn:Ew; [|done]. cbn [mbind option_bind].
  destruct (bulk_reader_step _ _ _ c _ w) as [[s' w']|] eqn:E; [|done]. cbn [mbind option_bind]. intros Hp.
  eapply rtc_l; [|by apply IH]. by eapply bulk_reader_moves.
Qed.

(** The tool clamps batches to one at least; with an empty one the first answer panics. *)
Example empty_batch_panics :
  exists st, rtc (bulk_read_step 3 0 100) (bulk_read_init 1) st /\ bulk_read_result st = Err ReadPanic /\
    existsb reader_panicked (rr_workers st) = true.
Proof.
  destruct (bulk_read_play 3 0 100 [(0%nat, NoFetch); (0%nat, NoFetch); (0%nat, NoFetch); (0%nat, NoFetch); (0%nat, FetchFailed 5)]
    (bulk_read_init 1)) as [st|] eqn:E; [|by vm_compute in E].
  exists st. split; [by eapply bulk_read_play_rtc|]. vm_compute in E. by injection E as <-.
Qed.

(** The figures claim verified data whatever came back: here no read succeeded. *)
Definition all_failing : list (nat * FetchChoice) :=
  concat (replicate 10 [(0%nat, NoFetch); (0%nat, NoFetch); (0%nat, NoFetch); (0%nat, NoFetch); (0%nat, FetchFailed 7)]).

Example nothing_read_is_verified :
  exists st f, rtc (bulk_read_step 3 1 100) (bulk_read_init 1) st /\ forallb reader_left (rr_workers st) = true /\
    bulk_read_result st = Ok f /\ successful_reads f = 0 /\ failed_reads f = 10 /\ data_verified f = true.
Proof.
  destruct (bulk_read_play 3 1 100 all_failing (bulk_read_init 1)) as [st|] eqn:E; [|by vm_compute in E].
  exists st, (mkReadFigures 10 0 10 0 None true). split; [by eapply bulk_read_play_rtc|].
  vm_compute in E. injection E as <-. split_and!; by vm_compute.
Qed.

(** ** Facts: a read level *)

Section LevelFacts.
Context {Cid : Type}.
Implicit Types (w : LevelReader (Cid := Cid)) (items : list (Cid * bytes)).

Definition fetching_items w : list (Cid * bytes) :=
  match lr_phase w with FetchingItem cid expected => [(cid, expected)] | _ => [] end.

(** What holds of a client: as long as nobody has set the flag, what it timed, is fetching
    and has left make up the items, and if all it timed is verified then what it got
    does. *)
Record level_ok items (level_abort : bool) w : Prop := {
  lo_count : len (lr_timings w) + len (fetching_items w) + len (lr_left w) <= len items;
  lo_all : level_abort = false ->
           len (lr_timings w) + len (fetching_items w) + len (lr_left w) = len items /\ (lr_phase w = LevelDone -> lr_left w = []);
  lo_got : level_abort = false -> forallb snd (lr_timings w) = true ->
           got w ++ fetching_items w ++ lr_left w = items /\ forallb (fun t => t.1.2) (lr_timings w) = true;
  lo_failed : lr_phase w = SettingAbort -> forallb snd (lr_timings w) = false }.

Record LevelInv items (st : LevelRun (Cid := Cid)) : Prop := {
  li_workers : Forall (level_ok items (lv_abort st)) (lv_workers st);
  li_abort : lv_abort st = true -> Exists (fun w => forallb snd (lr_timings w) = false) (lv_workers st) }.

Lemma level_init_inv items n : LevelInv items (level_init items n).
Proof.
  constructor; [|done]. unfold level_init. cbn. apply Forall_replicate.
  constructor; unfold fetching_items, len; cbn [level_reader_start lr_phase lr_left lr_timings length]; [lia|intros _; split; [lia|done]|done|done].
Qed.

Lemma level_ok_later items a w : level_ok items false w -> level_ok items a w.
Proof. intros [H1 H2 H3 H4]. by constructor; intros; auto. Qed.

Lemma level_moves_ok items c a w a' w' :
  level_reader_step c a w = Some (a', w') -> level_ok items a w -> level_ok items a' w'.
Proof.
  intros Hw [H1 H2 H3 H4]. destruct w as [ph l ti fa g]. unfold fetching_items in *.
  destruct ph, c; cbn in Hw; try done;
    repeat match type of Hw with context [match ?x with _ => _ end] => destruct x eqn:? end; simplify_eq; constructor;
    cbn [lr_phase lr_left lr_timings got fetching_items] in *; rewrite ?forallb_app in *; cbn [forallb fst snd].
  all: unfold len in *; rewrite ?length_app; cbn [length] in *; try done; try lia; try (intros Ha; destruct (H2 Ha); split; [lia|done]).
  intros Ha. rewrite !andb_true_iff, bool_decide_eq_true. intros (Hv & -> & _). destruct (H3 Ha Hv) as [<- ->].
  by rewrite <-!(assoc_L (++)).
Qed.

Lemma level_moves_abort c a w a' w' :
  level_reader_step c a w = Some (a', w') ->
  (forallb snd (lr_timings w) = false -> forallb snd (lr_timings w') = false) /\
  (a' = a \/ (a' = true /\ lr_phase w = SettingAbort /\ lr_timings w' = lr_timings w)).
Proof.
  intros Hw. destruct w as [ph l ti fa g]. destruct ph, c; cbn in Hw; try done;
    repeat match type of Hw with context [match ?x with _ => _ end] => destruct x eqn:? end; simplify_eq; cbn [lr_timings lr_phase];
    rewrite ?forallb_app; (split; [by intros ->|by (left + right)]).
Qed.

Lemma level_step_inv items st st' : level_step st st' -> LevelInv items st -> LevelInv items st'.
Proof.
  intros [i w c st0 a' w' Hi Hw] [H1 H2]. pose proof (Forall_lookup_1 _ _ _ _ H1 Hi) as Hok.
  destruct (level_moves_abort _ _ _ _ _ Hw) as [Hf Ha].
  assert (lv_abort st0 = true -> a' = true) as Hm by (destruct Ha as [->|(-> & _)]; auto).
  constructor; cbn [lv_abort lv_workers].
  - apply Forall_insert; [|by eapply level_moves_ok]. destruct (lv_abort st0); [by rewrite (Hm eq_refl)|].
    eapply Forall_impl; [exact H1|]. intros x. apply level_ok_later.
  - intros ->. apply Exists_exists. destruct Ha as [Ha|(_ & Hp & Ht)].
    + symmetry in Ha. specialize (H2 Ha). apply Exists_exists in H2 as (x & Hx & Hv).
      apply list_elem_of_lookup in Hx as [j Hj]. destruct (decide (i = j)) as [->|Hij].
      * exists w'. split; [|apply Hf; congruence]. apply list_elem_of_lookup. exists j. rewrite list_lookup_insert_eq; [done|]. by eapply lookup_lt_Some.
      * exists x. split; [|done]. apply list_elem_of_lookup. exists j. by rewrite list_lookup_insert_ne.
    + exists w'. rewrite Ht. split; [|by apply (lo_failed _ _ _ Hok)].
      apply list_elem_of_lookup. exists i. rewrite list_lookup_insert_eq; [done|]. by eapply lookup_lt_Some.
Qed.
(** In every interleaving of the clients, once all have ended: no item is timed twice by a
    client; every client timed every item unless somebody set the flag; and if the
    figures say that the data is verified then nobody did, every client got every item,
    in order, as it was stored, and no read failed. *)
Lemma level_is_sound items payload_size n st f :
  rtc level_step (level_init items n) st -> Forall (fun w => level_done w = true) (lv_workers st) ->
  level_result payload_size st = Some f ->
  total_reads f = successful_reads f + failed_reads f /\ total_reads f <= Z.of_nat n * len items /\
  read_bytes f = successful_reads f * payload_size /\
  (lv_abort st = false -> total_reads f = Z.of_nat n * len items) /\
  (data_verified f = true ->
     lv_abort st = false /\ failed_reads f = 0 /\ Forall (fun w => got w = items) (lv_workers st)).
Proof.
  intros Hr Hd Hf.
  assert (LevelInv items st /\ length (lv_workers st) = n) as [[Hw Ha] Hlen].
  { apply (rtc_inv level_step (fun st => LevelInv items st /\ length (lv_workers st) = n) (level_init items n)); [|done|].
    - intros x y Hxy [Hi Hn]. split; [by eapply level_step_inv|]. destruct Hxy. cbn [lv_workers]. by rewrite length_insert.
    - split; [apply level_init_inv|]. apply length_replicate. }
  unfold level_result in Hf. destruct (compute_latency_stats _) as [latency|]; [|done]. cbn [mbind option_bind] in Hf.
  destruct (u64_max <? _); [done|]. injection Hf as <-. cbn [total_reads successful_reads failed_reads read_bytes data_verified].
  set (ts := concat (map lr_timings (lv_workers st))) in *.
  pose proof (filter_both (fun t : Z * bool * bool => t.1.2) ts) as Hs.
  assert (len ts = total_of (fun w => len (lr_timings w)) (lv_workers st)) as Hts by apply len_concat.
  split_and!; [done| |done| |].
  - rewrite Hs, Hts, <-Hlen. clear -Hw. induction Hw as [|w l Hw _ IH]; [cbn; lia|]. cbn [total_of length].
    pose proof (lo_count _ _ _ Hw). unfold len in *. lia.
  - intros Hab. rewrite Hs, Hts, <-Hlen. clear -Hw Hab Hd. induction Hw as [|w l Hw _ IH]; [cbn; lia|].
    apply Forall_cons in Hd as [Hw' Hd]. cbn [total_of length]. rewrite (IH Hd).
    destruct (lo_all _ _ _ Hw Hab) as [Hc Hl]. destruct w as [[] lft ti fa g]; try done. unfold fetching_items in Hc.
    cbn in Hl, Hc. rewrite (Hl eq_refl) in Hc. unfold len in *. cbn [length lr_timings] in *. lia.
  - unfold ts. rewrite forallb_concat. intros Hv.
    assert (lv_abort st = false) as Hab.
    { destruct (lv_abort st); [|done]. specialize (Ha eq_refl). apply Exists_exists in Ha as (w & Hin & Hx).
      rewrite forallb_forall in Hv. rewrite (Hv w) in Hx; [done|]. by apply list_elem_of_In. }
    assert (Forall (fun w => got w = items /\ forallb (fun t => t.1.2) (lr_timings w) = true) (lv_workers st)) as Hall.
    { clear -Hw Hd Hv Hab. induction Hw as [|w l Hw _ IH]; [done|]. apply Forall_cons in Hd as [Hw' Hd].
      cbn [forallb] in Hv. apply andb_true_iff in Hv as [Hv Hvs]. constructor; [|by apply IH].
      destruct (lo_got _ _ _ Hw Hab Hv) as [Hg Ho]. destruct (lo_all _ _ _ Hw Hab) as [_ Hl].
      destruct w as [[] lft ti fa g]; try done. cbn in Hl, Hg, Ho |- *. rewrite (Hl eq_refl), app_nil_r in Hg. by split. }
    split_and!; [done| |].
    + assert (forallb (fun t => t.1.2) ts = true) as Ho.
      { unfold ts. rewrite forallb_concat. clear -Hall. induction Hall as [|w l [_ Hx] _ IH]; [done|]. cbn [forallb]. rewrite Hx. exact IH. }
      fold ts. revert Ho. generalize ts as l. clear. induction l as [|t l IH]; intros Ho; [by vm_compute|].
      cbn [forallb] in Ho. apply andb_true_iff in Ho as [Ht Hl].
      cbn [List.filter]. rewrite Ht. cbn [negb]. exact (IH Hl).
    + eapply Forall_impl; [exact Hall|]. by intros w [? _].
Qed.
End LevelFacts.

(** The sweep reports on every level unless nothing was stored. *)
Lemma sweep_always_reports item_count total_confirmed level :
  run_b2_concurrent_read_sweep item_count total_confirmed level = None <-> total_confirmed = 0.
Proof. unfold run_b2_concurrent_read_sweep. destruct (_ =? _) eqn:E; b2p; split; done || (intros ->; lia). Qed.

(** Clients are spread over the addresses in turn. *)
Lemma clients_spread {Addr Peer} (multiaddrs : list Addr) (peer : Addr -> Peer) l :
  multiaddrs <> [] ->
  exists ps, connect_workers multiaddrs (fun a => Some (peer a)) (fun _ => true) l = Ok ps /\
    Forall2 (fun i p => exists a, multiaddrs !! Z.to_nat (i mod len multiaddrs) = Some a /\ p = peer a) l ps.
Proof.
  intros Hne. assert (0 < len multiaddrs) as Hl by (destruct multiaddrs; [done|unfold len; cbn; lia]).
  induction l as [|i l (ps & IH & Hf)]; [by exists []|]. cbn [connect_workers]. rewrite (proj2 (Z.eqb_neq _ _)) by lia.
  destruct (lookup_lt_is_Some_2 multiaddrs (Z.to_nat (i mod len multiaddrs))) as [a Ea].
  { pose proof (Z.mod_pos_bound i (len multiaddrs) Hl). unfold len in *. lia. }
  rewrite Ea. cbn [mbind option_bind]. rewrite IH. cbn [result_map]. exists (peer a :: ps). split; [done|].
  constructor; [|done]. by exists a.
Qed.
