(* ===== verification/HopLoad.v ===== *)
(** The stress-test tool's HOP scenarios ([scenarios/hop.rs], [hop.rs]) against a pool
    given by what it answers: the streams of submissions, the claims, the pool fill, the
    mixed load as interleaved steps, and the error tests.  Keys and the pseudo-random
    bytes of a payload are parameters. *)

From Stdlib Require Import Ascii.
From stdpp Require Import pretty.
From S2P Require Import Prelude Slice Primitives Types StressPlan Submission.

(** ** Payloads *)

(** The seed of [generate_payload]. *)
Definition payload_seed (salt size index : Z) : Z :=
  Z.lxor (Z.lxor index salt) (as_u64 (size * 11400714819323198485)).

Definition SUBMIT_PAYLOAD_SIZES : list (Z * string) := [
  (1024, "1KB"); (10 * 1024, "10KB"); (100 * 1024, "100KB"); (128 * 1024, "128KB"); (256 * 1024, "256KB");
  (512 * 1024, "512KB"); (1024 * 1024, "1MB"); (2 * 1024 * 1024, "2MB")]%string.

Definition FULL_CYCLE_INDEX_BASE : Z := 100000000.
Definition GROUP_INDEX_BASE : Z := 200000000.
Definition POOL_FILL_INDEX_BASE : Z := 300000000.
Definition MIXED_INDEX_BASE : Z := 400000000.

(** [format_payload_label]. *)
Definition format_payload_label (size : Z) : string :=
  if 1024 * 1024 <=? size then pretty (size / (1024 * 1024)) +:+ "MB"
  else if 1024 <=? size then pretty (size / 1024) +:+ "KB"
  else pretty size +:+ "B".

(** ** RPC errors *)

(** What a call fails with: an error of the node, with its code, or one of the
    transport; the text is what the error prints. *)
Record RpcError := mkRpcError { call_code : option Z; err_text : string }.

(** [error_code]. *)
Definition hop_error_code (err : RpcError) : option Z := call_code err.

(** [hop_claim]'s decoding of the answer: the text without [0x], given what [hex::decode]
    makes of a text. *)
Definition claimed_data (hex_decode : string -> option bytes) (data_hex : string) : option bytes :=
  hex_decode (if String.prefix "0x" data_hex then String.substring 2 (String.length data_hex - 2) data_hex else data_hex).

(** ** Streams of submissions *)

(** The indices of a stream of [run_submit_throughput] and [run_full_cycle]. *)
Definition stream_range (items concurrency stream_idx : Z) : list Z :=
  let items_per_stream := div_ceil items concurrency in
  let range_start := stream_idx * items_per_stream in
  let range_end := Z.min ((stream_idx + 1) * items_per_stream) items in
  seqZ range_start (range_end - range_start).

(** A stored entry, as far as the claims use it. *)
Record SubmittedEntry := mkSubmitted {
  se_hash : bytes;
  se_data : bytes;
  se_recipients : list Z;
  se_collator : Z }.

(** The counters of a submission phase. *)
Record SubmitTotals := mkTotals { t_submitted : Z; t_errors : Z; t_bytes : Z; t_latencies : list Z }.

(** One stream: whether it connects, whether it is cancelled before each index, and what
    each submission answers, a latency or an error. *)
Fixpoint submit_stream (payload_size : Z) (cancelled : Z -> bool) (answer : Z -> option Z) (indices : list Z)
    (t : SubmitTotals) : SubmitTotals :=
  match indices with
  | [] => t
  | i :: indices' =>
      if cancelled i then t else
      submit_stream payload_size cancelled answer indices'
        (match answer i with
         | Some latency => mkTotals (t_submitted t + 1) (t_errors t) (t_bytes t + payload_size) (t_latencies t ++ [latency])
         | None => mkTotals (t_submitted t) (t_errors t + 1) (t_bytes t) (t_latencies t)
         end)
  end.

(** [run_submit_throughput]: the streams that connect, one after the other; sums do not
    depend on how they interleave, the order of latencies does. *)
Definition run_submit_throughput (items concurrency payload_size : Z) (connects : Z -> bool) (cancelled : Z -> bool)
    (answer : Z -> option Z) : SubmitTotals :=
  foldl (fun t stream_idx =>
           if connects stream_idx then submit_stream payload_size cancelled answer (stream_range items concurrency stream_idx) t else t)
    (mkTotals 0 0 0 []) (seqZ 0 concurrency).

(** ** Claims *)

Record ClaimTotals := mkClaims { c_latencies : list Z; c_errors : Z; c_bytes : Z; c_mismatches : Z }.

(** One recipient's claim in the full cycle: the data and the latency, or an error. *)
Definition claim_one (entry : SubmittedEntry) (answer : option (bytes * Z)) (c : ClaimTotals) : ClaimTotals :=
  match answer with
  | Some (data, latency) =>
      mkClaims (c_latencies c ++ [latency]) (c_errors c) (c_bytes c + len data)
        (c_mismatches c + (if bool_decide (data = se_data entry) then 0 else 1))
  | None => mkClaims (c_latencies c) (c_errors c + 1) (c_bytes c) (c_mismatches c)
  end.

(** The claim phase of [run_full_cycle]: [None] when a connection fails, which ends the
    scenario without a result. *)
Fixpoint claim_phase (cancelled : nat -> bool) (connects : Z -> bool) (claim : bytes -> Z -> option (bytes * Z))
    (k : nat) (entries : list SubmittedEntry) (c : ClaimTotals) : option ClaimTotals :=
  match entries with
  | [] => Some c
  | entry :: entries' =>
      if cancelled k then Some c else
      if connects (se_collator entry) then
        claim_phase cancelled connects claim (S k) entries'
          (foldl (fun c kp => claim_one entry (claim (se_hash entry) kp) c) c (se_recipients entry))
      else None
  end.

(** [run_group]: every recipient of an entry claims on a connection of its own; one that
    cannot connect claims nothing and counts as no error. *)
Definition group_claims (connects : bytes -> Z -> bool) (claim : bytes -> Z -> option (bytes * Z)) (entry : SubmittedEntry)
    (c : ClaimTotals) : ClaimTotals :=
  foldl (fun c kp =>
    if connects (se_hash entry) kp then
      match claim (se_hash entry) kp with
      | Some (data, latency) =>
          mkClaims (c_latencies c ++ [latency]) (c_errors c) (c_bytes c + len data)
            (c_mismatches c + (if len data =? len (se_data entry) then 0 else 1))
      | None => mkClaims (c_latencies c) (c_errors c + 1) (c_bytes c) (c_mismatches c)
      end
    else c) c (se_recipients entry).

Fixpoint group_phase (cancelled : nat -> bool) (connects : bytes -> Z -> bool) (claim : bytes -> Z -> option (bytes * Z))
    (k : nat) (entries : list SubmittedEntry) (c : ClaimTotals) : ClaimTotals :=
  match entries with
  | [] => c
  | entry :: entries' => if cancelled k then c else group_phase cancelled connects claim (S k) entries' (group_claims connects claim entry c)
  end.

(** ** Filling the pool *)

Record FillTotals := mkFill { f_submitted : Z; f_errors : Z; f_bytes : Z; f_pool_full : bool }.

Inductive FillEnd := FillRuns (f : FillTotals) | FillStops (f : FillTotals).

(** One submission of [run_pool_fill]: [None] when it is accepted. *)
Definition fill_one (payload_size : Z) (answer : option RpcError) (f : FillTotals) : FillEnd :=
  match answer with
  | None => FillRuns (mkFill (f_submitted f + 1) (f_errors f) (f_bytes f + payload_size) (f_pool_full f))
  | Some e =>
      let has := str_contains (err_text e) in
      if has "1002" || has "Pool full" || (has "1013" || has "quota") then
        FillStops (mkFill (f_submitted f) (f_errors f) (f_bytes f) true)
      else
        let f := mkFill (f_submitted f) (f_errors f + 1) (f_bytes f) (f_pool_full f) in
        if 10 <? f_errors f then FillStops f else FillRuns f
  end.

(** The loop, bounded by the safety cap; the index counts what is left of it. *)
Fixpoint fill_loop (payload_size : Z) (cancelled : nat -> bool) (answer : nat -> option RpcError) (left_ : nat) (i : nat) (f : FillTotals)
    : FillTotals :=
  match left_ with
  | O => f
  | S left_ =>
      if cancelled i then f else
      match fill_one payload_size (answer i) f with
      | FillRuns f => fill_loop payload_size cancelled answer left_ (S i) f
      | FillStops f => f
      end
  end.

Definition SAFETY_CAP : nat := Z.to_nat 100000.

Definition run_pool_fill (payload_size : Z) (cancelled : nat -> bool) (answer : nat -> option RpcError) : FillTotals :=
  fill_loop payload_size cancelled answer SAFETY_CAP 0 (mkFill 0 0 0 false).

(** ** The mixed load *)

Definition writer_count (concurrency : Z) : Z := Z.max 1 (concurrency / 2).
Definition reader_count (concurrency : Z) : Z := Z.max 1 (concurrency - writer_count concurrency).

(** The first payload index of a writer. *)
Definition writer_base (w_idx : Z) : Z := MIXED_INDEX_BASE + w_idx * 1000000.

Inductive WriterPhase := WTop | WSending | WAccepted (entry : SubmittedEntry) | WDone.

Inductive ReaderPhase :=
| RTop
| RPopping
| RHolding (entry : SubmittedEntry)     (* popped, about to connect *)
| RClaiming (entry : SubmittedEntry)    (* connected *)
| REmpty                                (* nothing popped, about to look at [writers_done] *)
| RDone.

(** The shared state of [run_mixed]; the last two components record the entries a reader
    dropped because it could not connect and those whose claim was answered. *)
Record Mixed := mkMixed {
  mx_pending : list SubmittedEntry;
  submit_count : Z;
  submit_errors : Z;
  submit_bytes : Z;
  claim_count : Z;
  claim_errors : Z;
  claim_bytes : Z;
  writers_done : bool;
  cancel : bool;
  dropped : list SubmittedEntry;
  settled_claims : list SubmittedEntry }.

Definition mixed_start : Mixed := mkMixed [] 0 0 0 0 0 0 false false [] [].

(** A writer: the head of its loop, the answer to its submission, and the push. *)
Inductive WriterChoice := WLook (in_time : bool) | WAnswer (r : option SubmittedEntry) | WPush | WGone.

Definition writer_step (payload_size : Z) (c : WriterChoice) (s : Mixed) (w : WriterPhase * Z) : option (Mixed * (WriterPhase * Z)) :=
  match w.1, c with
  | WTop, WLook in_time => if in_time && negb (cancel s) then Some (s, (WSending, w.2 + 1)) else Some (s, (WDone, w.2))
  | WSending, WAnswer (Some e) =>
      Some (mkMixed (mx_pending s) (submit_count s + 1) (submit_errors s) (submit_bytes s + payload_size) (claim_count s)
              (claim_errors s) (claim_bytes s) (writers_done s) (cancel s) (dropped s) (settled_claims s), (WAccepted e, w.2))
  | WSending, WAnswer None =>
      Some (mkMixed (mx_pending s) (submit_count s) (submit_errors s + 1) (submit_bytes s) (claim_count s)
              (claim_errors s) (claim_bytes s) (writers_done s) (cancel s) (dropped s) (settled_claims s), (WTop, w.2))
  | WAccepted e, WPush =>
      Some (mkMixed (mx_pending s ++ [e]) (submit_count s) (submit_errors s) (submit_bytes s) (claim_count s)
              (claim_errors s) (claim_bytes s) (writers_done s) (cancel s) (dropped s) (settled_claims s), (WTop, w.2))
  | WTop, WGone => Some (s, (WDone, w.2))   (* it could not connect *)
  | _, _ => None
  end.

(** A reader: it pops the last entry, connects, claims. *)
Inductive ReaderChoice := RGo | RConnect (ok : bool) | RAnswer (data : option bytes).

Definition reader_step (c : ReaderChoice) (s : Mixed) (r : ReaderPhase) : option (Mixed * ReaderPhase) :=
  match r, c with
  | RTop, RGo => Some (s, if cancel s then RDone else RPopping)
  | RPopping, RGo =>
      match last (mx_pending s) with
      | Some e =>
          Some (mkMixed (removelast (mx_pending s)) (submit_count s) (submit_errors s) (submit_bytes s) (claim_count s)
                  (claim_errors s) (claim_bytes s) (writers_done s) (cancel s) (dropped s) (settled_claims s), RHolding e)
      | None => Some (s, REmpty)
      end
  | REmpty, RGo => Some (s, if writers_done s then RDone else RTop)
  | RHolding e, RConnect true => Some (s, RClaiming e)
  | RHolding e, RConnect false =>
      Some (mkMixed (mx_pending s) (submit_count s) (submit_errors s) (submit_bytes s) (claim_count s)
              (claim_errors s) (claim_bytes s) (writers_done s) (cancel s) (dropped s ++ [e]) (settled_claims s), RTop)
  | RClaiming e, RAnswer (Some data) =>
      Some (mkMixed (mx_pending s) (submit_count s) (submit_errors s) (submit_bytes s) (claim_count s + 1)
              (claim_errors s) (claim_bytes s + len data) (writers_done s) (cancel s) (dropped s) (settled_claims s ++ [e]), RTop)
  | RClaiming e, RAnswer None =>
      Some (mkMixed (mx_pending s) (submit_count s) (submit_errors s) (submit_bytes s) (claim_count s)
              (claim_errors s + 1) (claim_bytes s) (writers_done s) (cancel s) (dropped s) (settled_claims s ++ [e]), RTop)
  | _, _ => None
  end.

Definition set_done (s : Mixed) : Mixed :=
  mkMixed (mx_pending s) (submit_count s) (submit_errors s) (submit_bytes s) (claim_count s) (claim_errors s) (claim_bytes s)
    true (cancel s) (dropped s) (settled_claims s).

Definition set_cancel (s : Mixed) : Mixed :=
  mkMixed (mx_pending s) (submit_count s) (submit_errors s) (submit_bytes s) (claim_count s) (claim_errors s) (claim_bytes s)
    (writers_done s) true (dropped s) (settled_claims s).

Record MixedRun := mkRun { mr_shared : Mixed; mr_writers : list (WriterPhase * Z); mr_readers : list ReaderPhase }.

Definition writer_done (w : WriterPhase * Z) : bool := match w.1 with WDone => true | _ => false end.
Definition reader_done (r : ReaderPhase) : bool := match r with RDone => true | _ => false end.

(** The steps: a writer, a reader, the main task once the writers have ended, the signal
    that cancels the run. *)
Inductive mixed_step (payload_size : Z) : MixedRun -> MixedRun -> Prop :=
| mixed_writer i w c st s' w' :
    mr_writers st !! i = Some w -> writer_step payload_size c (mr_shared st) w = Some (s', w') ->
    mixed_step payload_size st (mkRun s' (<[i := w']> (mr_writers st)) (mr_readers st))
| mixed_reader i r c st s' r' :
    mr_readers st !! i = Some r -> reader_step c (mr_shared st) r = Some (s', r') ->
    mixed_step payload_size st (mkRun s' (mr_writers st) (<[i := r']> (mr_readers st)))
| mixed_writers_done st :
    forallb writer_done (mr_writers st) = true ->
    mixed_step payload_size st (mkRun (set_done (mr_shared st)) (mr_writers st) (mr_readers st))
| mixed_cancel st : mixed_step payload_size st (mkRun (set_cancel (mr_shared st)) (mr_writers st) (mr_readers st)).

Definition mixed_init (concurrency : Z) : MixedRun :=
  mkRun mixed_start (map (fun w => (WTop, writer_base w)) (seqZ 0 (writer_count concurrency)))
    (replicate (Z.to_nat (reader_count concurrency)) RTop).

(** ** Error tests *)

(** What a call gives: success, or a failure with its error. *)
Definition RpcOutcome : Type := option RpcError.

(** [expect_submit_error] and [expect_claim_error]: passed and failed counts. *)
Definition expect_error (code : Z) (outcome : RpcOutcome) (counts : Z * Z) : Z * Z :=
  match outcome with
  | Some e => if bool_decide (hop_error_code e = Some code) then (counts.1 + 1, counts.2) else (counts.1, counts.2 + 1)
  | None => (counts.1, counts.2 + 1)
  end.

(** What the node answers to the calls of [run_error_tests], in its order; a test whose
    preparing submission fails is skipped. *)
Record ErrorAnswers := mkErrorAnswers {
  ea_empty : RpcOutcome;
  ea_no_recipients : RpcOutcome;
  ea_not_found : RpcOutcome;
  ea_prepare_wrong : RpcOutcome;
  ea_wrong_recipient : RpcOutcome;
  ea_prepare_duplicate : RpcOutcome;
  ea_duplicate : RpcOutcome;
  ea_short_hash : RpcOutcome }.

Definition error_counts (a : ErrorAnswers) : Z * Z :=
  let c := expect_error 1005 (ea_empty a) (0, 0) in
  let c := expect_error 1011 (ea_no_recipients a) c in
  let c := expect_error 1004 (ea_not_found a) c in
  let c := match ea_prepare_wrong a with None => expect_error 1010 (ea_wrong_recipient a) c | Some _ => c end in
  let c := match ea_prepare_duplicate a with None => expect_error 1003 (ea_duplicate a) c | Some _ => c end in
  expect_error 1008 (ea_short_hash a) c.

Definition run_error_tests (a : ErrorAnswers) : bool := (error_counts a).2 =? 0.

(** ** The sweep of scenarios *)

Inductive HopRun :=
| RunSubmit (payload_size : Z)
| RunFullCycle (payload_size : Z)
| RunGroup (payload_size : Z)
| RunPoolFill (payload_size : Z)
| RunMixed (payload_size : Z)
| RunErrors (must_pass : bool).

(** The runs of [run_hop_sweep] for a scenario, each with whether it looks at the cancel
    flag first; [None] for an unknown one. *)
Definition hop_runs (scenario : string) (payload_size : option Z) : option (list (HopRun * bool)) :=
  let submits := map (fun p => (RunSubmit p.1, true)) SUBMIT_PAYLOAD_SIZES in
  let named names := existsb (fun n => bool_decide (scenario = n)) names in
  let large := default (100 * 1024) payload_size in
  let small := default (10 * 1024) payload_size in
  if named ["submit-only"; "submit"]%string then Some (match payload_size with Some s => [(RunSubmit s, true)] | None => submits end)
   else if named ["full-cycle"]%string then Some [(RunFullCycle large, false)]
   else if named ["group"]%string then Some [(RunGroup large, false)]
   else if named ["pool-fill"]%string then Some [(RunPoolFill small, false)]
   else if named ["mixed"]%string then Some [(RunMixed small, false)]
   else if named ["errors"; "error-handling"]%string then Some [(RunErrors true, false)]
   else if named ["all"]%string then
     Some (submits ++ [(RunFullCycle large, true); (RunGroup large, true); (RunMixed small, true); (RunErrors false, true)])
   else None.

(** The sweep: the runs in order until one fails, where the error tests of the "all" sweep
    never do.  The flag, once set, stays set: [cancelled_from] is the first run that
    sees it. *)
Fixpoint run_hop_runs (cancelled_from : nat) (ok : HopRun -> bool) (k : nat) (runs : list (HopRun * bool)) : list HopRun * bool :=
  match runs with
  | [] => ([], true)
  | (r, guarded) :: runs' =>
      if guarded && (cancelled_from <=? k)%nat then run_hop_runs cancelled_from ok (S k) runs'
      else if ok r || (match r with RunErrors false => true | _ => false end) then
        let '(l, b) := run_hop_runs cancelled_from ok (S k) runs' in (r :: l, b)
      else ([r], false)
  end.

(** [run_hop_sweep]. *)
Definition run_hop_sweep (cancelled_from : nat) (ok : HopRun -> bool) (scenario : string) (payload_size : option Z)
    : list HopRun * bool :=
  match hop_runs scenario payload_size with
  | Some runs => run_hop_runs cancelled_from ok 0 runs
  | None => ([], false)
  end.

(** ** Facts: streams *)

(** The streams split the items: each index is submitted by one stream, in order. *)
Lemma streams_cover items concurrency :
  0 <= items -> 0 < concurrency -> concat (map (stream_range items concurrency) (seqZ 0 concurrency)) = seqZ 0 items.
Proof.
  intros Hi Hc. set (p := div_ceil items concurrency).
  assert (items <= concurrency * p /\ 0 <= p) as [Hp Hp0].
  { unfold p, div_ceil. pose proof (Z.div_mod (items + concurrency - 1) concurrency ltac:(lia)).
    pose proof (Z.mod_pos_bound (items + concurrency - 1) concurrency ltac:(lia)).
    split; [lia|apply Z.div_pos; lia]. }
  assert (forall n : nat, concat (map (stream_range items concurrency) (seqZ 0 (Z.of_nat n))) = seqZ 0 (Z.min (Z.of_nat n * p) items)) as Hn.
  { induction n as [|n IH]; [by rewrite !seqZ_nil by lia|].
    replace (Z.of_nat (S n)) with (Z.of_nat n + 1) by lia. rewrite seqZ_app by lia.
    rewrite map_app, concat_app, IH. change (seqZ (0 + Z.of_nat n) 1) with [0 + Z.of_nat n]. cbn [map concat]. rewrite app_nil_r.
    unfold stream_range. fold p. destruct (Z.le_gt_cases (Z.of_nat n * p) items) as [Hle|Hgt].
    - set (e := Z.min ((Z.of_nat n + 1) * p) items). rewrite (Z.min_l (Z.of_nat n * p)) by lia.
      assert (Z.of_nat n * p <= e) by (unfold e; nia).
      replace (seqZ 0 e) with (seqZ 0 (Z.of_nat n * p + (e - Z.of_nat n * p))) by (f_equal; lia).
      rewrite seqZ_app by nia. by rewrite !Z.add_0_l.
    - rewrite !Z.min_r by nia. rewrite (seqZ_nil (_ * _)) by nia. by rewrite app_nil_r. }
  specialize (Hn (Z.to_nat concurrency)). rewrite Z2Nat.id in Hn by lia. rewrite Hn. f_equal. lia.
Qed.

(** A throughput run accounts for each index: submitted or an error, when nothing stops it. *)
Lemma submit_stream_counts size cancelled answer l t :
  (forall i, cancelled i = false) ->
  let t' := submit_stream size cancelled answer l t in
  t_submitted t' + t_errors t' = t_submitted t + t_errors t + len l /\
  t_bytes t' - t_bytes t = (t_submitted t' - t_submitted t) * size /\
  len (t_latencies t') - len (t_latencies t) = t_submitted t' - t_submitted t.
Proof.
  intros Hc. revert t. induction l as [|i l IH]; intros t; cbv zeta; cbn [submit_stream].
  - unfold len. cbn. lia.
  - rewrite Hc. specialize (IH (match answer i with
      | Some latency => mkTotals (t_submitted t + 1) (t_errors t) (t_bytes t + size) (t_latencies t ++ [latency])
      | None => mkTotals (t_submitted t) (t_errors t + 1) (t_bytes t) (t_latencies t) end)).
    cbv zeta in IH. destruct (answer i); cbn [t_submitted t_errors t_bytes t_latencies] in *; rewrite ?len_app in IH;
      unfold len in *; cbn [length] in *; lia.
Qed.

Lemma run_submit_counts items concurrency size answer :
  0 <= items -> 0 < concurrency ->
  let t := run_submit_throughput items concurrency size (fun _ => true) (fun _ => false) answer in
  t_submitted t + t_errors t = items /\ t_bytes t = t_submitted t * size /\ len (t_latencies t) = t_submitted t.
Proof.
  intros Hi Hc. unfold run_submit_throughput.
  assert (forall l t, let t' := foldl (fun t i => submit_stream size (fun _ => false) answer (stream_range items concurrency i) t) t l in
    t_submitted t' + t_errors t' = t_submitted t + t_errors t + len (concat (map (stream_range items concurrency) l)) /\
    t_bytes t' - t_bytes t = (t_submitted t' - t_submitted t) * size /\
    len (t_latencies t') - len (t_latencies t) = t_submitted t' - t_submitted t) as Hl.
  { induction l as [|i l IH]; intros t; cbv zeta; cbn [foldl map concat]; [unfold len; cbn; lia|].
    specialize (IH (submit_stream size (fun _ => false) answer (stream_range items concurrency i) t)). cbv zeta in IH.
    destruct (submit_stream_counts size (fun _ => false) answer (stream_range items concurrency i) t) as (H1 & H2 & H3); [done|].
    rewrite len_app. lia. }
  specialize (Hl (seqZ 0 concurrency) (mkTotals 0 0 0 [])). cbv zeta in *. rewrite streams_cover in Hl by done.
  cbn [t_submitted t_errors t_bytes t_latencies] in Hl. unfold len in *. rewrite length_seqZ in Hl. cbn [length] in Hl. lia.
Qed.

(** The index spaces of the scenarios do not meet, for up to a hundred million items and
    a million submissions of each of a hundred writers. *)
Lemma index_spaces_disjoint i j k f w v :
  0 <= i < 100000000 -> 0 <= j < 100000000 -> 0 <= k < 100000000 -> 0 <= f < 100000 ->
  0 <= w -> 0 <= v < 1000000 ->
  NoDup [i; FULL_CYCLE_INDEX_BASE + j; GROUP_INDEX_BASE + k; POOL_FILL_INDEX_BASE + f; writer_base w + v] /\
  forall w' v', 0 <= w' -> 0 <= v' < 1000000 -> writer_base w + v = writer_base w' + v' -> w = w' /\ v = v'.
Proof.
  unfold writer_base, FULL_CYCLE_INDEX_BASE, GROUP_INDEX_BASE, POOL_FILL_INDEX_BASE, MIXED_INDEX_BASE. intros Hi Hj Hk Hf Hw Hv. split; [|lia].
  repeat (constructor; [rewrite ?not_elem_of_cons; repeat split; try lia; apply not_elem_of_nil|]). constructor.
Qed.

(** But the error tests use indices of the submissions' space with sizes of the sweep: a
    sweep of a million items has already stored the payload that the "wrong recipient" test stores. *)
Example error_test_collides :
  999999 ∈ concat (map (stream_range 1000000 4) (seqZ 0 4)) /\ 1024 ∈ map fst SUBMIT_PAYLOAD_SIZES.
Proof.
  split; [|by left]. rewrite streams_cover by lia. apply elem_of_seqZ. lia.
Qed.

(** Seeds of one size tell indices apart. *)
Lemma payload_seed_inj salt size i j : payload_seed salt size i = payload_seed salt size j -> i = j.
Proof.
  unfold payload_seed. intros He. apply (f_equal (fun z => Z.lxor z (as_u64 (size * 11400714819323198485)))) in He.
  rewrite !Z.lxor_assoc, !Z.lxor_nilpotent, !Z.lxor_0_r in He.
  apply (f_equal (fun z => Z.lxor z salt)) in He. by rewrite !Z.lxor_assoc, !Z.lxor_nilpotent, !Z.lxor_0_r in He.
Qed.

(** ** Facts: the pool fill *)

(** The fill always ends, within the cap, with ten plain errors or fewer unless it stopped
    for them, and its counts are those of its answers. *)
Lemma fill_bounds size cancelled answer left_ i f :
  0 <= f_errors f <= 10 -> f_pool_full f = false ->
  let f' := fill_loop size cancelled answer left_ i f in
  0 <= f_submitted f' - f_submitted f <= Z.of_nat left_ /\ f_errors f <= f_errors f' <= 11 /\
  f_bytes f' - f_bytes f = (f_submitted f' - f_submitted f) * size /\
  (f_pool_full f' = true -> exists k e, (i <= k)%nat /\ answer k = Some e /\
     (str_contains (err_text e) "1002" || str_contains (err_text e) "Pool full"
      || (str_contains (err_text e) "1013" || str_contains (err_text e) "quota")) = true).
Proof.
  revert i f. induction left_ as [|n IH]; intros i f He Hp; cbn [fill_loop]; cbv zeta; [rewrite Hp; split_and!; lia || done|].
  destruct (cancelled i); [rewrite Hp; split_and!; lia || done|]. unfold fill_one.
  destruct (answer i) as [e|] eqn:Ea.
  - destruct (str_contains (err_text e) "1002" || _ || _) eqn:Es.
    + cbn [f_submitted f_errors f_bytes f_pool_full]. split_and!; try lia. intros _. exists i, e. split_and!; [lia|done|done].
    + destruct (10 <? _) eqn:E; cbn [f_errors] in E; b2p.
      * cbn [f_submitted f_errors f_bytes f_pool_full]. rewrite Hp. split_and!; lia || done.
      * specialize (IH (S i) (mkFill (f_submitted f) (f_errors f + 1) (f_bytes f) (f_pool_full f))). cbn [f_submitted f_errors f_bytes f_pool_full] in IH.
        destruct IH as (F1 & F2 & F3 & F4); [lia|done|]. split_and!; try lia. intros Hf. destruct (F4 Hf) as (k & e' & ? & ? & ?).
        exists k, e'. split_and!; [lia|done|done].
  - specialize (IH (S i) (mkFill (f_submitted f + 1) (f_errors f) (f_bytes f + size) (f_pool_full f))). cbn [f_submitted f_errors f_bytes f_pool_full] in IH.
    destruct IH as (F1 & F2 & F3 & F4); [lia|done|]. split_and!; try lia. intros Hf. destruct (F4 Hf) as (k & e' & ? & ? & ?).
    exists k, e'. split_and!; [lia|done|done].
Qed.

(** ** Facts: the mixed load *)

Definition writer_holds (w : WriterPhase * Z) : Z := match w.1 with WAccepted _ => 1 | _ => 0 end.
Definition reader_holds (r : ReaderPhase) : Z := match r with RHolding _ | RClaiming _ => 1 | _ => 0 end.

(** Every accepted submission is pushed or about to be, waits, is held by a reader, was
    dropped by one that could not connect, or had its claim answered. *)
Record MixedInv (size : Z) (st : MixedRun) : Prop := {
  mi_entries : submit_count (mr_shared st) =
    len (mx_pending (mr_shared st)) + total_of writer_holds (mr_writers st) + total_of reader_holds (mr_readers st)
    + len (dropped (mr_shared st)) + len (settled_claims (mr_shared st));
  mi_claims : claim_count (mr_shared st) + claim_errors (mr_shared st) = len (settled_claims (mr_shared st));
  mi_bytes : submit_bytes (mr_shared st) = submit_count (mr_shared st) * size }.

Lemma mixed_init_inv size concurrency : MixedInv size (mixed_init concurrency).
Proof.
  constructor; unfold mixed_init; cbn [mr_shared mr_writers mr_readers mixed_start submit_count mx_pending dropped settled_claims claim_count claim_errors submit_bytes]; [|done|done].
  assert (forall l, total_of writer_holds (map (fun w => (WTop, writer_base w)) l) = 0) as ->
    by (induction l as [|w l IH]; [done|cbn; by rewrite IH]).
  assert (forall n, total_of reader_holds (replicate n RTop) = 0) as -> by (induction n as [|n IH]; [done|cbn; by rewrite IH]).
  done.
Qed.

Lemma len_removelast {A} (l : list A) x : last l = Some x -> len (removelast l) = len l - 1.
Proof.
  intros Hl. apply last_Some in Hl as [l' ->]. rewrite removelast_last, len_app. unfold len. cbn. lia.
Qed.

Lemma mixed_step_inv size st st' : MixedInv size st -> mixed_step size st st' -> MixedInv size st'.
Proof.
  intros [He Hc Hb] Hs. inversion Hs as [i w c st0 s' w' Hi Hw|i r c st0 s' r' Hi Hr|st0 Hd|st0]; subst.
  - destruct st as [s ws rs], w as [ph idx]. cbn [mr_shared mr_writers mr_readers] in *.
    destruct ph, c as [in_time|[e|]| |]; cbn in Hw; try done; try (destruct (in_time && negb (cancel s))); simplify_eq/=;
      constructor; cbn [mr_shared mr_writers mr_readers mx_pending submit_count submit_errors submit_bytes claim_count claim_errors claim_bytes dropped settled_claims];
      rewrite ?(total_of_insert writer_holds _ _ _ _ Hi), ?len_app; cbn [writer_holds fst]; unfold len in *; cbn [length] in *; lia.
  - destruct st as [s ws rs]. cbn [mr_shared mr_writers mr_readers] in *.
    destruct r, c as [|[]|[data|]]; cbn in Hr; try done.
    2: { destruct (last (mx_pending s)) as [e|] eqn:El; simplify_eq/=;
         constructor; cbn [mr_shared mr_writers mr_readers mx_pending submit_count submit_errors submit_bytes claim_count claim_errors claim_bytes dropped settled_claims];
         rewrite ?(total_of_insert reader_holds _ _ _ _ Hi), ?(len_removelast _ _ El); cbn [reader_holds]; lia. }
    all: repeat case_match; simplify_eq/=;
      constructor; cbn [mr_shared mr_writers mr_readers mx_pending submit_count submit_errors submit_bytes claim_count claim_errors claim_bytes dropped settled_claims];
      rewrite ?(total_of_insert reader_holds _ _ _ _ Hi), ?len_app; cbn [reader_holds]; unfold len in *; cbn [length] in *; lia.
  - by constructor.
  - by constructor.
Qed.

Lemma writer_done_holds w : writer_done w = true -> writer_holds w = 0.
Proof. by destruct w as [[] ?]. Qed.

Lemma reader_done_holds r : reader_done r = true -> reader_holds r = 0.
Proof. by destruct r. Qed.

(** In every interleaving; once all readers and writers have ended, what was accepted is
    claimed, failed to be, dropped, or left behind in the queue. *)
Lemma mixed_accounts size concurrency st :
  rtc (mixed_step size) (mixed_init concurrency) st ->
  MixedInv size st /\
  (forallb writer_done (mr_writers st) = true -> forallb reader_done (mr_readers st) = true ->
   submit_count (mr_shared st) = claim_count (mr_shared st) + claim_errors (mr_shared st)
     + len (dropped (mr_shared st)) + len (mx_pending (mr_shared st))).
Proof.
  intros Hr. assert (MixedInv size st) as Hi.
  { eapply (rtc_inv _ (MixedInv size)); [|exact Hr|apply mixed_init_inv]. intros a b Hab Ha. by eapply mixed_step_inv. }
  split; [done|]. intros Hw Hd. destruct Hi as [He Hc _].
  rewrite (total_of_zero _ _ _ writer_done_holds Hw), (total_of_zero _ _ _ reader_done_holds Hd) in He.
  lia.
Qed.

(** One step as a function of who moves. *)
Inductive MixedChoice := WriterMoves (i : nat) (c : WriterChoice) | ReaderMoves (i : nat) (c : ReaderChoice) | WritersEnd | Cancelled.

Definition mixed_move (size : Z) (m : MixedChoice) (st : MixedRun) : option MixedRun :=
  match m with
  | WriterMoves i c =>
      w ← mr_writers st !! i; '(s', w') ← writer_step size c (mr_shared st) w;
      Some (mkRun s' (<[i := w']> (mr_writers st)) (mr_readers st))
  | ReaderMoves i c =>
      r ← mr_readers st !! i; '(s', r') ← reader_step c (mr_shared st) r;
      Some (mkRun s' (mr_writers st) (<[i := r']> (mr_readers st)))
  | WritersEnd =>
      if forallb writer_done (mr_writers st) then Some (mkRun (set_done (mr_shared st)) (mr_writers st) (mr_readers st)) else None
  | Cancelled => Some (mkRun (set_cancel (mr_shared st)) (mr_writers st) (mr_readers st))
  end.

Fixpoint mixed_play (size : Z) (moves : list MixedChoice) (st : MixedRun) : option MixedRun :=
  match moves with [] => Some st | m :: moves' => st' ← mixed_move size m st; mixed_play size moves' st' end.

Lemma mixed_play_rtc size moves st st' : mixed_play size moves st = Some st' -> rtc (mixed_step size) st st'.
Proof.
  revert st. induction moves as [|m moves IH]; intros st; cbn [mixed_play]; [by intros [= ->]|].
  destruct (mixed_move size m st) as [st1|] eqn:Em; [|done]. cbn [mbind option_bind]. intros Hp.
  apply (rtc_l _ _ st1); [|by apply IH]. destruct m as [i c|i c| |]; cbn [mixed_move] in Em.
  - destruct (mr_writers st !! i) as [w|] eqn:Ew; [|done]. cbn in Em.
    destruct (writer_step size c (mr_shared st) w) as [[s' w']|] eqn:E; [|done]. injection Em as <-. by eapply mixed_writer.
  - destruct (mr_readers st !! i) as [r|] eqn:Er; [|done]. cbn in Em.
    destruct (reader_step c (mr_shared st) r) as [[s' r']|] eqn:E; [|done]. injection Em as <-. by eapply mixed_reader.
  - destruct (forallb _ _) eqn:E; [|done]. injection Em as <-. by apply mixed_writers_done.
  - injection Em as <-. apply mixed_cancel.
Qed.

(** A reader that finds the queue empty looks at [writers_done] afterwards: an entry
    pushed in between, when the writers then end, is left behind by every reader, though
    nothing was cancelled. *)
Definition late_entry : SubmittedEntry := mkSubmitted [] [] [0] 0.

Definition late_run : list MixedChoice :=
  [ReaderMoves 0 RGo; ReaderMoves 0 RGo; WriterMoves 0 (WLook true); WriterMoves 0 (WAnswer (Some late_entry));
   WriterMoves 0 WPush; WriterMoves 0 (WLook false); WritersEnd; ReaderMoves 0 RGo].

Lemma mixed_can_leave_entries_behind :
  exists st, rtc (mixed_step 10) (mixed_init 2) st /\ forallb reader_done (mr_readers st) = true /\
    forallb writer_done (mr_writers st) = true /\ cancel (mr_shared st) = false /\
    mx_pending (mr_shared st) = [late_entry] /\ claim_count (mr_shared st) = 0 /\ claim_errors (mr_shared st) = 0.
Proof.
  destruct (mixed_play 10 late_run (mixed_init 2)) as [st|] eqn:E; [|by vm_compute in E].
  exists st. split; [by eapply mixed_play_rtc|]. vm_compute in E. injection E as <-. done.
Qed.
