(* ===== verification/Bitswap.v ===== *)
(** The stress-test tool's Bitswap client ([stress-test/src/bitswap.rs]): the messages of
    the schema, the protocol handler as a state machine over transport events, and what
    the callers of [fetch_blocks] see.  The encoding of messages (prost), the transport
    (litep2p) and its identifiers are what the events carry. *)

From S2P Require Import Prelude Slice Primitives Types.

(** ** Messages of the schema *)

Inductive WantType := WantBlock | WantHave.

Record WantEntry := mkEntry {
  en_block : bytes;
  en_priority : Z;
  en_cancel : bool;
  en_want_type : WantType;
  en_send_dont_have : bool }.

Record Wantlist := mkWantlist { entries : list WantEntry; full : bool }.

Inductive BlockPresenceType := Have | DontHave.

Record BitswapMessage := mkMessage {
  wantlist : option Wantlist;
  msg_blocks : list bytes;
  payload : list (bytes * bytes);   (* CID prefix, data *)
  block_presences : list (bytes * BlockPresenceType);
  pending_bytes : Z }.

(** [BitswapProtocol::build_wantlist], before the encoding. *)
Definition build_wantlist (cid_bytes_list : list bytes) : BitswapMessage :=
  mkMessage (Some (mkWantlist (map (fun cid_bytes => mkEntry cid_bytes 1 false WantBlock true) cid_bytes_list) false))
    [] [] [] 0.

(** ** Reading a response *)

(** What a read of the inbound substream gives; the end of a list of frames is the end of
    the substream. *)
Inductive Frame := Decoded (msg : BitswapMessage) | Undecodable | StreamError.

(** The loop over frames: the blocks read, and whether it ended on an error. *)
Fixpoint read_frames (expected_count : nat) (frames : list Frame) (all_blocks : list bytes) : list bytes * bool :=
  if (expected_count <=? length all_blocks)%nat then (all_blocks, false) else
  match frames with
  | [] => (all_blocks, false)
  | Decoded msg :: frames' =>
      let all_blocks := all_blocks ++ map snd (payload msg) in
      match block_presences msg, payload msg with
      | _ :: _, _ | _, [] => (all_blocks, false)
      | [], _ :: _ => read_frames expected_count frames' all_blocks
      end
  | (Undecodable | StreamError) :: _ => (all_blocks, true)
  end.

Inductive FetchError :=
| FailedToOpen
| FailedToSend
| SubstreamReadError
| NoBlocks
| OpenFailed
| Closed
| ClosedBeforeRequest.

(** What arrives on the channel of a request; [ChannelClosed] when its sender is dropped. *)
Inductive FetchAnswer := Blocks (l : list bytes) | Refused (e : FetchError) | ChannelClosed.

Definition response_answer (expected_count : nat) (frames : list Frame) : FetchAnswer :=
  match read_frames expected_count frames [] with
  | (b :: bs, _) => Blocks (b :: bs)
  | ([], true) => Refused SubstreamReadError
  | ([], false) => Refused NoBlocks
  end.

(** ** The protocol handler *)

Section Handler.
Context {PeerId : Type} `{Countable PeerId}.

(** A request is known by its channel, here a number. *)
Record PendingRequest := mkPendingRequest { pr_peer : PeerId; pr_cids : list bytes; pr_tx : Z }.

(** The local variables of [run], and what was sent on the channels, in order. *)
Record Handler := mkHandler {
  connected_peers : gset PeerId;
  pending_connection : list PendingRequest;
  pending_outbound : gmap Z (list bytes * Z);
  waiting_responses : list (PeerId * nat * Z);
  answers : list (Z * FetchAnswer) }.

Definition handler_start : Handler := mkHandler ∅ [] ∅ [] [].

Definition respond (tx : Z) (a : FetchAnswer) (h : Handler) : Handler :=
  mkHandler (connected_peers h) (pending_connection h) (pending_outbound h) (waiting_responses h)
    (answers h ++ [(tx, a)]).

(** [pending_outbound.insert]: an entry under the same substream is dropped. *)
Definition insert_outbound (substream_id : Z) (cids : list bytes) (tx : Z) (h : Handler) : Handler :=
  mkHandler (connected_peers h) (pending_connection h) (<[substream_id := (cids, tx)]> (pending_outbound h))
    (waiting_responses h)
    (answers h ++ match pending_outbound h !! substream_id with Some (_, old) => [(old, ChannelClosed)] | None => [] end).

(** A request meets the answer of [open_substream]. *)
Definition open_for (opened : option Z) (cids : list bytes) (tx : Z) (h : Handler) : Handler :=
  match opened with
  | Some substream_id => insert_outbound substream_id cids tx h
  | None => respond tx (Refused FailedToOpen) h
  end.

Definition on_fetch (peer : PeerId) (cid_bytes_list : list bytes) (tx : Z) (opened : option Z) (h : Handler) : Handler :=
  if decide (peer ∈ connected_peers h) then open_for opened cid_bytes_list tx h
  else mkHandler (connected_peers h) (pending_connection h ++ [mkPendingRequest peer cid_bytes_list tx])
         (pending_outbound h) (waiting_responses h) (answers h).

(** An outbound substream opens: the wantlist goes out, the request waits for a response. *)
Definition on_outbound (peer : PeerId) (substream_id : Z) (sent : bool) (h : Handler) : Handler :=
  match pending_outbound h !! substream_id with
  | None => h
  | Some (cids, tx) =>
      let h := mkHandler (connected_peers h) (pending_connection h) (delete substream_id (pending_outbound h))
                 (waiting_responses h) (answers h) in
      if sent then
        mkHandler (connected_peers h) (pending_connection h) (pending_outbound h)
          (waiting_responses h ++ [(peer, length cids, tx)]) (answers h)
      else respond tx (Refused FailedToSend) h
  end.

(** The first entry that waits for the peer, and the others. *)
Fixpoint remove_first (peer : PeerId) (l : list (PeerId * nat * Z)) : option (nat * Z * list (PeerId * nat * Z)) :=
  match l with
  | [] => None
  | (p, n, tx) :: l' =>
      if decide (p = peer) then Some (n, tx, l')
      else match remove_first peer l' with Some (r, rest) => Some (r, (p, n, tx) :: rest) | None => None end
  end.

(** An inbound substream: it is read as the response to the first request that waits for
    the peer, or discarded. *)
Definition on_inbound (peer : PeerId) (frames : list Frame) (h : Handler) : Handler :=
  match remove_first peer (waiting_responses h) with
  | None => h
  | Some (expected_count, tx, rest) =>
      respond tx (response_answer expected_count frames)
        (mkHandler (connected_peers h) (pending_connection h) (pending_outbound h) rest (answers h))
  end.

Definition on_open_failure (substream_id : Z) (h : Handler) : Handler :=
  match pending_outbound h !! substream_id with
  | None => h
  | Some (_, tx) =>
      respond tx (Refused OpenFailed)
        (mkHandler (connected_peers h) (pending_connection h) (delete substream_id (pending_outbound h))
           (waiting_responses h) (answers h))
  end.

(** [drain(..)] of the requests queued for a peer that connects; [opened] is what
    [open_substream] answers for each. *)
Definition on_established (peer : PeerId) (opened : Z -> option Z) (h : Handler) : Handler :=
  foldl (fun h req =>
           if decide (pr_peer req = peer) then open_for (opened (pr_tx req)) (pr_cids req) (pr_tx req) h
           else mkHandler (connected_peers h) (pending_connection h ++ [req]) (pending_outbound h) (waiting_responses h) (answers h))
    (mkHandler ({[peer]} ∪ connected_peers h) [] (pending_outbound h) (waiting_responses h) (answers h))
    (pending_connection h).

(** A closed connection fails what waits for the peer and what is queued for it. *)
Definition on_closed (peer : PeerId) (h : Handler) : Handler :=
  mkHandler (connected_peers h ∖ {[peer]})
    (List.filter (fun req => negb (bool_decide (pr_peer req = peer))) (pending_connection h))
    (pending_outbound h)
    (List.filter (fun w => negb (bool_decide (w.1.1 = peer))) (waiting_responses h))
    (answers h
     ++ map (fun w => (w.2, Refused Closed)) (List.filter (fun w => bool_decide (w.1.1 = peer)) (waiting_responses h))
     ++ map (fun req => (pr_tx req, Refused ClosedBeforeRequest))
          (List.filter (fun req => bool_decide (pr_peer req = peer)) (pending_connection h))).

(** The commands and transport events [run] selects among, with what the calls they make
    answer. *)
Inductive HandlerEvent :=
| Fetch (peer : PeerId) (cid_bytes_list : list bytes) (tx : Z) (opened : option Z)
| OutboundOpened (peer : PeerId) (substream_id : Z) (sent : bool)
| InboundOpened (peer : PeerId) (frames : list Frame)
| SubstreamOpenFailure (substream_id : Z)
| ConnectionEstablished (peer : PeerId) (opened : Z -> option Z)
| ConnectionClosed (peer : PeerId)
| DialFailure.

Definition handle (h : Handler) (ev : HandlerEvent) : Handler :=
  match ev with
  | Fetch peer cids tx opened => on_fetch peer cids tx opened h
  | OutboundOpened peer id sent => on_outbound peer id sent h
  | InboundOpened peer frames => on_inbound peer frames h
  | SubstreamOpenFailure id => on_open_failure id h
  | ConnectionEstablished peer opened => on_established peer opened h
  | ConnectionClosed peer => on_closed peer h
  | DialFailure => h
  end.

Definition handle_all (h : Handler) (events : list HandlerEvent) : Handler := foldl handle h events.

(** The requests the handler holds. *)
Definition held (h : Handler) : list Z :=
  map pr_tx (pending_connection h) ++ map (fun p => p.2.2) (map_to_list (pending_outbound h))
  ++ map snd (waiting_responses h).

(** When [run] ends, the senders it still holds are dropped. *)
Definition on_exit (h : Handler) : Handler :=
  mkHandler (connected_peers h) [] ∅ [] (answers h ++ map (fun tx => (tx, ChannelClosed)) (held h)).

(** ** The callers *)

(** What [fetch_blocks] returns once the handler has stopped or its time is over:
    [None] when nothing arrived in time. *)
Definition fetch_blocks (tx : Z) (h : Handler) : option FetchAnswer :=
  snd <$> List.find (fun p => p.1 =? tx) (answers h).

(** [fetch_block]: the last of the blocks. *)
Definition fetch_block (tx : Z) (h : Handler) : option bytes :=
  match fetch_blocks tx h with Some (Blocks l) => last l | _ => None end.
End Handler.

Arguments Handler PeerId {_ _}.
Arguments HandlerEvent PeerId : clear implicits.

(** [peer_id_from_multiaddr], given what [from_multihash] makes of a P2p component. *)
Fixpoint peer_id_from_multiaddr {Multihash Peer} (from_multihash : Multihash -> option Peer)
    (multiaddr : list (option Multihash)) : option Peer :=
  match multiaddr with
  | [] => None
  | Some multihash :: _ => from_multihash multihash
  | None :: protos => peer_id_from_multiaddr from_multihash protos
  end.

(** [str::split] on a non-empty pattern: the parts between its occurrences. *)
Fixpoint split_fuel (fuel : nat) (sep s part : string) : list string :=
  match fuel with
  | O => [part +:+ s]
  | S fuel =>
      match s with
      | EmptyString => [part]
      | String a s' =>
          if String.prefix sep s then part :: split_fuel fuel sep (String.substring (String.length sep) (String.length s) s) ""
          else split_fuel fuel sep s' (part +:+ String a "")
      end
  end.

Definition split_str (sep s : string) : list string := split_fuel (S (String.length s)) sep s "".

(** [clean_multiaddr]. *)
Definition clean_multiaddr (addr : string) : string :=
  let parts := split_str "/p2p/" addr in
  if (length parts <=? 2)%nat then addr else
  match parts, last parts with
  | base :: _, Some peer_id => base +:+ ("/p2p/" +:+ peer_id)
  | _, _ => addr
  end.

Example clean_multiaddr_duplicate :
  clean_multiaddr "/ip4/127.0.0.1/tcp/30333/ws/p2p/PEER/p2p/PEER" = "/ip4/127.0.0.1/tcp/30333/ws/p2p/PEER"%string /\
  clean_multiaddr "/ip4/127.0.0.1/tcp/30333/ws/p2p/PEER" = "/ip4/127.0.0.1/tcp/30333/ws/p2p/PEER"%string /\
  clean_multiaddr "/dns/node/tcp/443/wss" = "/dns/node/tcp/443/wss"%string.
Proof. by vm_compute. Qed.

(** ** Facts *)

Section Facts.
Context {PeerId : Type} `{Countable PeerId}.
Implicit Types (h : Handler PeerId) (peer : PeerId).

(** Every request that came in is held or was answered. *)
Definition accounted h : list Z := map fst (answers h) ++ held h.

Arguments accounted : simpl never.

Lemma map_to_list_insert_perm {A} (m : gmap Z A) k v :
  map_to_list (<[k := v]> m) ≡ₚ (k, v) :: map_to_list (delete k m).
Proof. by rewrite <-insert_delete_eq, map_to_list_insert by apply lookup_delete_eq. Qed.

Lemma map_to_list_delete_perm {A} (m : gmap Z A) k v :
  m !! k = Some v -> map_to_list m ≡ₚ (k, v) :: map_to_list (delete k m).
Proof. intros Hk. by rewrite map_to_list_delete. Qed.

(** What [accounted] is made of. *)
Lemma accounted_perm cp pc po wr an :
  accounted (mkHandler cp pc po wr an : Handler PeerId) =
    map fst an ++ map pr_tx pc ++ map (fun p => p.2.2) (map_to_list po) ++ map snd wr.
Proof. done. Qed.

Lemma accounted_insert_outbound id cids tx h :
  accounted (insert_outbound id cids tx h) ≡ₚ tx :: accounted h.
Proof.
  destruct h as [cp pc po wr an]. unfold insert_outbound. cbn. rewrite !accounted_perm, map_to_list_insert_perm. cbn.
  destruct (po !! id) as [[c old]|] eqn:E.
  - rewrite (map_to_list_delete_perm po id (c, old)) by done. rewrite map_app. cbn. solve_Permutation.
  - rewrite app_nil_r, delete_id by done. solve_Permutation.
Qed.

Lemma accounted_respond tx a h : accounted (respond tx a h) ≡ₚ tx :: accounted h.
Proof. destruct h as [cp pc po wr an]. unfold respond. cbn. rewrite !accounted_perm, map_app. cbn. solve_Permutation. Qed.

Lemma accounted_open_for opened cids tx h : accounted (open_for opened cids tx h) ≡ₚ tx :: accounted h.
Proof. destruct opened; [apply accounted_insert_outbound|apply accounted_respond]. Qed.

Lemma remove_first_perm peer l n tx rest :
  remove_first peer l = Some (n, tx, rest) -> l ≡ₚ (peer, n, tx) :: rest.
Proof.
  revert rest. induction l as [|[[p m] t] l IH]; intros rest; [done|]. cbn [remove_first].
  destruct (decide (p = peer)) as [->|]; [by intros [= -> -> ->]|].
  destruct (remove_first peer l) as [[[n' tx'] r]|]; [|done]. intros [= -> -> <-]. rewrite (IH r) by done. apply perm_swap.
Qed.

Lemma split_by {A} (f : A -> bool) (l : list A) : l ≡ₚ List.filter f l ++ List.filter (fun x => negb (f x)) l.
Proof.
  induction l as [|x l IH]; [done|]. cbn. destruct (f x); cbn; [by rewrite <-IH|].
  rewrite IH at 1. apply Permutation_middle.
Qed.

Lemma accounted_established peer opened h : accounted (on_established peer opened h) ≡ₚ accounted h.
Proof.
  unfold on_established. destruct h as [cp pc po wr an]. cbn [connected_peers pending_connection pending_outbound waiting_responses answers].
  assert (forall l h0, accounted (foldl (fun h req =>
       if decide (pr_peer req = peer) then open_for (opened (pr_tx req)) (pr_cids req) (pr_tx req) h
       else mkHandler (connected_peers h) (pending_connection h ++ [req]) (pending_outbound h) (waiting_responses h) (answers h)) h0 l)
     ≡ₚ map pr_tx l ++ accounted h0) as Hl.
  { induction l as [|req l IH]; intros h0; [done|]. cbn [foldl map]. rewrite IH. destruct (decide _).
    - rewrite accounted_open_for. solve_Permutation.
    - destruct h0 as [cp0 pc0 po0 wr0 an0]. cbn. rewrite !accounted_perm, map_app. cbn. solve_Permutation. }
  rewrite Hl, !accounted_perm. cbn. solve_Permutation.
Qed.

Lemma accounted_closed peer h : accounted (on_closed peer h) ≡ₚ accounted h.
Proof.
  destruct h as [cp pc po wr an]. unfold on_closed. cbn. rewrite !accounted_perm, !map_app, !map_map. cbn.
  rewrite (split_by (fun w => bool_decide (w.1.1 = peer)) wr) at 3.
  rewrite (split_by (fun req => bool_decide (pr_peer req = peer)) pc) at 3. rewrite !map_app. solve_Permutation.
Qed.

(** The requests an event brings. *)
Definition event_request (ev : HandlerEvent PeerId) : option Z :=
  match ev with Fetch _ _ tx _ => Some tx | _ => None end.

Lemma accounted_handle h ev : accounted (handle h ev) ≡ₚ option_list (event_request ev) ++ accounted h.
Proof.
  destruct ev as [peer cids tx opened|peer id sent|peer frames|id|peer opened|peer|]; cbn [handle event_request option_list app].
  - unfold on_fetch. destruct (decide _); [apply accounted_open_for|]. destruct h as [cp pc po wr an]. cbn.
    rewrite !accounted_perm, map_app. cbn. solve_Permutation.
  - unfold on_outbound. destruct h as [cp pc po wr an]. cbn. destruct (po !! id) as [[cids tx]|] eqn:E; [|done].
    destruct sent; [|rewrite accounted_respond]; rewrite !accounted_perm, (map_to_list_delete_perm po id (cids, tx)) by done;
      rewrite ?map_app; cbn; solve_Permutation.
  - unfold on_inbound. destruct h as [cp pc po wr an]. cbn. destruct (remove_first peer wr) as [[[n tx] rest]|] eqn:E; [|done].
    rewrite accounted_respond, !accounted_perm, (remove_first_perm _ _ _ _ _ E). cbn. solve_Permutation.
  - unfold on_open_failure. destruct h as [cp pc po wr an]. cbn. destruct (po !! id) as [[cids tx]|] eqn:E; [|done].
    rewrite accounted_respond, !accounted_perm, (map_to_list_delete_perm po id (cids, tx)) by done. cbn. solve_Permutation.
  - apply accounted_established.
  - apply accounted_closed.
  - done.
Qed.

(** Whatever happens, each request is held or answered, once. *)
Lemma accounted_all events h :
  accounted (handle_all h events) ≡ₚ omap event_request events ++ accounted h.
Proof.
  revert h. induction events as [|ev events IH]; intros h; [done|]. unfold handle_all in *. cbn [foldl]. rewrite IH, accounted_handle.
  cbn. destruct (event_request ev); cbn; solve_Permutation.
Qed.

Lemma accounted_exit h : map fst (answers (on_exit h)) = accounted h /\ held (on_exit h) = [].
Proof.
  unfold on_exit, held, accounted. cbn. rewrite map_to_list_empty. split; [|done].
  by rewrite map_app, map_map, map_id.
Qed.

(** ** Rounds *)

(** One fetch over an open connection: the request, its substream, the response or none
    before the caller's time is over. *)
Record Round := mkRound { rd_tx : Z; rd_cids : list bytes; rd_substream : Z; rd_response : option (list Frame) }.

Definition round_events peer (r : Round) : list (HandlerEvent PeerId) :=
  [Fetch peer (rd_cids r) (rd_tx r) (Some (rd_substream r)); OutboundOpened peer (rd_substream r) true]
  ++ match rd_response r with Some frames => [InboundOpened peer frames] | None => [] end.

Definition run_rounds peer (h : Handler PeerId) (rounds : list Round) : Handler PeerId :=
  foldl (fun h r => handle_all h (round_events peer r)) h rounds.

(** The requests that wait for a peer. *)
Definition waiting_for peer h : list (nat * Z) :=
  omap (fun w => if decide (w.1.1 = peer) then Some (w.1.2, w.2) else None) (waiting_responses h).

(** What a queue of waiting requests does with the rounds. *)
Definition queue_round (q : list (nat * Z) * list (Z * FetchAnswer)) (r : Round) : list (nat * Z) * list (Z * FetchAnswer) :=
  let waiting := q.1 ++ [(length (rd_cids r), rd_tx r)] in
  match rd_response r, waiting with
  | Some frames, (n, tx) :: rest => (rest, q.2 ++ [(tx, response_answer n frames)])
  | _, _ => (waiting, q.2)
  end.

Lemma remove_first_waiting peer wr :
  match remove_first peer wr with
  | Some (n, tx, rest) =>
      omap (fun w => if decide (w.1.1 = peer) then Some (w.1.2, w.2) else None) wr =
        (n, tx) :: omap (fun w => if decide (w.1.1 = peer) then Some (w.1.2, w.2) else None) rest
  | None => omap (fun w => if decide (w.1.1 = peer) then Some (w.1.2, w.2) else None) wr = []
  end.
Proof.
  induction wr as [|[[p n] tx] wr IH]; [done|]. cbn. destruct (decide (p = peer)) as [->|]; [done|].
  destruct (remove_first peer wr) as [[[n' tx'] rest]|]; [|done]. cbn. by rewrite decide_False by done.
Qed.

Lemma round_step peer h r :
  peer ∈ connected_peers h -> pending_outbound h !! rd_substream r = None ->
  let h' := handle_all h (round_events peer r) in
  connected_peers h' = connected_peers h /\ pending_outbound h' = pending_outbound h /\
  (waiting_for peer h', answers h') = queue_round (waiting_for peer h, answers h) r.
Proof.
  intros Hc Hs. unfold handle_all, round_events. destruct r as [tx cids id resp]. cbn [rd_tx rd_cids rd_substream rd_response] in *.
  destruct h as [cp pc po wr an]. cbn in Hc, Hs.
  assert (foldl handle (mkHandler cp pc po wr an) [Fetch peer cids tx (Some id); OutboundOpened peer id true]
          = mkHandler cp pc po (wr ++ [(peer, length cids, tx)]) an) as He.
  { cbn. unfold on_fetch. rewrite decide_True by done. unfold open_for, insert_outbound, on_outbound. cbn. rewrite Hs, app_nil_r.
    rewrite lookup_insert_eq. by rewrite delete_insert_id by done. }
  assert (waiting_for peer (mkHandler cp pc po (wr ++ [(peer, length cids, tx)]) an)
          = waiting_for peer (mkHandler cp pc po wr an) ++ [(length cids, tx)]) as Hw.
  { unfold waiting_for. cbn. rewrite omap_app. cbn. by rewrite decide_True by done. }
  rewrite foldl_app, He. unfold queue_round. cbn [rd_response rd_cids rd_tx fst snd answers]. rewrite <-Hw.
  destruct resp as [frames|]; cbn [foldl handle]; [|done]. unfold on_inbound. cbn [waiting_responses].
  pose proof (remove_first_waiting peer (wr ++ [(peer, length cids, tx)])) as Hr.
  destruct (remove_first _ _) as [[[n t] rest]|].
  - split_and!; [done|done|]. unfold waiting_for at 2. cbn [waiting_responses]. by rewrite Hr.
  - split_and!; [done|done|]. unfold waiting_for. cbn [waiting_responses]. by rewrite Hr.
Qed.

Lemma run_rounds_queue peer rounds h :
  peer ∈ connected_peers h -> Forall (fun r => pending_outbound h !! rd_substream r = None) rounds ->
  let h' := run_rounds peer h rounds in
  connected_peers h' = connected_peers h /\ pending_outbound h' = pending_outbound h /\
  (waiting_for peer h', answers h') = foldl queue_round (waiting_for peer h, answers h) rounds.
Proof.
  revert h. induction rounds as [|r rounds IH]; intros h Hc Hs; [done|]. apply Forall_cons in Hs as [Hr Hs].
  destruct (round_step peer h r Hc Hr) as (H1 & H2 & H3). cbn [run_rounds foldl].
  destruct (IH (handle_all h (round_events peer r))) as (I1 & I2 & I3); [by rewrite H1|by rewrite H2|].
  unfold run_rounds in *. split_and!; [by rewrite I1|by rewrite I2|]. by rewrite I3, H3.
Qed.

Definition frames_of (r : Round) : list Frame := default [] (rd_response r).

(** The answer that is a round's own. *)
Definition own_answer (r : Round) : Z * FetchAnswer := (rd_tx r, response_answer (length (rd_cids r)) (frames_of r)).

Lemma queue_healthy rounds an :
  Forall (fun r => is_Some (rd_response r)) rounds ->
  foldl queue_round ([], an) rounds = ([], an ++ map own_answer rounds).
Proof.
  revert an. induction rounds as [|r rounds IH]; intros an Hr; [by rewrite app_nil_r|].
  apply Forall_cons in Hr as [[frames Hf] Hr]. cbn [foldl map]. unfold queue_round at 2. cbn. rewrite Hf, IH by done.
  rewrite <-(assoc_L (++)). unfold own_answer at 2, frames_of. by rewrite Hf.
Qed.

(** The frames of a round, taken for the response to another. *)
Definition shifted_answer (to from : Round) : Z * FetchAnswer :=
  (rd_tx to, response_answer (length (rd_cids to)) (frames_of from)).

Fixpoint shifted_answers (before : Round) (rounds : list Round) : list (Z * FetchAnswer) :=
  match rounds with [] => [] | r :: rounds' => shifted_answer before r :: shifted_answers r rounds' end.

Lemma queue_shifted rounds before an :
  Forall (fun r => is_Some (rd_response r)) rounds ->
  foldl queue_round ([(length (rd_cids before), rd_tx before)], an) rounds =
    (let r := default before (last rounds) in [(length (rd_cids r), rd_tx r)], an ++ shifted_answers before rounds).
Proof.
  revert before an. induction rounds as [|r rounds IH]; intros before an Hr; [cbn; by rewrite app_nil_r|].
  apply Forall_cons in Hr as [[frames Hf] Hr]. cbn [foldl shifted_answers]. unfold queue_round at 2. cbn [fst snd app]. rewrite Hf, IH by done.
  rewrite <-(assoc_L (++)). unfold shifted_answer at 1, frames_of at 1. rewrite Hf. cbn [default app]. f_equal.
  destruct rounds as [|r' rounds]; [done|]. cbn [last]. destruct (last (r' :: rounds)) eqn:El; [done|by apply last_None in El].
Qed.

Lemma shifted_txs before rounds k r :
  rounds !! k = Some r -> NoDup (map rd_tx (before :: rounds)) ->
  rd_tx r ∉ map fst (shifted_answers before (take (S k) rounds)).
Proof.
  revert before k. induction rounds as [|r0 rounds IH]; intros before k Hk Hn; [done|].
  cbn [map] in Hn. apply NoDup_cons in Hn as [Hb Hn]. cbn [take shifted_answers map fst shifted_answer]. rewrite not_elem_of_cons. split.
  - intros He. apply Hb. rewrite <-He. change (rd_tx r ∈ rd_tx <$> (r0 :: rounds)).
    apply list_elem_of_fmap_2. by eapply list_elem_of_lookup_2.
  - destruct k as [|k]; cbn in Hk; [by apply not_elem_of_nil|]. by apply IH.
Qed.

Lemma find_None tx (l : list (Z * FetchAnswer)) : tx ∉ map fst l -> List.find (fun p => p.1 =? tx) l = None.
Proof.
  induction l as [|[t a] l IH]; [done|]. cbn. rewrite not_elem_of_cons. intros [Ht Hl].
  rewrite (proj2 (Z.eqb_neq t tx)) by congruence. by apply IH.
Qed.

(** A closed connection leaves nothing waiting for the peer. *)
Lemma closed_waiting peer h : waiting_for peer (on_closed peer h) = [].
Proof.
  unfold waiting_for, on_closed. cbn. induction (waiting_responses h) as [|[[p n] tx] l IH]; [done|]. cbn.
  destruct (bool_decide_reflect (p = peer)); cbn; [done|]. rewrite decide_False by done. done.
Qed.
End Facts.
