(* ===== verification/Telemetry.v ===== *)
(** The stress-test tool's results ([report.rs]) and its exported metrics ([metrics.rs]):
    the metric families it registers, and the recorder as the operations it performs on
    them, in order.  The Prometheus library is a parameter only through the numbers it
    takes: what its counters and gauges hold is read off the operations. *)

From Stdlib Require Import Sorted.
From S2P Require Import Prelude Slice Primitives Types StressPlan Submission Upload Scenarios.

(** ** Results *)

(** Floating-point figures and what the code makes of durations (in nanoseconds) and
    integers. *)
Class FigureHost := {
  F64 : Type;
  f64_zero : F64;
  as_secs_f64 : Z -> F64;
  u64_as_f64 : Z -> F64 }.

Record SubmissionStats := mkSubmissionStats {
  ss_stale_nonces : Z;
  ss_pool_full_retries : Z;
  ss_errors : Z;
  remaining_in_queue : Z;
  nonces_initialized : Z;
  nonces_failed : Z;
  gap_repairs : option Z;
  waves_submitted : option Z }.

Record EnvironmentInfo := mkEnvironment {
  node_name : string;
  node_version : string;
  chain_name : string;
  runtime_spec_version : Z;
  runtime_transaction_version : Z;
  env_ws_url : string;
  stress_test_version : string;
  command_line : string }.

Section Results.
Context `{FigureHost}.

Record ScenarioResult := mkScenarioResult {
  sr_name : string;
  sr_variant : string;
  sr_duration : Z;
  sr_total_submitted : Z;
  sr_total_confirmed : Z;
  sr_total_errors : Z;
  sr_payload_size : Z;
  throughput_tps : F64;
  throughput_bytes_per_sec : F64;
  sr_avg_tx_per_block : F64;
  sr_peak_tx_per_block : Z;
  sr_inclusion_latency : option LatencyStats;
  sr_finalization_latency : option LatencyStats;
  sr_retrieval_latency : option LatencyStats;
  sr_theoretical : option TheoreticalLimits;
  chain_limits : option ChainLimits;
  environment : option EnvironmentInfo;
  sr_blocks : list BlockStats;
  submission_stats : option SubmissionStats;
  avg_block_interval_ms : option F64;
  sr_fork_detections : Z;
  onchain_timing : bool;
  sr_total_reads : option Z;
  sr_successful_reads : option Z;
  sr_failed_reads : option Z;
  reads_per_sec : option F64;
  read_bytes_per_sec : option F64;
  sr_data_verified : option bool }.

(** [ScenarioResult::default()]. *)
Definition ScenarioResult_default : ScenarioResult :=
  mkScenarioResult "" "" 0 0 0 0 0 f64_zero f64_zero f64_zero 0 None None None None None None [] None None 0 false
    None None None None None None.

(** The stamping of a result by [run_once]'s [flush]: what is missing is filled in. *)
Definition stamp (limits : ChainLimits) (env : EnvironmentInfo) (r : ScenarioResult) : ScenarioResult :=
  mkScenarioResult (sr_name r) (sr_variant r) (sr_duration r) (sr_total_submitted r) (sr_total_confirmed r)
    (sr_total_errors r) (sr_payload_size r) (throughput_tps r) (throughput_bytes_per_sec r) (sr_avg_tx_per_block r)
    (sr_peak_tx_per_block r) (sr_inclusion_latency r) (sr_finalization_latency r) (sr_retrieval_latency r)
    (sr_theoretical r) (Some (default limits (chain_limits r))) (Some (default env (environment r))) (sr_blocks r)
    (submission_stats r) (avg_block_interval_ms r) (sr_fork_detections r) (onchain_timing r) (sr_total_reads r)
    (sr_successful_reads r) (sr_failed_reads r) (reads_per_sec r) (read_bytes_per_sec r) (sr_data_verified r).
End Results.

(** ** Labels *)

Inductive RunOutcome := RunOk | RunFailed | RunCancelled.

Definition outcome_label (o : RunOutcome) : string :=
  match o with RunOk => "ok" | RunFailed => "failed" | RunCancelled => "cancelled" end.

Inductive LatencyKind := Inclusion | Finalization | Retrieval.

Definition kind_label (k : LatencyKind) : string :=
  match k with Inclusion => "inclusion" | Finalization => "finalization" | Retrieval => "retrieval" end.

(** ** Metric families *)

Inductive Family :=
| tx_submitted | tx_submitted_bytes | tx_errors | tx_confirmed | tx_confirmed_bytes | blocks_observed | block_txs
| latency | reads | read_bytes_family | runs | run_in_progress | run_start_timestamp | variant_active
| result_throughput_tps | result_throughput_bps | result_avg_tx_per_block | result_peak_tx_per_block | result_latency
| result_reads_per_sec | result_read_bytes_per_sec.

#[export] Instance family_eq_dec : EqDecision Family.
Proof. solve_decision. Defined.

(** The families in the order [new] registers them, with name and label names. *)
Definition family_table : list (Family * string * list string) := [
  (tx_submitted, "bulletin_stress_tx_submitted_total", ["variant"]);
  (tx_submitted_bytes, "bulletin_stress_tx_submitted_bytes_total", ["variant"]);
  (tx_errors, "bulletin_stress_tx_errors_total", ["variant"; "class"]);
  (tx_confirmed, "bulletin_stress_tx_confirmed_total", ["variant"]);
  (tx_confirmed_bytes, "bulletin_stress_tx_confirmed_bytes_total", ["variant"]);
  (blocks_observed, "bulletin_stress_blocks_observed_total", ["variant"]);
  (block_txs, "bulletin_stress_block_txs", ["variant"]);
  (latency, "bulletin_stress_latency_seconds", ["variant"; "kind"]);
  (reads, "bulletin_stress_reads_total", ["variant"; "outcome"]);
  (read_bytes_family, "bulletin_stress_read_bytes_total", ["variant"]);
  (runs, "bulletin_stress_runs_total", ["outcome"]);
  (run_in_progress, "bulletin_stress_run_in_progress", []);
  (run_start_timestamp, "bulletin_stress_run_start_timestamp_seconds", []);
  (variant_active, "bulletin_stress_variant_active", ["variant"]);
  (result_throughput_tps, "bulletin_stress_result_throughput_tx_per_sec", ["variant"]);
  (result_throughput_bps, "bulletin_stress_result_throughput_bytes_per_sec", ["variant"]);
  (result_avg_tx_per_block, "bulletin_stress_result_avg_tx_per_block", ["variant"]);
  (result_peak_tx_per_block, "bulletin_stress_result_peak_tx_per_block", ["variant"]);
  (result_latency, "bulletin_stress_result_latency_seconds", ["variant"; "kind"; "quantile"]);
  (result_reads_per_sec, "bulletin_stress_result_reads_per_sec", ["variant"]);
  (result_read_bytes_per_sec, "bulletin_stress_result_read_bytes_per_sec", ["variant"])]%string.

(** The label names of a family. *)
Definition family_labels (f : Family) : list string :=
  match List.find (fun e => bool_decide (e.1.1 = f)) family_table with Some e => e.2 | None => [] end.

(** Bucket bounds, in transactions and in milliseconds. *)
Definition BLOCK_TXS_BUCKETS : list Z := [1; 2; 4; 8; 16; 32; 64; 128; 192; 256; 384; 512].
Definition LATENCY_BUCKETS_MS : list Z :=
  [25; 50; 100; 250; 500; 1000; 2000; 3000; 4500; 6000; 9000; 12000; 18000; 24000; 36000; 60000; 120000].

(** ** The recorder *)

Section Recorder.
Context `{FigureHost}.

(** An operation on the series of a family that label values select. *)
Inductive MetricOp :=
| IncBy (f : Family) (labels : list string) (n : Z)
| SetU64 (f : Family) (labels : list string) (n : Z)
| SetF64 (f : Family) (labels : list string) (v : F64)
| Observe (f : Family) (labels : list string) (v : F64).

(** [run_started]; [now] is the time since the epoch. *)
Definition run_started (now : Z) : list MetricOp :=
  [SetU64 run_in_progress [] 1; SetF64 run_start_timestamp [] (as_secs_f64 now)].

Definition run_finished (outcome : RunOutcome) : list MetricOp :=
  [SetU64 run_in_progress [] 0; IncBy runs [outcome_label outcome] 1].

Definition set_variant_active (variant : string) (active : bool) : list MetricOp :=
  [SetU64 variant_active [variant] (if active then 1 else 0)].

Definition inc_submitted (variant : string) (nbytes : Z) : list MetricOp :=
  [IncBy tx_submitted [variant] 1; IncBy tx_submitted_bytes [variant] nbytes].

Definition inc_error (variant class : string) : list MetricOp := [IncBy tx_errors [variant; class] 1].

Definition observe_confirmed_block (variant : string) (tx_count payload_bytes : Z) : list MetricOp :=
  [IncBy tx_confirmed [variant] tx_count; IncBy tx_confirmed_bytes [variant] payload_bytes;
   IncBy blocks_observed [variant] 1; Observe block_txs [variant] (u64_as_f64 tx_count)].

Definition observe_latency_repeated (variant : string) (kind : LatencyKind) (duration count : Z) : list MetricOp :=
  replicate (Z.to_nat count) (Observe latency [variant; kind_label kind] (as_secs_f64 duration)).

Definition observe_latency (variant : string) (kind : LatencyKind) (duration : Z) : list MetricOp :=
  observe_latency_repeated variant kind duration 1.

Definition observe_latencies (variant : string) (kind : LatencyKind) (durations : list Z) : list MetricOp :=
  map (fun d => Observe latency [variant; kind_label kind] (as_secs_f64 d)) durations.

Definition inc_reads (variant : string) (ok : bool) (count nbytes : Z) : list MetricOp :=
  IncBy reads [variant; if ok then "success" else "failure"]%string count ::
  (if 0 <? nbytes then [IncBy read_bytes_family [variant] nbytes] else []).

Definition set_result_latency (variant : string) (kind : LatencyKind) (stats : LatencyStats) : list MetricOp :=
  map (fun q => SetF64 result_latency [variant; kind_label kind; q.1] (as_secs_f64 q.2))
    [("p50", p50 stats); ("p90", p90 stats); ("p99", p99 stats); ("min", lat_min stats); ("max", lat_max stats);
     ("mean", lat_mean stats)]%string.

(** A gauge set when there is a figure. *)
Definition set_some {A} (o : option A) (f : A -> list MetricOp) : list MetricOp := match o with Some a => f a | None => [] end.

Definition record_result (result : ScenarioResult) : list MetricOp :=
  let variant := sr_variant result in
  [SetF64 result_throughput_tps [variant] (throughput_tps result);
   SetF64 result_throughput_bps [variant] (throughput_bytes_per_sec result);
   SetF64 result_avg_tx_per_block [variant] (sr_avg_tx_per_block result);
   SetU64 result_peak_tx_per_block [variant] (sr_peak_tx_per_block result)] ++
  set_some (sr_inclusion_latency result) (set_result_latency variant Inclusion) ++
  set_some (sr_finalization_latency result) (set_result_latency variant Finalization) ++
  set_some (sr_retrieval_latency result) (set_result_latency variant Retrieval) ++
  set_some (reads_per_sec result) (fun v => [SetF64 result_reads_per_sec [variant] v]) ++
  set_some (read_bytes_per_sec result) (fun v => [SetF64 result_read_bytes_per_sec [variant] v]).

(** ** What a scrape reads *)

(** A counter: the sum of its increments. *)
Fixpoint counter (f : Family) (labels : list string) (ops : list MetricOp) : Z :=
  match ops with
  | [] => 0
  | IncBy f' labels' n :: ops' =>
      (if bool_decide (f' = f /\ labels' = labels) then n else 0) + counter f labels ops'
  | _ :: ops' => counter f labels ops'
  end.

(** The observations of a histogram's series. *)
Fixpoint observations (f : Family) (labels : list string) (ops : list MetricOp) : list F64 :=
  match ops with
  | [] => []
  | Observe f' labels' v :: ops' =>
      (if bool_decide (f' = f /\ labels' = labels) then [v] else []) ++ observations f labels ops'
  | _ :: ops' => observations f labels ops'
  end.

Inductive GaugeValue := GaugeU64 (n : Z) | GaugeF64 (v : F64).

(** A gauge: what it was last set to. *)
Fixpoint gauge (f : Family) (labels : list string) (ops : list MetricOp) (old : option GaugeValue) : option GaugeValue :=
  match ops with
  | [] => old
  | SetU64 f' labels' n :: ops' =>
      gauge f labels ops' (if bool_decide (f' = f /\ labels' = labels) then Some (GaugeU64 n) else old)
  | SetF64 f' labels' v :: ops' =>
      gauge f labels ops' (if bool_decide (f' = f /\ labels' = labels) then Some (GaugeF64 v) else old)
  | _ :: ops' => gauge f labels ops' old
  end.

(** ** Facts *)

Definition op_family (o : MetricOp) : Family * list string :=
  match o with IncBy f l _ | SetU64 f l _ | SetF64 f l _ | Observe f l _ => (f, l) end.

(** An operation gives a value for each label of its family; with another number of
    values the library panics. *)
Definition op_labelled (o : MetricOp) : Prop := length (op_family o).2 = length (family_labels (op_family o).1).

Lemma counter_app f l a b : counter f l (a ++ b) = counter f l a + counter f l b.
Proof. induction a as [|[] a IH]; cbn [app counter]; rewrite ?IH; lia. Qed.

Lemma gauge_app f l a b old : gauge f l (a ++ b) old = gauge f l b (gauge f l a old).
Proof. revert old. induction a as [|[] a IH]; intros old; cbn [app gauge]; by rewrite ?IH. Qed.

Lemma observations_app f l a b : observations f l (a ++ b) = observations f l a ++ observations f l b.
Proof. induction a as [|[] a IH]; cbn [app observations]; rewrite ?IH, ?(assoc_L (++)); done. Qed.

(** Operations on other series leave a gauge alone. *)
Lemma gauge_other f l ops old : Forall (fun o => op_family o <> (f, l)) ops -> gauge f l ops old = old.
Proof.
  intros Ho. revert old. induction Ho as [|o ops Hf _ IH]; intros old; [done|].
  destruct o; cbn [gauge op_family] in *; rewrite ?IH; try done; rewrite bool_decide_eq_false_2; try done; intros [-> ->]; done.
Qed.

(** What a gauge ends at depends on what it was only when nothing set it. *)
Lemma gauge_again f l ops old : gauge f l ops (gauge f l ops old) = gauge f l ops old.
Proof.
  assert (forall a b, gauge f l ops a = gauge f l ops b \/ (gauge f l ops a = a /\ gauge f l ops b = b)) as Hg.
  { induction ops as [|o ops IH]; intros a b; [by right|]. destruct o; cbn [gauge]; try apply IH; case_bool_decide; auto. }
  by destruct (Hg (gauge f l ops old) old) as [|[? ?]].
Qed.

(** The families: each is registered once, under a name and with label names of the form
    Prometheus asks for, and the buckets increase. *)
Definition name_char (a : Ascii.ascii) : bool :=
  let n := Ascii.nat_of_ascii a in ((97 <=? n) && (n <=? 122) || (n =? 95) || (48 <=? n) && (n <=? 57))%nat.

Lemma families_are_well_formed :
  (forall f, f ∈ map (fun e => e.1.1) family_table) /\ NoDup (map (fun e => e.1.1) family_table) /\
  NoDup (map (fun e => e.1.2) family_table) /\
  Forall (fun e => forallb name_char (String.list_ascii_of_string e.1.2) = true /\ NoDup e.2 /\ ~ "le"%string ∈ e.2) family_table /\
  StronglySorted Z.lt BLOCK_TXS_BUCKETS /\ StronglySorted Z.lt LATENCY_BUCKETS_MS.
Proof.
  split_and!.
  - intros f. apply (bool_decide_unpack _). by destruct f; vm_compute.
  - apply (bool_decide_unpack _). by vm_compute.
  - apply (bool_decide_unpack _). by vm_compute.
  - apply (bool_decide_unpack _). by vm_compute.
  - repeat (constructor; [|repeat (constructor; [lia|]); constructor]). constructor.
  - repeat (constructor; [|repeat (constructor; [lia|]); constructor]). constructor.
Qed.

(** Every operation of the recorder gives its family the labels it was registered with. *)
Lemma recorder_is_labelled variant class kind outcome result stats b n k ds :
  Forall op_labelled (run_started n) /\ Forall op_labelled (run_finished outcome) /\
  Forall op_labelled (set_variant_active variant b) /\ Forall op_labelled (inc_submitted variant n) /\
  Forall op_labelled (inc_error variant class) /\ Forall op_labelled (observe_confirmed_block variant n k) /\
  Forall op_labelled (observe_latency_repeated variant kind n k) /\ Forall op_labelled (observe_latencies variant kind ds) /\
  Forall op_labelled (inc_reads variant b n k) /\ Forall op_labelled (set_result_latency variant kind stats) /\
  Forall op_labelled (record_result result).
Proof.
  assert (forall kind stats, Forall op_labelled (set_result_latency variant kind stats)) as Hl by (intros; by repeat constructor).
  assert (forall A (o : option A) g, (forall a, Forall op_labelled (g a)) -> Forall op_labelled (set_some o g)) as Ho
    by (intros A [] g Hg; [apply Hg|constructor]).
  split_and!; try by repeat constructor.
  - by apply Forall_replicate.
  - unfold observe_latencies. induction ds as [|d ds IH]; [constructor|]. by constructor.
  - unfold inc_reads. constructor; [done|]. case_match; by repeat constructor.
  - unfold record_result. repeat (constructor; [done|]). rewrite !Forall_app. split_and!; apply Ho; intros; by repeat constructor.
Qed.

(** A result shows in its own variant's gauges only. *)
Lemma record_result_variant result f v l old :
  v <> sr_variant result -> gauge f (v :: l) (record_result result) old = old.
Proof.
  intros Hv. apply gauge_other.
  assert (forall A (o : option A) g, (forall a, Forall (fun o => op_family o <> (f, v :: l)) (g a)) ->
    Forall (fun o => op_family o <> (f, v :: l)) (set_some o g)) as Ho by (intros A [] g Hg; [apply Hg|constructor]).
  unfold record_result. repeat (constructor; [cbn; congruence|]). rewrite !Forall_app.
  split_and!; apply Ho; intros; repeat (constructor; [cbn; congruence|]); constructor.
Qed.

(** Recording a result a second time changes no gauge. *)
Lemma record_result_again result f l old :
  gauge f l (record_result result ++ record_result result) old = gauge f l (record_result result) old.
Proof. by rewrite gauge_app, gauge_again. Qed.

(** A figure the latest result of a variant lacks keeps the value of an earlier one,
    whatever the family's description says of the last run. *)
Lemma missing_figure_keeps_old_gauge result old :
  reads_per_sec result = None -> gauge result_reads_per_sec [sr_variant result] (record_result result) old = old.
Proof.
  intros Hr. apply gauge_other. unfold record_result. rewrite Hr.
  repeat (constructor; [done|]). rewrite !Forall_app.
  split_and!; match goal with |- Forall _ (set_some ?o _) => destruct o eqn:? end;
    first [congruence | repeat (constructor; [cbn; congruence|]); constructor].
Qed.

(** The metrics of two confirmed blocks, of four runs, and of a batch of reads. *)
Example confirmed_block_families :
  let ops := observe_confirmed_block "1KB" 500 512000 ++ observe_confirmed_block "1KB" 0 0 in
  counter tx_confirmed ["1KB"%string] ops = 500 /\ counter blocks_observed ["1KB"%string] ops = 2 /\
  length (observations block_txs ["1KB"%string] ops) = 2%nat.
Proof. by vm_compute. Qed.

Example run_outcome_series :
  let ops := run_finished RunOk ++ run_finished RunOk ++ run_finished RunFailed ++ run_finished RunCancelled in
  counter runs ["ok"%string] ops = 2 /\ counter runs ["failed"%string] ops = 1 /\ counter runs ["cancelled"%string] ops = 1.
Proof. by vm_compute. Qed.

Lemma repeated_latency_series variant kind duration count :
  0 <= count ->
  len (observations latency [variant; kind_label kind] (observe_latency_repeated variant kind duration count)) = count.
Proof.
  intros Hc. unfold observe_latency_repeated. rewrite <-(Z2Nat.id count Hc) at 2. induction (Z.to_nat count) as [|n IH]; [done|].
  cbn [replicate observations]. rewrite bool_decide_eq_true_2 by done. rewrite len_app, IH. unfold len. cbn [length]. lia.
Qed.
End Recorder.
