(* ===== verification/CommandLine.v ===== *)
(** The stress-test tool's command line ([main.rs]): the addresses it works with, what each
    command runs, how results are stamped and flushed, and the loop of runs with its
    metrics.  What a scenario returns, whether a connection comes up and when Ctrl+C is
    seen are arguments. *)

From S2P Require Import Prelude Slice Primitives Types StressPlan Submission Upload Scenarios ReadLoad Bitswap Telemetry.

(** ** Addresses *)

(** The URLs of [--ws-url]; the first is the one used for control, and none is a panic. *)
Definition ws_urls (ws_url : string) : list string :=
  List.filter (fun s => negb (bool_decide (s = ""%string))) (map (fun s => trim_end (trim_start s)) (split_commas ws_url "")).

Definition control_url (ws_url : string) : option string := head (ws_urls ws_url).

(** [resolve_p2p_multiaddrs], given the parser of addresses and their peer; [discovered]
    is the node's own peer and addresses. *)
Section Resolve.
Context {Addr Peer : Type}.
Variable parse : string -> option Addr.
Variable peer_id : Addr -> option Peer.

Definition checked_addr (addr : string) : option Addr :=
  ma ← parse (clean_multiaddr addr);
  _ ← peer_id ma;
  Some ma.

Definition discovered_addr (peer : string) (addresses : list string) : option string :=
  raw ← match List.find (fun a => str_contains a "/ws") addresses with Some a => Some a | None => head addresses end;
  Some (if str_contains raw "/p2p/" then raw else (raw +:+ "/p2p/" +:+ peer)%string).

Definition resolve_p2p_multiaddrs (p2p_multiaddr : list string) (discovered : option (string * list string)) : option (list Addr) :=
  match p2p_multiaddr with
  | _ :: _ => mapM checked_addr p2p_multiaddr
  | [] =>
      '(peer, addresses) ← discovered;
      raw ← discovered_addr peer addresses;
      ma ← checked_addr raw;
      Some [ma]
  end.
End Resolve.

(** ** Commands *)

Inductive Command :=
| Throughput (test : string) (variants : option string) (total_size chunk_size instances : Z)
| BitswapReads (test : string) (payload_size read_size read_concurrency min_size max_size batch_size : Z)
| Renew (store_count chunk_size target_blocks : Z)
| HopLoads (scenario : string) (items : Z) (payload_size : option Z) (concurrency recipients duration : Z)
| Full.

Record Cli := mkCli {
  command : Command;
  iterations : Z;
  submitters : Z;
  cli_target_blocks : Z;
  iteration_blocks : Z;
  mix_seed : option Z;
  output_file : option string;
  loop_interval_secs : option Z }.

(** A scenario with what it is given of the arguments. *)
Inductive ScenarioCall :=
| BlockCapacity (submitters target_blocks iteration_blocks : Z) (variants : option string) (mix_seed : option Z)
| SequentialUpload (total_size chunk_size instances : Z)
| B2Sweep (item_count payload_size : Z)
| BulkReads (target_bytes concurrency min_size max_size batch_size : Z)
| HopSweep (scenario : string) (items : Z) (payload_size : option Z) (concurrency recipients duration : Z)
| RenewStress (store_count chunk_size target_blocks : Z).

(** [run_throughput] and [run_bitswap]: the scenario of a test name. *)
Definition throughput_call (cli : Cli) (test : string) (variants : option string) (total_size chunk_size instances : Z)
    : option ScenarioCall :=
  if bool_decide (test = "block-capacity"%string) || bool_decide (test = "all"%string)
  then Some (BlockCapacity (submitters cli) (cli_target_blocks cli) (iteration_blocks cli) variants (mix_seed cli))
  else if bool_decide (test = "sequential-upload"%string) then Some (SequentialUpload total_size chunk_size instances)
  else None.

Definition clamp (lo hi x : Z) : Z := Z.max lo (Z.min hi x).

Definition bitswap_call (cli : Cli) (test : string) (payload_size read_size read_concurrency min_size max_size batch_size : Z)
    : option ScenarioCall :=
  if bool_decide (test = "b2"%string) then Some (B2Sweep (iterations cli) payload_size)
  else if bool_decide (test = "bulk-read"%string)
  then Some (BulkReads read_size read_concurrency min_size max_size (clamp 1 16 batch_size))
  else None.

(** What is authorized for the HOP submitter. *)
Definition HOP_SUBMITTER_TRANSACTIONS : Z := u32_max.
Definition HOP_SUBMITTER_BYTES : Z := 1024 * 1024 * 1024.

Section Runs.
Context `{FigureHost}.

(** What a run meets: the node's answers before the scenarios, whether a P2P address
    resolves and the HOP submitter is authorized, what each scenario leaves (its results
    in order and whether it succeeded), and what it queried. *)
Record World := mkWorld {
  setup_ok : bool;
  p2p_resolved : bool;
  hop_authorized : bool;
  perform : ScenarioCall -> list ScenarioResult * bool;
  w_limits : ChainLimits;
  w_environment : EnvironmentInfo }.

(** The results of a run, the metrics recorded, the output file's content and the calls
    made. *)
Record RunState := mkRunState {
  all_results : list ScenarioResult;
  recorded : list MetricOp;
  file : option (list ScenarioResult);
  called : list ScenarioCall }.

Definition run_empty : RunState := mkRunState [] [] None [].

Fixpoint map_last {A} (f : A -> A) (l : list A) : list A :=
  match l with [] => [] | [x] => [f x] | x :: l' => x :: map_last f l' end.

(** The closure [flush]. *)
Definition flush (cli : Cli) (w : World) (st : RunState) : RunState :=
  let results := map_last (stamp (w_limits w) (w_environment w)) (all_results st) in
  mkRunState results
    (recorded st ++ match last results with Some r => record_result r | None => [] end)
    (match output_file cli with Some _ => Some results | None => file st end)
    (called st).

Definition push_result (r : ScenarioResult) (st : RunState) : RunState :=
  mkRunState (all_results st ++ [r]) (recorded st) (file st) (called st).

Definition note_call (c : ScenarioCall) (st : RunState) : RunState :=
  mkRunState (all_results st) (recorded st) (file st) (called st ++ [c]).

(** Each result is pushed and flushed. *)
Definition deliver (cli : Cli) (w : World) (rs : list ScenarioResult) (st : RunState) : RunState :=
  foldl (fun st r => flush cli w (push_result r st)) st rs.

(** A scenario that delivers as it goes; one whose results come back at the end. *)
Definition streaming (cli : Cli) (w : World) (c : option ScenarioCall) (st : RunState) : RunState * bool :=
  match c with
  | None => (st, false)
  | Some c => (deliver cli w (perform w c).1 (note_call c st), (perform w c).2)
  end.

Definition returning (cli : Cli) (w : World) (c : option ScenarioCall) (st : RunState) : RunState * bool :=
  match c with
  | None => (st, false)
  | Some c => (deliver cli w (if (perform w c).2 then (perform w c).1 else []) (note_call c st), (perform w c).2)
  end.

(** Bitswap tests are skipped, whatever their name, when no address resolves. *)
Definition run_bitswap (cli : Cli) (w : World) (c : option ScenarioCall) (st : RunState) : RunState * bool :=
  if p2p_resolved w then returning cli w c st else (st, true).

Definition run_hop (cli : Cli) (w : World) (c : ScenarioCall) (st : RunState) : RunState * bool :=
  if hop_authorized w then streaming cli w (Some c) st else (st, false).

(** The command: the state it leaves and whether it succeeded.  [cancelled k] is the flag
    at its [k]-th look; the parts of "full" run in order until one fails or the flag is
    set. *)
Definition run_command (cli : Cli) (w : World) (cancelled : nat -> bool) (st : RunState) : RunState * bool :=
  match command cli with
  | Throughput test variants total_size chunk_size instances =>
      streaming cli w (throughput_call cli test variants total_size chunk_size instances) st
  | BitswapReads test payload_size read_size read_concurrency min_size max_size batch_size =>
      run_bitswap cli w (bitswap_call cli test payload_size read_size read_concurrency min_size max_size batch_size) st
  | HopLoads scenario items payload_size concurrency recipients duration =>
      run_hop cli w (HopSweep scenario items payload_size concurrency recipients duration) st
  | Renew store_count chunk_size target_blocks =>
      streaming cli w (Some (RenewStress store_count chunk_size target_blocks)) st
  | Full =>
      let '(st, ok) := streaming cli w (throughput_call cli "block-capacity" None (20 * 1024 * 1024) (32 * 1024) 1) st in
      let '(st, ok) := if ok && negb (cancelled 0%nat)
                       then run_bitswap cli w (bitswap_call cli "b2" (128 * 1024) (1024 * 1024 * 1024) 16 0 (16 * 1024 * 1024) 1) st
                       else (st, ok) in
      if ok && negb (cancelled 1%nat) then run_hop cli w (HopSweep "all" 100 None 4 10 30) st else (st, ok)
  end.

(** [run_once]: a run that was cancelled flushes once more and is no error. *)
Definition run_once (cli : Cli) (w : World) (cancelled : nat -> bool) : RunState * bool :=
  if negb (setup_ok w) then (run_empty, false) else
  let '(st, ok) := run_command cli w cancelled run_empty in
  if cancelled 2%nat then (flush cli w st, true) else (st, ok).

(** ** The loop of runs *)

(** What the process meets in one turn of the loop. *)
Record Turn := mkTurn {
  cancelled_before : bool;
  started_at : Z;
  world : World;
  cancelled_during : nat -> bool;
  cancelled_after : bool;
  cancelled_asleep : bool }.

Inductive ProcessEnd := Exit130 | Returned (ok : bool) | Running.

(** [main]'s loop: the metrics of the process, in order, and how it ends; [Running] when
    the turns are used up. *)
Fixpoint main_loop (cli : Cli) (turns : list Turn) : list MetricOp * ProcessEnd :=
  match turns with
  | [] => ([], Running)
  | t :: turns' =>
      if cancelled_before t then ([], Exit130) else
      let '(st, ok) := run_once cli (world t) (cancelled_during t) in
      let ops := run_started (started_at t) ++ recorded st in
      if cancelled_after t then (ops ++ run_finished RunCancelled, Exit130) else
      let ops := ops ++ run_finished (if ok then RunOk else RunFailed) in
      match loop_interval_secs cli with
      | None => (ops, Returned ok)
      | Some _ =>
          if cancelled_asleep t then (ops, Exit130) else
          let '(ops', e) := main_loop cli turns' in (ops ++ ops', e)
      end
  end.
End Runs.

(** ** Facts: addresses *)

Section ResolveFacts.
Context {Addr Peer : Type}.
Variable parse : string -> option Addr.
Variable peer_id : Addr -> option Peer.

Lemma checked_addr_peer s ma : checked_addr parse peer_id s = Some ma -> is_Some (peer_id ma).
Proof.
  unfold checked_addr. destruct (parse _) as [a|]; [|done]. cbn. destruct (peer_id a) eqn:E; [|done].
  intros [= <-]. by rewrite E.
Qed.

(** Resolved addresses are some, and each has its peer. *)
Lemma resolved_have_peers p2p discovered addrs :
  resolve_p2p_multiaddrs parse peer_id p2p discovered = Some addrs ->
  addrs <> [] /\ Forall (fun a => is_Some (peer_id a)) addrs.
Proof.
  unfold resolve_p2p_multiaddrs. destruct p2p as [|s p2p].
  - destruct discovered as [[peer addresses]|]; [|done]. cbn [mbind option_bind].
    destruct (discovered_addr _ _) as [raw|]; [|done]. cbn [mbind option_bind].
    destruct (checked_addr _ _ raw) as [ma|] eqn:E; [|done]. intros [= <-]. split; [done|].
    apply Forall_singleton. by eapply checked_addr_peer.
  - intros Hm. split.
    + intros ->. apply mapM_Some_1 in Hm. by inversion Hm.
    + apply mapM_Some_1 in Hm. induction Hm; constructor; [by eapply checked_addr_peer|done].
Qed.

(** So a bulk read over them fails to get its workers only when nothing connects. *)
Lemma resolved_addresses_connect p2p discovered addrs connect concurrency :
  resolve_p2p_multiaddrs parse peer_id p2p discovered = Some addrs ->
  (exists ps, bulk_clients addrs peer_id connect concurrency = Ok ps) \/
  (bulk_clients addrs peer_id connect concurrency = Err NoClients /\
   forall i, 0 <= i < concurrency -> connect i = false).
Proof.
  intros [Hne Hp]%resolved_have_peers. assert (0 < len addrs) as Hl by (destruct addrs; [done|unfold len; cbn [length]; lia]).
  assert (forall l, exists ps, connect_workers addrs peer_id connect l = Ok ps /\ (ps = [] -> Forall (fun i => connect i = false) l)) as Hc.
  { induction l as [|i l (ps & IH & He)]; [by exists []|]. cbn [connect_workers]. rewrite (proj2 (Z.eqb_neq _ _)) by lia.
    destruct (lookup_lt_is_Some_2 addrs (Z.to_nat (i mod len addrs))) as [a Ea].
    { pose proof (Z.mod_pos_bound i (len addrs) Hl). unfold len in *. lia. }
    rewrite Ea. cbn [mbind option_bind]. destruct (Forall_lookup_1 _ _ _ _ Hp Ea) as [p ->].
    rewrite IH. cbn [result_map]. eexists. split; [done|]. destruct (connect i) eqn:Ei; [done|]. intros ->. constructor; [done|by apply He]. }
  destruct (Hc (seqZ 0 concurrency)) as (ps & E & He). unfold bulk_clients. rewrite E.
  destruct ps as [|p ps]; [right|left; by eexists]. split; [done|]. intros i Hi. specialize (He eq_refl).
  rewrite Forall_forall in He. apply He, elem_of_seqZ. lia.
Qed.
End ResolveFacts.

(** The batches of a bulk read from the command line are of one to sixteen items. *)
Lemma bulk_batches_are_clamped cli test p rs rc lo hi b target conc lo' hi' b' :
  bitswap_call cli test p rs rc lo hi b = Some (BulkReads target conc lo' hi' b') -> 1 <= b' <= 16.
Proof. unfold bitswap_call, clamp. repeat case_match; intros [=]; lia. Qed.

(** ** Facts: runs *)

Section RunFacts.
Context `{FigureHost}.

Definition stamped (r : ScenarioResult) : Prop := is_Some (chain_limits r) /\ is_Some (environment r).

(** Every result is stamped, and the file holds them all. *)
Record RunDelivered (cli : Cli) (st : RunState) : Prop := {
  ro_stamped : Forall stamped (all_results st);
  ro_file : is_Some (output_file cli) -> all_results st <> [] -> file st = Some (all_results st) }.

Lemma map_last_snoc {A} (f : A -> A) l x : map_last f (l ++ [x]) = l ++ [f x].
Proof. induction l as [|y l IH]; [done|]. cbn [app map_last]. rewrite IH. by destruct l. Qed.

Lemma stamp_stamped limits env r : stamped (stamp limits env r).
Proof. by split; eexists. Qed.

Lemma stamp_again limits env r : stamped r -> stamp limits env r = r.
Proof. destruct r. by intros [[? Hl] [? He]]; cbn in *; subst. Qed.

Lemma flush_stamped cli w st : Forall stamped (all_results st) -> all_results (flush cli w st) = all_results st.
Proof.
  intros Hs. unfold flush. cbn [all_results]. destruct (all_results st) as [|r l] using rev_ind; [done|].
  rewrite map_last_snoc. f_equal. apply Forall_app in Hs as [_ Hr]. rewrite stamp_again; [done|]. by inversion Hr.
Qed.
Lemma deliver_step cli w r st : RunDelivered cli st -> RunDelivered cli (flush cli w (push_result r st)).
Proof.
  intros [Hs _]. unfold flush, push_result. cbn [all_results]. rewrite map_last_snoc. constructor; cbn [all_results file].
  - apply Forall_app. split; [done|]. apply Forall_singleton, stamp_stamped.
  - intros [path ->]. done.
Qed.

Lemma deliver_ok cli w rs st :
  RunDelivered cli st ->
  RunDelivered cli (deliver cli w rs st) /\
  length (all_results (deliver cli w rs st)) = (length (all_results st) + length rs)%nat.
Proof.
  unfold deliver. revert st. induction rs as [|r rs IH]; intros st Hs; [cbn; split_and!; [done|lia]|]. cbn [foldl].
  destruct (IH (flush cli w (push_result r st))) as (? & Hl); [by apply deliver_step|].
  split; [done|]. rewrite Hl. unfold flush, push_result. cbn [all_results].
  rewrite map_last_snoc, length_app. cbn. lia.
Qed.

Lemma called_deliver cli w rs st : called (deliver cli w rs st) = called st.
Proof. unfold deliver. revert st. induction rs as [|r rs IH]; intros st; [done|]. cbn [foldl]. by rewrite IH. Qed.

(** What a part of a command does: it delivers, and makes at most its own call. *)
Definition part_ok cli (c : option ScenarioCall) (st : RunState) (r : RunState * bool) : Prop :=
  RunDelivered cli r.1 /\
  ((called r.1 = called st /\ all_results r.1 = all_results st) \/ exists c', c = Some c' /\ called r.1 = called st ++ [c']).

Lemma streaming_ok cli w c st : RunDelivered cli st -> part_ok cli c st (streaming cli w c st).
Proof.
  intros Hs. unfold streaming. destruct c as [c|]; [|by split; [|left]].
  destruct (deliver_ok cli w (perform w c).1 (note_call c st)) as [Hd _]; [by destruct Hs|].
  split; cbn [fst]; [done|right]. exists c. by rewrite called_deliver.
Qed.

Lemma returning_ok cli w c st : RunDelivered cli st -> part_ok cli c st (returning cli w c st).
Proof.
  intros Hs. unfold returning. destruct c as [c|]; [|by split; [|left]].
  destruct (deliver_ok cli w (if (perform w c).2 then (perform w c).1 else []) (note_call c st)) as [Hd _]; [by destruct Hs|].
  split; cbn [fst]; [done|right]. exists c. by rewrite called_deliver.
Qed.

Lemma bitswap_ok cli w c st : RunDelivered cli st -> part_ok cli c st (run_bitswap cli w c st).
Proof. intros Hs. unfold run_bitswap. destruct (p2p_resolved w); [by apply returning_ok|by split; [|left]]. Qed.

Lemma hop_ok cli w c st : RunDelivered cli st -> part_ok cli (Some c) st (run_hop cli w c st).
Proof. intros Hs. unfold run_hop. destruct (hop_authorized w); [by apply streaming_ok|by split; [|left]]. Qed.

(** The parts of "full". *)
Definition full_calls (cli : Cli) : list ScenarioCall :=
  [BlockCapacity (submitters cli) (cli_target_blocks cli) (iteration_blocks cli) None (mix_seed cli);
   B2Sweep (iterations cli) (128 * 1024); HopSweep "all" 100 None 4 10 30].

Lemma part_delivered cli c st r : part_ok cli c st r -> RunDelivered cli r.1.
Proof. by intros [? _]. Qed.

Lemma part_called cli c st r : part_ok cli (Some c) st r -> called r.1 = called st \/ called r.1 = called st ++ [c].
Proof. intros [_ [[? _]|(c' & [= <-] & ?)]]; auto. Qed.

Lemma command_delivers cli w cancelled st : RunDelivered cli st -> RunDelivered cli (run_command cli w cancelled st).1.
Proof.
  intros Hs. unfold run_command. destruct (command cli); try by (eapply part_delivered, streaming_ok).
  - by eapply part_delivered, bitswap_ok.
  - by eapply part_delivered, hop_ok.
  - destruct (streaming cli w _ st) as [st1 ok1] eqn:E1.
    assert (RunDelivered cli st1) as H1 by (change st1 with (st1, ok1).1; rewrite <-E1; by eapply part_delivered, streaming_ok).
    set (r2 := if ok1 && _ then _ else _). assert (RunDelivered cli r2.1) as H2.
    { unfold r2. destruct (_ && _); [by eapply part_delivered, bitswap_ok|done]. }
    destruct r2 as [st2 ok2]. destruct (_ && _); [by eapply part_delivered, hop_ok|done].
Qed.

(** Whatever happens in a run, each result it leaves carries the chain's limits and the
    environment, and the output file, once there is a result, holds every result. *)
Lemma run_delivers cli w cancelled : RunDelivered cli (run_once cli w cancelled).1.
Proof.
  assert (RunDelivered cli run_empty) as He by (constructor; [constructor|by intros _ []]).
  unfold run_once. destruct (setup_ok w); cbn [negb]; [|done].
  pose proof (command_delivers cli w cancelled _ He) as Hd. destruct (run_command _ _ _ _) as [st ok]. cbn [fst] in Hd.
  destruct (cancelled 2%nat); [|done]. cbn [fst]. destruct Hd as [Hs Hf].
  constructor; rewrite ?flush_stamped by done; [done|]. intros [path Hp] Hne. unfold flush. cbn [file]. rewrite Hp.
  f_equal. by apply (flush_stamped cli w st).
Qed.

(** "full" runs its parts in order, each at most once; when nothing fails, is skipped or
    cancelled it runs all. *)
Lemma full_runs_in_order cli w cancelled :
  command cli = Full ->
  sublist (called (run_once cli w cancelled).1) (full_calls cli) /\
  (setup_ok w = true -> p2p_resolved w = true -> hop_authorized w = true -> (forall c, (perform w c).2 = true) ->
   (forall k, cancelled k = false) ->
   called (run_once cli w cancelled).1 = full_calls cli /\ (run_once cli w cancelled).2 = true).
Proof.
  intros Hc. assert (RunDelivered cli run_empty) as He by (constructor; [constructor|by intros _ []]).
  split.
  - assert (sublist (called (run_command cli w cancelled run_empty).1) (full_calls cli)) as Hs.
    { unfold run_command. rewrite Hc.
      pose proof (streaming_ok cli w (throughput_call cli "block-capacity" None (20 * 1024 * 1024) (32 * 1024) 1) _ He) as H1.
      pose proof (part_delivered _ _ _ _ H1) as D1. apply part_called in H1. destruct (streaming _ _ _ _) as [st1 ok1]. cbn [fst] in *.
      set (r2 := if ok1 && _ then _ else _).
      assert (RunDelivered cli r2.1 /\ (called r2.1 = called st1 \/ called r2.1 = called st1 ++ [B2Sweep (iterations cli) (128 * 1024)])) as [D2 H2].
      { unfold r2. destruct (_ && _); [|by split; [|left]].
        pose proof (bitswap_ok cli w (bitswap_call cli "b2" (128 * 1024) (1024 * 1024 * 1024) 16 0 (16 * 1024 * 1024) 1) _ D1) as H2.
        split; [by eapply part_delivered|by apply part_called in H2]. }
      destruct r2 as [st2 ok2]. cbn [fst] in *.
      set (r3 := if ok2 && _ then _ else _).
      assert (called r3.1 = called st2 \/ called r3.1 = called st2 ++ [HopSweep "all" 100 None 4 10 30]) as H3.
      { unfold r3. destruct (_ && _); [|by left]. eapply part_called. by apply hop_ok. }
      unfold full_calls. cbn [called run_empty] in H1.
      destruct H1 as [H1|H1], H2 as [H2|H2], H3 as [H3|H3]; rewrite H3, H2, H1; cbn [app];
        repeat (apply sublist_skip || apply sublist_nil_l || apply sublist_cons). }
    unfold run_once. destruct (setup_ok w); cbn [negb]; [|apply sublist_nil_l].
    destruct (run_command _ _ _ _) as [st ok]. by destruct (cancelled 2%nat).
  - intros Hu Hp Hh Ha Hn. unfold run_once, run_command. rewrite Hu, Hc, Hn. cbn [negb].
    change (throughput_call cli "block-capacity" None (20 * 1024 * 1024) (32 * 1024) 1)
      with (Some (BlockCapacity (submitters cli) (cli_target_blocks cli) (iteration_blocks cli) None (mix_seed cli))).
    change (bitswap_call cli "b2" (128 * 1024) (1024 * 1024 * 1024) 16 0 (16 * 1024 * 1024) 1)
      with (Some (B2Sweep (iterations cli) (128 * 1024))).
    unfold run_bitswap, run_hop, streaming, returning. rewrite Hp, Hh, !Ha, !Hn. cbn [andb negb fst snd].
    split; [|done]. by repeat (rewrite called_deliver; cbn [note_call called]).
Qed.

(** ** Facts: the loop of runs *)

(** An operation on a family other than the ones a run's lifecycle keeps. *)
Definition off_lifecycle (o : MetricOp) : Prop := (op_family o).1 <> runs /\ (op_family o).1 <> run_in_progress.

Lemma record_off_lifecycle r : Forall off_lifecycle (record_result r).
Proof.
  assert (forall A (o : option A) g, (forall a, Forall off_lifecycle (g a)) -> Forall off_lifecycle (set_some o g)) as Ho
    by (intros A [] g Hg; [apply Hg|constructor]).
  unfold record_result. repeat (constructor; [by split|]). rewrite !Forall_app.
  split_and!; apply Ho; intros; repeat (constructor; [by split|]); constructor.
Qed.

Lemma counter_off l ops : Forall off_lifecycle ops -> counter runs l ops = 0.
Proof.
  induction 1 as [|o ops [Hr _] _ IH]; [done|]. destruct o; cbn [counter op_family fst] in *; try done.
  rewrite bool_decide_eq_false_2, IH by (intros [-> _]; done). done.
Qed.

Lemma gauge_off ops old : Forall off_lifecycle ops -> gauge run_in_progress [] ops old = old.
Proof.
  intros Ho. apply gauge_other. eapply Forall_impl; [exact Ho|]. intros o [_ Hp] He. apply Hp. by rewrite He.
Qed.

(** What [flush] records, it records of results. *)
Lemma flush_off cli w st : Forall off_lifecycle (recorded st) -> Forall off_lifecycle (recorded (flush cli w st)).
Proof.
  intros Hs. unfold flush. cbn [recorded]. apply Forall_app. split; [done|].
  destruct (last _); [apply record_off_lifecycle|constructor].
Qed.

Lemma deliver_off cli w rs st : Forall off_lifecycle (recorded st) -> Forall off_lifecycle (recorded (deliver cli w rs st)).
Proof.
  unfold deliver. revert st. induction rs as [|r rs IH]; intros st Hs; [done|]. cbn [foldl]. apply IH, flush_off. done.
Qed.

Lemma run_once_off cli w cancelled : Forall off_lifecycle (recorded (run_once cli w cancelled).1).
Proof.
  assert (Forall off_lifecycle (recorded (run_command cli w cancelled run_empty).1)) as Hc.
  { assert (forall c st, Forall off_lifecycle (recorded st) -> Forall off_lifecycle (recorded (streaming cli w c st).1)) as Hs
      by (intros [c|] st Hs; [by apply deliver_off|done]).
    assert (forall c st, Forall off_lifecycle (recorded st) -> Forall off_lifecycle (recorded (run_bitswap cli w c st).1)) as Hb
      by (intros c st Hb; unfold run_bitswap; destruct (p2p_resolved w), c; try done; by apply deliver_off).
    assert (forall c st, Forall off_lifecycle (recorded st) -> Forall off_lifecycle (recorded (run_hop cli w c st).1)) as Hh
      by (intros c st Hh; unfold run_hop; destruct (hop_authorized w); [by apply Hs|done]).
    assert (Forall off_lifecycle (recorded run_empty)) as He by constructor.
    unfold run_command. destruct (command cli); auto.
    destruct (streaming cli w _ run_empty) as [st1 ok1] eqn:E1.
    assert (Forall off_lifecycle (recorded st1)) as H1 by (change st1 with (st1, ok1).1; rewrite <-E1; auto).
    set (r2 := if ok1 && _ then _ else _). assert (Forall off_lifecycle (recorded r2.1)) as H2 by (unfold r2; destruct (_ && _); auto).
    destruct r2 as [st2 ok2]. destruct (_ && _); auto. }
  unfold run_once. destruct (setup_ok w); [|constructor]. cbn [negb].
  destruct (run_command _ _ _ _) as [st ok]. destruct (cancelled 2%nat); [by apply flush_off|done].
Qed.

(** How many turns the loop starts, and how it labels each. *)
Fixpoint outcomes (cli : Cli) (turns : list Turn) : list RunOutcome :=
  match turns with
  | [] => []
  | t :: turns' =>
      if cancelled_before t then [] else
      if cancelled_after t then [RunCancelled] else
      (if (run_once cli (world t) (cancelled_during t)).2 then RunOk else RunFailed) ::
      match loop_interval_secs cli with
      | None => []
      | Some _ => if cancelled_asleep t then [] else outcomes cli turns'
      end
  end.

Definition outcome_count (o : RunOutcome) (l : list RunOutcome) : Z :=
  total_of (fun x => if bool_decide (outcome_label x = outcome_label o) then 1 else 0) l.

Lemma finished_counts o x : counter runs [outcome_label o] (run_finished x) = if bool_decide (outcome_label x = outcome_label o) then 1 else 0.
Proof. by destruct o, x. Qed.

Lemma turn_counts cli t x o ops :
  counter runs [outcome_label o]
    ((run_started (started_at t) ++ recorded (run_once cli (world t) (cancelled_during t)).1) ++ run_finished x ++ ops) =
  (if bool_decide (outcome_label x = outcome_label o) then 1 else 0) + counter runs [outcome_label o] ops.
Proof. rewrite !counter_app, finished_counts, (counter_off _ (recorded _)) by apply run_once_off. cbn [run_started counter]. lia. Qed.

Lemma turn_gauge cli t x old ops :
  gauge run_in_progress []
    ((run_started (started_at t) ++ recorded (run_once cli (world t) (cancelled_during t)).1) ++ run_finished x ++ ops) old =
  gauge run_in_progress [] ops (Some (GaugeU64 0)).
Proof. by rewrite !gauge_app. Qed.

(** The loop counts each run it starts under its outcome, once; no run is in progress
    when it ends or waits; a failed run never ends a process that is to run forever, and
    only a process that is not returns. *)
Lemma main_loop_counts cli turns :
  (forall o, counter runs [outcome_label o] (main_loop cli turns).1 = outcome_count o (outcomes cli turns)) /\
  (forall old, gauge run_in_progress [] (main_loop cli turns).1 old = match outcomes cli turns with [] => old | _ => Some (GaugeU64 0) end) /\
  (forall ok, (main_loop cli turns).2 = Returned ok -> loop_interval_secs cli = None) /\
  (is_Some (loop_interval_secs cli) ->
   Forall (fun t => cancelled_before t = false /\ cancelled_after t = false /\ cancelled_asleep t = false) turns ->
   (main_loop cli turns).2 = Running /\ length (outcomes cli turns) = length turns).
Proof.
  induction turns as [|t turns (IH1 & IH2 & IH3 & IH4)]; [by split_and!|].
  cbn [main_loop outcomes].
  destruct (cancelled_before t) eqn:Eb; [split_and!; try done; intros _ Hf; apply Forall_cons in Hf as [[? _] _]; congruence|].
  pose proof (turn_counts cli t) as Ht. pose proof (turn_gauge cli t) as Hg.
  destruct (run_once cli (world t) (cancelled_during t)) as [st ok]. cbn [fst snd] in *.
  destruct (cancelled_after t) eqn:Ea.
  { cbn [fst snd]. split_and!; try done.
    - intros o. specialize (Ht RunCancelled o []). rewrite app_nil_r in Ht. rewrite Ht. unfold outcome_count. cbn [total_of counter]. done.
    - intros old. specialize (Hg RunCancelled old []). by rewrite app_nil_r in Hg.
    - intros _ Hf; apply Forall_cons in Hf as [[_ [? _]] _]; congruence. }
  set (x := if ok then RunOk else RunFailed) in *.
  assert (forall o, counter runs [outcome_label o] ((run_started (started_at t) ++ recorded st) ++ run_finished x) =
    outcome_count o [x]) as Hc by (intros o; specialize (Ht x o []); rewrite app_nil_r in Ht; by rewrite Ht).
  assert (forall old, gauge run_in_progress [] ((run_started (started_at t) ++ recorded st) ++ run_finished x) old = Some (GaugeU64 0)) as Hz
    by (intros old; specialize (Hg x old []); by rewrite app_nil_r in Hg).
  destruct (loop_interval_secs cli) as [secs|] eqn:El; [|cbn [fst snd]; by split_and!; try (intros [? ?])].
  destruct (cancelled_asleep t) eqn:Es.
  { cbn [fst snd]. split_and!; try done. intros _ Hf; apply Forall_cons in Hf as [(_ & _ & ?) _]; congruence. }
  destruct (main_loop cli turns) as [ops e]. cbn [fst snd] in *. split_and!.
  - intros o. rewrite counter_app, Hc, IH1. unfold outcome_count. cbn [total_of]. lia.
  - intros old. rewrite gauge_app, Hz, IH2. by destruct (outcomes cli turns).
  - done.
  - intros Hi Hf. apply Forall_cons in Hf as [_ Hf]. destruct (IH4 Hi Hf) as [-> Hl]. split; [done|]. cbn [length]. by rewrite Hl.
Qed.
End RunFacts.
