(* ===== verification/Currency.v ===== *)
(** [NoCurrency] of [pallets/common]: the currency of the runtimes that hold no balances,
    method by method, and its zero imbalance.  The types of the token traits belong to
    FRAME and are parameters. *)

From S2P Require Import Prelude Slice Primitives Types.

(** What the traits' signatures use of FRAME. *)
Class FrameTokens := {
  DispatchErr : Type;
  DepositConsequence : Type;
  DepositSuccess : DepositConsequence;
  WithdrawConsequence : Type;
  WithdrawSuccess : WithdrawConsequence;
  SameOrOther : Type -> Type -> Type;
  SameOrOther_None : forall A B, SameOrOther A B;
  SignedImbalance : Type -> Type -> Type;
  SignedImbalance_zero : forall A B, SignedImbalance A B }.

(** ** The imbalance *)

(** [ZeroImbalance<u128>]: no content. *)
Record ZeroImbalance := mkZeroImbalance {}.

Module Zero_imbalance.
Section ZeroImbalance.
Context `{FrameTokens}.

Definition zero : ZeroImbalance := mkZeroImbalance.
Definition split (self : ZeroImbalance) (amount : Z) : ZeroImbalance * ZeroImbalance := (zero, zero).
Definition merge (self other : ZeroImbalance) : ZeroImbalance := zero.
Definition subsume (self other : ZeroImbalance) : ZeroImbalance := self.
Definition offset (self other : ZeroImbalance) : SameOrOther ZeroImbalance ZeroImbalance := SameOrOther_None _ _.
Definition peek (self : ZeroImbalance) : Z := 0.
Definition drop_zero (self : ZeroImbalance) : result ZeroImbalance unit := Ok tt.
(** [extract]: what is taken, and what is left in [self]. *)
Definition extract (self : ZeroImbalance) (amount : Z) : ZeroImbalance * ZeroImbalance := (zero, self).
Definition try_drop (self : ZeroImbalance) : result ZeroImbalance unit := Ok tt.
Definition try_merge (self other : ZeroImbalance) : result (ZeroImbalance * ZeroImbalance) ZeroImbalance := Ok zero.
End ZeroImbalance.
End Zero_imbalance.

(** ** The traits of [fungible] *)

Module NoCurrency.
Section NoCurrency.
Context `{FrameTokens} {HoldReason : Type}.
Implicit Types (who source dest : AccountId) (amount value : Z) (reason : HoldReason).

Definition fungible_total_issuance : Z := 0.
Definition fungible_minimum_balance : Z := 0.
Definition fungible_total_balance who : Z := 0.
Definition balance who : Z := 0.
Definition reducible_balance {Preservation Fortitude : Type} who (preservation : Preservation) (force : Fortitude) : Z := 0.
Definition can_deposit {Provenance : Type} who amount (provenance : Provenance) : DepositConsequence := DepositSuccess.
Definition can_withdraw who amount : WithdrawConsequence := WithdrawSuccess.
(** [Unbalanced]: writing a balance leaves no dust and changes nothing. *)
Definition handle_dust {Dust : Type} (dust : Dust) : unit := tt.
Definition write_balance who amount : result DispatchErr (option Z) := Ok None.
Definition set_total_issuance amount : unit := tt.
(** Holds. *)
Definition total_balance_on_hold who : Z := 0.
Definition balance_on_hold reason who : Z := 0.
Definition set_balance_on_hold reason who amount : result DispatchErr unit := Ok tt.

(** ** [Currency] *)

Definition currency_total_balance who : Z := 0.
Definition can_slash who value : bool := false.
Definition currency_total_issuance : Z := 0.
Definition currency_minimum_balance : Z := 0.
Definition burn amount : ZeroImbalance := Zero_imbalance.zero.
Definition issue amount : ZeroImbalance := Zero_imbalance.zero.
Definition free_balance who : Z := 0.
Definition ensure_can_withdraw {Reasons : Type} who amount (reasons : Reasons) (new_balance : Z) : result DispatchErr unit := Ok tt.
Definition transfer {Existence : Type} source dest value (existence_requirement : Existence) : result DispatchErr unit := Ok tt.
Definition slash who value : ZeroImbalance * Z := (Zero_imbalance.zero, 0).
Definition deposit_into_existing who value : result DispatchErr ZeroImbalance := Ok Zero_imbalance.zero.
Definition deposit_creating who value : ZeroImbalance := Zero_imbalance.zero.
Definition withdraw {Reasons Existence : Type} who value (reasons : Reasons) (liveness : Existence)
    : result DispatchErr ZeroImbalance := Ok Zero_imbalance.zero.
Definition make_free_balance_be who amount : SignedImbalance ZeroImbalance ZeroImbalance := SignedImbalance_zero _ _.

(** ** [ReservableCurrency] *)

Definition can_reserve who value : bool := true.
Definition reserve who value : result DispatchErr unit := Ok tt.
Definition unreserve who value : Z := 0.
Definition slash_reserved who value : ZeroImbalance * Z := (Zero_imbalance.zero, 0).
Definition repatriate_reserved {Status : Type} (slashed beneficiary : AccountId) value (status : Status)
    : result DispatchErr Z := Ok 0.
Definition reserved_balance who : Z := 0.
End NoCurrency.
End NoCurrency.

(** ** Facts *)

Section Facts.
Context `{FrameTokens}.

(** Imbalances keep what they stand for: parts and sums of nothing are nothing. *)
Lemma zero_imbalance_conserves a b amount :
  let '(x, y) := Zero_imbalance.split a amount in
  let '(t, l) := Zero_imbalance.extract a amount in
  Zero_imbalance.peek x + Zero_imbalance.peek y = Zero_imbalance.peek a /\
  Zero_imbalance.peek t + Zero_imbalance.peek l = Zero_imbalance.peek a /\
  Zero_imbalance.peek (Zero_imbalance.merge a b) = Zero_imbalance.peek a + Zero_imbalance.peek b /\
  Zero_imbalance.peek (Zero_imbalance.subsume a b) = Zero_imbalance.peek a + Zero_imbalance.peek b /\
  (Zero_imbalance.peek a = 0 <-> Zero_imbalance.drop_zero a = Ok tt).
Proof. by split_and!. Qed.

(** The issuance is what the accounts own, however many there are: free, held and
    reserved balances add up, nothing can be slashed, and a withdrawal takes out what it
    returns as an imbalance. *)
Lemma no_currency_books (accounts : list AccountId) (who : AccountId) (reason : unit) value :
  NoCurrency.fungible_total_issuance = total_of NoCurrency.fungible_total_balance accounts /\
  NoCurrency.currency_total_issuance = total_of NoCurrency.currency_total_balance accounts /\
  NoCurrency.fungible_total_balance who = NoCurrency.balance who + NoCurrency.total_balance_on_hold who /\
  NoCurrency.currency_total_balance who = NoCurrency.free_balance who + NoCurrency.reserved_balance who /\
  NoCurrency.balance_on_hold reason who <= NoCurrency.total_balance_on_hold who /\
  Zero_imbalance.peek (NoCurrency.slash who value).1 = NoCurrency.fungible_total_balance who.
Proof.
  assert (total_of (fun _ : AccountId => 0) accounts = 0) as Ht by (induction accounts; [done|cbn [total_of]; lia]).
  split_and!; done || (symmetry; exact Ht).
Qed.
End Facts.
