(* ===== verification/Runtime.v ===== *)
(** The runtimes' configuration of the pallets
    ([runtimes/bulletin-paseo/src/storage.rs], [runtimes/bulletin-westend/src/storage.rs],
    the authorizer filters of their [xcm_config.rs], [paseo_constants.rs]) and the
    runtime APIs they expose ([lib.rs]). *)

From S2P Require Import Prelude Slice Primitives Types State Authorizations Blocks Retention Checks Renewal Hop Extension Chain.

(** The junctions of an XCM location, as far as the filters tell them apart. *)
Inductive BodyId := Technical | OtherBody (code : bytes).
Inductive BodyPart := Voice | OtherPart (code : bytes).
Inductive Junction :=
| Parachain (id : Z)
| Plurality (id : BodyId) (part : BodyPart)
| OtherJunction (encoded : bytes).

#[global] Instance BodyId_eq_dec : EqDecision BodyId.
Proof. solve_decision. Defined.

(** Code outside the repository: how an XCM origin's location unpacks into its
    parents and junctions, and the keyring account the test network lists. *)
Class XcmHost := {
  unpack : bytes -> Z * list Junction;
  alice : AccountId;
}.

(** [time::{MINUTES, HOURS, DAYS}] of [paseo_constants.rs]. *)
Definition MILLISECS_PER_BLOCK : Z := 6000.
Definition MINUTES : BlockNumber := 60000 / MILLISECS_PER_BLOCK.
Definition HOURS : BlockNumber := MINUTES * 60.
Definition DAYS : BlockNumber := HOURS * 24.

Definition DEFAULT_MAX_TRANSACTION_SIZE : Z := 2 * 1024 * 1024.
Definition DEFAULT_MAX_BLOCK_TRANSACTIONS : Z := 512.

(** [frame_support::traits::EitherOf]. *)
Definition EitherOf {A} (l r : RuntimeOrigin -> option A) (o : RuntimeOrigin) : option A :=
  match l o with Some x => Some x | None => r o end.

Definition EnsureRoot (o : RuntimeOrigin) : option unit :=
  if ensure_root o then Some tt else None.

(** [EnsureXcm<F>]. *)
Definition EnsureXcm (filter : bytes -> bool) (o : RuntimeOrigin) : option bytes :=
  match o with
  | ForeignOrigin location => if filter location then Some location else None
  | _ => None
  end.

(** [EnsureSignedBy<Who>]. *)
Definition EnsureSignedBy (members : list AccountId) (o : RuntimeOrigin) : option AccountId :=
  match o with
  | System (Signed who) => if bool_decide (who ∈ members) then Some who else None
  | _ => None
  end.

Section Runtimes.
Context `{XcmHost}.

(** [IsAuthorizerParachain::contains]; the list is storage-backed. *)
Definition IsAuthorizerParachain (AllowedParachainIds : list Z) (location : bytes) : bool :=
  match unpack location with
  | (1, [Parachain id]) => bool_decide (id ∈ AllowedParachainIds)
  | _ => false
  end.

(** [IsSiblingParachain::contains]. *)
Definition IsSiblingParachain (location : bytes) : bool :=
  match unpack location with (1, [Parachain _]) => true | _ => false end.

(** [ParentOrParentsPlurality::contains]. *)
Definition ParentOrParentsPlurality (location : bytes) : bool :=
  match unpack location with (1, []) | (1, [Plurality _ _]) => true | _ => false end.

(** [IsGovernanceLocation::contains]; the list is storage-backed. *)
Definition IsGovernanceLocation (GovernanceParachainIds : list Z) (location : bytes) : bool :=
  match unpack location with
  | (1, [Parachain id]) => bool_decide (id ∈ GovernanceParachainIds)
  | _ => false
  end.

(** [IsGovernanceVoiceOfBody<B>::contains]. *)
Definition IsGovernanceVoiceOfBody (GovernanceParachainIds : list Z) (body : BodyId) (location : bytes) : bool :=
  match unpack location with
  | (1, [Parachain id; Plurality body_id Voice]) =>
      bool_decide (body_id = body) && bool_decide (id ∈ GovernanceParachainIds)
  | _ => false
  end.

Definition COLLECTIVES_ID : Z := 1001.

(** [FellowsPlurality::contains]. *)
Definition FellowsPlurality (location : bytes) : bool :=
  match unpack location with
  | (1, [Parachain id; Plurality Technical _]) => id =? COLLECTIVES_ID
  | _ => false
  end.

(** The defaults of the storage-backed lists. *)
Definition default_AllowedParachainIds : list Z := [1502; 5140].
Definition default_GovernanceParachainIds : list Z := [1500].

(** The locations [Barrier] of Paseo lets execute without paying. *)
Definition paseo_unpaid_execution (GovernanceParachainIds AllowedParachainIds : list Z) (location : bytes) : bool :=
  ParentOrParentsPlurality location || FellowsPlurality location
  || IsGovernanceLocation GovernanceParachainIds location
  || IsAuthorizerParachain AllowedParachainIds location.

(** [CollatorSelectionUpdateOrigin] of Paseo. *)
Definition CollatorSelectionUpdateOrigin (GovernanceParachainIds : list Z) (StakingAdminBodyId : BodyId)
    (o : RuntimeOrigin) : bool :=
  ensure_root o ||
  match EnsureXcm (IsGovernanceVoiceOfBody GovernanceParachainIds StakingAdminBodyId) o with
  | Some _ => true | None => false end.

Definition EXTRA_AUTHORIZER : AccountId := map byte_of_Z [
  0xb6; 0x45; 0x5b; 0xc5; 0x38; 0x36; 0x5d; 0x32; 0xd3; 0x29; 0x67; 0xb6; 0xf2; 0x1a; 0x0c; 0x9b;
  0x07; 0x15; 0x65; 0xe8; 0x78; 0xfe; 0x98; 0x5f; 0x88; 0xd1; 0x54; 0x3c; 0xb1; 0x99; 0x1a; 0x7d].

(** [TestAccounts::sorted_members], as a set. *)
Definition TestAccounts : list AccountId := [alice; EXTRA_AUTHORIZER].

Definition CLEANUP_PRIORITY : Z := u64_max.
Definition STORE_PRIORITY : Z := u64_max / 4.
Definition TX_LONGEVITY : Z := DAYS.

Definition runtime_StoreTxParams : ValidTransactionParams :=
  params_new "TransactionStorageStore" STORE_PRIORITY TX_LONGEVITY.
Definition runtime_RenewTxParams : ValidTransactionParams :=
  params_new "TransactionStorageRenew" STORE_PRIORITY TX_LONGEVITY.
Definition runtime_AuthorizeTxParams : ValidTransactionParams :=
  params_new "TransactionStorageAuthorize" STORE_PRIORITY TX_LONGEVITY.
Definition runtime_RemoveExpiredAccountAuthorizationTxParams : ValidTransactionParams :=
  params_new "TransactionStorageRemoveExpiredAccountAuthorization" CLEANUP_PRIORITY TX_LONGEVITY.
Definition runtime_RemoveExpiredPreimageAuthorizationTxParams : ValidTransactionParams :=
  params_new "TransactionStorageRemoveExpiredPreimageAuthorization" CLEANUP_PRIORITY TX_LONGEVITY.
Definition runtime_RemoveExhaustedAuthorizerTxParams : ValidTransactionParams :=
  params_new "TransactionStorageRemoveExhaustedAuthorizer" CLEANUP_PRIORITY TX_LONGEVITY.
Definition runtime_PromoteTxParams : ValidTransactionParams := params_new "HopPromotion" 0 5.

Definition runtime_SubmitTimestampTolerance : Z := 48 * 60 * 60 * 1000.
Definition MAX_PERMANENT_STORAGE_SIZE : Z := 17 * 1024 * 1024 * 1024 * 1024 / 10.

(** The authorizer origins of the two runtimes. *)
Definition paseo_Authorizer (AllowedParachainIds : list Z) (s : State)
    : RuntimeOrigin -> option (option AuthorizationOrigin) :=
  EitherOf
    (EitherOf (AsAuthorizer EnsureRoot)
       (AsAuthorizer (EnsureXcm (IsAuthorizerParachain AllowedParachainIds))))
    (EnsureAllowedAuthorizers s).

Definition westend_Authorizer (s : State)
    : RuntimeOrigin -> option (option AuthorizationOrigin) :=
  EitherOf
    (EitherOf
       (EitherOf (AsAuthorizer EnsureRoot) (AsAuthorizer (EnsureXcm IsSiblingParachain)))
       (AsAuthorizer (EnsureSignedBy TestAccounts)))
    (EnsureAllowedAuthorizers s).

(** A [parameter_types!] storage parameter of type [u64]: what is stored under its key
    when that decodes, its default otherwise. *)
Definition storage_u64 (key : string) (seed : Z) (parameters : gmap string bytes) : Z :=
  match parameters !! key with
  | Some raw => if 8 <=? len raw then le_value (take 8 raw) else seed
  | None => seed
  end.

(** The [Config] impls of a runtime, given its authorizer origin and its
    permanent-storage cap, which may depend on the parameters in storage. *)
Definition runtime_config (auth : State -> RuntimeOrigin -> option (option AuthorizationOrigin))
    (cap : gmap string bytes -> Z) : Config := {|
  MaxBlockTransactions := DEFAULT_MAX_BLOCK_TRANSACTIONS;
  MaxTransactionSize := DEFAULT_MAX_TRANSACTION_SIZE;
  AuthorizationPeriod := 14 * DAYS;
  AuthorizerRegistrarOrigin := ensure_root;
  Authorizer := auth;
  StoreTxParams := runtime_StoreTxParams;
  AuthorizeTxParams := runtime_AuthorizeTxParams;
  RemoveExpiredAccountAuthorizationTxParams := runtime_RemoveExpiredAccountAuthorizationTxParams;
  RemoveExpiredPreimageAuthorizationTxParams := runtime_RemoveExpiredPreimageAuthorizationTxParams;
  RemoveExhaustedAuthorizerTxParams := runtime_RemoveExhaustedAuthorizerTxParams;
  MaxPermanentStorageSize := cap;
  RenewTxParams := runtime_RenewTxParams;
  SubmitTimestampTolerance := runtime_SubmitTimestampTolerance;
  PromoteTxParams := runtime_PromoteTxParams |}.

(** Paseo's cap is storage-backed (the source seeds it with
    [MAX_PERMANENT_STORAGE_SIZE]), Westend's a constant. *)
Definition paseo_config (AllowedParachainIds : list Z) (seed : Z) : Config :=
  runtime_config (paseo_Authorizer AllowedParachainIds) (storage_u64 "MaxPermanentStorageSize" seed).

Definition westend_config : Config :=
  runtime_config westend_Authorizer (fun _ => MAX_PERMANENT_STORAGE_SIZE).
End Runtimes.

(** ** Runtime APIs *)

(** [sp_transaction_storage_proof::IndexedTransactionInfo]. *)
Record IndexedTransactionInfo := mkIndexed {
  ix_content_hash : ContentHash;
  ix_size : Z;
  ix_hashing : HashingAlgorithm;
  ix_cid_codec : CidCodec;
  ix_extrinsic_index : Z }.

Section Apis.
Context `{Host} `{Config}.

(** [TransactionStorageApi::retention_period]. *)
Definition api_retention_period (s : State) : BlockNumber := retention_period s.

(** [TransactionStorageApi::indexed_transactions]. *)
Definition indexed_transactions (s : State) (block : BlockNumber) : list IndexedTransactionInfo :=
  match transactions_at s block with
  | Some txs => map (fun tx : TransactionInfoFor =>
      mkIndexed (ti_content_hash tx) (ti_size tx) (ti_hashing tx) (ti_cid_codec tx)
        (ti_extrinsic_index tx)) txs
  | None => []
  end.

(** [BulletinTransactionStorageApi]. *)
Definition account_authorization (s : State) (account : AccountId) : option AccountAuthorization :=
  match get_active_authorization s (Account account) with
  | Some auth => Some (to_account_authorization auth (bytes_permanent (extra (extent auth))))
  | None => None
  end.

Definition api_can_store (s : State) (account : AccountId) (data_len : Z) : bool :=
  can_store s account data_len.

Definition api_can_renew (s : State) (account : AccountId) (entry : TransactionRef) : bool :=
  can_renew s account entry.

(** [HopRuntimeApi]. *)
Definition api_can_account_promote (s : State) (who : AccountId) (data_len : Z) : bool :=
  can_account_promote s who data_len.
Definition max_promotion_size : Z := MaxTransactionSize.
Definition api_is_promoted_on_chain (s : State) (h : ContentHash) : bool :=
  is_promoted_on_chain s h.
End Apis.

(** ** The configurations keep the laws *)

Section RuntimeFacts.
Context `{XcmHost}.

Lemma storage_u64_range key seed p : is_u64 seed -> is_u64 (storage_u64 key seed p).
Proof.
  intros Hs. unfold storage_u64. destruct (p !! key) as [raw|]; [|done].
  destruct (8 <=? len raw) eqn:E; [|done]. b2p. pose proof (le_value_nonneg (take 8 raw)).
  pose proof (le_value_bound (take 8 raw)) as Hb. unfold len in E. rewrite length_take_le in Hb by lia.
  unfold is_u64, u64_max. simpl in Hb. lia.
Qed.

#[export] Instance runtime_config_laws auth cap (Hcap : forall p, is_u64 (cap p)) :
  @ConfigLaws (runtime_config auth cap).
Proof.
  constructor; try exact Hcap; unfold is_u64 in Hcap; simpl; unfold DEFAULT_MAX_BLOCK_TRANSACTIONS,
    DEFAULT_MAX_TRANSACTION_SIZE, u32_max, DAYS, HOURS, MINUTES, MILLISECS_PER_BLOCK; try done; lia.
Qed.

(** A full block of maximal blobs has 512 * 8192 chunks. *)
Lemma runtime_chunk_capacity `{HostLaws} auth cap :
  CHUNK_SIZE = 256 -> @ChunkCapacity _ (runtime_config auth cap).
Proof.
  intros Hc. unfold ChunkCapacity. rewrite num_chunks_spec.
  - by rewrite Hc.
  - unfold is_u32, u32_max. simpl. unfold DEFAULT_MAX_TRANSACTION_SIZE. lia.
Qed.

Lemma allowed_authorizers_law s o ctx :
  EnsureAllowedAuthorizers s o = Some (Some ctx) ->
  exists b, AllowedAuthorizers (ts s) !! authorizer ctx = Some b /\
            ao_valid_until ctx = valid_until b.
Proof.
  unfold EnsureAllowedAuthorizers. destruct o as [[]| |]; try done.
  destruct (AllowedAuthorizers (ts s) !! who) as [b|] eqn:E; [|done].
  destruct (negb _); intros [= <-]. by exists b.
Qed.

#[export] Instance paseo_authorizer_laws ids cap : @AuthorizerLaws (paseo_config ids cap).
Proof.
  intros s o ctx. simpl. unfold paseo_Authorizer, EitherOf, AsAuthorizer.
  destruct (EnsureRoot o); [done|]. destruct (EnsureXcm _ o); [done|].
  apply allowed_authorizers_law.
Qed.

#[export] Instance westend_authorizer_laws : @AuthorizerLaws westend_config.
Proof.
  intros s o ctx. simpl. unfold westend_Authorizer, EitherOf, AsAuthorizer.
  destruct (EnsureRoot o); [done|]. destruct (EnsureXcm _ o); [done|].
  destruct (EnsureSignedBy _ o); [done|]. apply allowed_authorizers_law.
Qed.
End RuntimeFacts.
