(* ===== verification/Benchmarks.v ===== *)
(** The benchmarks of the three pallets ([benchmarking.rs]): each sets a state up, makes
    the call whose weight is measured, and asserts what it left.  A benchmark that fails
    measures nothing; the facts prove that each passes on every configuration the pallets
    accept, from the state a benchmark starts in.  The origins FRAME finds, its
    whitelisted account and the proof compiled in are parameters. *)

From S2P Require Import Prelude Slice Primitives Types State Authorizations Blocks Retention Checks Renewal RenewalFacts Hop Extension ExtensionFacts Chain Codec Weights Migrations Runtime.

(** How a benchmark ends early. *)
Inductive BenchmarkError :=
| Stop (msg : string)
| CallError (e : DispatchError)
| InvalidTransaction (e : TransactionValidityError)
| AssertionFailed
| Panicked.

Abbreviation B := (M State BenchmarkError).

#[export] Instance storage_event_eq_dec : EqDecision StorageEvent.
Proof. solve_decision. Defined.
#[export] Instance renewal_event_eq_dec : EqDecision RenewalEvent.
Proof. solve_decision. Defined.
#[export] Instance runtime_event_eq_dec : EqDecision RuntimeEvent.
Proof. solve_decision. Defined.

(** ** Steps of a benchmark *)

(** [map_err(|_| BenchmarkError::Stop(..))?]. *)
Definition or_stop {A} (msg : string) (m : MD A) : B A := map_err (fun _ => Stop msg) m.

(** [try_successful_origin]: it may write the storage its origin needs. *)
Definition TryOrigin := State -> option RuntimeOrigin * State.

Definition lift_origin (origin : TryOrigin) (msg : string) : B RuntimeOrigin := fun s =>
  let '(o, s') := origin s in (ok_or o (Stop msg), s').
Definition origin_or_stop (origin : TryOrigin) : B RuntimeOrigin := lift_origin origin "unable to compute origin".

(** [EnsureAllowedAuthorizers::try_successful_origin]: an authorizer there is
    ([iter_keys] finds it), or one it registers. *)
Definition EnsureAllowedAuthorizers_try_successful_origin
    (first_key : gmap AccountId AuthorizerBudget -> option AccountId) (new : AccountId) : TryOrigin := fun s =>
  match first_key (AllowedAuthorizers (ts s)) with
  | Some existing => (Some (System (Signed existing)), s)
  | None =>
      (Some (System (Signed new)),
       upd_AllowedAuthorizers <[new := mkBudget (Some (mkQuota 10000 100000)) None false]> s)
  end.

(** [set_block_number]. *)
Definition set_block_number (n : BlockNumber) : State -> State :=
  upd_sys (fun y => mkSystem n (extrinsic_index y) (parent_hash y) (genesis_hash y) (timestamp_now y) (parameters y) (dec_providers y)).

(** Before what is measured FRAME leaves block 0, in which no event is deposited. *)
Definition leave_block_zero (s : State) : State := if now s =? 0 then set_block_number 1 s else s.

(** The measured call. *)
Definition extrinsic_call {A} (m : MD A) : B A :=
  do! modify leave_block_zero in map_err CallError (dispatch m).

Definition assert (b : State -> bool) : B unit := fun s => if b s then (Ok tt, s) else (Err AssertionFailed, s).

Definition assert_last_event (e : RuntimeEvent) : B unit := assert (fun s => bool_decide (last (events s) = Some e)).

Definition hook (f : State -> option State) : B unit := fun s =>
  match f s with Some s' => (Ok tt, s') | None => (Err Panicked, s) end.

Section Benchmarks.
Context `{Host} `{Config} `{HopHost}.

(** The pallets' hooks of one block, in their order. *)
Section RunToBlock.
Context `{OnObsoleteTransactions}.
Variable finalize : State -> option State.

Fixpoint run_blocks (blocks : nat) : B unit :=
  match blocks with
  | O => ret tt
  | S blocks' =>
      do! hook finalize in
      do! modify (fun s => set_block_number (now s + 1) s) in
      do! modify (fun s => on_initialize (now s) s) in
      run_blocks blocks'
  end.

(** [run_to_block]. *)
Definition run_to_block (n : BlockNumber) : B unit := fun s => run_blocks (Z.to_nat (n - now s)) s.
End RunToBlock.

(** ** The helper of the runtimes *)

Class BenchmarkHelper := {
  encoded_check_proof : bytes -> option bytes;
  worst_case_entry_meta : EntryKind;
  register_worst_case_entry : ContentHash -> State -> State }.

(** The proof compiled in, in hexadecimal digits. *)
Definition DEFAULT_CHECK_PROOF : string := foldr String.append EmptyString [
  "0104000000000000000000000000000000000000000000000000000000000000000000000000000000000000000000000000";
  "0000000000000000000000000000000000000000000000000000000000000000000000000000000000000000000000000000";
  "0000000000000000000000000000000000000000000000000000000000000000000000000000000000000000000000000000";
  "0000000000000000000000000000000000000000000000000000000000000000000000000000000000000000000000000000";
  "0000000000000000000000000000000000000000000000000000000000000000000000000000000000000000000000000000";
  "00000000000000000ccd0780ffff0080f771032825c1fc9bea83a6e0f8a3733464780a2b5bb2e5d3055c04a28e313ad980f7";
  "71032825c1fc9bea83a6e0f8a3733464780a2b5bb2e5d3055c04a28e313ad980f771032825c1fc9bea83a6e0f8a373346478";
  "0a2b5bb2e5d3055c04a28e313ad980f771032825c1fc9bea83a6e0f8a3733464780a2b5bb2e5d3055c04a28e313ad980f771";
  "032825c1fc9bea83a6e0f8a3733464780a2b5bb2e5d3055c04a28e313ad980f771032825c1fc9bea83a6e0f8a3733464780a";
  "2b5bb2e5d3055c04a28e313ad980f771032825c1fc9bea83a6e0f8a3733464780a2b5bb2e5d3055c04a28e313ad980f77103";
  "2825c1fc9bea83a6e0f8a3733464780a2b5bb2e5d3055c04a28e313ad980f771032825c1fc9bea83a6e0f8a3733464780a2b";
  "5bb2e5d3055c04a28e313ad980f771032825c1fc9bea83a6e0f8a3733464780a2b5bb2e5d3055c04a28e313ad980f7710328";
  "25c1fc9bea83a6e0f8a3733464780a2b5bb2e5d3055c04a28e313ad980f771032825c1fc9bea83a6e0f8a3733464780a2b5b";
  "b2e5d3055c04a28e313ad980f771032825c1fc9bea83a6e0f8a3733464780a2b5bb2e5d3055c04a28e313ad980f771032825";
  "c1fc9bea83a6e0f8a3733464780a2b5bb2e5d3055c04a28e313ad980f771032825c1fc9bea83a6e0f8a3733464780a2b5bb2";
  "e5d3055c04a28e313ad9ad03803333008041038b346937eae08686bc2166a94e8ebcad3aac044655f5e016556efab6451780";
  "10fd81bc1359802f0b871aeb95e4410a8ec92b93af10ea767a2027cf4734e8de8041038b346937eae08686bc2166a94e8ebc";
  "ad3aac044655f5e016556efab645178010fd81bc1359802f0b871aeb95e4410a8ec92b93af10ea767a2027cf4734e8de8041";
  "038b346937eae08686bc2166a94e8ebcad3aac044655f5e016556efab645178010fd81bc1359802f0b871aeb95e4410a8ec9";
  "2b93af10ea767a2027cf4734e8de8041038b346937eae08686bc2166a94e8ebcad3aac044655f5e016556efab64517084000"].

Section Helpers.
Variable hex2bytes_unchecked : string -> bytes.

(** [DefaultCheckProofHelper]: the proof fits one configuration and one hash, which it
    asserts; its entry hooks do nothing. *)
Definition default_encoded_check_proof (random_hash : bytes) : option bytes :=
  if (MaxTransactionSize =? DEFAULT_MAX_TRANSACTION_SIZE) && (MaxBlockTransactions =? DEFAULT_MAX_BLOCK_TRANSACTIONS)
     && bool_decide (random_hash = replicate 32 Byte.x00)
  then Some (hex2bytes_unchecked DEFAULT_CHECK_PROOF) else None.

Definition DefaultCheckProofHelper : BenchmarkHelper :=
  {| encoded_check_proof := default_encoded_check_proof;
     worst_case_entry_meta := EntryKind_default;
     register_worst_case_entry _ s := s |}.

(** [RenewalBenchmarkHelper], whose owner is [account("renewal_owner", 0, 0)]. *)
Definition RenewalBenchmarkHelper (owner : AccountId) : BenchmarkHelper :=
  {| encoded_check_proof := default_encoded_check_proof;
     worst_case_entry_meta := meta_renew;
     register_worst_case_entry content_hash := upd_Renewals <[content_hash := mkRenewalData owner true false]> |}.
End Helpers.

(** ** The storage pallet *)

Variable whitelisted_caller : AccountId.
Variables authorizer_origin registrar_origin : TryOrigin.

Definition none_origin : RuntimeOrigin := System NoneOrigin.
Definition zeros (n : Z) : bytes := replicate (Z.to_nat n) Byte.x00.

Definition bench_store (l : Z) : B unit :=
  let data := zeros l in
  do! extrinsic_call (store none_origin data) in
  do! assert (fun s => negb (bool_decide (BlockTransactions (ts s) = []))) in
  assert_last_event (StorageEv (Types.Stored 0 (blake2_256 data)
    (to_bytes (mkCidData (blake2_256 data) Blake2b256 RAW_CODEC)))).

Definition bench_store_with_cid_config (l : Z) : B unit :=
  let data := zeros l in
  do! extrinsic_call (store_with_cid_config none_origin (mkCidConfig RAW_CODEC Sha2_256) data) in
  do! assert (fun s => negb (bool_decide (BlockTransactions (ts s) = []))) in
  assert_last_event (StorageEv (Types.Stored 0 (sha2_256 data)
    (to_bytes (mkCidData (sha2_256 data) Sha2_256 RAW_CODEC)))).

Definition bench_authorize_account : B unit :=
  let! origin := origin_or_stop authorizer_origin in
  let who := whitelisted_caller in
  do! extrinsic_call (authorize_account origin who 10 (1024 * 1024)) in
  assert_last_event (StorageEv (AccountAuthorized who 10 (1024 * 1024))).

Definition bench_budget : AuthorizerBudget := mkBudget (Some (mkQuota 100 (10 * 1024 * 1024))) None false.

Definition bench_add_authorizer : B unit :=
  let! origin := origin_or_stop registrar_origin in
  do! extrinsic_call (add_authorizer origin whitelisted_caller bench_budget) in
  assert_last_event (StorageEv (AuthorizerAdded whitelisted_caller)).

Definition bench_remove_authorizer : B unit :=
  let! origin := origin_or_stop registrar_origin in
  do! or_stop "unable to add authorizer" (add_authorizer origin whitelisted_caller bench_budget) in
  do! extrinsic_call (remove_authorizer origin whitelisted_caller) in
  assert_last_event (StorageEv (AuthorizerRemoved whitelisted_caller)).

Definition bench_refresh_account_authorization : B unit :=
  let! origin := origin_or_stop authorizer_origin in
  do! or_stop "unable to authorize account" (authorize_account origin whitelisted_caller 0 (1024 * 1024)) in
  do! extrinsic_call (refresh_account_authorization origin whitelisted_caller) in
  assert_last_event (StorageEv (AccountAuthorizationRefreshed whitelisted_caller)).

Definition zero_hash : ContentHash := zeros 32.

Definition bench_authorize_preimage : B unit :=
  let! origin := origin_or_stop authorizer_origin in
  do! extrinsic_call (authorize_preimage origin zero_hash (1024 * 1024)) in
  assert_last_event (StorageEv (PreimageAuthorized zero_hash (1024 * 1024))).

Definition bench_refresh_preimage_authorization : B unit :=
  let! origin := origin_or_stop authorizer_origin in
  do! or_stop "unable to authorize account" (authorize_preimage origin zero_hash (1024 * 1024)) in
  do! extrinsic_call (refresh_preimage_authorization origin zero_hash) in
  assert_last_event (StorageEv (PreimageAuthorizationRefreshed zero_hash)).

(** The jump over the authorization period. *)
Definition skip_authorization_period : B unit :=
  modify (fun s => set_block_number (as_u32 (now s + AuthorizationPeriod)) s).

Definition bench_remove_expired_account_authorization : B unit :=
  let! origin := origin_or_stop authorizer_origin in
  do! or_stop "unable to authorize account" (authorize_account origin whitelisted_caller 0 1) in
  do! skip_authorization_period in
  do! extrinsic_call (remove_expired_account_authorization whitelisted_caller) in
  assert_last_event (StorageEv (ExpiredAccountAuthorizationRemoved whitelisted_caller)).

Definition bench_remove_expired_preimage_authorization : B unit :=
  let! origin := origin_or_stop authorizer_origin in
  do! or_stop "unable to authorize preimage" (authorize_preimage origin zero_hash 1) in
  do! skip_authorization_period in
  do! extrinsic_call (remove_expired_preimage_authorization zero_hash) in
  assert_last_event (StorageEv (ExpiredPreimageAuthorizationRemoved zero_hash)).

Definition bench_remove_exhausted_authorizer : B unit :=
  do! modify (upd_AllowedAuthorizers <[whitelisted_caller := mkBudget (Some (mkQuota 0 0)) None false]>) in
  do! extrinsic_call (remove_exhausted_authorizer whitelisted_caller) in
  assert_last_event (StorageEv (ExhaustedAuthorizerRemoved whitelisted_caller)).

(** [test_run]: validation and preparation around a dispatch that does nothing. *)
Definition test_run (L : LeafValidator) (who : AccountId) (c : RuntimeCall) : B unit :=
  do! modify leave_block_zero in
  map_err InvalidTransaction
    (let! '(_, val, _) := validate L (System (Signed who)) c in prepare L val c).

Definition bench_validate_store (l : Z) : B unit :=
  let! origin := origin_or_stop authorizer_origin in
  let bytes_allowance := as_u64 (l * 10) in
  do! or_stop "unable to authorize account" (authorize_account origin whitelisted_caller 0 bytes_allowance) in
  do! test_run StorageLeaves whitelisted_caller (TransactionStorage (CallStore (zeros l))) in
  do! assert (fun s => extent_bytes (account_authorization_extent s whitelisted_caller) =? l) in
  assert (fun s => Types.bytes_allowance (account_authorization_extent s whitelisted_caller) =? bytes_allowance).

Definition BENCH_RETENTION : BlockNumber := 10.

(** A block of clones of its first entry: [clone i t] is the [i]-th. *)
Definition clone_entries (n : Z) (clone : Z -> TransactionInfoFor -> TransactionInfoFor) (after : Z -> State -> State) : B unit :=
  let! template := (fun s => (ok_or (head (BlockTransactions (ts s)))
                                (Stop "first store did not populate BlockTransactions"), s)) in
  mfor (seqZ 1 (n - 1)) (fun i =>
    let! entries := gets (fun s => BlockTransactions (ts s)) in
    let! entries := lift (ok_or (try_push MaxBlockTransactions entries (clone i template))
                            (Stop "BlockTransactions overflow")) in
    do! modify (upd_BlockTransactions (fun _ => entries)) in
    modify (after i)).

Section Blocks.
Context `{OnObsoleteTransactions} `{BenchmarkHelper}.

(** [TransactionStorageProof::decode]. *)
Variable decode_proof : bytes -> option TransactionStorageProof.

Definition storage_finalize (s : State) : option State := on_finalize (now s) s.

Definition bench_apply_block_inherents (default_hash : bytes) : B unit :=
  do! modify (upd_RetentionPeriod (fun _ => BENCH_RETENTION)) in
  do! run_to_block storage_finalize 1 in
  do! map_err CallError (store none_origin (zeros MaxTransactionSize)) in
  do! clone_entries MaxBlockTransactions
        (fun i t => with_block_chunks (sat_mul u32_max (ti_block_chunks t) (i + 1)) t) (fun _ => id) in
  let! n := gets (fun s => retention_period s + 1) in
  do! run_to_block storage_finalize n in
  do! modify (upd_sys (fun y => mkSystem (block_number y) (extrinsic_index y) default_hash (genesis_hash y) (timestamp_now y) (parameters y) (dec_providers y))) in
  let! encoded := lift (ok_or (encoded_check_proof default_hash) Panicked) in
  let! proof := lift (ok_or (decode_proof encoded) Panicked) in
  do! extrinsic_call (apply_block_inherents none_origin (Some proof)) in
  assert (fun s => bool_decide (StorageEv ProofCheckedEvent ∈ events s)).

(** The [i]-th entry of the expiry sweep: a hash of its own, the worst case's meta. *)
Definition expiring_clone (i : Z) (t : TransactionInfoFor) : TransactionInfoFor :=
  mkInfo (ti_chunk_root t) (blake2_256 (le_bytes 4 i)) (ti_hashing t) (ti_cid_codec t) (ti_size t) (ti_extrinsic_index t)
    (sat_mul u32_max (ti_block_chunks t) (i + 1)) worst_case_entry_meta.

Definition register_clone (i : Z) (s : State) : State :=
  let h := blake2_256 (le_bytes 4 i) in
  register_worst_case_entry h (upd_TransactionByContentHash <[h := (1, i)]> s).

Definition bench_on_initialize_with_expiry (n : Z) : B unit :=
  do! modify (upd_RetentionPeriod (fun _ => BENCH_RETENTION)) in
  do! run_to_block storage_finalize 1 in
  do! (if 0 <? n then
         do! map_err CallError (store none_origin (zeros MaxTransactionSize)) in
         do! modify (fun s => match head (BlockTransactions (ts s)) with
                              | Some t => register_worst_case_entry (ti_content_hash t) s | None => s end) in
         clone_entries n expiring_clone register_clone
       else ret tt) in
  do! run_to_block storage_finalize (BENCH_RETENTION + 1) in
  do! modify (fun s => set_block_number (now s + 1) s) in
  do! modify (fun s => on_initialize (now s) s) in
  if 0 <? n then assert (fun s => bool_decide (Transactions_get s 1 = None)) else ret tt.
End Blocks.

(** ** The renewal pallet *)

(** Both pallets' [on_finalize], in the order of this pallet's [run_to_block]. *)
Definition renewal_then_storage_finalize (s : State) : option State :=
  match renewal_on_finalize s with Some s1 => on_finalize (now s1) s1 | None => None end.

Definition run_both_to_block (n : BlockNumber) : B unit :=
  run_to_block renewal_then_storage_finalize n.

(** [authorized_origin]. *)
Definition authorized_origin (who : AccountId) : RuntimeOrigin := OriginAuthorized who (Account who).

(** The largest store, in block 0. *)
Definition store_largest : B unit := map_err CallError (store none_origin (zeros MaxTransactionSize)).
Definition largest_hash : ContentHash := blake2_256 (zeros MaxTransactionSize).

Definition authorize_caller (who : AccountId) (transactions : Z) : B unit :=
  let! origin := origin_or_stop authorizer_origin in
  or_stop "unable to authorize account" (authorize_account origin who transactions (as_u64 (MaxTransactionSize * 10))).

Definition bench_renew : B unit :=
  do! store_largest in
  do! run_both_to_block 1 in
  do! extrinsic_call (renew (authorized_origin whitelisted_caller) (ByContentHash largest_hash)) in
  assert_last_event (RenewalEv (RenewalEnabled largest_hash whitelisted_caller false)).

Definition bench_force_renew : B unit :=
  do! store_largest in
  do! run_both_to_block 1 in
  do! extrinsic_call (force_renew none_origin (ByContentHash largest_hash)) in
  assert_last_event (RenewalEv (Renewed 0 largest_hash)).

Definition bench_enable_auto_renew : B unit :=
  do! authorize_caller whitelisted_caller 10 in
  do! store_largest in
  do! run_both_to_block 1 in
  do! extrinsic_call (enable_auto_renew (authorized_origin whitelisted_caller) largest_hash) in
  assert_last_event (RenewalEv (RenewalEnabled largest_hash whitelisted_caller true)).

Definition bench_disable_auto_renew : B unit :=
  do! authorize_caller whitelisted_caller 10 in
  do! store_largest in
  do! run_both_to_block 1 in
  do! or_stop "unable to enable auto-renew"
        (enable_auto_renew (authorized_origin whitelisted_caller) largest_hash) in
  do! modify (upd_Renewals (alter (fun d => mkRenewalData (rd_account d) (recurring d) false) largest_hash)) in
  do! extrinsic_call (disable_auto_renew (authorized_origin whitelisted_caller) largest_hash) in
  assert_last_event (RenewalEv (AutoRenewalDisabled largest_hash whitelisted_caller)).

Definition bench_validate_renew : B unit :=
  do! store_largest in
  do! run_both_to_block 1 in
  do! authorize_caller whitelisted_caller 0 in
  do! test_run RuntimeLeaves whitelisted_caller (DataRenewal (CallForceRenew (Position 0 0))) in
  do! assert (fun s => bytes_permanent (extra (account_authorization_extent s whitelisted_caller))
                       =? len (zeros MaxTransactionSize)) in
  assert (fun s => Types.bytes_allowance (account_authorization_extent s whitelisted_caller)
                   =? as_u64 (MaxTransactionSize * 10)).

(** [account("rn_caller", i, 0)]. *)
Variable rn_caller : Z -> AccountId.

Definition pending_hash (i : Z) : ContentHash := blake2_256 (le_bytes 4 i).
Definition pending_info (i : Z) : TransactionInfoFor :=
  mkInfo zero_hash (pending_hash i) Blake2b256 RAW_CODEC 1 0 0 EntryKind_default.
Definition pending_item (i : Z) : ContentHash * TransactionInfoFor * RenewalData :=
  (pending_hash i, pending_info i, mkRenewalData (rn_caller i) true false).

(** The queue is built aside and written once. *)
Fixpoint build_pending (indices : list Z) (pending : list (ContentHash * TransactionInfoFor * RenewalData))
    : B (list (ContentHash * TransactionInfoFor * RenewalData)) :=
  match indices with
  | [] => ret pending
  | i :: indices' =>
      do! authorize_caller (rn_caller i) 10 in
      let! pending := lift (ok_or (try_push MaxBlockTransactions pending (pending_item i))
                              (Stop "unable to push pending renewal")) in
      build_pending indices' pending
  end.

Definition bench_process_pending_renewals (n : Z) : B unit :=
  do! modify (set_block_number 1) in
  do! modify (set_extrinsic 0) in
  do! (if 0 <? n then
         let! pending := gets (fun s => PendingRenewals (dr s)) in
         let! pending := build_pending (seqZ 0 n) pending in
         modify (upd_PendingRenewals (fun _ => pending))
       else ret tt) in
  do! extrinsic_call (process_pending_renewals none_origin) in
  do! assert (fun s => bool_decide (PendingRenewals (dr s) = [])) in
  assert (fun s => block_transactions_count s =? n).

(** ** The HOP pallet *)

(** The benchmark's keystore: two keys, what the first signs, and the encoding of a list
    of recipients. *)
Variables signer_key recipient_key : MultiSigner.
Variable sr25519_sign : MultiSigner -> bytes -> option MultiSignature.
Variable encode_recipients : list MultiSigner -> bytes.

Definition BENCH_NOW : Z := 1700000000000.

Definition authorize_signer : B unit :=
  let! origin := lift_origin authorizer_origin "unable to compute authorizer origin" in
  or_stop "unable to authorize account" (authorize_account origin (into_account signer_key) 1 1).

Definition authorize_block (c : HopCall) : B unit :=
  do! modify leave_block_zero in
  map_err InvalidTransaction (fun s => (match authorize_hop SourceInBlock c s with Ok _ => Ok tt | Err e => Err e end, s)).

Definition bench_authorize_promote (d : Z) : B unit :=
  do! modify (set_timestamp BENCH_NOW) in
  do! authorize_signer in
  let data := zeros d in
  let payload := signing_payload (blake2_256 data) BENCH_NOW in
  let! sig := lift (ok_or (sr25519_sign signer_key payload) (Stop "unable to sign")) in
  authorize_block (CallPromote signer_key sig BENCH_NOW data).

Definition bench_authorize_promote_v2 (d : Z) : B unit :=
  do! modify (set_timestamp BENCH_NOW) in
  do! authorize_signer in
  let data := zeros d in
  let recipients_hash := blake2_256 (encode_recipients [recipient_key]) in
  let! genesis := gets (fun s => genesis_hash (sys s)) in
  let payload := signing_payload_v2 (blake2_256 data) BENCH_NOW genesis recipients_hash in
  let! sig := lift (ok_or (sr25519_sign signer_key payload) (Stop "unable to sign")) in
  authorize_block (CallPromoteV2 signer_key sig BENCH_NOW recipients_hash data).
End Benchmarks.

(** ** A step of the migration from layout v2 *)

Section MigrationBenchmark.
Context `{Host} `{StorageKeys} `{WeightHost} `{ScaleHost} `{Config}.
Context (required : Weight).

Definition v2_item (i : Z) : V2TransactionInfo :=
  mkV2Info (blake2_256 [byte_of_Z (i mod 256)]) (blake2_256 [byte_of_Z ((i mod 256 + 100) mod 256)]) Blake2b256 0x55
    2000000 ((i + 1) * 8).

Definition v2_items : list V2TransactionInfo := map v2_item (seqZ 0 MaxBlockTransactions).

(** One key, one step; then the entry reads in the live layout. *)
Definition bench_migrate_v2_to_v3_step (meter : WeightMeter) (s : Stored) : result BenchmarkError Stored :=
  let s := set_transactions (<[1 := enc v2_vec_codec v2_items]> (raw_Transactions s)) s in
  match step required None meter s with
  | Some (Ok _, _, s') =>
      match raw_Transactions s' !! 1 with
      | Some raw =>
          match decode_ok info_vec_codec raw with
          | Some v3 =>
              if (len v3 =? MaxBlockTransactions)
                 && match head v3 with Some t => ti_extrinsic_index t =? u32_max | None => false end
              then Ok s' else Err AssertionFailed
          | None => Err AssertionFailed
          end
      | None => Err AssertionFailed
      end
  | _ => Err AssertionFailed
  end.
End MigrationBenchmark.
