(* ===== verification/BenchmarkFacts.v ===== *)
(** Every benchmark of [Benchmarks.v] passes: on every configuration the pallets accept
    and from every state a benchmark starts in, the calls it prepares with succeed, the
    measured call succeeds and what is asserted afterwards holds.  What the benchmarks ask
    of their surroundings (an origin that grants, a proof that fits, a permanent cap that
    leaves room) appears as hypotheses, and one origin that does not fit is shown to fail. *)

From S2P Require Import Prelude Slice Primitives Types State Authorizations Blocks Retention Checks Renewal RenewalFacts Hop Extension ExtensionFacts Chain Codec Weights Migrations MigrationFacts Runtime Benchmarks.

Definition passes (m : B unit) (s : State) : Prop := (m s).1 = Ok tt.

(** ** Running the steps *)

Section Steps.

Lemma then_ok {A C} (m : B A) (k : A -> B C) s a s' :
  m s = (Ok a, s') -> (let! x := m in k x) s = k a s'.
Proof. intros E. unfold bind. by rewrite E. Qed.

Lemma passes_then {A} (m : B A) (k : A -> B unit) s a s' :
  m s = (Ok a, s') -> passes (k a) s' -> passes (let! x := m in k x) s.
Proof. intros E Hk. unfold passes. by rewrite (then_ok m k s a s' E). Qed.

Lemma passes_modify f (k : unit -> B unit) s : passes (k tt) (f s) -> passes (let! x := modify f in k x) s.
Proof. done. Qed.

Lemma passes_assoc {A C} (m : B A) (k : A -> B C) (k' : C -> B unit) s :
  passes (let! x := m in let! y := k x in k' y) s -> passes (let! y := (let! x := m in k x) in k' y) s.
Proof. unfold passes, bind. by destruct (m s) as [[]]. Qed.

Lemma passes_gets {A} (f : State -> A) (k : A -> B unit) s : passes (k (f s)) s -> passes (let! x := gets f in k x) s.
Proof. done. Qed.

Lemma extrinsic_call_ok {A} (m : MD A) s a s' :
  m (leave_block_zero s) = (Ok a, s') -> extrinsic_call m s = (Ok a, s').
Proof. intros E. unfold extrinsic_call, dispatch. unfold_M. by rewrite E. Qed.

Lemma or_stop_ok {A} msg (m : MD A) s a s' : m s = (Ok a, s') -> or_stop msg m s = (Ok a, s').
Proof. intros E. unfold or_stop, map_err. by rewrite E. Qed.

Lemma passes_assert b s : b s = true -> passes (assert b) s.
Proof. intros E. unfold passes, assert. by rewrite E. Qed.

Lemma passes_assert_then b (k : B unit) s : b s = true -> passes k s -> passes (do! assert b in k) s.
Proof. intros E Hk. unfold passes, assert, bind. by rewrite E. Qed.

Lemma assert_last e l s : events s = l ++ [e] -> passes (assert_last_event e) s.
Proof.
  intros E. apply passes_assert. rewrite E, last_snoc. by apply bool_decide_eq_true_2.
Qed.

Lemma leave_block_zero_now s : 0 < now (leave_block_zero s) \/ now s < 0.
Proof. unfold leave_block_zero. destruct (now s =? 0) eqn:E; b2p; [left; done|]. lia. Qed.

(** Leaving block 0 touches the block number only. *)
Lemma leave_block_zero_frame s :
  let s' := leave_block_zero s in
  ts s' = ts s /\ dr s' = dr s /\ events s' = events s /\ extrinsic_index (sys s') = extrinsic_index (sys s) /\
  now s <= now s'.
Proof. unfold leave_block_zero. destruct (now s =? 0) eqn:E; b2p; unfold now in *; simpl; split_and!; (done || lia). Qed.

Lemma leave_block_zero_id s : now s <> 0 -> leave_block_zero s = s.
Proof. intros Hn. unfold leave_block_zero. destruct (now s =? 0) eqn:E; b2p; done. Qed.
End Steps.

Section StorageBenchmarks.
Context `{HostLaws} `{!Config} `{!ConfigLaws} `{!ChunkCapacity} `{HopHost}.
Variable whitelisted_caller : AccountId.
Variables authorizer_origin registrar_origin : TryOrigin.

(** What [try_successful_origin] should give: an origin without a budget. *)
Definition grants (origin : TryOrigin) (o : RuntimeOrigin) : Prop :=
  forall s, origin s = (Some o, s) /\ Authorizer s o = Some None.
Definition registers (origin : TryOrigin) (o : RuntimeOrigin) : Prop :=
  forall s, origin s = (Some o, s) /\ AuthorizerRegistrarOrigin o = true.

Context (granter registrar : RuntimeOrigin).
Hypothesis granting : grants authorizer_origin granter.
Hypothesis registering : registers registrar_origin registrar.

(** The state a benchmark starts in: block 0 (or later), nothing stored in the block,
    and an extrinsic being run. *)
Record Fresh (s : State) : Prop := {
  fresh_now : is_u32 (now s);
  fresh_entries : BlockTransactions (ts s) = [];
  fresh_extrinsic : extrinsic_index (sys s) = Some 0 }.

Lemma origin_ok (origin : TryOrigin) o msg s : origin s = (Some o, s) -> lift_origin origin msg s = (Ok o, s).
Proof. intros E. unfold lift_origin. by rewrite E. Qed.

(** ** Calls that grant *)

(** The state a grant without a budget leaves. *)
Definition with_grant (scope : AuthorizationScope) (txs bs : Z) (s : State) : State :=
  let old := Authorizations (ts s) !! scope in
  let s' := upd_Authorizations <[scope := granted scope txs bs (now s) (grant_expiration (now s) None) old]> s in
  match old with None => authorization_added scope s' | Some _ => s' end.

Lemma authorize_account_ok who txs bs s :
  0 < bs ->
  authorize_account granter who txs bs s =
    (Ok tt, deposit_storage_event (AccountAuthorized who txs bs) (with_grant (Account who) txs bs s)).
Proof.
  intros Hb. destruct (granting s) as [_ Ha]. unfold authorize_account, ensure_authorizer. unfold_M. rewrite Ha.
  cbn [ok_or]. by rewrite (proj2 (Z.ltb_lt 0 bs) Hb).
Qed.

Lemma authorize_preimage_ok h bs s :
  0 < bs ->
  authorize_preimage granter h bs s =
    (Ok tt, deposit_storage_event (PreimageAuthorized h bs) (with_grant (Preimage h) 1 bs s)).
Proof.
  intros Hb. destruct (granting s) as [_ Ha]. unfold authorize_preimage, ensure_authorizer. unfold_M. rewrite Ha.
  cbn [ok_or]. by rewrite (proj2 (Z.ltb_lt 0 bs) Hb).
Qed.

(** A grant leaves an entry, and nothing but the authorizations changes. *)
Lemma with_grant_frame scope txs bs s :
  let s' := with_grant scope txs bs s in
  sys s' = sys s /\ dr s' = dr s /\ events s' = events s /\
  BlockTransactions (ts s') = BlockTransactions (ts s) /\ Transactions (ts s') = Transactions (ts s) /\
  TransactionByContentHash (ts s') = TransactionByContentHash (ts s) /\ ProofChecked (ts s') = ProofChecked (ts s) /\
  RetentionPeriod (ts s') = RetentionPeriod (ts s) /\
  Authorizations (ts s') =
    <[scope := granted scope txs bs (now s) (grant_expiration (now s) None) (Authorizations (ts s) !! scope)]> (Authorizations (ts s)).
Proof. unfold with_grant. destruct (Authorizations (ts s) !! scope), scope; done. Qed.

Lemma bench_authorize_account_passes s : passes (bench_authorize_account whitelisted_caller authorizer_origin) s.
Proof.
  destruct (granting s) as [Ho _].
  eapply passes_then; [by apply origin_ok|]. eapply passes_then.
  { apply extrinsic_call_ok. by apply authorize_account_ok. }
  by eapply assert_last.
Qed.

Lemma bench_authorize_preimage_passes s : passes (bench_authorize_preimage authorizer_origin) s.
Proof.
  destruct (granting s) as [Ho _].
  eapply passes_then; [by apply origin_ok|]. eapply passes_then.
  { apply extrinsic_call_ok. by apply authorize_preimage_ok. }
  by eapply assert_last.
Qed.

(** An entry that is there is refreshed. *)
Lemma refresh_ok scope a s :
  Authorizations (ts s) !! scope = Some a ->
  refresh_authorization scope None s =
    (Ok tt, upd_Authorizations <[scope := with_expiration (grant_expiration (now s) None) a]> s).
Proof. intros Ha. unfold refresh_authorization. by rewrite Ha. Qed.

Lemma after_grant scope txs bs e s :
  exists a, Authorizations (ts (leave_block_zero (deposit_storage_event e (with_grant scope txs bs s)))) !! scope = Some a.
Proof.
  destruct (leave_block_zero_frame (deposit_storage_event e (with_grant scope txs bs s))) as (-> & _).
  destruct (with_grant_frame scope txs bs s) as (_ & _ & _ & _ & _ & _ & _ & _ & E).
  eexists. change (ts (deposit_storage_event e ?x)) with (ts x). rewrite E. apply lookup_insert_eq.
Qed.

Lemma bench_refresh_account_authorization_passes s :
  passes (bench_refresh_account_authorization whitelisted_caller authorizer_origin) s.
Proof.
  destruct (granting s) as [Ho _].
  eapply passes_then; [by apply origin_ok|]. eapply passes_then.
  { apply or_stop_ok. by apply authorize_account_ok. }
  match goal with |- passes _ (deposit_storage_event ?e (with_grant ?c ?t ?b s)) =>
    destruct (after_grant c t b e s) as [a Ha] end.
  eapply passes_then.
  { apply extrinsic_call_ok. unfold refresh_account_authorization, ensure_authorizer. unfold_M.
    rewrite (proj2 (granting _)). cbn [ok_or]. by rewrite (refresh_ok _ _ _ Ha). }
  by eapply assert_last.
Qed.

Lemma bench_refresh_preimage_authorization_passes s :
  passes (bench_refresh_preimage_authorization authorizer_origin) s.
Proof.
  destruct (granting s) as [Ho _].
  eapply passes_then; [by apply origin_ok|]. eapply passes_then.
  { apply or_stop_ok. by apply authorize_preimage_ok. }
  match goal with |- passes _ (deposit_storage_event ?e (with_grant ?c ?t ?b s)) =>
    destruct (after_grant c t b e s) as [a Ha] end.
  eapply passes_then.
  { apply extrinsic_call_ok. unfold refresh_preimage_authorization, ensure_authorizer. unfold_M.
    rewrite (proj2 (granting _)). cbn [ok_or]. by rewrite (refresh_ok _ _ _ Ha). }
  by eapply assert_last.
Qed.

(** ** Authorizers *)

Lemma bench_budget_lives n : is_expired bench_budget n = false.
Proof. done. Qed.

Lemma add_authorizer_ok who s :
  exists s', add_authorizer registrar who bench_budget s = (Ok tt, s') /\
  AllowedAuthorizers (ts s') !! who = Some bench_budget /\
  exists l, events s' = l ++ [StorageEv (AuthorizerAdded who)].
Proof.
  destruct (registering s) as [_ Hr]. unfold add_authorizer. unfold_M. rewrite Hr.
  rewrite bench_budget_lives. cbn [negb].
  destruct (bool_decide _); eexists; (split; [done|]); (split; [by apply lookup_insert_eq|by eexists]).
Qed.

Lemma bench_add_authorizer_passes s : passes (bench_add_authorizer whitelisted_caller registrar_origin) s.
Proof.
  destruct (registering s) as [Ho _]. destruct (add_authorizer_ok whitelisted_caller (leave_block_zero s)) as (s' & E & _ & l & He).
  eapply passes_then; [by apply origin_ok|]. eapply passes_then; [by apply extrinsic_call_ok|].
  by eapply assert_last.
Qed.

Lemma bench_remove_authorizer_passes s : passes (bench_remove_authorizer whitelisted_caller registrar_origin) s.
Proof.
  destruct (registering s) as [Ho Hr]. destruct (add_authorizer_ok whitelisted_caller s) as (s' & E & Ha & _).
  eapply passes_then; [by apply origin_ok|]. eapply passes_then; [by apply or_stop_ok|].
  destruct (leave_block_zero_frame s') as (Ets & _). eapply passes_then.
  { apply extrinsic_call_ok. unfold remove_authorizer. unfold_M. rewrite Hr. cbv zeta. by rewrite Ets, Ha. }
  by eapply assert_last.
Qed.

(** An authorizer without a quota left is inactive. *)
Lemma bench_remove_exhausted_authorizer_passes s : passes (bench_remove_exhausted_authorizer whitelisted_caller) s.
Proof.
  unfold bench_remove_exhausted_authorizer. apply passes_modify.
  match goal with |- passes _ ?s0 => destruct (leave_block_zero_frame s0) as (Ets & _) end.
  eapply passes_then.
  { apply extrinsic_call_ok. unfold remove_exhausted_authorizer. unfold_M. rewrite Ets. cbn [ts upd_AllowedAuthorizers upd_ts AllowedAuthorizers].
    rewrite lookup_insert_eq. done. }
  by eapply assert_last.
Qed.

(** ** Expired authorizations *)

(** The window of a new entry ends where the jump lands. *)
Lemma skipped_grant scope txs bs e s :
  Authorizations (ts s) !! scope = None -> 0 <= now s -> now s + AuthorizationPeriod <= u32_max ->
  let s' := set_block_number (as_u32 (now s + AuthorizationPeriod)) (deposit_storage_event e (with_grant scope txs bs s)) in
  exists a, Authorizations (ts (leave_block_zero s')) !! scope = Some a /\ expired a (now (leave_block_zero s')) = true.
Proof.
  intros Hnone Hn Hmax s'. pose proof AuthorizationPeriod_range.
  rewrite leave_block_zero_id.
  2:{ change (now s') with (as_u32 (now s + AuthorizationPeriod)). rewrite as_u32_small by (unfold is_u32; lia). lia. }
  destruct (with_grant_frame scope txs bs s) as (_ & _ & _ & _ & _ & _ & _ & _ & E).
  change (ts s') with (ts (with_grant scope txs bs s)). rewrite E, Hnone, lookup_insert_eq. eexists. split; [done|].
  change (now s') with (as_u32 (now s + AuthorizationPeriod)). rewrite as_u32_small by (unfold is_u32; lia).
  unfold expired, grant_expiration. cbn [expiration granted]. unfold sat_add. apply Z.leb_le. lia.
Qed.

Lemma remove_expired_ok scope a s :
  Authorizations (ts s) !! scope = Some a -> expired a (now s) = true ->
  remove_expired_authorization scope s = (Ok tt, authorization_removed scope (upd_Authorizations (delete scope) s)).
Proof. intros Ha He. unfold remove_expired_authorization. unfold_M. rewrite Ha. cbn [ok_or]. by rewrite He. Qed.

Lemma bench_remove_expired_account_authorization_passes s :
  Authorizations (ts s) !! Account whitelisted_caller = None -> 0 <= now s -> now s + AuthorizationPeriod <= u32_max ->
  passes (bench_remove_expired_account_authorization whitelisted_caller authorizer_origin) s.
Proof.
  intros Hnone Hn Hmax. destruct (granting s) as [Ho _].
  eapply passes_then; [by apply origin_ok|]. eapply passes_then.
  { apply or_stop_ok. by apply authorize_account_ok. }
  apply passes_modify. destruct (with_grant_frame (Account whitelisted_caller) 0 1 s) as (Es & _).
  destruct (skipped_grant (Account whitelisted_caller) 0 1 (AccountAuthorized whitelisted_caller 0 1) s) as (a & Ha & He); [done..|].
  assert (forall e, now (deposit_storage_event e (with_grant (Account whitelisted_caller) 0 1 s)) = now s) as En.
  { intros e. unfold now. simpl. by rewrite Es. }
  rewrite En. eapply passes_then.
  { apply extrinsic_call_ok. unfold remove_expired_account_authorization. unfold_M.
    by rewrite (remove_expired_ok _ _ _ Ha He). }
  by eapply assert_last.
Qed.

Lemma bench_remove_expired_preimage_authorization_passes s :
  Authorizations (ts s) !! Preimage zero_hash = None -> 0 <= now s -> now s + AuthorizationPeriod <= u32_max ->
  passes (bench_remove_expired_preimage_authorization authorizer_origin) s.
Proof.
  intros Hnone Hn Hmax. destruct (granting s) as [Ho _].
  eapply passes_then; [by apply origin_ok|]. eapply passes_then.
  { apply or_stop_ok. by apply authorize_preimage_ok. }
  apply passes_modify. destruct (with_grant_frame (Preimage zero_hash) 1 1 s) as (Es & _).
  destruct (skipped_grant (Preimage zero_hash) 1 1 (PreimageAuthorized zero_hash 1) s) as (a & Ha & He); [done..|].
  assert (forall e, now (deposit_storage_event e (with_grant (Preimage zero_hash) 1 1 s)) = now s) as En.
  { intros e. unfold now. simpl. by rewrite Es. }
  rewrite En. eapply passes_then.
  { apply extrinsic_call_ok. unfold remove_expired_preimage_authorization. unfold_M.
    by rewrite (remove_expired_ok _ _ _ Ha He). }
  by eapply assert_last.
Qed.

(** ** Storing *)

Lemma len_zeros l : 0 <= l -> len (zeros l) = l.
Proof. intros Hl. unfold zeros, len. rewrite length_replicate. lia. Qed.

Lemma zeros_size_ok l : 0 < l <= MaxTransactionSize -> data_size_ok (as_u32 (len (zeros l))) = true.
Proof.
  intros Hl. pose proof MaxTransactionSize_range. rewrite len_zeros, as_u32_small by (unfold is_u32; lia).
  by apply data_size_ok_size.
Qed.

(** [store] of zeros in an empty block. *)
Lemma store_zeros_ok l hashing codec s :
  0 < l <= MaxTransactionSize -> BlockTransactions (ts s) = [] -> extrinsic_index (sys s) = Some 0 ->
  do_store (zeros l) hashing codec s = (Ok tt, stored 0 (zeros l) hashing codec s).
Proof.
  intros Hl Hnil Hx. pose proof MaxBlockTransactions_range. rewrite do_store_eq, zeros_size_ok, Hx, Hnil by done.
  simpl. by rewrite (proj2 (Z.ltb_lt _ _)) by (unfold len; simpl; lia).
Qed.

Lemma store_passes l hashing codec s :
  0 < l <= MaxTransactionSize -> Fresh s ->
  passes (do! extrinsic_call (do_store (zeros l) hashing codec) in
          do! assert (fun s => negb (bool_decide (BlockTransactions (ts s) = []))) in
          assert_last_event (StorageEv (Types.Stored 0 (hash hashing (zeros l))
            (to_bytes (mkCidData (hash hashing (zeros l)) hashing codec))))) s.
Proof.
  intros Hl [_ Hnil Hx]. destruct (leave_block_zero_frame s) as (Ets & _ & _ & Ex & _).
  eapply passes_then.
  { apply extrinsic_call_ok. by apply store_zeros_ok; rewrite ?Ets, ?Ex. }
  apply passes_assert_then.
  - simpl. rewrite Ets, Hnil. by rewrite bool_decide_eq_false_2.
  - eapply assert_last. simpl. by rewrite Ets, Hnil.
Qed.

Lemma bench_store_passes l s : 0 < l <= MaxTransactionSize -> Fresh s -> passes (bench_store l) s.
Proof. intros Hl HF. exact (store_passes l Blake2b256 RAW_CODEC s Hl HF). Qed.

Lemma bench_store_with_cid_config_passes l s :
  0 < l <= MaxTransactionSize -> Fresh s -> passes (bench_store_with_cid_config l) s.
Proof. intros Hl HF. exact (store_passes l Sha2_256 RAW_CODEC s Hl HF). Qed.

(** ** Validation *)

(** A leaf that is claimed ends the walk at the top call. *)
Lemma test_run_claimed L who c vt scope s s' :
  validate_leaf L who c 0 (leave_block_zero s) = (Ok (Some (vt, scope)), leave_block_zero s) ->
  prepare_leaf L who c 0 (leave_block_zero s) = (Ok true, s') ->
  test_run L who c s = (Ok tt, s').
Proof.
  intros Hv Hp. unfold test_run, map_err. unfold bind at 1. unfold modify at 1.
  unfold bind at 1. unfold validate. cbn [as_system_origin_signer]. rewrite walk_eq by done.
  unfold bind at 1. unfold validate_visitor. rewrite Hv. cbn [ret visited_any].
  unfold prepare. rewrite walk_eq by done. unfold bind. by rewrite Hp.
Qed.

(** A grant to a newcomer is active in the block it is made and in the next. *)
Lemma newcomer_active who txs bs e s :
  Authorizations (ts s) !! Account who = None -> 0 <= now s <= 1 -> 2 <= AuthorizationPeriod ->
  let s' := leave_block_zero (deposit_storage_event e (with_grant (Account who) txs bs s)) in
  exists x, Authorizations (ts s') =
    <[Account who := mkAuthorization (mkExtent 0 txs 0 PermanentExtent_default bs) x]> (Authorizations (ts s)) /\
  (x <=? now s') = false /\ sys s' = sys (leave_block_zero s).
Proof.
  intros Hnone Hn Hp s'. pose proof AuthorizationPeriod_range.
  set (s0 := deposit_storage_event e (with_grant (Account who) txs bs s)) in *.
  destruct (with_grant_frame (Account who) txs bs s) as (Es & _ & _ & _ & _ & _ & _ & _ & E).
  destruct (leave_block_zero_frame s0) as (Ets & _). fold s' in Ets. rewrite Hnone in E.
  assert (sys s' = sys (leave_block_zero s)) as Esys.
  { unfold s', leave_block_zero. assert (now s0 = now s) as -> by (unfold now, s0; simpl; by rewrite Es).
    destruct (now s =? 0); unfold s0; simpl; by rewrite Es. }
  eexists. split; [|split; [|exact Esys]].
  - rewrite Ets. change (ts s0) with (ts (with_grant (Account who) txs bs s)). rewrite E. done.
  - assert (now s' <= 1) as Hle.
    { unfold now at 1. rewrite Esys. unfold leave_block_zero. destruct (now s =? 0) eqn:En; [done|]. unfold now in *. lia. }
    unfold grant_expiration, sat_add. apply Z.leb_gt. unfold u32_max in *.
    assert (2 <= AuthorizationPeriod + now s) by lia. lia.
Qed.

Lemma bench_validate_store_passes l s :
  0 < l <= MaxTransactionSize -> Fresh s -> now s <= 1 -> 2 <= AuthorizationPeriod ->
  Authorizations (ts s) = ∅ ->
  passes (bench_validate_store whitelisted_caller authorizer_origin l) s.
Proof.
  intros Hl [Hn Hnil _] Hn1 Hp Hnone. pose proof MaxTransactionSize_range. pose proof MaxBlockTransactions_range.
  destruct (granting s) as [Ho _].
  assert (as_u64 (l * 10) = l * 10) as E10 by (apply as_u64_small; unfold is_u64, u64_max, u32_max in *; lia).
  eapply passes_then; [by apply origin_ok|]. eapply passes_then.
  { apply or_stop_ok. apply authorize_account_ok. lia. }
  rewrite E10. set (s0 := deposit_storage_event _ _).
  destruct (newcomer_active whitelisted_caller 0 (l * 10) (AccountAuthorized whitelisted_caller 0 (l * 10)) s)
    as (x & EA & Hx & _); [by rewrite Hnone|unfold is_u32 in Hn; lia|done|]. fold s0 in EA, Hx. rewrite Hnone in EA.
  set (s1 := leave_block_zero s0) in *.
  assert (BlockTransactions (ts s1) = []) as Hnil1.
  { destruct (leave_block_zero_frame s0) as (E1 & _). fold s1 in E1. rewrite E1.
    destruct (with_grant_frame (Account whitelisted_caller) 0 (l * 10) s) as (_ & _ & _ & E & _).
    change (ts s0) with (ts (with_grant (Account whitelisted_caller) 0 (l * 10) s)). by rewrite E. }
  assert (block_transactions_full s1 = false) as Hfull.
  { unfold block_transactions_full, block_transactions_count. rewrite Hnil1. apply Z.leb_gt.
    change (as_u32 (len (@nil TransactionInfoFor))) with 0. lia. }
  assert (forall h, charged_scope s1 whitelisted_caller h = Some (Account whitelisted_caller)) as Hch.
  { intros h. unfold charged_scope, active, get_active_authorization. rewrite EA.
    rewrite lookup_insert_ne, lookup_empty, lookup_insert_eq by done. unfold expired. cbn [expiration]. by rewrite Hx. }
  assert (data_size_ok (len (zeros l)) = true) as Hsz by (rewrite len_zeros by lia; by apply data_size_ok_size).
  eapply passes_then.
  { eapply test_run_claimed.
    - cbn [validate_leaf StorageLeaves storage_sub_type]. change (0 <? 0) with false. cbn [andb]. unfold validate_signed, check_signed. fold s1.
      unfold_M. rewrite check_signed_store_validate, Hsz, Hfull, Hch. cbn [negb ok_or]. done.
    - cbn [prepare_leaf StorageLeaves storage_sub_type]. change (0 <? 0) with false. cbn [andb]. unfold pre_dispatch_signed, check_signed. fold s1.
      unfold_M. rewrite check_signed_store_prepare, Hsz, Hfull, Hch. cbn [negb]. done. }
  unfold check_authorization. rewrite EA, lookup_insert_eq. unfold expired at 1. cbn [expiration]. rewrite Hx. cbn [snd].
  assert (forall a, expiration a = x -> account_authorization_extent (upd_Authorizations <[Account whitelisted_caller := a]> s1) whitelisted_caller
    = extent a) as Hext.
  { intros a Ha. unfold account_authorization_extent, authorization_extent. cbn [ts upd_Authorizations upd_ts Authorizations].
    rewrite lookup_insert_eq. change (now (upd_Authorizations _ s1)) with (now s1). unfold expired. by rewrite Ha, Hx. }
  apply passes_assert_then; [|apply passes_assert]; rewrite Hext by done; cbn; apply Z.eqb_eq; [|done].
  rewrite len_zeros, as_u32_small by (unfold is_u32; lia). unfold sat_add, u64_max, u32_max in *. lia.
Qed.
(** ** Blocks without work *)

Lemma set_block_number_now s : set_block_number (now s) s = s.
Proof. by destruct s as [[] ? ? ? ? ?]. Qed.

(** Nothing to seal, nothing proved, the benchmarks' retention period. *)
Record Quiet (s : State) : Prop := {
  quiet_entries : BlockTransactions (ts s) = [];
  quiet_proof : ProofChecked (ts s) = false;
  quiet_period : RetentionPeriod (ts s) = BENCH_RETENTION }.

Lemma seal_nothing n s :
  BlockTransactions (ts s) = [] -> ProofChecked (ts s) = false ->
  seal_block n (upd_ProofChecked (fun _ => false) s) = s.
Proof.
  intros Hn Hp. unfold seal_block. cbn [ts upd_ProofChecked upd_ts BlockTransactions]. rewrite Hn. cbn.
  destruct s as [y [] r l h p]. cbn in *. by subst.
Qed.

Lemma finalize_in_retention s :
  now s <= BENCH_RETENTION -> RetentionPeriod (ts s) = BENCH_RETENTION ->
  storage_finalize s = Some (seal_block (now s) (upd_ProofChecked (fun _ => false) s)).
Proof.
  intros Hn Hp. unfold storage_finalize, on_finalize, proof_ok, retention_period. rewrite Hp.
  assert (sat_sub (now s) BENCH_RETENTION = 0) as -> by (unfold sat_sub; lia).
  cbn [Z.eqb orb]. by rewrite orb_true_r.
Qed.

Context `{OnObsoleteTransactions}.

Lemma initialize_in_retention n s :
  n <= BENCH_RETENTION + 1 -> RetentionPeriod (ts s) = BENCH_RETENTION -> on_initialize n s = s.
Proof.
  intros Hn Hp. unfold on_initialize, retention_period. rewrite Hp.
  assert (sat_sub n (sat_add_u32 BENCH_RETENTION 1) = 0) as ->; [|done].
  unfold sat_sub, sat_add, BENCH_RETENTION, u32_max in *. lia.
Qed.

Lemma run_quiet_blocks k s :
  Quiet s -> now s + Z.of_nat k <= BENCH_RETENTION + 1 ->
  run_blocks storage_finalize k s = (Ok tt, set_block_number (now s + Z.of_nat k) s).
Proof.
  revert s. induction k as [|k IH]; intros s HQ Hk.
  - cbn. rewrite Z.add_0_r. by rewrite set_block_number_now.
  - destruct HQ as [Q1 Q2 Q3]. cbn [run_blocks]. unfold bind at 1. unfold hook.
    rewrite finalize_in_retention, seal_nothing by (done || lia).
    unfold bind at 1, modify at 1. unfold bind at 1, modify at 1.
    set (s1 := set_block_number (now s + 1) s).
    rewrite initialize_in_retention by (done || (unfold s1, now in *; simpl; lia)).
    rewrite IH.
    + unfold s1. f_equal. replace (now s + Z.of_nat (S k)) with (now (set_block_number (now s + 1) s) + Z.of_nat k); [done|].
      unfold now at 1. simpl. lia.
    + by constructor.
    + unfold s1, now at 1. simpl. lia.
Qed.

Lemma run_quiet n s :
  Quiet s -> now s <= n -> n <= BENCH_RETENTION + 1 ->
  run_to_block storage_finalize n s = (Ok tt, set_block_number n s).
Proof.
  intros HQ Hs Hn. unfold run_to_block. rewrite run_quiet_blocks by (done || lia). do 2 f_equal. lia.
Qed.

(** A block with entries is sealed on the way. *)
Lemma run_sealing n s :
  wf_entries (BlockTransactions (ts s)) -> BlockTransactions (ts s) <> [] ->
  RetentionPeriod (ts s) = BENCH_RETENTION -> now s < n -> n <= BENCH_RETENTION + 1 ->
  run_to_block storage_finalize n s =
    (Ok tt, set_block_number n
       (upd_Transactions <[now s := LayoutCurrent (BlockTransactions (ts s))]>
          (upd_BlockTransactions (fun _ => []) (upd_ProofChecked (fun _ => false) s)))).
Proof.
  intros Hwf Hne Hp Hs Hn. unfold run_to_block.
  replace (Z.to_nat (n - now s)) with (S (Z.to_nat (n - now s - 1))) by lia.
  cbn [run_blocks]. unfold bind at 1. unfold hook. rewrite finalize_in_retention by (done || lia).
  assert (seal_block (now s) (upd_ProofChecked (fun _ => false) s) =
    upd_Transactions <[now s := LayoutCurrent (BlockTransactions (ts s))]>
      (upd_BlockTransactions (fun _ => []) (upd_ProofChecked (fun _ => false) s))) as ->.
  { unfold seal_block. cbn [ts upd_ProofChecked upd_ts BlockTransactions].
    destruct (total_chunks _ =? 0) eqn:E; [|done]. by apply total_chunks_zero in E. }
  unfold bind at 1, modify at 1. unfold bind at 1, modify at 1.
  match goal with |- context [on_initialize ?b ?x] => set (s1 := x) end.
  assert (now s1 = now s + 1) as En by done.
  rewrite initialize_in_retention by (done || lia). rewrite run_quiet_blocks.
  - rewrite En. replace (now s + 1 + Z.of_nat (Z.to_nat (n - now s - 1))) with n by lia. done.
  - by constructor.
  - lia.
Qed.

(** ** A block of clones *)

Lemma clone_entries_ok n clone after (P : State -> Prop) s t :
  BlockTransactions (ts s) = [t] -> 1 <= n <= MaxBlockTransactions ->
  (forall i s, BlockTransactions (ts (after i s)) = BlockTransactions (ts s)) ->
  (forall i es s, P s -> P (after i (upd_BlockTransactions (fun _ => es) s))) -> P s ->
  exists s', clone_entries n clone after s = (Ok tt, s') /\
    BlockTransactions (ts s') = t :: map (fun i => clone i t) (seqZ 1 (n - 1)) /\ P s'.
Proof.
  intros Ht Hn Hafter Hframe HP. unfold clone_entries. unfold bind at 1. rewrite Ht. cbn [head ok_or].
  assert (forall k done s, BlockTransactions (ts s) = t :: map (fun i => clone i t) done -> P s ->
    1 + len done + Z.of_nat k <= MaxBlockTransactions ->
    exists s', mfor (seqZ (1 + len done) (Z.of_nat k)) (fun i =>
      let! entries := gets (fun s => BlockTransactions (ts s)) in
      let! entries := lift (ok_or (try_push MaxBlockTransactions entries (clone i t))
                              (Stop "BlockTransactions overflow")) in
      do! modify (upd_BlockTransactions (fun _ => entries)) in modify (after i)) s = (Ok tt, s') /\
    BlockTransactions (ts s') = (t :: map (fun i => clone i t) done) ++ map (fun i => clone i t) (seqZ (1 + len done) (Z.of_nat k)) /\
    P s') as Hloop.
  { induction k as [|k IH]; intros dn s0 Hs HPs Hle.
    - exists s0. cbn. by rewrite app_nil_r.
    - rewrite seqZ_cons by lia. cbn [mfor map]. unfold_M. unfold try_push. rewrite Hs.
      rewrite (proj2 (Z.ltb_lt _ _)) by (unfold len in *; cbn [length]; rewrite length_map; lia). cbn [ok_or].
      specialize (IH (dn ++ [1 + len dn]) (after (1 + len dn) (upd_BlockTransactions
        (fun _ => (t :: map (fun i => clone i t) dn) ++ [clone (1 + len dn) t]) s0))).
      destruct IH as (s' & E & EB & HP').
      + rewrite Hafter. cbn. by rewrite map_app.
      + by apply Hframe.
      + unfold len in *. rewrite length_app. cbn [length]. lia.
      + replace (1 + len (dn ++ [1 + len dn])) with (Z.succ (1 + len dn)) in E, EB
          by (unfold len; rewrite length_app; cbn [length]; lia).
        replace (Z.of_nat k) with (Z.pred (Z.of_nat (S k))) in E, EB by lia.
        exists s'. split; [exact E|]. split; [|done]. rewrite EB, map_app. cbn. by rewrite <-app_assoc. }
  destruct (Hloop (Z.to_nat (n - 1)) [] s Ht HP) as (s' & E & EB & HP'); [unfold len; simpl; lia|].
  rewrite Z2Nat.id in E, EB by lia. by exists s'.
Qed.

(** The clones of the benchmarks: one size and one chunk root, and cumulative counts that
    are the multiples of one transaction's. *)
Record Clone (t u : TransactionInfoFor) : Prop := {
  clone_size : ti_size u = ti_size t;
  clone_root : ti_chunk_root u = ti_chunk_root t }.

Lemma cumulative_clones t clone m k :
  0 <= m -> num_chunks (ti_size t) * (m + Z.of_nat k) <= u32_max -> 0 <= num_chunks (ti_size t) ->
  (forall i, Clone t (clone i) /\ ti_block_chunks (clone i) = sat_mul u32_max (num_chunks (ti_size t)) (i + 1)) ->
  cumulative (num_chunks (ti_size t) * m) (map clone (seqZ m (Z.of_nat k))) = true.
Proof.
  intros Hm Hmax Hnc Hc. revert m Hm Hmax. induction k as [|k IH]; intros m Hm Hmax; [done|].
  rewrite seqZ_cons by lia. cbn [map cumulative]. destruct (Hc m) as [[-> _] ->].
  assert (num_chunks (ti_size t) * Z.succ m <= u32_max) as Hle by nia.
  assert (sat_add_u32 (num_chunks (ti_size t) * m) (num_chunks (ti_size t)) = num_chunks (ti_size t) * Z.succ m) as ->
    by (unfold sat_add; lia).
  unfold sat_mul. change (m + 1) with (Z.succ m). rewrite Z.min_r, Z.eqb_refl by done. cbn [andb].
  replace (Z.pred (Z.of_nat (S k))) with (Z.of_nat k) by lia. apply IH; [lia|].
  replace (Z.succ m + Z.of_nat k) with (m + Z.of_nat (S k)) by lia. done.
Qed.

(** A full block of clones of a largest transaction is well formed. *)
Lemma wf_clones t clone n :
  ti_size t = MaxTransactionSize -> ti_block_chunks t = num_chunks MaxTransactionSize ->
  1 <= n <= MaxBlockTransactions ->
  (forall i, Clone t (clone i) /\ ti_block_chunks (clone i) = sat_mul u32_max (num_chunks (ti_size t)) (i + 1)) ->
  wf_entries (t :: map clone (seqZ 1 (n - 1))).
Proof.
  intros Ht Hb Hn Hc. pose proof MaxTransactionSize_range as Hm. pose proof chunk_capacity as Hcap.
  pose proof (num_chunks_pos _ Hm) as Hpos. rewrite <-Ht in Hcap, Hpos, Hb. split_and!.
  - cbn [cumulative].
    assert (sat_add_u32 0 (num_chunks (ti_size t)) = num_chunks (ti_size t) * 1) as -> by (unfold sat_add; nia).
    rewrite Hb, (proj2 (Z.eqb_eq _ _)) by lia. cbn [andb].
    replace (n - 1) with (Z.of_nat (Z.to_nat (n - 1))) by lia. apply cumulative_clones; (done || nia).
  - apply Forall_cons. split; [unfold size_ok; lia|]. apply Forall_map, Forall_forall. intros i _. simpl.
    destruct (Hc i) as [[E _] _]. unfold size_ok. rewrite E. lia.
  - unfold len. cbn [length]. rewrite length_map, length_seqZ. lia.
Qed.

(** Which chunk of which clone a block chunk is. *)
Lemma chunk_owner_clones t l k :
  Forall (Clone t) l -> 0 < num_chunks (ti_size t) -> 0 <= k < chunk_sum l ->
  exists u, chunk_owner l k = Some (u, k mod num_chunks (ti_size t)) /\ Clone t u.
Proof.
  intros Hl Hnc. revert k. induction Hl as [|u l Hu Hl IH]; intros k Hk; cbn [chunk_sum chunk_owner] in *; [lia|].
  pose proof (clone_size _ _ Hu) as Hsz. rewrite Hsz in Hk |- *. destruct (k <? num_chunks (ti_size t)) eqn:E; b2p.
  - exists u. rewrite Z.mod_small by lia. by split.
  - destruct (IH (k - num_chunks (ti_size t))) as (v & Ev & Hv); [lia|]. exists v. rewrite Ev. split; [|done].
    do 2 f_equal. rewrite <-(Z_mod_plus_full (k - num_chunks (ti_size t)) 1 (num_chunks (ti_size t))). f_equal. lia.
Qed.

Lemma chunk_sum_clones t l : Forall (Clone t) l -> chunk_sum l = len l * num_chunks (ti_size t).
Proof.
  induction 1 as [|u l [Hsz _] Hl IH]; [done|]. cbn [chunk_sum]. rewrite Hsz, IH. unfold len. cbn [length]. lia.
Qed.

(** A proof of one chunk of the template proves a whole block of its clones. *)
Lemma verify_clones proof h t l :
  wf_entries l -> l <> [] -> Forall (Clone t) l -> 0 < num_chunks (ti_size t) ->
  blake2_256_verify_proof (ti_chunk_root t) (proof_proof proof)
    (encode_index (random_chunk h (len l * num_chunks (ti_size t)) mod num_chunks (ti_size t))) (proof_chunk proof) = true ->
  verify_chunk_proof proof h l = Ok tt.
Proof.
  intros Hwf Hne Hl Hnc Hp. destruct (verify_chunk_proof_owner proof h l Hwf Hne) as (u & k & Ho & _ & _ & ->).
  rewrite (chunk_sum_clones t l Hl) in Ho.
  assert (0 < len l) as Hlen by (destruct l; [done|unfold len; cbn [length]; lia]).
  assert (0 <= random_chunk h (len l * num_chunks (ti_size t)) < chunk_sum l) as Hr.
  { rewrite (chunk_sum_clones t l Hl). apply random_chunk_range.
    rewrite <-(chunk_sum_clones t l Hl). destruct Hwf as (_ & Hs & Hb). pose proof (chunk_sum_bound l Hs Hb).
    rewrite (chunk_sum_clones t l Hl) in *. split; [nia|done]. }
  destruct (chunk_owner_clones t l _ Hl Hnc Hr) as (v & Ev & [_ Hroot]). rewrite Ev in Ho. simplify_eq.
  by rewrite Hroot, Hp.
Qed.

(** ** The storage proof and the expiry sweep *)

(** What the first store of the two block benchmarks leaves in the block. *)
Definition template : TransactionInfoFor := pushed (store_entry 0 (zeros MaxTransactionSize) Blake2b256 RAW_CODEC) [].

Lemma template_size : ti_size template = MaxTransactionSize.
Proof.
  pose proof MaxTransactionSize_range. cbn. rewrite len_zeros by lia. apply as_u32_small. unfold is_u32. lia.
Qed.

Lemma template_chunks : ti_block_chunks template = num_chunks MaxTransactionSize.
Proof.
  pose proof template_size as E. pose proof MaxTransactionSize_range as Hm. pose proof (num_chunks_pos _ Hm).
  pose proof chunk_capacity. pose proof MaxBlockTransactions_range.
  unfold template in *. cbn in *. rewrite E. unfold sat_add. nia.
Qed.

(** The state the preparation of both reaches. *)
Definition Primed (s : State) : Prop :=
  now s = 1 /\ ProofChecked (ts s) = false /\ RetentionPeriod (ts s) = BENCH_RETENTION.

Record BlockStart (s : State) : Prop := {
  start_now : now s = 0;
  start_entries : BlockTransactions (ts s) = [];
  start_proof : ProofChecked (ts s) = false;
  start_extrinsic : extrinsic_index (sys s) = Some 0 }.

(** The preparation both share: the period, block 1, and one largest store. *)
Lemma prime s :
  BlockStart s ->
  exists s1 s2,
    run_to_block storage_finalize 1 (upd_RetentionPeriod (fun _ => BENCH_RETENTION) s) = (Ok tt, s1) /\
    Quiet s1 /\ now s1 = 1 /\
    map_err CallError (store none_origin (zeros MaxTransactionSize)) s1 = (Ok tt, s2) /\
    Primed s2 /\ BlockTransactions (ts s2) = [template].
Proof.
  intros [S1 S2 S3 S4]. pose proof MaxTransactionSize_range.
  eexists _, (stored 0 (zeros MaxTransactionSize) Blake2b256 RAW_CODEC
                (set_block_number 1 (upd_RetentionPeriod (fun _ => BENCH_RETENTION) s))).
  split_and!.
  - apply run_quiet; [by constructor| |done]. change (now s <= 1). lia.
  - by constructor.
  - done.
  - unfold map_err, store. cbn [ensure_authorized ensure_root ensure_none none_origin]. unfold bind, lift.
    rewrite store_zeros_ok by (lia || done). done.
  - done.
  - cbn. by rewrite S2.
Qed.

Lemma bench_apply_block_inherents_passes `{!BenchmarkHelper} decode_proof default_hash encoded proof s :
  BlockStart s -> encoded_check_proof default_hash = Some encoded -> decode_proof encoded = Some proof ->
  blake2_256_verify_proof (ti_chunk_root template) (proof_proof proof)
    (encode_index (random_chunk default_hash (MaxBlockTransactions * num_chunks MaxTransactionSize)
                   mod num_chunks MaxTransactionSize))
    (proof_chunk proof) = true ->
  passes (bench_apply_block_inherents decode_proof default_hash) s.
Proof.
  intros HS Henc Hdec Hp. unfold bench_apply_block_inherents. pose proof MaxBlockTransactions_range.
  destruct (prime s HS) as (s1 & s2 & E1 & _ & _ & E2 & HP & Ht).
  apply passes_modify. eapply passes_then; [exact E1|]. eapply passes_then; [exact E2|]. clear E1 E2.
  set (clone := fun (i : Z) (t : TransactionInfoFor) => with_block_chunks (sat_mul u32_max (ti_block_chunks t) (i + 1)) t).
  destruct (clone_entries_ok MaxBlockTransactions clone (fun _ => id) Primed s2 template Ht) as (s' & E & EB & (P1 & P2 & P3));
    [lia|done| |done|]; [by intros i es s0 (Q1 & Q2 & Q3)|].
  eapply passes_then; [exact E|]. clear E.
  assert (forall i, Clone template (clone i template) /\
    ti_block_chunks (clone i template) = sat_mul u32_max (num_chunks (ti_size template)) (i + 1)) as Hclone.
  { intros i. split; [done|]. unfold clone. cbn [ti_block_chunks with_block_chunks]. by rewrite template_chunks, template_size. }
  set (l := template :: map (fun i => clone i template) (seqZ 1 (MaxBlockTransactions - 1))) in *.
  assert (wf_entries l) as Hwf by (apply wf_clones; (apply template_size || apply template_chunks || lia || done)).
  assert (l <> []) as Hne by done. apply passes_gets. unfold retention_period. rewrite P3.
  eapply passes_then; [apply run_sealing; rewrite ?EB, ?P1; done|].
  apply passes_modify. rewrite EB, P1.
  clear s1. match goal with |- passes _ ?x => set (s1 := x) end.
  assert (verify_chunk_proof proof default_hash l = Ok tt) as Hv.
  { apply (verify_clones _ _ template); [done|done| | |].
    - apply Forall_cons. split; [done|]. apply Forall_map, Forall_forall. intros i _. apply (Hclone i).
    - rewrite template_size. apply num_chunks_pos. apply MaxTransactionSize_range.
    - rewrite template_size. assert (len l = MaxBlockTransactions) as ->; [|done].
      unfold len, l. cbn [length]. rewrite length_map, length_seqZ. lia. }
  rewrite Henc. cbn [ok_or]. eapply passes_then; [done|]. rewrite Hdec. cbn [ok_or]. eapply passes_then; [done|].
  eapply passes_then.
  { apply extrinsic_call_ok. rewrite leave_block_zero_id by done. unfold apply_block_inherents, do_check_proof. unfold_M.
    cbn [ensure_none none_origin]. change (ProofChecked (ts s1)) with false. cbn [negb].
    unfold retention_period. change (RetentionPeriod (ts s1)) with (RetentionPeriod (ts s')). rewrite P3.
    change (sat_sub (now s1) BENCH_RETENTION) with 1. change (1 =? 0) with false. cbn [negb].
    assert (transactions_at s1 1 = Some l) as ->.
    { unfold transactions_at. change (Transactions (ts s1)) with (<[1 := LayoutCurrent l]> (Transactions (ts s'))).
      by rewrite lookup_insert_eq. }
    cbn [ok_or]. change (parent_hash (sys s1)) with default_hash. rewrite Hv. done. }
  apply passes_assert. apply bool_decide_eq_true_2. cbn. apply elem_of_app. right. by left.
Qed.

(** Registering an entry is no concern of the storage pallet's items. *)
Class BenchmarkHelperFrame `{BenchmarkHelper} : Prop := {
  register_ts h s : ts (register_worst_case_entry h s) = ts s;
  register_sys h s : sys (register_worst_case_entry h s) = sys s }.

(** Opening the block in which block 1 is swept removes it, whoever listens. *)
Lemma sweep_takes_block_1 `{!OnObsoleteFrame} l s :
  Transactions (ts s) !! 1 = Some (LayoutCurrent l) -> RetentionPeriod (ts s) = BENCH_RETENTION ->
  Transactions_get (on_initialize (BENCH_RETENTION + 2) s) 1 = None.
Proof.
  intros Hl Hp. unfold on_initialize, retention_period. rewrite Hp.
  change (sat_sub (BENCH_RETENTION + 2) (sat_add_u32 BENCH_RETENTION 1)) with 1. change (0 <? 1) with true. cbv zeta iota.
  unfold Transactions_take, Transactions_get at 2. rewrite Hl. cbn [decode_current].
  destruct (sweep_state 1 l (upd_Transactions (delete 1) s)) as (m & Hm & _).
  destruct (sweep 1 l (upd_Transactions (delete 1) s)) as [pairs s']. cbn [snd] in Hm. subst s'.
  unfold Transactions_get. rewrite handle_obsolete_ts. cbn. by rewrite lookup_delete_eq.
Qed.

Lemma bench_on_initialize_with_expiry_passes `{!BenchmarkHelper} `{!BenchmarkHelperFrame} `{!OnObsoleteFrame} n s :
  BlockStart s -> 0 <= n <= MaxBlockTransactions -> passes (bench_on_initialize_with_expiry n) s.
Proof.
  intros HS Hn. destruct (prime s HS) as (s1 & s2 & E1 & HQ & Hn1 & E2 & (P1 & P2 & P3) & Ht).
  unfold bench_on_initialize_with_expiry. apply passes_modify. eapply passes_then; [exact E1|].
  destruct (0 <? n) eqn:E0; b2p.
  - apply passes_assoc. eapply passes_then; [exact E2|]. apply passes_assoc, passes_modify. rewrite Ht. cbn [head].
    set (s3 := register_worst_case_entry (ti_content_hash template) s2).
    assert (Primed s3) as HP3 by (unfold Primed, now, s3; by rewrite register_ts, register_sys).
    destruct (clone_entries_ok n expiring_clone register_clone Primed s3 template) as (s' & E & EB & (Q1 & Q2 & Q3)).
    + unfold s3. by rewrite register_ts.
    + lia.
    + intros i s0. unfold register_clone. by rewrite register_ts.
    + intros i es s0 (R1 & R2 & R3). unfold Primed, now, register_clone. by rewrite register_ts, register_sys.
    + done.
    + eapply passes_then; [exact E|]. set (l := template :: _) in EB.
      assert (wf_entries l) as Hwf.
      { apply wf_clones; [apply template_size|apply template_chunks|lia|]. intros i. split; [done|].
        cbn [ti_block_chunks expiring_clone]. by rewrite template_chunks, template_size. }
      assert (l <> []) as Hne by done.
      eapply passes_then; [apply run_sealing; rewrite ?EB, ?Q1; done|]. rewrite EB, Q1.
      do 2 apply passes_modify. match goal with |- passes _ (on_initialize (now ?x) _) => set (s4 := x) end.
      apply passes_assert, bool_decide_eq_true_2. apply (sweep_takes_block_1 l); [|done].
      change (Transactions (ts s4)) with (<[1 := LayoutCurrent l]> (Transactions (ts s'))). apply lookup_insert_eq.
  - eapply passes_then; [done|]. eapply passes_then; [apply run_quiet; [done|rewrite Hn1; done|done]|].
    by do 2 apply passes_modify.
Qed.
End StorageBenchmarks.

Section RenewalBenchmarks.
Context `{HostLaws} `{!Config} `{!ConfigLaws} `{!ChunkCapacity} `{HopHost}.
Variable whitelisted_caller : AccountId.
Variable authorizer_origin : TryOrigin.
Context (granter : RuntimeOrigin).
Hypothesis granting : grants authorizer_origin granter.

(** ** One largest store, sealed under block 0 *)

Record RenewStart (s : State) : Prop := {
  rstart_now : now s = 0;
  rstart_period : 0 <= RetentionPeriod (ts s);
  rstart_entries : BlockTransactions (ts s) = [];
  rstart_extrinsic : extrinsic_index (sys s) = Some 0;
  rstart_pending : PendingRenewals (dr s) = [];
  rstart_unregistered : Renewals (dr s) !! largest_hash = None }.

Lemma RenewStart_grant txs bs e s :
  RenewStart s -> RenewStart (deposit_storage_event e (with_grant (Account whitelisted_caller) txs bs s)).
Proof.
  intros [S1 S2 S3 S4 S5 S6].
  destruct (with_grant_frame (Account whitelisted_caller) txs bs s) as (F1 & F2 & _ & F3 & _ & _ & _ & F4 & _).
  constructor; unfold now in *; cbn -[with_grant]; by rewrite ?F1, ?F2, ?F3, ?F4.
Qed.

(** What the preparation leaves: one entry, sealed, indexed, and nothing registered. *)
Record Sealed0 (s : State) : Prop := {
  sealed_now : now s = 1;
  sealed_block : Transactions (ts s) !! 0 = Some (LayoutCurrent [template]);
  sealed_index : TransactionByContentHash (ts s) !! largest_hash = Some (0, 0);
  sealed_entries : BlockTransactions (ts s) = [];
  sealed_extrinsic : extrinsic_index (sys s) = Some 0;
  sealed_unregistered : Renewals (dr s) !! largest_hash = None }.

(** No block is old enough to be swept when block 1 opens. *)
Lemma initialize_block_1 `{OnObsoleteTransactions} n s :
  n <= 1 -> 0 <= RetentionPeriod (ts s) -> on_initialize n s = s.
Proof.
  intros Hn Hp. unfold on_initialize, retention_period. assert (sat_sub n (sat_add_u32 (RetentionPeriod (ts s)) 1) = 0) as ->; [|done].
  unfold sat_sub, sat_add, u32_max. lia.
Qed.

Lemma store_and_seal s :
  RenewStart s ->
  exists s1 s2, store_largest s = (Ok tt, s1) /\ run_both_to_block 1 s1 = (Ok tt, s2) /\ Sealed0 s2 /\
    Authorizations (ts s2) = Authorizations (ts s) /\ PermanentStorageUsed (dr s2) = PermanentStorageUsed (dr s) /\
    permanent_cap s2 = permanent_cap s.
Proof.
  intros [S1 S2 S3 S4 S5 S6]. pose proof MaxTransactionSize_range as Hm. pose proof (num_chunks_pos _ Hm).
  set (s1 := stored 0 (zeros MaxTransactionSize) Blake2b256 RAW_CODEC s).
  assert (store_largest s = (Ok tt, s1)) as E1.
  { unfold store_largest, map_err, store. cbn [ensure_authorized ensure_root ensure_none none_origin]. unfold bind, lift.
    by rewrite store_zeros_ok by (lia || done). }
  assert (BlockTransactions (ts s1) = [template]) as Ht by (cbn; by rewrite S3).
  assert (now s1 = 0) as Hn by done. pose proof template_chunks as Hc.
  exists s1, (set_block_number 1 (upd_Transactions <[0 := LayoutCurrent [template]]>
      (upd_BlockTransactions (fun _ => []) (upd_ProofChecked (fun _ => false) s1)))).
  split_and!; [done| | |done|done|done].
  - unfold run_both_to_block, run_to_block. rewrite Hn. change (Z.to_nat (1 - 0)) with 1%nat. cbn [run_blocks].
    unfold bind at 1. unfold hook, renewal_then_storage_finalize, renewal_on_finalize.
    change (PendingRenewals (dr s1)) with (PendingRenewals (dr s)). rewrite S5, Hn. unfold on_finalize, proof_ok.
    assert (sat_sub 0 (retention_period s1) = 0) as -> by (unfold sat_sub, retention_period; cbn -[Z.max]; lia).
    cbn [Z.eqb orb]. rewrite orb_true_r. cbv beta iota.
    unfold seal_block. cbn [ts upd_ProofChecked upd_ts BlockTransactions]. rewrite Ht.
    assert ((total_chunks [template] =? 0) = false) as -> by (apply Z.eqb_neq; change (total_chunks [template]) with (ti_block_chunks template); lia).
    cbn [negb]. unfold bind at 1, modify at 1. unfold bind at 1, modify at 1. unfold ret. do 2 f_equal.
    match goal with |- context [set_block_number (now ?x + 1) ?x] => change (now x) with (now s1) end.
    rewrite Hn. apply initialize_block_1; [done|exact S2].
  - constructor; try done.
    + cbn. apply lookup_insert_eq.
    + cbn. rewrite S1, S3. by rewrite lookup_insert_eq.
Qed.

Lemma resolve_largest s entry :
  Sealed0 s -> entry = ByContentHash largest_hash \/ entry = Position 0 0 ->
  resolve_transaction_ref s entry = Ok template.
Proof.
  intros [_ Hb Hi _ _ _] [-> | ->]; cbn [resolve_transaction_ref]; rewrite ?Hi; unfold transaction_info, Transactions_get;
    by rewrite Hb.
Qed.

Lemma template_hash : ti_content_hash template = largest_hash.
Proof. done. Qed.

Lemma bench_renew_passes s : RenewStart s -> passes (bench_renew whitelisted_caller) s.
Proof.
  intros HS. destruct (store_and_seal s HS) as (s1 & s2 & E1 & E2 & HQ & _ & _).
  eapply passes_then; [exact E1|]. eapply passes_then; [exact E2|]. eapply passes_then.
  { apply extrinsic_call_ok. rewrite leave_block_zero_id by (rewrite (sealed_now _ HQ); done).
    unfold renew, resolve_or. unfold_M. cbn [ensure_authorized authorized_origin].
    rewrite resolve_largest by auto. rewrite template_hash, (sealed_unregistered _ HQ).
    rewrite bool_decide_eq_false_2 by (by intros []). done. }
  by eapply assert_last.
Qed.

Lemma bench_force_renew_passes s : RenewStart s -> passes (bench_force_renew) s.
Proof.
  intros HS. destruct (store_and_seal s HS) as (s1 & s2 & E1 & E2 & HQ & _ & _).
  pose proof MaxTransactionSize_range. pose proof MaxBlockTransactions_range.
  eapply passes_then; [exact E1|]. eapply passes_then; [exact E2|].
  assert (data_size_ok (ti_size template) = true) as Hsz by (apply data_size_ok_size; rewrite template_size; lia).
  destruct (entries_renew_cases template 0 meta_renew [] s2) as [[Hl _]|(_ & e & _ & He)]; [unfold len in Hl; simpl in Hl; lia|].
  eapply passes_then.
  { apply extrinsic_call_ok. rewrite leave_block_zero_id by (rewrite (sealed_now _ HQ); done).
    unfold force_renew, resolve_or, do_renew, with_block_transactions, ensure_data_size_ok. unfold_M. cbn [ensure_authorized none_origin ensure_root ensure_none].
    rewrite resolve_largest by auto. rewrite Hsz, (sealed_extrinsic _ HQ). cbn [ok_or].
    rewrite (sealed_entries _ HQ), He. cbn [ok_or]. done. }
  by eapply assert_last.
Qed.

Lemma authorize_caller_ok who txs s :
  exists e, authorize_caller authorizer_origin who txs s =
    (Ok tt, deposit_storage_event e (with_grant (Account who) txs (as_u64 (MaxTransactionSize * 10)) s)).
Proof.
  pose proof MaxTransactionSize_range. destruct (granting s) as [Ho _]. eexists. unfold authorize_caller.
  erewrite then_ok by (by apply origin_ok). apply or_stop_ok. apply (authorize_account_ok authorizer_origin granter granting).
  rewrite as_u64_small; unfold is_u64, u64_max, u32_max in *; lia.
Qed.

(** Registering the sealed entry. *)
Lemma enable_ok s :
  Sealed0 s ->
  enable_auto_renew (authorized_origin whitelisted_caller) largest_hash s =
    (Ok tt, deposit_renewal_event (RenewalEnabled largest_hash whitelisted_caller true)
              (upd_Renewals <[largest_hash := mkRenewalData whitelisted_caller true true]> s)).
Proof.
  intros [_ Hb Hi _ _ Hr]. unfold enable_auto_renew, lookup_by_content_hash. unfold_M. cbn [ensure_authorized authorized_origin].
  rewrite Hr. rewrite bool_decide_eq_false_2 by (by intros []). cbn [negb]. rewrite Hi. cbn [ok_or].
  unfold transaction_info, Transactions_get. by rewrite Hb.
Qed.

Lemma bench_enable_auto_renew_passes s :
  RenewStart s -> passes (bench_enable_auto_renew whitelisted_caller authorizer_origin) s.
Proof.
  intros HS. destruct (authorize_caller_ok whitelisted_caller 10 s) as [e E0].
  destruct (store_and_seal _ (RenewStart_grant 10 (as_u64 (MaxTransactionSize * 10)) e s HS)) as (s1 & s2 & E1 & E2 & HQ & _ & _).
  eapply passes_then; [exact E0|]. eapply passes_then; [exact E1|]. eapply passes_then; [exact E2|].
  eapply passes_then.
  { apply extrinsic_call_ok. rewrite leave_block_zero_id by (rewrite (sealed_now _ HQ); done). by apply enable_ok. }
  by eapply assert_last.
Qed.

Lemma bench_disable_auto_renew_passes s :
  RenewStart s -> passes (bench_disable_auto_renew whitelisted_caller authorizer_origin) s.
Proof.
  intros HS. destruct (authorize_caller_ok whitelisted_caller 10 s) as [e E0].
  destruct (store_and_seal _ (RenewStart_grant 10 (as_u64 (MaxTransactionSize * 10)) e s HS)) as (s1 & s2 & E1 & E2 & HQ & _ & _).
  eapply passes_then; [exact E0|]. eapply passes_then; [exact E1|]. eapply passes_then; [exact E2|].
  eapply passes_then; [by apply or_stop_ok, enable_ok|]. apply passes_modify.
  match goal with |- passes _ ?x => set (s3 := x) end.
  assert (Renewals (dr s3) !! largest_hash = Some (mkRenewalData whitelisted_caller true false)) as Hr.
  { cbn. by rewrite lookup_alter_eq, lookup_insert_eq. }
  eapply passes_then.
  { apply extrinsic_call_ok. rewrite leave_block_zero_id by (change (now s3) with (now s2); rewrite (sealed_now _ HQ); done).
    unfold disable_auto_renew. unfold_M. cbn [ensure_authorized authorized_origin]. rewrite Hr. cbn [ok_or rd_account paid negb].
    rewrite bool_decide_eq_true_2 by done. done. }
  by eapply assert_last.
Qed.
(** ** Validation *)

(** What a caller granted in block 1 may renew, and is charged for. *)
Definition renewer_grant : Authorization :=
  mkAuthorization (mkExtent 0 0 0 PermanentExtent_default (as_u64 (MaxTransactionSize * 10))) (grant_expiration 1 None).

Definition granted_renewer (e : StorageEvent) (s : State) : State :=
  deposit_storage_event e (with_grant (Account whitelisted_caller) 0 (as_u64 (MaxTransactionSize * 10)) s).

Lemma renewer_grant_lives : expired renewer_grant 1 = false.
Proof.
  pose proof AuthorizationPeriod_range. unfold expired, renewer_grant, grant_expiration, sat_add, u32_max.
  cbn [expiration]. apply Z.leb_gt. lia.
Qed.

Lemma granted_renewer_frame e s :
  now s = 1 -> Authorizations (ts s) = ∅ ->
  let s' := granted_renewer e s in
  now s' = 1 /\ Authorizations (ts s') = {[Account whitelisted_caller := renewer_grant]} /\ dr s' = dr s /\
  BlockTransactions (ts s') = BlockTransactions (ts s) /\ Transactions (ts s') = Transactions (ts s) /\
  permanent_cap s' = permanent_cap s.
Proof.
  intros Hn Hnone. unfold granted_renewer.
  destruct (with_grant_frame (Account whitelisted_caller) 0 (as_u64 (MaxTransactionSize * 10)) s)
    as (F1 & F2 & _ & F4 & F5 & _ & _ & _ & F7).
  rewrite Hnone, lookup_empty, Hn in F7. cbv zeta. unfold now, permanent_cap in *. cbn -[with_grant]. by rewrite F1, F2, F4, F5, F7.
Qed.

Lemma granted_renewer_charged e s :
  Sealed0 s -> Authorizations (ts s) = ∅ -> 0 <= PermanentStorageUsed (dr s) ->
  PermanentStorageUsed (dr s) + MaxTransactionSize <= permanent_cap s ->
  renewal_charge (granted_renewer e s) whitelisted_caller (CallForceRenew (Position 0 0)) =
    Ok (Account whitelisted_caller, MaxTransactionSize).
Proof.
  intros HQ Hnone Hu0 Hu. destruct (granted_renewer_frame e s (sealed_now _ HQ) Hnone) as (Hn & HA & HD & HB & HT & HC).
  pose proof MaxTransactionSize_range. pose proof MaxBlockTransactions_range. 
  pose proof (MaxPermanentStorageSize_range (parameters (sys s))) as Hcap. fold (permanent_cap s) in Hcap.
  assert (as_u64 (MaxTransactionSize * 10) = MaxTransactionSize * 10) as E10
    by (apply as_u64_small; unfold is_u64, u64_max, u32_max in *; lia).
  unfold renewal_charge. assert (resolve_transaction_ref (granted_renewer e s) (Position 0 0) = Ok template) as ->.
  { cbn [resolve_transaction_ref]. unfold transaction_info, Transactions_get. rewrite HT, (sealed_block _ HQ). done. }
  rewrite template_size, (proj2 (data_size_ok_size _)) by lia. cbn [negb].
  assert (block_transactions_full (granted_renewer e s) = false) as ->.
  { unfold block_transactions_full, block_transactions_count. rewrite HB, (sealed_entries _ HQ).
    apply Z.leb_gt. change (as_u32 (len (@nil TransactionInfoFor))) with 0. lia. }
  unfold renew_allowed, get_active_authorization. rewrite HA, lookup_singleton_ne, lookup_singleton_eq, Hn, renewer_grant_lives, HD, HC by done.
  cbn [negb renewer_grant extent extra bytes_permanent PermanentExtent_default Types.bytes_allowance]. rewrite E10.
  unfold sat_add, is_u64, u64_max, u32_max in *. rewrite !(proj2 (Z.leb_le _ _)) by lia. done.
Qed.

Lemma extent_after_charge s :
  now s = 1 -> Authorizations (ts s) = {[Account whitelisted_caller := renewer_grant]} ->
  account_authorization_extent (charge (Account whitelisted_caller) MaxTransactionSize s) whitelisted_caller =
    extent (renew_charged MaxTransactionSize renewer_grant).
Proof.
  intros Hn Ha. unfold account_authorization_extent, authorization_extent, charge. rewrite update_used_eq.
  cbn [ts upd_Authorizations upd_ts Authorizations upd_events upd_PermanentStorageUsed upd_dr].
  rewrite Ha, alter_singleton, decide_True, lookup_singleton_eq by done.
  assert (expired (renew_charged MaxTransactionSize renewer_grant) 1 = false) as Hex by apply renewer_grant_lives.
  match goal with |- context [expired _ ?n] => change n with (now s) end. by rewrite Hn, Hex.
Qed.

Lemma bench_validate_renew_passes s :
  RenewStart s -> Authorizations (ts s) = ∅ -> 0 <= PermanentStorageUsed (dr s) ->
  PermanentStorageUsed (dr s) + MaxTransactionSize <= permanent_cap s ->
  passes (bench_validate_renew whitelisted_caller authorizer_origin) s.
Proof.
  intros HS Hnone Hu0 Hu. destruct (store_and_seal s HS) as (s1 & s2 & E1 & E2 & HQ & EA & EU & EC).
  rewrite <-EA in Hnone. rewrite <-EU in Hu0, Hu. rewrite <-EC in Hu. pose proof MaxTransactionSize_range.
  eapply passes_then; [exact E1|]. eapply passes_then; [exact E2|].
  destruct (authorize_caller_ok whitelisted_caller 0 s2) as [e E3]. eapply passes_then; [exact E3|]. fold (granted_renewer e s2).
  destruct (granted_renewer_frame e s2 (sealed_now _ HQ) Hnone) as (Hn & Ha & _).
  pose proof (granted_renewer_charged e s2 HQ Hnone Hu0 Hu) as Hch. set (s3 := granted_renewer e s2) in *.
  pose proof (check_renewal_signed_spec whitelisted_caller (CallForceRenew (Position 0 0)) Validate s3) as Hv.
  pose proof (check_renewal_signed_spec whitelisted_caller (CallForceRenew (Position 0 0)) PreDispatch s3) as Hp.
  rewrite Hch in Hv, Hp. destruct Hv as [vt Hv], Hp as [vt' Hp]. cbn [consume_authorization apply_charge] in Hv, Hp.
  eapply passes_then.
  { eapply test_run_claimed; rewrite leave_block_zero_id by (by rewrite Hn).
    - cbn [validate_leaf RuntimeLeaves LeafTuple tuple_validate_leaf StorageLeaves RenewalLeaves storage_sub_type renewal_sub_type].
      unfold_M. change (0 <? 0) with false. cbv iota. unfold validate_renewal_signed. rewrite Hv. done.
    - cbn [prepare_leaf RuntimeLeaves LeafTuple tuple_prepare_leaf StorageLeaves RenewalLeaves storage_sub_type renewal_sub_type].
      unfold_M. change (0 <? 0) with false. cbv iota. unfold pre_dispatch_renewal_signed. unfold_M. rewrite Hp. done. }
  pose proof (extent_after_charge s3 Hn Ha) as Hext.
  apply passes_assert_then; [|apply passes_assert]; rewrite Hext; cbn -[Z.min as_u64]; apply Z.eqb_eq; [|done].
  rewrite len_zeros by lia. unfold sat_add, u64_max, u32_max in *. lia.
Qed.

(** ** The drain *)

Section DrainBenchmark.
Variable rn_caller : Z -> AccountId.
Hypothesis rn_caller_inj : forall i j, rn_caller i = rn_caller j -> i = j.

(** What each caller is granted. *)
Definition caller_grant : Authorization :=
  mkAuthorization (mkExtent 0 10 0 PermanentExtent_default (as_u64 (MaxTransactionSize * 10))) (grant_expiration 1 None).

Lemma caller_grant_lives : expired caller_grant 1 = false.
Proof.
  pose proof AuthorizationPeriod_range. unfold expired, caller_grant, grant_expiration, sat_add. cbn [expiration].
  apply Z.leb_gt. unfold u32_max. lia.
Qed.

Lemma caller_room : 1 <= as_u64 (MaxTransactionSize * 10).
Proof. pose proof MaxTransactionSize_range. rewrite as_u64_small; unfold is_u64, u64_max, u32_max in *; lia. Qed.

(** Building the queue grants to each caller and touches nothing else. *)
Lemma build_pending_ok k m pending s :
  now s = 1 -> 0 <= m -> len pending + Z.of_nat k <= MaxBlockTransactions ->
  (forall i, m <= i -> Authorizations (ts s) !! Account (rn_caller i) = None) ->
  exists s', build_pending authorizer_origin rn_caller (seqZ m (Z.of_nat k)) pending s =
      (Ok (pending ++ map (pending_item rn_caller) (seqZ m (Z.of_nat k))), s') /\
    sys s' = sys s /\ dr s' = dr s /\ BlockTransactions (ts s') = BlockTransactions (ts s) /\
    (forall i, m <= i < m + Z.of_nat k -> Authorizations (ts s') !! Account (rn_caller i) = Some caller_grant) /\
    (forall i, i < m -> Authorizations (ts s') !! Account (rn_caller i) = Authorizations (ts s) !! Account (rn_caller i)).
Proof.
  revert m pending s. induction k as [|k IH]; intros m pending s Hn Hm Hlen Hnone.
  { exists s. cbn. rewrite app_nil_r. split_and!; (done || (intros; lia)). }
  rewrite seqZ_cons by lia. cbn [build_pending map].
  destruct (authorize_caller_ok (rn_caller m) 10 s) as [e E]. erewrite then_ok by exact E.
  set (s1 := deposit_storage_event e _).
  destruct (with_grant_frame (Account (rn_caller m)) 10 (as_u64 (MaxTransactionSize * 10)) s) as (F1 & F2 & _ & F3 & _ & _ & _ & _ & F4).
  rewrite (Hnone m), Hn in F4 by lia. cbn [granted] in F4. fold caller_grant in F4.
  unfold try_push at 1. rewrite (proj2 (Z.ltb_lt _ _)) by lia. cbn [ok_or]. unfold lift, bind.
  replace (Z.pred (Z.of_nat (S k))) with (Z.of_nat k) by lia.
  assert (Authorizations (ts s1) = <[Account (rn_caller m) := caller_grant]> (Authorizations (ts s))) as EA by exact F4.
  destruct (IH (Z.succ m) (pending ++ [pending_item rn_caller m]) s1) as (s' & E' & G1 & G2 & G3 & G4 & G5).
  - unfold now. cbn. rewrite F1. exact Hn.
  - lia.
  - rewrite len_app. unfold len in *. cbn [length]. lia.
  - intros i Hi. rewrite EA, lookup_insert_ne by (intros [= Hc%rn_caller_inj]; lia). apply Hnone. lia.
  - exists s'. rewrite E', G1, G2, G3. split_and!; try done.
    + by rewrite <-app_assoc.
    + intros i Hi. destruct (decide (i = m)) as [->|Hne]; [|apply G4; lia].
      rewrite G5, EA by lia. apply lookup_insert_eq.
    + intros i Hi. rewrite G5, EA by lia. apply lookup_insert_ne. intros [= Hc%rn_caller_inj]. lia.
Qed.

(** Each item finds its owner's grant and room under both caps, so it is delivered. *)
Lemma drain_pending k m entries s :
  now s = 1 -> 0 <= m -> len entries + Z.of_nat k <= MaxBlockTransactions ->
  0 <= PermanentStorageUsed (dr s) -> PermanentStorageUsed (dr s) + Z.of_nat k <= permanent_cap s ->
  (forall i, m <= i < m + Z.of_nat k -> Authorizations (ts s) !! Account (rn_caller i) = Some caller_grant) ->
  len (foldl (drain_one 0) (entries, s) (map (pending_item rn_caller) (seqZ m (Z.of_nat k)))).1 = len entries + Z.of_nat k.
Proof.
  revert m entries s. induction k as [|k IH]; intros m entries s Hn Hm Hlen Hu0 Hu Ha.
  { rewrite seqZ_nil by lia. cbn [map foldl fst]. lia. }
  rewrite seqZ_cons by lia. cbn [map foldl]. rewrite drain_one_eq.
  pose proof (MaxPermanentStorageSize_range (parameters (sys s))) as Hcap.
  fold (permanent_cap s) in Hcap. unfold is_u64 in Hcap. pose proof caller_room.
  assert (sat_add_u64 (PermanentStorageUsed (dr s)) 1 = PermanentStorageUsed (dr s) + 1) as Hsat by (unfold sat_add; lia).
  assert (cycle_paid s (pending_item rn_caller m) = true) as ->.
  { unfold cycle_paid, renew_allowed, get_active_authorization. cbn [pending_item item_data snd item_owner rd_account paid orb item_info fst pending_info ti_size].
    change (item_owner (pending_item rn_caller m)) with (rn_caller m).
    rewrite Ha, Hn, caller_grant_lives by lia. cbn [negb caller_grant extent extra Types.bytes_allowance].
    change (bytes_permanent PermanentExtent_default) with 0. rewrite Hsat. apply andb_true_iff. rewrite !Z.leb_le.
    unfold sat_add, u64_max. lia. }
  rewrite (proj2 (Z.ltb_lt _ _)) by lia. unfold delivered.
  match goal with |- context [foldl _ (?es, ?x) _] => set (s1 := x); set (entries1 := es) end.
  replace (Z.pred (Z.of_nat (S k))) with (Z.of_nat k) by lia.
  assert (len entries1 = len entries + 1) as Hl1 by (unfold entries1; rewrite len_app; done).
  assert (now s1 = now s /\ PermanentStorageUsed (dr s1) = PermanentStorageUsed (dr s) + 1 /\
    Authorizations (ts s1) = alter (renew_charged 1) (Account (rn_caller m)) (Authorizations (ts s)) /\
    permanent_cap s1 = permanent_cap s) as (Hn1 & Hu1 & Ha1 & Hc1).
  { unfold s1, cycle_charge. cbn [pending_item item_data snd paid]. unfold charge. rewrite update_used_eq. by rewrite <-Hsat. }
  rewrite IH; [lia|by rewrite Hn1|lia|lia|lia|rewrite Hc1; lia|].
  intros i Hi. rewrite Ha1, lookup_alter_ne by (intros [= Hc%rn_caller_inj]; lia). apply Ha. lia.
Qed.

Record DrainStart (s : State) : Prop := {
  dstart_entries : BlockTransactions (ts s) = [];
  dstart_pending : PendingRenewals (dr s) = [];
  dstart_used : 0 <= PermanentStorageUsed (dr s);
  dstart_callers : forall i, Authorizations (ts s) !! Account (rn_caller i) = None }.

Lemma bench_process_pending_renewals_passes n s :
  DrainStart s -> 0 <= n <= MaxBlockTransactions ->
  PermanentStorageUsed (dr s) + n <= permanent_cap s ->
  passes (bench_process_pending_renewals authorizer_origin rn_caller n) s.
Proof.
  intros [D1 D2 D3 D4] Hn Hu. pose proof MaxBlockTransactions_range. pose proof MaxTransactionSize_range.
  unfold bench_process_pending_renewals. do 2 apply passes_modify.
  set (s1 := set_extrinsic 0 (set_block_number 1 s)).
  destruct (build_pending_ok (Z.to_nat n) 0 [] s1) as (s2 & E & G1 & G2 & G3 & G4 & _);
    [done|done|unfold len; cbn [length]; lia|by intros i _|].
  rewrite Z2Nat.id in E by lia. set (items := map (pending_item rn_caller) (seqZ 0 n)) in E.
  assert (len items = n) as Hlen by (unfold items, len; rewrite length_map, length_seqZ; lia).
  set (s3 := upd_PendingRenewals (fun _ => items) s2).
  assert (PendingInv s3) as HI.
  { split; [|cbn; lia]. apply Forall_map, Forall_forall. intros i _. split; [unfold size_ok; cbn; lia|split; [done|]].
    split; [split|]; cbn; unfold RAW_CODEC, is_u32, is_u64, u32_max, u64_max; lia. }
  eapply (passes_then _ _ s1 tt s3).
  { destruct (0 <? n) eqn:E0; b2p.
    - unfold bind at 1, gets at 1. change (PendingRenewals (dr s1)) with (PendingRenewals (dr s)). rewrite D2.
      erewrite then_ok by exact E. done.
    - assert (n = 0) as -> by lia. cbn in E. injection E as <-. unfold ret, s3, items. cbn. f_equal.
      unfold s1. destruct s as [[] ? [] ? ? ?]. cbn in *. by subst. }
  assert (now s3 = 1) as Hn3 by (unfold now; cbn; by rewrite G1).
  eapply passes_then.
  { apply extrinsic_call_ok. rewrite leave_block_zero_id by (by rewrite Hn3).
    unfold process_pending_renewals. unfold_M. cbn [ensure_none none_origin]. rewrite process_pending_eq by done. done. }
  change (extrinsic_index (sys s3)) with (extrinsic_index (sys s2)). rewrite G1. cbn [extrinsic_index sys s1 set_extrinsic upd_sys].
  apply passes_assert_then.
  - apply bool_decide_eq_true_2. cbn. by rewrite pending_drain.
  - apply passes_assert. unfold block_transactions_count, with_entries. cbn [ts upd_BlockTransactions upd_ts BlockTransactions].
    change (BlockTransactions (ts s3)) with (BlockTransactions (ts s2)). rewrite G3.
    change (BlockTransactions (ts s1)) with (BlockTransactions (ts s)). rewrite D1. cbn [PendingRenewals dr s3 upd_PendingRenewals upd_dr].
    unfold items. rewrite <-(Z2Nat.id n) at 1 by lia. rewrite drain_pending.
    + rewrite as_u32_small by (unfold is_u32, len; cbn [length]; lia). apply Z.eqb_eq. unfold len. cbn [length]. lia.
    + by unfold now; cbn; rewrite G1.
    + done.
    + unfold len; cbn [length]; lia.
    + cbn. by rewrite G2.
    + unfold permanent_cap. cbn. rewrite G1, G2. cbn. change (PermanentStorageUsed (dr s) + Z.of_nat (Z.to_nat n) <= permanent_cap s). lia.
    + exact G4.
Qed.
End DrainBenchmark.
End RenewalBenchmarks.

Section HopBenchmarks.
Context `{HostLaws} `{!Config} `{!ConfigLaws} `{!ChunkCapacity} `{HopHost}.
Variable authorizer_origin : TryOrigin.
Context (granter : RuntimeOrigin).
Hypothesis granting : grants authorizer_origin granter.
Variables signer_key recipient_key : MultiSigner.
Variable sr25519_sign : MultiSigner -> bytes -> option MultiSignature.
Variable encode_recipients : list MultiSigner -> bytes.

(** The keystore signs, and its signatures verify. *)
Hypothesis signs : forall m, exists sig,
  sr25519_sign signer_key m = Some sig /\ signature_verify sig m (into_account signer_key) = true.
Hypothesis tolerant : 0 <= SubmitTimestampTolerance.
Hypothesis some_recipients : blake2_256 (encode_recipients [recipient_key]) <> EMPTY_RECIPIENTS_HASH.

(** A call with the right size, moment and signature is authorized once its signer has
    been granted a byte. *)
Lemma signer_may_promote c s :
  now s <= 1 -> 0 <= now s -> 2 <= AuthorizationPeriod -> BlockTransactions (ts s) = [] ->
  Authorizations (ts s) !! Account (into_account signer_key) = None -> timestamp_now (sys s) = BENCH_NOW ->
  hop_signer c = signer_key -> hop_timestamp c = BENCH_NOW -> 0 < len (hop_data c) <= MaxTransactionSize ->
  (forall s', genesis_hash (sys s') = genesis_hash (sys s) -> hop_signature_ok s' c = true) ->
  exists s', authorize_signer authorizer_origin signer_key s = (Ok tt, s') /\ genesis_hash (sys s') = genesis_hash (sys s) /\
    authorize_block c s' = (Ok tt, leave_block_zero s').
Proof.
  intros Hn1 Hn0 Hp Hnil Hnone Ht Hsigner Htime Hlen Hsig. pose proof MaxBlockTransactions_range.
  destruct (granting s) as [Ho _].
  set (e := AccountAuthorized (into_account signer_key) 1 1).
  set (s1 := deposit_storage_event e (with_grant (Account (into_account signer_key)) 1 1 s)).
  exists s1. split; [|split].
  - unfold authorize_signer. erewrite then_ok by (by apply origin_ok). apply or_stop_ok.
    by apply (authorize_account_ok authorizer_origin granter granting).
  - destruct (with_grant_frame (Account (into_account signer_key)) 1 1 s) as (Es & _). cbn. by rewrite Es.
  - destruct (newcomer_active (into_account signer_key) 1 1 e s Hnone ltac:(lia) Hp) as (x & EA & Hx & Esys).
    destruct (leave_block_zero_frame s1) as (Ets & _). fold s1 in EA, Hx, Esys.
    destruct (with_grant_frame (Account (into_account signer_key)) 1 1 s) as (_ & _ & _ & EB & _).
    assert (sys (leave_block_zero s1) = sys s \/ exists n, sys (leave_block_zero s1) =
      mkSystem n (extrinsic_index (sys s)) (parent_hash (sys s)) (genesis_hash (sys s)) (timestamp_now (sys s))
        (parameters (sys s)) (dec_providers (sys s))) as Hsys.
    { rewrite Esys. unfold leave_block_zero. destruct (now s =? 0); [right; by eexists|by left]. }
    unfold authorize_block, map_err. unfold bind, modify.
    assert (promotable SourceInBlock c (leave_block_zero s1)) as Hok; [|by rewrite (proj2 (authorize_hop_ok _ _ _ _) (conj Hok eq_refl))].
    unfold promotable. rewrite Hsigner, Htime. split_and!; try done; try lia.
    + unfold block_transactions_full, block_transactions_count. rewrite Ets.
      change (ts s1) with (ts (with_grant (Account (into_account signer_key)) 1 1 s)). rewrite EB, Hnil.
      apply Z.leb_gt. change (as_u32 (len (@nil TransactionInfoFor))) with 0. lia.
    + assert (timestamp_now (sys (leave_block_zero s1)) = BENCH_NOW) as -> by (destruct Hsys as [-> | [n ->]]; done).
      rewrite Z.sub_diag. exact tolerant.
    + unfold active, get_active_authorization. rewrite EA, lookup_insert_eq. unfold expired. cbn [expiration]. by rewrite Hx.
    + apply Hsig. by destruct Hsys as [-> | [n ->]].
Qed.

(** The signer is new to the chain and the block is empty. *)
Record HopStart (s : State) : Prop := {
  hstart_now : now s = 0;
  hstart_entries : BlockTransactions (ts s) = [];
  hstart_signer : Authorizations (ts s) !! Account (into_account signer_key) = None }.

Lemma bench_authorize_promote_passes d s :
  HopStart s -> 2 <= AuthorizationPeriod -> 0 < d <= MaxTransactionSize ->
  passes (bench_authorize_promote authorizer_origin signer_key sr25519_sign d) s.
Proof.
  intros [S1 S2 S3] Hp Hd. unfold bench_authorize_promote. apply passes_modify.
  destruct (signs (signing_payload (blake2_256 (zeros d)) BENCH_NOW)) as (sig & Esig & Hv).
  destruct (signer_may_promote (CallPromote signer_key sig BENCH_NOW (zeros d)) (set_timestamp BENCH_NOW s))
    as (s' & E1 & _ & E2); try done.
  - change (now s <= 1). lia.
  - change (0 <= now s). lia.
  - cbn [hop_data]. rewrite len_zeros; lia.
  - eapply passes_then; [exact E1|]. rewrite Esig. cbn [ok_or]. eapply passes_then; [done|]. unfold passes. by rewrite E2.
Qed.

Lemma bench_authorize_promote_v2_passes d s :
  HopStart s -> 2 <= AuthorizationPeriod -> 0 < d <= MaxTransactionSize ->
  passes (bench_authorize_promote_v2 authorizer_origin signer_key recipient_key sr25519_sign encode_recipients d) s.
Proof.
  intros [S1 S2 S3] Hp Hd. unfold bench_authorize_promote_v2. apply passes_modify.
  set (r := blake2_256 (encode_recipients [recipient_key])).
  destruct (signs (signing_payload_v2 (blake2_256 (zeros d)) BENCH_NOW (genesis_hash (sys s)) r)) as (sig & Esig & Hv).
  destruct (signer_may_promote (CallPromoteV2 signer_key sig BENCH_NOW r (zeros d)) (set_timestamp BENCH_NOW s))
    as (s' & E1 & Eg & E2); try done.
  - change (now s <= 1). lia.
  - change (0 <= now s). lia.
  - cbn [hop_data]. rewrite len_zeros; lia.
  - intros s0 Hg. cbn [hop_signature_ok]. change (genesis_hash (sys s0) = genesis_hash (sys s)) in Hg.
    rewrite Hg. fold r in some_recipients. rewrite bool_decide_eq_false_2 by done. by rewrite Hv.
  - eapply passes_then; [exact E1|]. apply passes_gets. change (genesis_hash (sys s') = genesis_hash (sys s)) in Eg. rewrite Eg.
    fold r. rewrite Esig. cbn [ok_or]. eapply passes_then; [done|]. unfold passes. by rewrite E2.
Qed.
End HopBenchmarks.

(** ** An origin that does not fit *)

(** [EnsureAllowedAuthorizers] alone: the authorizer it registers for a benchmark has a
    quota of 100000 bytes, and the benchmark of [authorize_account] grants 1 MiB. *)
Lemma bench_authorize_account_needs_quota `{Config} first_key new who s :
  (forall s o, Authorizer s o = EnsureAllowedAuthorizers s o) ->
  first_key (AllowedAuthorizers (ts s)) = None ->
  (bench_authorize_account who (EnsureAllowedAuthorizers_try_successful_origin first_key new) s).1 =
    Err (CallError (StorageModule InsufficientAuthorizerBudget)).
Proof.
  intros HA Hk. unfold bench_authorize_account, origin_or_stop, lift_origin, EnsureAllowedAuthorizers_try_successful_origin.
  unfold bind at 1. rewrite Hk. cbn [ok_or].
  set (s1 := upd_AllowedAuthorizers _ s). destruct (leave_block_zero_frame s1) as (Ets & _).
  assert (AllowedAuthorizers (ts (leave_block_zero s1)) !! new = Some (mkBudget (Some (mkQuota 10000 100000)) None false)) as Hb.
  { rewrite Ets. apply lookup_insert_eq. }
  unfold bind at 1, extrinsic_call, dispatch. unfold_M. unfold authorize_account, ensure_authorizer. unfold_M.
  rewrite HA. unfold EnsureAllowedAuthorizers. rewrite Hb. cbn [is_expired valid_until negb ok_or].
  unfold authorize, consume_authorizer_budget. unfold_M. cbn [authorizer]. change (0 <? 1024 * 1024) with true. cbv iota beta. by rewrite Hb.
Qed.

(** The runtimes' helper registers in the renewal pallet's storage only, and its proof is
    there on the default limits, for the default hash. *)
Lemma RenewalBenchmarkHelper_frame `{Config} hex owner : @BenchmarkHelperFrame (RenewalBenchmarkHelper hex owner).
Proof. by constructor. Qed.

Lemma DefaultCheckProofHelper_frame `{Config} hex : @BenchmarkHelperFrame (DefaultCheckProofHelper hex).
Proof. by constructor. Qed.

Lemma default_proof_fits `{Config} hex h :
  is_Some (default_encoded_check_proof hex h) <->
  MaxTransactionSize = DEFAULT_MAX_TRANSACTION_SIZE /\ MaxBlockTransactions = DEFAULT_MAX_BLOCK_TRANSACTIONS /\
  h = replicate 32 Byte.x00.
Proof.
  unfold default_encoded_check_proof. destruct (_ && _ && _) eqn:E.
  - rewrite !andb_true_iff, !Z.eqb_eq, bool_decide_eq_true in E. split; [naive_solver|by eexists].
  - split; [by intros []|]. intros (E1 & E2 & ->). rewrite E1, E2, !Z.eqb_refl, bool_decide_eq_true_2 in E by done. done.
Qed.

Section MigrationBenchmark.
Context `{HostLaws} `{StorageKeys} `{WeightLaws} `{ScaleLaws} `{!Config} `{!ConfigLaws} (required : Weight).

(** The items are of the layout's types as long as their chunk counts fit a [u32]. *)
Lemma v2_items_ok : MaxBlockTransactions * 8 <= u32_max -> v2s_ok v2_items.
Proof.
  intros Hmax. pose proof MaxBlockTransactions_range. split.
  - unfold len, v2_items. rewrite length_map, length_seqZ. lia.
  - apply Forall_map, Forall_forall. intros i Hi%elem_of_seqZ. unfold v2_info_ok. cbn -[Z.mul].
    rewrite !blake2_256_length. unfold is_u32, is_u64, u32_max, u64_max in *. split_and!; (done || lia).
Qed.

(** Whatever meter allows a step, one key is one step. *)
Lemma bench_migrate_v2_to_v3_step_passes meter s :
  raw_Transactions s = ∅ -> st_now s <= st_retention_period s + 1 -> MaxBlockTransactions * 8 <= u32_max ->
  allows required meter -> exists s', bench_migrate_v2_to_v3_step required meter s = Ok s'.
Proof.
  intros Hempty Hnow Hmax Ha. pose proof (v2_items_ok Hmax) as Hok. pose proof MaxBlockTransactions_range.
  unfold bench_migrate_v2_to_v3_step. rewrite Hempty. set (raw := enc v2_vec_codec v2_items).
  set (s0 := set_transactions (<[1:=raw]> ∅) s). pose proof (read_v2 v2_items Hok) as Hread. fold raw in Hread.
  destruct (step_spec required None meter s0 Ha) as (r & meter' & s' & -> & [_ Hpost] & Hprog).
  assert (raw_Transactions s0 !! 1 = Some raw) as Hraw by (cbn; apply lookup_insert_eq).
  assert (forall b x, raw_Transactions s0 !! b = Some x -> x = raw) as Hone.
  { intros b x. cbn. rewrite lookup_insert_Some, lookup_empty. naive_solver. }
  destruct r as [c|e].
  2:{ destruct Hpost as (_ & b & x & Hb & Hx). by rewrite (Hone b x Hb), Hread in Hx. }
  destruct Hpost as [Hswept Hend].
  assert (swept None c 1 = true) as Hs.
  { unfold swept. change (past None 1) with true. cbn [andb]. destruct c as [c|]; [|done].
    pose proof (Hprog c eq_refl) as Ht.
    destruct (past (Some c) 1) eqn:Ep; [exfalso|done].
    specialize (Hswept 1). unfold swept in Hswept. rewrite Ep in Hswept. change (past None 1) with true in Hswept. cbn [andb negb] in Hswept.
    assert (todo None (raw_Transactions s0) <= 1)%nat as Hle.
    { etransitivity; [apply todo_le|]. cbn. by rewrite map_size_insert_None, map_size_empty. }
    assert (todo (Some c) (raw_Transactions s') = 0%nat) as Hz by lia.
    unfold todo in Hz. apply map_size_empty_iff in Hz.
    assert (filter (fun p : BlockNumber * bytes => past (Some c) p.1 = true) (raw_Transactions s') !! 1 = Some raw) as Hf.
    { apply map_lookup_filter_Some. by rewrite Hswept. }
    by rewrite Hz in Hf. }
  specialize (Hswept 1). rewrite Hs in Hswept. unfold processed in Hswept. rewrite Hraw in Hswept.
  destruct (raw_Transactions s' !! 1) as [raw'|].
  2:{ apply v2_to_v3_entry_kept in Hswept; [done|]. unfold oldest_valid, sat_sub. cbn. lia. }
  apply v2_to_v3_entry_read in Hswept as [Hr Hd]. rewrite Hread in Hr. unfold decodes in Hd. unfold transactions_at_raw in Hr.
  destruct (decode_ok info_vec_codec raw') as [v3|]; [|done]. injection Hr as ->.
  assert (len (map materialize_v2 v2_items) = MaxBlockTransactions) as Hlen
    by (unfold len, v2_items; rewrite !length_map, length_seqZ; lia).
  rewrite Hlen, Z.eqb_refl. unfold v2_items. rewrite seqZ_cons by lia. by eexists.
Qed.
End MigrationBenchmark.

(** ** The facts apply *)

(** An empty chain running its first extrinsic is where every benchmark can start. *)
Lemma benchmarks_can_start `{HopHost} `{Host} `{Config} h rn_caller signer :
  let s := set_extrinsic 0 (empty_state h) in
  Fresh s /\ BlockStart s /\ RenewStart s /\ DrainStart rn_caller s /\ HopStart signer s /\
  Authorizations (ts s) = ∅.
Proof. split_and!; (constructor || done); (done || (unfold is_u32, u32_max; cbn; lia)). Qed.

(** The runtimes' first origin, Root, grants and registers. *)
Lemma root_grants `{XcmHost} allowed cap :
  @grants (paseo_config allowed cap) (fun s => (Some (System Root), s)) (System Root) /\
  @registers (paseo_config allowed cap) (fun s => (Some (System Root), s)) (System Root).
Proof. done. Qed.
