(* ===== verification/AuthorizeTool.v ===== *)
(** The stress-test tool's grants ([stress-test/src/authorize.rs]): the calls it builds,
    its retries, and what the calls do on the chain. *)

From Stdlib Require Import Ascii.
From S2P Require Import Prelude Slice Primitives Types State Authorizations Blocks Retention Checks Renewal RenewalFacts Hop Extension ExtensionFacts Chain ChainFacts Runtime StressPlan Submission.

(** ** Building and submitting grants *)

Section Calls.
Context `{HopHost}.

Definition authorize_call (transactions_per_account bytes_per_account : Z) (account : AccountId) : RuntimeCall :=
  TransactionStorage (CallAuthorizeAccount account transactions_per_account bytes_per_account).

(** [build_authorize_call]. *)
Definition build_authorize_call (batch : list AccountId) (transactions_per_account bytes_per_account : Z) : RuntimeCall :=
  let authorize_calls := map (authorize_call transactions_per_account bytes_per_account) batch in
  match authorize_calls with
  | [call] => call
  | calls => Utility (batch_all calls)
  end.

(** The storage calls a call dispatches: its own, or a batch's in order. *)
Fixpoint leaf_calls (c : RuntimeCall) : list StorageCall :=
  match c with
  | TransactionStorage i => [i]
  | Utility (batch_all calls) => concat (map leaf_calls calls)
  | _ => []
  end.

Lemma build_authorize_call_leaves batch t b :
  leaf_calls (build_authorize_call batch t b) = map (fun a => CallAuthorizeAccount a t b) batch.
Proof.
  assert (forall l, concat (map leaf_calls (map (authorize_call t b) l)) = map (fun a => CallAuthorizeAccount a t b) l) as Hc.
  { induction l as [|x l IH]; [done|]. cbn. by rewrite IH. }
  unfold build_authorize_call. destruct batch as [|a [|a' batch]]; [done|done|]. apply (Hc (a :: a' :: batch)).
Qed.
End Calls.

Definition MAX_NONCE_RETRIES : Z := 10.

(** [is_nonce_error] on the error's text. *)
Definition is_nonce_error (text : string) : bool :=
  let msg := to_lowercase text in
  let has := str_contains msg in
  has "stale" || has "future" || has "outdated" || has "priority is too low" || has "nonce too low"
  || has "nonce too high" || has "transaction is outdated" || (has "1010" && (has "stale" || has "future")).

(** How one submission of a batch ends: in a best block, with an error (and what the
    node answers when the nonce is read again), or not in time. *)
Inductive AuthAttempt := AuthIncluded | AuthFailed (text : string) (refreshed : option Z) | AuthTimedOut.

(** The loop of [authorize_account_batch]: the result, [None] while it is still trying
    when the answers run out, the tracker, and the nonces used. *)
Fixpoint authorize_loop (authorizer_id : AccountId) (answers : list AuthAttempt) (attempts : Z) (nonces : NonceTracker)
    : option bool * NonceTracker * list Z :=
  match answers with
  | [] => (None, nonces, [])
  | a :: answers' =>
      let '(nonce, nonces) := next_nonce nonces authorizer_id in
      match a with
      | AuthIncluded => (Some true, nonces, [nonce])
      | AuthTimedOut => (Some false, nonces, [nonce])
      | AuthFailed text refreshed =>
          if is_nonce_error text && (attempts <? MAX_NONCE_RETRIES) then
            match init_from_chain nonces authorizer_id refreshed with
            | Some nonces =>
                let '(r, nonces, used) := authorize_loop authorizer_id answers' (attempts + 1) nonces in
                (r, nonces, nonce :: used)
            | None => (Some false, nonces, [nonce])
            end
          else (Some false, nonces, [nonce])
      end
  end.

(** [authorize_account_batch]. *)
Definition authorize_account_batch (authorizer_id : AccountId) (accounts : list AccountId) (answers : list AuthAttempt)
    (nonces : NonceTracker) : option bool * NonceTracker * list Z :=
  match accounts with
  | [] => (Some true, nonces, [])
  | _ => authorize_loop authorizer_id answers 0 nonces
  end.

(** [authorize_accounts], with the answers to each batch: the first failure ends it. *)
Fixpoint authorize_batches (authorizer_id : AccountId) (batches : list (list AccountId)) (answers : list (list AuthAttempt))
    (nonces : NonceTracker) : option bool * NonceTracker :=
  match batches with
  | [] => (Some true, nonces)
  | accounts :: batches' =>
      let '(r, nonces, _) := authorize_account_batch authorizer_id accounts (default [] (head answers)) nonces in
      match r with
      | Some true => authorize_batches authorizer_id batches' (tail answers) nonces
      | _ => (r, nonces)
      end
  end.

Definition authorize_accounts (authorizer_id : AccountId) (accounts : list AccountId) (answers : list (list AuthAttempt))
    (nonces : NonceTracker) : option bool * NonceTracker :=
  authorize_batches authorizer_id (chunks (Z.to_nat AUTHORIZE_BATCH_SIZE) accounts) answers nonces.

(** ** Facts: retries *)

(** Eleven submissions are the most there can be. *)
Lemma authorize_loop_bound authorizer_id answers attempts nonces :
  0 <= attempts <= MAX_NONCE_RETRIES -> MAX_NONCE_RETRIES - attempts < len answers ->
  exists b nonces' used, authorize_loop authorizer_id answers attempts nonces = (Some b, nonces', used) /\
    len used <= MAX_NONCE_RETRIES - attempts + 1.
Proof.
  revert attempts nonces. induction answers as [|a answers IH]; intros attempts nonces Ha Hl; cbn [authorize_loop].
  - unfold len in Hl. cbn in Hl. exfalso. unfold MAX_NONCE_RETRIES in *. lia.
  - destruct (next_nonce nonces authorizer_id) as [n tr].
    destruct a as [|text refreshed|]; [do 3 eexists; split; [done|unfold len; cbn [length]; lia]| |
      do 3 eexists; split; [done|unfold len; cbn [length]; lia]].
    destruct (is_nonce_error text && (attempts <? MAX_NONCE_RETRIES)) eqn:E;
      [|do 3 eexists; split; [done|unfold len; cbn [length]; lia]].
    apply andb_true_iff in E as [_ E]. b2p.
    destruct (init_from_chain tr authorizer_id refreshed) as [tr'|];
      [|do 3 eexists; split; [done|unfold len; cbn [length]; lia]].
    destruct (IH (attempts + 1) tr') as (b & tr2 & used & -> & Hu); [lia|unfold len in *; cbn [length] in Hl; lia|].
    exists b, tr2, (n :: used). split; [done|]. unfold len in *. cbn [length]. lia.
Qed.
