(* ===== verification/Presets.v ===== *)
(** The genesis presets of the two runtimes
    ([runtimes/*/src/genesis_config_presets.rs], with the currency constants of
    [paseo_constants.rs]), and the machine types of everything the pallets store. *)

From S2P Require Import Prelude Slice Primitives Types State Authorizations Blocks Retention Checks Renewal RenewalFacts Hop Extension ExtensionFacts Chain ChainFacts Runtime.

(** ** Presets *)

Inductive Sr25519Keyring := Alice | Bob | Eve | AliceStash | BobStash | OtherKey (n : nat).

(** Code outside the repository: the keyring, the names [sp_genesis_builder] gives the
    presets, the XCM version, and the constants the Westend runtime imports. *)
Class GenesisHost := {
  to_account_id : Sr25519Keyring -> AccountId;
  aura_key : Sr25519Keyring -> bytes;
  well_known : list Sr25519Keyring;
  LOCAL_TESTNET_RUNTIME_PRESET : string;
  DEV_RUNTIME_PRESET : string;
  XCM_VERSION : Z;
  WND : Z;
  westend_EXISTENTIAL_DEPOSIT : Z;
}.

(** [paseo_constants::currency] and the relay chain's constants it is derived from. *)
Definition UNITS : Z := 10000000000.
Definition relay_DOLLARS : Z := 10000000000.
Definition relay_CENTS : Z := relay_DOLLARS / 100.
Definition relay_EXISTENTIAL_DEPOSIT : Z := 100 * relay_CENTS.
Definition EXISTENTIAL_DEPOSIT : Z := relay_EXISTENTIAL_DEPOSIT / 10.

(** The fields a preset sets; the rest keep their defaults. *)
Record PresetGenesis := mkPreset {
  pg_balances : list (AccountId * Z);
  pg_parachain_id : Z;
  pg_invulnerables : list AccountId;
  pg_candidacy_bond : Z;
  pg_session_keys : list (AccountId * AccountId * bytes);
  pg_safe_xcm_version : option Z;
  pg_sudo_key : option AccountId;
  pg_transaction_storage : GenesisConfig }.

Section Presets.
Context `{GenesisHost}.

Definition bulletin_paseo_genesis (invulnerables : list (AccountId * bytes)) (endowed_accounts : list AccountId)
    (endowment id : Z) (sudo_account : option AccountId)
    (account_authorizations allowed_authorizers : list (AccountId * Z * Z)) : PresetGenesis := {|
  pg_balances := map (fun k => (k, endowment)) endowed_accounts;
  pg_parachain_id := id;
  pg_invulnerables := map fst invulnerables;
  pg_candidacy_bond := EXISTENTIAL_DEPOSIT * 16;
  pg_session_keys := map (fun '(acc, aura) => (acc, acc, aura)) invulnerables;
  pg_safe_xcm_version := Some XCM_VERSION;
  pg_sudo_key := sudo_account;
  pg_transaction_storage :=
    mkGenesis (g_byte_fee GenesisConfig_default) (g_entry_fee GenesisConfig_default)
      (g_retention_period GenesisConfig_default) allowed_authorizers account_authorizations
      (g_preimage_authorizations GenesisConfig_default) |}.

Definition bulletin_westend_genesis (invulnerables : list (AccountId * bytes)) (endowed_accounts : list AccountId)
    (endowment id : Z) (sudo_account : option AccountId)
    (account_authorizations allowed_authorizers : list (AccountId * Z * Z)) : PresetGenesis := {|
  pg_balances := map (fun k => (k, endowment)) endowed_accounts;
  pg_parachain_id := id;
  pg_invulnerables := map fst invulnerables;
  pg_candidacy_bond := westend_EXISTENTIAL_DEPOSIT * 16;
  pg_session_keys := map (fun '(acc, aura) => (acc, acc, aura)) invulnerables;
  pg_safe_xcm_version := Some XCM_VERSION;
  pg_sudo_key := sudo_account;
  pg_transaction_storage :=
    mkGenesis (g_byte_fee GenesisConfig_default) (g_entry_fee GenesisConfig_default)
      (g_retention_period GenesisConfig_default) allowed_authorizers account_authorizations
      (g_preimage_authorizations GenesisConfig_default) |}.

Definition collator (k : Sr25519Keyring) : AccountId * bytes := (to_account_id k, aura_key k).

(** [get_preset] of the Paseo runtime, before the patch is written as JSON. *)
Definition paseo_get_preset (id : string) : option PresetGenesis :=
  if bool_decide (id = LOCAL_TESTNET_RUNTIME_PRESET) then
    Some (bulletin_paseo_genesis [collator Alice; collator Bob] (map to_account_id well_known)
      (UNITS * 1000000) 1501 (Some (to_account_id Alice))
      [(to_account_id Alice, 100, 10 * 1024 * 1024)]
      [(to_account_id Eve, 100000, 100 * 1024 * 1024 * 1024)])
  else if bool_decide (id = DEV_RUNTIME_PRESET) then
    Some (bulletin_paseo_genesis [collator Alice] (map to_account_id [Alice; Bob; AliceStash; BobStash])
      (UNITS * 1000000) 1501 (Some (to_account_id Alice))
      [(to_account_id Alice, 100, 10 * 1024 * 1024)]
      [(to_account_id Eve, 100000, 100 * 1024 * 1024 * 1024)])
  else None.

(** [get_preset] of the Westend runtime. *)
Definition westend_get_preset (id : string) : option PresetGenesis :=
  if bool_decide (id = LOCAL_TESTNET_RUNTIME_PRESET) then
    Some (bulletin_westend_genesis [collator Alice; collator Bob] (map to_account_id well_known)
      (WND * 1000000) 1010 (Some (to_account_id Alice))
      [(to_account_id Alice, 100, 10 * 1024 * 1024)]
      [(to_account_id Eve, 100000, 100 * 1024 * 1024 * 1024)])
  else if bool_decide (id = DEV_RUNTIME_PRESET) then
    Some (bulletin_westend_genesis [collator Alice] (map to_account_id [Alice; Bob; AliceStash; BobStash])
      (WND * 1000000) 1010 (Some (to_account_id Alice))
      [(to_account_id Alice, 100, 10 * 1024 * 1024)]
      [(to_account_id Eve, 100000, 100 * 1024 * 1024 * 1024)])
  else None.

(** [preset_names], the same in both runtimes. *)
Definition preset_names : list string := [DEV_RUNTIME_PRESET; LOCAL_TESTNET_RUNTIME_PRESET].
End Presets.

(** ** Machine types *)

(** What the Rust types of an entry's four numbers admit. *)
Definition info_fits (t : TransactionInfoFor) : Prop :=
  is_u32 (ti_size t) /\ is_u32 (ti_block_chunks t) /\ is_u32 (ti_extrinsic_index t) /\ is_u64 (ti_cid_codec t).

(** Every number the pallets keep is of its Rust type, and every bounded vector within
    its bound: the storage declarations, item by item. *)
Record ValuesFit `{Config} (s : State) : Prop := {
  vf_now : is_u32 (now s);
  vf_extrinsic_index : forall x, extrinsic_index (sys s) = Some x -> is_u32 x;
  vf_timestamp : is_u64 (timestamp_now (sys s));
  vf_ByteFee : forall x, ByteFee (ts s) = Some x -> is_u128 x;
  vf_EntryFee : forall x, EntryFee (ts s) = Some x -> is_u128 x;
  vf_RetentionPeriod : is_u32 (RetentionPeriod (ts s));
  vf_Authorizations : map_Forall (fun _ a =>
    is_u32 (extent_transactions (extent a)) /\ is_u32 (transactions_allowance (extent a)) /\
    is_u64 (extent_bytes (extent a)) /\ is_u64 (bytes_allowance (extent a)) /\
    is_u64 (bytes_permanent (extra (extent a))) /\ is_u32 (expiration a)) (Authorizations (ts s));
  vf_AllowedAuthorizers : map_Forall (fun _ b => budget_ok b) (AllowedAuthorizers (ts s));
  vf_Transactions : map_Forall (fun b v => is_u32 b /\ exists txs, v = LayoutCurrent txs /\
    len txs <= MaxBlockTransactions /\ Forall info_fits txs) (Transactions (ts s));
  vf_BlockTransactions : len (BlockTransactions (ts s)) <= MaxBlockTransactions /\
    Forall info_fits (BlockTransactions (ts s));
  vf_TransactionByContentHash : map_Forall (fun _ p => is_u32 p.1 /\ is_u32 p.2) (TransactionByContentHash (ts s));
  vf_PermanentStorageUsed : is_u64 (PermanentStorageUsed (dr s));
  vf_PendingRenewals : len (PendingRenewals (dr s)) <= MaxBlockTransactions /\
    Forall (fun p => info_fits (item_info p)) (PendingRenewals (dr s)) }.

Section TypeFacts.
Context `{HostLaws} `{!Config} `{!ConfigLaws} `{!ChunkCapacity}.

Lemma size_fits t : size_ok t -> is_u32 (ti_size t).
Proof. unfold size_ok, is_u32. pose proof MaxTransactionSize_range. lia. Qed.

Lemma wf_entries_fit l :
  wf_entries l -> Forall entry_typed l -> len l <= MaxBlockTransactions /\ Forall info_fits l.
Proof.
  intros Hwf Ht. pose proof (wf_entries_chunks_u32 l Hwf) as Hc. destruct Hwf as (_ & Hs & Hl).
  split; [done|]. apply Forall_and. split; [by eapply Forall_impl; [exact Hs|apply size_fits]|].
  apply Forall_and. by split.
Qed.

Lemma invariants_fit s : LedgerInv s -> BlockInv s -> ValuesFit s.
Proof.
  intros (IA & IC & [IP IPl] & IB) [I1 I2 I3 I4 I5 _ (S1 & S2 & S3 & S4) I8 I9].
  pose proof (MaxPermanentStorageSize_range (parameters (sys s))) as Hm. fold (permanent_cap s) in Hm.
  pose proof MaxBlockTransactions_range as Hn. unfold CapInv, is_u64 in Hm, IC. constructor; try done.
  - unfold is_u32. lia.
  - intros scope a Ha. destruct (inv_authorizations s IA scope a Ha). split_and!; try done. unfold is_u64. lia.
  - intros b v Hv. destruct (I4 b v Hv) as (Hb & txs & -> & _ & Hw). unfold is_u32 in *.
    split; [lia|]. exists txs. split; [done|by apply wf_entries_fit; [|apply (I9 b)]].
  - by apply wf_entries_fit.
  - intros h [b i] Hi. simpl. destruct (I5 h b i Hi) as (H0i & info & He & _). unfold is_u32 in *.
    assert (forall txs, wf_entries txs -> txs !! Z.to_nat i = Some info -> i <= u32_max) as Hidx.
    { intros txs (_ & _ & Hlen) Hl%lookup_lt_Some. unfold len in *. lia. }
    destruct He as [(txs & Htx & Hl)|[-> Hl]].
    + destruct (I4 b _ Htx) as (Hb & txs' & [= <-] & _ & Hw). specialize (Hidx txs Hw Hl). lia.
    + specialize (Hidx _ I3 Hl). lia.
  - unfold is_u64. lia.
  - split; [done|]. eapply Forall_impl; [exact IP|]. intros p (Hz & _ & [Hx Hc] & Hb).
    split_and!; [by apply size_fits|done..].
Qed.
End TypeFacts.

(** ** Presets boot *)

Section PresetFacts.
Context `{GenesisHost}.

(** What the pallets are given by any preset of either runtime. *)
Lemma preset_storage id p :
  paseo_get_preset id = Some p \/ westend_get_preset id = Some p ->
  pg_transaction_storage p = mkGenesis 10 1000 DEFAULT_RETENTION_PERIOD
    [(to_account_id Eve, 100000, 100 * 1024 * 1024 * 1024)] [(to_account_id Alice, 100, 10 * 1024 * 1024)] [].
Proof.
  unfold paseo_get_preset, westend_get_preset. intros Hp.
  case_bool_decide; [by destruct Hp; simplify_eq|].
  case_bool_decide; by destruct Hp; simplify_eq.
Qed.

(** Exactly the listed names have a preset. *)
Lemma preset_listed id :
  (is_Some (paseo_get_preset id) <-> id ∈ preset_names) /\ (is_Some (westend_get_preset id) <-> id ∈ preset_names).
Proof.
  unfold paseo_get_preset, westend_get_preset, preset_names, is_Some. rewrite !elem_of_cons, elem_of_nil.
  case_bool_decide as Hl; [by split; (split; [auto|by eexists])|].
  case_bool_decide as Hd; [by split; (split; [auto|by eexists])|].
  split; (split; [by intros [? ?]|by intros [?|[?|?]]]).
Qed.

(** The rights the pallets grant at genesis. *)
Lemma preset_rights `{Config} `{!ConfigLaws} id p h n :
  paseo_get_preset id = Some p \/ westend_get_preset id = Some p ->
  let s := genesis_build (pg_transaction_storage p) (empty_state h) in
  (can_store s (to_account_id Alice) n = true <-> 0 < n <= MaxTransactionSize) /\
  AllowedAuthorizers (ts s) = {[ to_account_id Eve := mkBudget (Some (mkQuota 100000 107374182400)) None true ]}.
Proof.
  intros ->%preset_storage s. split; [|done].
  assert (account_has_active_authorization s (to_account_id Alice) = true) as Ha.
  { assert (Authorizations (ts s) = {[ Account (to_account_id Alice) := genesis_authorization 100 (10 * 1024 * 1024) ]})
      as Es by done.
    unfold account_has_active_authorization, get_active_authorization. rewrite Es, lookup_singleton_eq.
    unfold expired. cbn [expiration genesis_authorization]. change (now s) with 0.
    pose proof AuthorizationPeriod_range. by rewrite (proj2 (Z.leb_gt _ _)) by lia. }
  unfold can_store. rewrite Ha. unfold data_size_ok. destruct (_ && _) eqn:E; b2p; simpl; [tauto|].
  split; [done|lia].
Qed.

Lemma preset_genesis_ok id p :
  paseo_get_preset id = Some p \/ westend_get_preset id = Some p -> genesis_ok (pg_transaction_storage p).
Proof.
  intros ->%preset_storage. constructor; simpl.
  - unfold DEFAULT_RETENTION_PERIOD, u32_max. lia.
  - unfold is_u128, u128_max. lia.
  - apply NoDup_singleton.
  - apply Forall_singleton. unfold is_u32, u32_max, u64_max. simpl. lia.
  - constructor.
  - apply Forall_singleton. unfold is_u32, is_u64, u32_max, u64_max. simpl. lia.
Qed.
End PresetFacts.
