(* ===== verification/BlockLimits.v ===== *)
(** What calls and hooks weigh, and the sanity checks that the weights fit a block:
    the [#[pallet::weight]] attributes of the three pallets, the [weight] functions
    of the extensions, the weight [on_initialize] returns, and the
    [ensure_weight_sanity] functions ([pallets/transaction-storage/src/lib.rs],
    [pallets/data-renewal/src/lib.rs]).

    The limits of a block are what [frame_system]'s builder makes of the settings in
    the runtimes' [lib.rs]; a failed assertion is [false]. *)

From S2P Require Import Prelude Slice Primitives Types State Authorizations Blocks Checks Renewal Hop Extension Weights Runtime.

(** ** Weights of calls *)

Inductive DispatchClass := NormalClass | OperationalClass | MandatoryClass.

Section Calls.
Context `{WeightHost} `{HopHost} `{Host} `{Config}.
Context (SW : StorageWeightInfo) (RW : RenewalWeightInfo) (HW : HopWeightInfo).

(** The attributes of the storage pallet's calls. *)
Definition storage_call_weight (c : StorageCall) : Weight * DispatchClass :=
  match c with
  | CallStore data => (w_store SW (as_u32 (len data)), NormalClass)
  | CallStoreWithCidConfig _ data => (w_store_with_cid_config SW (as_u32 (len data)), NormalClass)
  | CallAuthorizeAccount _ _ _ => (w_authorize_account SW, NormalClass)
  | CallAuthorizePreimage _ _ => (w_authorize_preimage SW, NormalClass)
  | CallRemoveExpiredAccountAuthorization _ => (w_remove_expired_account_authorization SW, NormalClass)
  | CallRemoveExpiredPreimageAuthorization _ => (w_remove_expired_preimage_authorization SW, NormalClass)
  | CallRefreshAccountAuthorization _ => (w_refresh_account_authorization SW, NormalClass)
  | CallRefreshPreimageAuthorization _ => (w_refresh_preimage_authorization SW, NormalClass)
  | CallApplyBlockInherents _ => (w_apply_block_inherents SW, MandatoryClass)
  | CallAddAuthorizer _ _ => (w_add_authorizer SW, NormalClass)
  | CallRemoveAuthorizer _ => (w_remove_authorizer SW, NormalClass)
  | CallRemoveExhaustedAuthorizer _ => (w_remove_exhausted_authorizer SW, NormalClass)
  end.

(** The attributes of the renewal pallet's calls. *)
Definition renewal_call_weight (c : RenewalCall) : Weight * DispatchClass :=
  match c with
  | CallRenew _ => (w_renew RW, NormalClass)
  | CallForceRenew _ => (w_force_renew RW, OperationalClass)
  | CallEnableAutoRenew _ => (w_enable_auto_renew RW, NormalClass)
  | CallDisableAutoRenew _ => (w_disable_auto_renew RW, NormalClass)
  | CallProcessPendingRenewals => (w_process_pending_renewals RW MaxBlockTransactions, MandatoryClass)
  end.

(** The weight [process_pending_renewals] reports after it ran. *)
Definition process_pending_renewals_actual_weight (s : State) : Weight :=
  w_process_pending_renewals RW (do_process_pending_renewals s).1.

(** The attributes of the promotion calls: dispatch, and [weight_of_authorize]. *)
Definition hop_call_weight (c : HopCall) : Weight * Weight :=
  match c with
  | CallPromote _ _ _ data => (w_store SW (as_u32 (len data)), w_authorize_promote HW (as_u32 (len data)))
  | CallPromoteV2 _ _ _ _ data => (w_store SW (as_u32 (len data)), w_authorize_promote_v2 HW (as_u32 (len data)))
  end.

(** [LeafValidator::leaf_weight] of the two pallets, of the tuple the runtimes wire,
    and the [weight] of the extensions. *)
Definition storage_leaf_weight (c : RuntimeCall) : Weight :=
  match storage_sub_type c with
  | Some (CallStore data) | Some (CallStoreWithCidConfig _ data) => w_validate_store SW (as_u32 (len data))
  | _ => from_parts 0 0
  end.

Definition renewal_leaf_weight (c : RuntimeCall) : Weight :=
  match renewal_sub_type c with
  | Some (CallRenew _ | CallForceRenew _ | CallEnableAutoRenew _ | CallDisableAutoRenew _) => w_validate_renew RW
  | _ => from_parts 0 0
  end.

Definition ValidateAuthorizedCalls_weight (c : RuntimeCall) : Weight :=
  from_parts 0 0 ⊕ storage_leaf_weight c ⊕ renewal_leaf_weight c.

Definition AllowanceBasedPriority_weight : Weight := reads RocksDbWeight 1.

(** The weight [on_initialize] returns. *)
Definition on_initialize_weight (n : BlockNumber) (s : State) : Weight :=
  let obsolete := sat_sub n (sat_add_u32 (retention_period s) 1) in
  let num_expiring :=
    if 0 <? obsolete then
      match (Transactions_take obsolete s).1 with
      | Some transactions => as_u32 (len transactions)
      | None => 0
      end
    else 0 in
  from_parts 0 0 ⊕ w_on_initialize_with_expiry SW num_expiring.
End Calls.

(** ** Limits *)

(** What the checks read of [BlockWeights] and [BlockLength]: the block, and the
    normal class. *)
Record BlockLimits `{WeightHost} := mkBlockLimits {
  max_block : Weight;
  base_extrinsic : Weight;
  max_total : option Weight;
  max_extrinsic : option Weight;
  normal_length : Z }.

Section Sanity.
Context `{WeightHost} `{Config} (limits : BlockLimits).

(** [effective_normal_budget]. *)
Definition effective_normal_budget (collator_pov_percent : option Z) : option Weight :=
  match max_total limits, max_extrinsic limits with
  | Some normal_max_total, Some max_extrinsic =>
      let init_weight :=
        saturating_sub (saturating_sub normal_max_total max_extrinsic) (base_extrinsic limits) in
      let after_init := saturating_sub normal_max_total init_weight in
      Some match collator_pov_percent with
           | Some pov_percent =>
               let pov_limit := proof_size (max_block limits) * pov_percent / 100 in
               from_parts (ref_time after_init) (Z.min (proof_size after_init) pov_limit)
           | None => after_init
           end
  | _, _ => None
  end.

(** [pallet_bulletin_transaction_storage::ensure_weight_sanity]. *)
Definition ensure_weight_sanity (SW : StorageWeightInfo) (collator_pov_percent : option Z)
    (extra_mandatory : Weight) : bool :=
  match max_extrinsic limits, effective_normal_budget collator_pov_percent with
  | Some max_extrinsic, Some effective_normal =>
      let per_tx_size := normal_length limits / MaxBlockTransactions in
      let store_weight := w_store SW per_tx_size ⊕ base_extrinsic limits in
      let mandatory_floor :=
        w_on_initialize_with_expiry SW MaxBlockTransactions ⊕ w_apply_block_inherents SW
          ⊕ extra_mandatory in
      (MaxTransactionSize <? normal_length limits)
      && all_lte (w_store SW MaxTransactionSize) max_extrinsic
      && (sat_mul u64_max (ref_time store_weight) MaxBlockTransactions <=? ref_time effective_normal)
      && all_lte (w_apply_block_inherents SW) (max_block limits)
      && all_lte mandatory_floor (max_block limits)
  | _, _ => false
  end.

(** [pallet_bulletin_data_renewal::ensure_weight_sanity]. *)
Definition renewal_ensure_weight_sanity (RW : RenewalWeightInfo) (collator_pov_percent : option Z) : bool :=
  match effective_normal_budget collator_pov_percent with
  | Some effective_normal =>
      let renew_weight := w_renew RW ⊕ base_extrinsic limits in
      (sat_mul u64_max (ref_time renew_weight) MaxBlockTransactions <=? ref_time effective_normal)
      && all_lte (w_process_pending_renewals RW MaxBlockTransactions) (max_block limits)
  | None => false
  end.
End Sanity.

(** ** The runtimes' settings *)

Definition NORMAL_DISPATCH_RATIO : Z := 90. (* percent *)
Definition MAX_BLOCK_LENGTH : Z := 10 * 1024 * 1024.

(** [consensus::MAXIMUM_BLOCK_WEIGHT] of [paseo_constants.rs]; Westend takes its own
    from the relay chain's constants. *)
Definition paseo_MAXIMUM_BLOCK_WEIGHT `{WeightHost} : Weight :=
  from_parts (sat_mul u64_max WEIGHT_REF_TIME_PER_SECOND 2) MAX_POV_SIZE.

(** What [frame_system]'s builders make of the settings of a runtime whose maximal
    block weight is [maximum]: the block takes it all, the normal class its share,
    and one normal extrinsic that share less the average cost of opening a block (5%,
    [AVERAGE_ON_INITIALIZE_RATIO]) and its own base. *)
Record FrameLimits `{WeightHost} (maximum : Weight) (limits : BlockLimits) : Prop := {
  limits_max_block : max_block limits = maximum;
  limits_base : base_extrinsic limits = ExtrinsicBaseWeight;
  limits_max_total : max_total limits = Some (percent_of_weight NORMAL_DISPATCH_RATIO maximum);
  limits_max_extrinsic : max_extrinsic limits =
    Some (saturating_sub (saturating_sub (percent_of_weight NORMAL_DISPATCH_RATIO maximum)
            (percent_of_weight 5 maximum)) ExtrinsicBaseWeight);
  limits_length : normal_length limits = percent_of_u32 NORMAL_DISPATCH_RATIO MAX_BLOCK_LENGTH }.

(** Two seconds of execution, and a proof of at least 5 MiB. *)
Record TwoSeconds `{WeightHost} (maximum : Weight) : Prop := {
  two_seconds : ref_time maximum = 2 * 10 ^ 12;
  proof_room : 5 * 1024 * 1024 <= proof_size maximum <= u32_max }.
