(* ===== verification/Mock.v ===== *)
(** A concrete instance of everything the model takes as a parameter, so that the
    definitions can be evaluated: digests that spell out the length, a Merkle
    "proof" that carries the chunks, and the Paseo configuration of the pallets.
    The witnesses of the theorems run on it. *)

From S2P Require Import Prelude Slice Primitives Types State Authorizations Blocks Retention Checks Renewal RenewalFacts Hop Extension Chain Runtime Weights Sdk SdkFacts.
From Stdlib Require Import Strings.Byte.

(** ** Host *)

(** A 32-byte digest: the length, a tag, and the first bytes of the data. *)
Definition mock_digest (tag : byte) (d : bytes) : bytes :=
  take 32 (u64_to_le_bytes (len d) ++ tag :: d ++ replicate 32 x00).

Definition mock_root (chunks : list bytes) : bytes := mock_digest x52 (concat chunks).

#[export] Instance mock_host : Host := {|
  blake2_256 := mock_digest x42;
  sha2_256 := mock_digest x53;
  keccak_256 := mock_digest x4b;
  blake2_256_ordered_root := mock_root;
  blake2_256_verify_proof root proof index chunk :=
    bool_decide (mock_root proof = root)
    && match proof !! Z.to_nat (le_value index) with
       | Some c => bool_decide (c = chunk) | None => false end;
  CHUNK_SIZE := 256;
  num_chunks n := div_ceil n 256;
  random_chunk h total := le_value h mod total;
  encode_index := u64_to_le_bytes;
  Multihash := Z * bytes;
  Multihash_wrap code digest :=
    if bool_decide (length digest <= 32)%nat then Some (code, digest) else None;
  CidGeneric := Z * (Z * bytes);
  CidGeneric_new_v1 codec mh := (codec, mh);
  CidGeneric_to_bytes c :=
    x01 :: encode_varint c.1 ++ encode_varint c.2.1 ++ encode_varint (len c.2.2) ++ c.2.2;
  ValidTransaction_default := mkValidTransaction 0 [] [] u64_max true;
  ValidTransaction_build p t pr lo := mkValidTransaction pr [] [(p, t)] lo true;
  ValidTransaction_combine_with a b :=
    mkValidTransaction (sat_add_u64 (vt_priority a) (vt_priority b))
      (vt_requires a ++ vt_requires b) (vt_provides a ++ vt_provides b)
      (Z.min (vt_longevity a) (vt_longevity b)) (vt_propagate a && vt_propagate b)
|}.

Lemma mock_digest_length t d : length (mock_digest t d) = 32%nat.
Proof.
  unfold mock_digest. rewrite length_take, length_app. cbn [length].
  rewrite length_app, length_replicate. lia.
Qed.

#[export] Instance mock_host_laws : @HostLaws mock_host.
Proof.
  constructor; try done; try (intros; apply mock_digest_length).
  - intros h total Ht. simpl. apply Z.mod_pos_bound. lia.
  - intros code digest Hd. simpl. rewrite bool_decide_eq_true_2 by done. by eexists.
Qed.

#[export] Instance mock_cid_layout : @CidLayout mock_host.
Proof.
  intros codec code digest mh. simpl. case_bool_decide; [|done]. intros [= <-]. simpl.
  unfold varint_len, len. cbn [length]. rewrite !length_app. unfold len. lia.
Qed.

(** ** Signatures and XCM *)

#[export] Instance mock_hop_host : HopHost := {|
  MultiSigner := AccountId;
  MultiSignature := bytes;
  into_account w := w;
  signature_verify sig payload who := bool_decide (sig = payload ++ who)
|}.

#[export] Instance mock_xcm_host : XcmHost := {|
  unpack location := match location with [b] => (1, [Parachain (1500 + byte_to_Z b)]) | _ => (1, []) end;
  alice := replicate 32 x01
|}.

(** ** Weights *)

(** Pairs, with a [MAX_POV_SIZE] of 10 MiB. *)
#[export] Instance mock_weights : WeightHost := {|
  Weight := Z * Z;
  from_parts a b := (a, b);
  ref_time := fst;
  proof_size := snd;
  saturating_add a b := (sat_add u64_max a.1 b.1, sat_add u64_max a.2 b.2);
  saturating_sub a b := (sat_sub a.1 b.1, sat_sub a.2 b.2);
  saturating_mul a n := (sat_mul u64_max a.1 n, sat_mul u64_max a.2 n);
  any_lt a b := (a.1 <? b.1) || (a.2 <? b.2);
  all_lte a b := (a.1 <=? b.1) && (a.2 <=? b.2);
  reads d n := (sat_mul u64_max (db_read d) n, 0);
  writes d n := (sat_mul u64_max (db_write d) n, 0);
  WeightMeter := (Z * Z) * (Z * Z);
  consumed := fst;
  limit := snd;
  remaining m := (sat_sub m.2.1 m.1.1, sat_sub m.2.2 m.1.2);
  meter_try_consume w m :=
    if (m.1.1 + w.1 <=? m.2.1) && (m.1.2 + w.2 <=? m.2.2)
    then Some ((m.1.1 + w.1, m.1.2 + w.2), m.2) else None;
  percent_of_weight p w := (p * w.1 / 100, p * w.2 / 100);
  percent_of_u32 p n := p * n / 100;
  WEIGHT_REF_TIME_PER_NANOS := 1000;
  WEIGHT_REF_TIME_PER_SECOND := 1000000000000;
  MAX_POV_SIZE := 10 * 1024 * 1024
|}.

#[export] Instance mock_weight_laws : WeightLaws.
Proof.
  assert (forall p x, Z.abs (100 * (p * x / 100) - p * x) < 100) as Hp.
  { intros p x. pose proof (Z.mod_pos_bound (p * x) 100 ltac:(lia)).
    pose proof (Z.div_mod (p * x) 100 ltac:(lia)). lia. }
  constructor; try done; try (intros; apply Hp).
  intros w m H1 H2. cbn -[Z.leb] in *. rewrite !(proj2 (Z.leb_le _ _)) by done. by eexists.
Qed.

(** ** Configuration *)

Definition mock_cap : Z := 10000.

#[export] Instance mock_config : Config := paseo_config [1502; 5140] mock_cap.

Lemma mock_cap_u64 : is_u64 mock_cap.
Proof. unfold is_u64, mock_cap, u64_max. lia. Qed.

#[export] Instance mock_config_laws : @ConfigLaws mock_config :=
  runtime_config_laws _ _ (fun p => storage_u64_range _ _ p mock_cap_u64).

#[export] Instance mock_chunk_capacity : @ChunkCapacity mock_host mock_config.
Proof. by apply runtime_chunk_capacity. Qed.

#[export] Instance mock_authorizer_laws : @AuthorizerLaws mock_config := paseo_authorizer_laws _ _.

(** ** Wrappers *)

(** [pallet_utility] as documented, to a bounded depth: [batch] stops at the first call
    that fails and keeps what came before, [batch_all] undoes everything, [force_batch]
    goes on.  A derived account spells out its index. *)
Section Wrappers.
Context `{Host} `{Config} `{HopHost}.

Definition derivative (who : AccountId) (index : Z) : AccountId := who ++ u64_to_le_bytes index.

Fixpoint run_call (fuel : nat) (o : RuntimeOrigin) (c : RuntimeCall) : MD unit :=
  match fuel with
  | O => lift (Err BadOrigin)
  | S n => dispatch (
      match c with
      | TransactionStorage i => dispatch_storage o i
      | DataRenewal i => dispatch_renewal o i
      | HopPromotion i => dispatch_hop o i
      | OtherPallet _ => ret tt
      | Utility (batch calls) => fun s =>
          (Ok tt, (foldl (fun (acc : bool * State) c => if acc.1 then let r := run_call n o c acc.2 in (is_ok r.1, r.2) else acc)
                     (true, s) calls).2)
      | Utility (batch_all calls) => foldr (fun c rest => do! run_call n o c in rest) (ret tt) calls
      | Utility (force_batch calls) => fun s => (Ok tt, foldl (fun s c => (run_call n o c s).2) s calls)
      | Utility (as_derivative i c) =>
          match o with
          | System (Signed w) => run_call n (System (Signed (derivative w i))) c
          | _ => lift (Err BadOrigin)
          end
      | Utility (dispatch_as o' c) =>
          if ensure_root o then fun s => (Ok tt, (run_call n o' c s).2) else lift (Err BadOrigin)
      | Utility (dispatch_as_fallible o' c) => if ensure_root o then run_call n o' c else lift (Err BadOrigin)
      | Utility (with_weight c) => if ensure_root o then run_call n o c else lift (Err BadOrigin)
      | Utility (if_else main fallback) => fun s =>
          match run_call n o main s with
          | (Ok _, s') => (Ok tt, s')
          | (Err _, s') => run_call n o fallback s'
          end
      end)
  end.

(** Every other pallet writes nothing modelled here. *)
#[local] Instance utility_runtime : RuntimeHost := {|
  dispatch_utility o u := run_call 10 o (Utility u);
  dispatch_other _ _ := ret tt |}.

Lemma foldl_rtc {X B} (R : relation State) (p : B -> State) (f : B -> X -> B) xs acc :
  Forall (fun x => forall acc, rtc R (p acc) (p (f acc x))) xs -> rtc R (p acc) (p (foldl f acc xs)).
Proof.
  intros Hx. revert acc. induction Hx as [|x xs Hx _ IH]; intros acc; [reflexivity|].
  etransitivity; [apply Hx|apply IH].
Qed.

Lemma foldr_rtc {X} (R : relation State) (f : X -> MD unit) xs s :
  Forall (fun x => forall s, rtc R s (f x s).2) xs ->
  rtc R s (foldr (fun x rest => do! f x in rest) (ret tt) xs s).2.
Proof.
  intros Hx. revert s. induction Hx as [|x xs Hx _ IH]; intros s; [reflexivity|]. cbn [foldr].
  unfold bind. pose proof (Hx s) as Hs. destruct (f x s) as [[a|e] s']; [|done].
  etransitivity; [exact Hs|apply IH].
Qed.

Lemma run_call_parts o0 u0 n o c s :
  leads_to o0 (Utility u0) o c -> rtc (part_of o0 u0) s (run_call n o c s).2.
Proof.
  revert o c s. induction n as [|n IH]; intros o c s Hd; [reflexivity|]. cbn [run_call].
  destruct (leaf_call c) eqn:El.
  { apply rtc_once. pose proof (part_call o0 u0 s o c Hd El) as Hp. destruct c; done. }
  destruct c as [| | |u|]; try done.
  match goal with |- rtc _ _ (dispatch ?m s).2 =>
    assert (rtc (part_of o0 u0) s (m s).2) as Hm; [|
      unfold dispatch; destruct (m s) as [[a|e] s']; [exact Hm|apply rtc_once, part_undone]] end.
  assert (forall o2 c2 s, inner_call o u o2 c2 -> rtc (part_of o0 u0) s (run_call n o2 c2 s).2) as Hi
    by (intros o2 c2 s2 Hic; apply IH; by eapply leads_inner).
  destruct u as [calls|calls|calls|i c|o' c|c|o' c|c1 c2].
  - cbn [snd]. apply (foldl_rtc _ snd _ calls (true, s)), Forall_forall. intros c Hc [[] s1]; [|reflexivity].
    apply Hi. by constructor.
  - apply foldr_rtc, Forall_forall. intros c Hc s1. apply Hi. by constructor.
  - cbn [snd]. apply (foldl_rtc _ id _ calls s), Forall_forall. intros c Hc s1. apply Hi. by constructor.
  - destruct o as [[]| |]; try reflexivity. apply Hi. constructor.
  - destruct o as [[]| |]; try reflexivity. apply Hi. constructor.
  - destruct (ensure_root o); [apply Hi; constructor|reflexivity].
  - destruct o as [[]| |]; try reflexivity. apply Hi. constructor.
  - pose proof (Hi o c1 s (inner_main o c1 c2)) as Hs. destruct (run_call n o c1 s) as [[a|e] s']; [done|].
    etransitivity; [exact Hs|]. apply Hi. constructor.
Qed.

Lemma utility_runtime_laws : RuntimeLaws.
Proof.
  constructor; [|by intros o e s; exists (dec_providers (sys s)); destruct s as [[] ? ? ? ? ?]].
  intros o u s. apply run_call_parts, leads_here.
Qed.
End Wrappers.

#[export] Instance mock_runtime : @RuntimeHost mock_hop_host := utility_runtime.
#[export] Instance mock_runtime_laws : @RuntimeLaws mock_host mock_config mock_hop_host mock_runtime :=
  utility_runtime_laws.

(** ** Accounts, data and a short history *)

Definition acc_a : AccountId := replicate 32 xaa.
Definition acc_b : AccountId := replicate 32 xbb.
Definition data_a : bytes := replicate 300 x61.
Definition data_b : bytes := replicate 40 x62.
Definition hash_a : ContentHash := mock_digest x42 data_a.
Definition hash_b : ContentHash := mock_digest x42 data_b.
Definition no_hash : bytes := replicate 32 x00.

(** Retention of two blocks; [acc_a] may store, [acc_b] may grant. *)
Definition mock_genesis : GenesisConfig :=
  mkGenesis 10 1000 2 [(acc_b, 5, 5000)] [(acc_a, 10, 2000)] [(hash_b, 64)].

Definition s_genesis : State := genesis_build mock_genesis (empty_state no_hash).

Definition open_next (s : State) : State := on_initialize (now s + 1) (open_block no_hash s).

(** Block 1: [acc_a] stores [data_a], then [data_b] on the preimage grant. *)
Definition s_open1 : State := open_next s_genesis.
Definition s_stored1a : State :=
  apply_signed acc_a (TransactionStorage (CallStore data_a)) (set_extrinsic 1 s_open1).
Definition s_stored1 : State :=
  apply_signed acc_a (TransactionStorage (CallStore data_b)) (set_extrinsic 2 s_stored1a).
Definition s_closed1 : State := default s_stored1 (close_block s_stored1).

(** Block 2: [acc_a] registers auto-renewal of [data_a]. *)
Definition s_open2 : State := open_next s_closed1.
Definition s_registered2 : State :=
  apply_signed acc_a (DataRenewal (CallEnableAutoRenew hash_a)) (set_extrinsic 1 s_open2).
Definition s_closed2 : State := default s_registered2 (close_block s_registered2).

(** Block 3: the proof of block 1 is due. *)
Definition s_open3 : State := open_next s_closed2.
Definition proof_of (d : bytes) : TransactionStorageProof :=
  let cs := chunks 256 d in mkProof (default [] (head cs)) cs.
Definition s_proved3 : State :=
  (dispatch (apply_block_inherents (System NoneOrigin) (Some (proof_of data_a)))
     (set_extrinsic 1 s_open3)).2.
Definition s_closed3 : State := default s_proved3 (close_block s_proved3).

(** Block 4: block 1 is swept; the registered entry is queued, then drained. *)
Definition s_open4 : State := open_next s_closed3.
Definition s_drained4 : State :=
  (dispatch (process_pending_renewals (System NoneOrigin)) (set_extrinsic 1 s_open4)).2.
Definition s_closed4 : State := default s_drained4 (close_block s_drained4).

(** ** The history is reachable *)

Lemma default_is_Some {A} (o : option A) d :
  match o with Some _ => true | None => false end = true -> o = Some (default d o).
Proof. by destruct o. Qed.

Lemma mock_genesis_ok : genesis_ok mock_genesis.
Proof.
  constructor; simpl; unfold is_u32, is_u64, u32_max, u64_max.
  - lia.
  - unfold is_u128, u128_max. lia.
  - apply NoDup_singleton.
  - repeat constructor; simpl; lia.
  - repeat constructor; simpl; lia.
  - repeat constructor; simpl; lia.
Qed.

Lemma reach_genesis {m} : reachable_if m mock_genesis (Idle, s_genesis).
Proof. apply reachable_genesis. Qed.

(** Open the next block with no inherents due. *)
Lemma reach_open {m} s :
  (now s + 1 <=? u32_max) = true -> reachable_if m mock_genesis (Idle, s) ->
  reachable_if m mock_genesis (Inherents, open_next s).
Proof.
  intros Hn Hr. eapply reachable_step; [exact Hr|]. apply step_open. by apply Z.leb_le.
Qed.

Lemma reach_extrinsics {m} s :
  reachable_if m mock_genesis (Inherents, s) -> reachable_if m mock_genesis (Extrinsics, s).
Proof. intros Hr. eapply reachable_step; [exact Hr|apply step_inherents_done]. Qed.

(** A call that is no wrapper dispatches itself only. *)
Lemma call_ok_leaf {m} o c :
  leaf_call c = true -> plain_origin o = true -> args_ok c -> metered_call o c = true -> call_ok m o c.
Proof.
  intros Hl Ho Ha Hm o' c' Hd. assert (o' = o /\ c' = c) as [-> ->]; [|done].
  induction Hd as [|o1 u o2 c2 _ [_ Hu] _]; [done|]. by rewrite <- Hu in Hl.
Qed.

Definition is_u32b (x : Z) : bool := (0 <=? x) && (x <=? u32_max).

Lemma is_u32b_spec x : is_u32b x = true -> is_u32 x.
Proof. unfold is_u32b, is_u32. intros. b2p. lia. Qed.

Lemma reach_signed {m} s x who c :
  is_u32b x && leaf_call c = true -> args_ok c -> reachable_if m mock_genesis (Extrinsics, s) ->
  reachable_if m mock_genesis (Extrinsics, apply_signed who c (set_extrinsic x s)).
Proof.
  intros [Hx Hl]%andb_true_iff Ha Hr. eapply reachable_step; [exact Hr|].
  apply step_signed; [by apply is_u32b_spec|by apply call_ok_leaf].
Qed.

Lemma reach_close {m} s d :
  match close_block s with Some _ => true | None => false end = true ->
  reachable_if m mock_genesis (Extrinsics, s) -> reachable_if m mock_genesis (Idle, default d (close_block s)).
Proof.
  intros Hc Hr. eapply reachable_step; [exact Hr|]. apply step_close. by apply default_is_Some.
Qed.

Lemma reach_closed1 {m} : reachable_if m mock_genesis (Idle, s_closed1).
Proof.
  apply reach_close; [by vm_compute|]. apply reach_signed; [done..|]. apply reach_signed; [done..|].
  apply reach_extrinsics, reach_open; [by vm_compute|]. apply reach_genesis.
Qed.

Lemma reach_registered2 {m} : reachable_if m mock_genesis (Extrinsics, s_registered2).
Proof.
  apply reach_signed; [done..|]. apply reach_extrinsics, reach_open; [by vm_compute|].
  apply reach_closed1.
Qed.

Lemma reach_closed2 {m} : reachable_if m mock_genesis (Idle, s_closed2).
Proof. apply reach_close; [by vm_compute|]. apply reach_registered2. Qed.

Lemma reach_proved3 {m} : reachable_if m mock_genesis (Inherents, s_proved3).
Proof.
  eapply reachable_step; [|apply step_proof; [by apply is_u32b_spec|by vm_compute]].
  apply reach_open; [by vm_compute|]. apply reach_closed2.
Qed.

Lemma reach_closed3 {m} : reachable_if m mock_genesis (Idle, s_closed3).
Proof. apply reach_close; [by vm_compute|]. apply reach_extrinsics, reach_proved3. Qed.

Lemma reach_open4 {m} : reachable_if m mock_genesis (Inherents, s_open4).
Proof. apply reach_open; [by vm_compute|]. apply reach_closed3. Qed.

Lemma reach_drained4 {m} : reachable_if m mock_genesis (Inherents, s_drained4).
Proof. eapply reachable_step; [exact reach_open4|apply step_drain; [by apply is_u32b_spec|by vm_compute]]. Qed.

Lemma reach_closed4 {m} : reachable_if m mock_genesis (Idle, s_closed4).
Proof. apply reach_close; [by vm_compute|]. apply reach_extrinsics, reach_drained4. Qed.
