(* ===== verification/StorageTheorems.v ===== *)
(** The properties of the storage pallet, each with a witness on the concrete
    instance of [Mock.v]. *)

From S2P Require Import Prelude Slice Primitives Types State Authorizations Blocks Retention Checks Renewal RenewalFacts Hop Extension ExtensionFacts Chain ChainFacts Runtime Mock.

(** ** Storage proofs *)

Section Proofs.
Context `{HostLaws} `{!Config} `{!ConfigLaws} `{!ChunkCapacity}.

(** C1: On the entries of a block, [verify_chunk_proof] (a binary search over the
    saturating cumulative chunk counts, then two subtractions) agrees with the
    linear scan: the selected chunk belongs to the entry the scan finds, the
    position handed to the Merkle check is the chunk's position inside that entry
    and is in range, and the only error left is [InvalidProof] (no panic on
    underflow, no [MissingStateData], no [BadDataSize]). *)
Theorem chunk_proof_matches_scan proof random_hash entries :
  wf_entries entries -> entries <> [] ->
  exists t k,
    chunk_owner entries (random_chunk random_hash (chunk_sum entries)) = Some (t, k) /\
    0 <= k < num_chunks (ti_size t) /\
    verify_chunk_proof proof random_hash entries =
      (if blake2_256_verify_proof (ti_chunk_root t) (proof_proof proof)
            (encode_index k) (proof_chunk proof)
       then Ok tt else Err (StorageModule InvalidProof)).
Proof.
  intros Hwf Hne. destruct (verify_chunk_proof_owner proof random_hash entries Hwf Hne)
    as (t & k & Ho & Hk & _ & Hv). by exists t, k.
Qed.
End Proofs.

Lemma sealed_entries s b :
  BlockInv s -> Transactions_contains_key s b = true ->
  exists txs, Transactions_get s b = Some txs /\ wf_entries txs /\ txs <> [].
Proof.
  intros I. unfold Transactions_get, Transactions_contains_key.
  destruct (Transactions (ts s) !! b) as [v|] eqn:E; [|done]. intros _.
  destruct (bi_sealed _ I b v E) as (_ & txs & -> & Hne & Hwf). by exists txs.
Qed.

Definition entries1 : list TransactionInfoFor := default [] (Transactions_get s_closed1 1).

Lemma entries1_wf : wf_entries entries1 /\ entries1 <> [].
Proof.
  unfold entries1.
  destruct (sealed_entries s_closed1 1 (reachable_block _ _ _ mock_genesis_ok reach_closed1)
    ltac:(by vm_compute)) as (txs & -> & Hwf & Hne).
  exact (conj Hwf Hne).
Qed.

Lemma chunk_proof_matches_scan_witness :
  exists t k, chunk_owner entries1 (random_chunk hash_a (chunk_sum entries1)) = Some (t, k) /\
    0 <= k < num_chunks (ti_size t) /\
    verify_chunk_proof (proof_of data_a) hash_a entries1 =
      (if blake2_256_verify_proof (ti_chunk_root t) (proof_proof (proof_of data_a))
            (encode_index k) (proof_chunk (proof_of data_a))
       then Ok tt else Err (StorageModule InvalidProof)).
Proof.
  apply (chunk_proof_matches_scan (proof_of data_a) hash_a entries1).
  - exact (proj1 entries1_wf).
  - exact (proj2 entries1_wf).
Defined.

(** ** Storing *)

Section Storing.
Context `{HostLaws} `{!Config} `{!ConfigLaws} `{!ChunkCapacity}.

(** C2: A dispatched [store] is all or nothing, on every branch: a size out of
    range, a missing extrinsic context and a full block are the only failures, each
    with its own error and with neither storage nor the node's index touched; on
    success exactly one entry is appended with its size, content hash, chunk root
    and cumulative count, the index points at it, one [index] call is made and one
    [Stored] event deposited. *)
Theorem store_all_or_nothing o data s :
  is_ok (ensure_authorized o) = true ->
  dispatch (store o data) s =
  if negb (data_size_ok (as_u32 (len data))) then (Err (StorageModule BadDataSize), s)
  else
    match extrinsic_index (sys s) with
    | None => (Err (StorageModule BadContext), s)
    | Some x =>
        if len (BlockTransactions (ts s)) <? MaxBlockTransactions
        then (Ok tt, stored x data Blake2b256 RAW_CODEC s)
        else (Err (StorageModule TooManyTransactions), s)
    end.
Proof.
  intros Ho. unfold dispatch, store, bind, lift.
  destruct (ensure_authorized o); [|done]. rewrite do_store_eq.
  repeat (destr_match; simpl; try done); by destruct s.
Qed.
End Storing.

Lemma store_all_or_nothing_witness :
  dispatch (store (System Root) data_a) (set_extrinsic 1 s_open1) =
    (Ok tt, stored 1 data_a Blake2b256 RAW_CODEC (set_extrinsic 1 s_open1)).
Proof. rewrite (store_all_or_nothing (System Root) data_a) by reflexivity. reflexivity. Defined.

(** ** Validation of stores *)

Section Validation.
Context `{Host} `{Config}.

(** C3: Pool validation of a signed [store] or [store_with_cid_config] decides
    exactly this, in this order, and writes nothing: the size is in range, the
    block has a slot, and a scope is active, the preimage grant before the signer's
    own.  The consumed counters play no part, so an over-budget signer is still
    admitted.  Preparation succeeds exactly when validation does on the same state,
    and then charges one transaction and the size to the one scope validation chose,
    leaving every other authorization and the rest of the chain state as it was. *)
Theorem signed_store_validation_and_charge who c size h s :
  store_call c = Some (size, h) ->
  validate_signed who c s =
  (if negb (data_size_ok size) then Err BAD_DATA_SIZE
   else if block_transactions_full s then Err ExhaustsResources
   else if active s (Preimage h) then
     Ok (provides StoreTxParams h, Some (Preimage h))
   else if active s (Account who) then
     Ok (provides StoreTxParams (who ++ h), Some (Account who))
   else Err Payment, s) /\
  match (validate_signed who c s).1 with
  | Ok (_, scope) =>
      exists sc a, scope = Some sc /\ Authorizations (ts s) !! sc = Some a /\
        pre_dispatch_signed who c s =
          (Ok tt, upd_Authorizations <[sc := consume_extent (as_u32 size) a]> s)
  | Err e => pre_dispatch_signed who c s = (Err e, s)
  end.
Proof.
  intros Hc. unfold validate_signed, pre_dispatch_signed, bind.
  rewrite !(check_signed_store_eq _ _ _ _ _ Hc), check_signed_store_validate,
    check_signed_store_prepare. unfold charged_scope, active, get_active_authorization.
  destruct (negb (data_size_ok size)); [done|]. destruct (block_transactions_full s); [done|].
  destruct (Authorizations (ts s) !! Preimage h) as [a|] eqn:E1;
    [destruct (expired a (now s)) eqn:X1|]; simpl.
  2: { split; [done|]. exists (Preimage h), a. split_and!; [done|done|].
       unfold check_authorization. by rewrite E1, X1. }
  all: destruct (Authorizations (ts s) !! Account who) as [a'|] eqn:E2;
    [destruct (expired a' (now s)) eqn:X2|]; simpl; try done.
  all: split; [done|]; exists (Account who), a'; split_and!; [done|done|]; unfold check_authorization;
    by rewrite E2, X2.
Qed.
End Validation.

Lemma signed_store_validation_and_charge_witness :
  (validate_signed acc_a (CallStore data_a) s_open1).1 =
    Ok (provides StoreTxParams (acc_a ++ hash_a), Some (Account acc_a)) /\
  exists sc a, Some (Preimage hash_b) = Some sc /\
    Authorizations (ts s_stored1a) !! sc = Some a /\
    pre_dispatch_signed acc_a (CallStore data_b) s_stored1a =
      (Ok tt, upd_Authorizations <[sc := consume_extent (as_u32 (len data_b)) a]> s_stored1a).
Proof.
  split.
  - rewrite (proj1 (signed_store_validation_and_charge (H := mock_host) acc_a (CallStore data_a) (len data_a)
      hash_a s_open1 eq_refl)). by vm_compute.
  - pose proof (proj2 (signed_store_validation_and_charge (H := mock_host) acc_a (CallStore data_b) (len data_b)
      hash_b s_stored1a eq_refl)) as H.
    assert ((validate_signed acc_a (CallStore data_b) s_stored1a).1 =
      Ok (provides StoreTxParams hash_b, Some (Preimage hash_b))) as E by by vm_compute.
    rewrite E in H. exact H.
Defined.

(** ** Grants *)

(** A sequence of grants by one authorizer, each dispatched on its own; a refused
    grant is rolled back.  The totals count what was granted. *)
Fixpoint run_grants `{Config} (ctx : AuthorizationOrigin)
    (l : list (AuthorizationScope * Z * Z)) (s : State) : Z * Z * State :=
  match l with
  | [] => (0, 0, s)
  | (scope, t, b) :: l' =>
      match dispatch (authorize scope t b (Some ctx)) s with
      | (Ok _, s') => let '(ts', bs', s'') := run_grants ctx l' s' in (t + ts', b + bs', s'')
      | (Err _, s') => run_grants ctx l' s'
      end
  end.

Section Grants.
Context `{Config}.

Lemma authorize_metered scope t b ctx bud q s :
  AllowedAuthorizers (ts s) !! authorizer ctx = Some bud -> quota bud = Some q ->
  match dispatch (authorize scope t b (Some ctx)) s with
  | (Ok _, s') =>
      t <= quota_transactions q /\ b <= quota_bytes q /\
      AllowedAuthorizers (ts s') !! authorizer ctx =
        Some (mkBudget (Some (mkQuota (quota_transactions q - t) (quota_bytes q - b)))
                (valid_until bud) (feeless bud))
  | (Err _, s') => AllowedAuthorizers (ts s') !! authorizer ctx = Some bud
  end.
Proof.
  intros Hb Hq. unfold dispatch, authorize, consume_authorizer_budget. unfold_M.
  rewrite Hb. destruct (try_consume bud t b) as [bud'|] eqn:Et; simpl; [|done].
  destruct (try_consume_metered bud q t b bud' Hq Et) as (H1 & H2 & ->).
  split_and!; [done|done|].
  destruct (Authorizations (ts s) !! scope); [|destruct scope]; simpl; by rewrite lookup_insert_eq.
Qed.

(** C5: However many grants a metered authorizer issues, its budget pays for
    exactly what was granted: what is left is the initial quota minus the sum of
    the successful grants, on both axes, and never negative.  Refused grants cost
    nothing. *)
Theorem authorizer_budget_conserved ctx l bud q s :
  AllowedAuthorizers (ts s) !! authorizer ctx = Some bud -> quota bud = Some q ->
  0 <= quota_transactions q -> 0 <= quota_bytes q ->
  let '(granted_tx, granted_bytes, s') := run_grants ctx l s in
  exists q', 
    AllowedAuthorizers (ts s') !! authorizer ctx =
      Some (mkBudget (Some q') (valid_until bud) (feeless bud)) /\
    quota_transactions q' = quota_transactions q - granted_tx /\
    quota_bytes q' = quota_bytes q - granted_bytes /\
    0 <= quota_transactions q' /\ 0 <= quota_bytes q'.
Proof.
  revert bud q s. induction l as [|[[scope t] b] l IH]; intros bud q s Hb Hq Ht Hbs.
  - simpl. exists q. split_and!; [|lia..]. rewrite Hb. destruct bud; simpl in *. by rewrite Hq.
  - cbn [run_grants]. pose proof (authorize_metered scope t b ctx bud q s Hb Hq) as Hstep.
    destruct (dispatch _ s) as [[u|e] s1].
    + destruct Hstep as (H1 & H2 & H3).
      specialize (IH _ (mkQuota (quota_transactions q - t) (quota_bytes q - b)) s1 H3 eq_refl).
      simpl in IH. specialize (IH ltac:(lia) ltac:(lia)).
      destruct (run_grants ctx l s1) as [[gt gb] s'].
      destruct IH as (q' & Hq' & E1 & E2 & E3 & E4). exists q'. split_and!; [done|lia..].
    + by apply (IH bud q).
Qed.

(** The expiry a grant or a refresh asks for. *)
Definition requested_expiry (auth : option AuthorizationOrigin) (s : State) : BlockNumber :=
  grant_expiration (now s) (match auth with Some ctx => ao_valid_until ctx | None => None end).

Lemma authorize_ok_entry scope t b auth s s' :
  authorize scope t b auth s = (Ok tt, s') ->
  Authorizations (ts s') =
    <[scope := granted scope t b (now s) (requested_expiry auth s)
                 (Authorizations (ts s) !! scope)]> (Authorizations (ts s)).
Proof.
  unfold authorize, requested_expiry. unfold_M. destruct auth as [ctx|].
  - pose proof (consume_authorizer_budget_frame (authorizer ctx) t b s) as [Ha _].
    destruct (consume_authorizer_budget _ t b s) as [[u|e] s1]; [|done]. simpl in Ha.
    intros [= <-]. rewrite <- Ha. destruct (Authorizations (ts s1) !! scope); [done|by destruct scope].
  - intros [= <-]. destruct (Authorizations (ts s) !! scope); [done|by destruct scope].
Qed.

(** C6: What a successful grant means.  A scope without an entry, or with an expired
    one, gets a fresh window: nothing consumed, exactly the granted caps, and as expiry
    the earlier of [now + AuthorizationPeriod] and the grantor's own [valid_until].  An account with a live window keeps its expiry and its
    consumption while the caps are added; a preimage's caps are replaced.  No other
    scope changes. *)
Theorem grant_semantics scope t b auth s s' :
  authorize scope t b auth s = (Ok tt, s') ->
  exists a', Authorizations (ts s') = <[scope := a']> (Authorizations (ts s)) /\
  match get_active_authorization s scope with
  | None =>
      extent a' = mkExtent 0 t 0 PermanentExtent_default b /\
      expiration a' <= sat_add_u32 (now s) AuthorizationPeriod /\
      (forall ctx vu, auth = Some ctx -> ao_valid_until ctx = Some vu -> expiration a' <= vu) /\
      (expiration a' = sat_add_u32 (now s) AuthorizationPeriod \/
       exists ctx, auth = Some ctx /\ ao_valid_until ctx = Some (expiration a'))
  | Some a =>
      expiration a' = expiration a /\
      extent_transactions (extent a') = extent_transactions (extent a) /\
      extent_bytes (extent a') = extent_bytes (extent a) /\
      extra (extent a') = extra (extent a) /\
      match scope with
      | Account _ =>
          transactions_allowance (extent a') = sat_add_u32 (transactions_allowance (extent a)) t /\
          bytes_allowance (extent a') = sat_add_u64 (bytes_allowance (extent a)) b
      | Preimage _ =>
          transactions_allowance (extent a') = t /\ bytes_allowance (extent a') = b
      end
  end.
Proof.
  intros Hok. eexists. split; [by apply authorize_ok_entry|].
  assert (requested_expiry auth s <= sat_add_u32 (now s) AuthorizationPeriod /\
    (forall ctx vu, auth = Some ctx -> ao_valid_until ctx = Some vu ->
       requested_expiry auth s <= vu) /\
    (requested_expiry auth s = sat_add_u32 (now s) AuthorizationPeriod \/
     exists ctx, auth = Some ctx /\ ao_valid_until ctx = Some (requested_expiry auth s))) as (He1 & He2 & He3).
  { unfold requested_expiry, grant_expiration.
    destruct auth as [[w [vu|] f]|]; simpl; split_and!; try lia; try (by auto);
      try (intros ctx vu' [= <-] Hvu; simplify_eq/=; lia).
    destruct (Z.min_spec (sat_add_u32 (now s) AuthorizationPeriod) vu) as [[_ ->]|[_ ->]]; eauto. }
  unfold get_active_authorization, granted.
  destruct (Authorizations (ts s) !! scope) as [a|]; [|done].
  destruct (expired a (now s)); simpl; [done|]. by destruct scope.
Qed.
End Grants.

Definition ctx_b : AuthorizationOrigin := mkAuthorizationOrigin acc_b None true.

Lemma authorizer_budget_conserved_witness :
  let '(granted_tx, granted_bytes, s') :=
    run_grants ctx_b [(Account acc_a, 2, 3000); (Account acc_b, 1, 9000); (Preimage hash_a, 1, 700)]
      s_genesis in
  granted_tx = 3 /\ granted_bytes = 3700 /\
  exists q', 
    AllowedAuthorizers (ts s') !! acc_b = Some (mkBudget (Some q') None true) /\
    quota_transactions q' = 5 - granted_tx /\
    quota_bytes q' = 5000 - granted_bytes /\
    0 <= quota_transactions q' /\ 0 <= quota_bytes q'.
Proof.
  pose proof (authorizer_budget_conserved ctx_b
    [(Account acc_a, 2, 3000); (Account acc_b, 1, 9000); (Preimage hash_a, 1, 700)]
    (mkBudget (Some (mkQuota 5 5000)) None true) (mkQuota 5 5000) s_genesis
    ltac:(by vm_compute) eq_refl ltac:(simpl; lia) ltac:(simpl; lia)) as H.
  assert ((run_grants ctx_b [(Account acc_a, 2, 3000); (Account acc_b, 1, 9000);
    (Preimage hash_a, 1, 700)] s_genesis).1 = (3, 3700)) as E by by vm_compute.
  destruct (run_grants _ _ s_genesis) as [[gt gb] s']. injection E as -> ->.
  split; [done|split; [done|exact H]].
Defined.

Lemma grant_semantics_witness :
  exists s' a', authorize (Account acc_b) 2 100 (Some ctx_b) s_genesis = (Ok tt, s') /\
    Authorizations (ts s') = <[Account acc_b := a']> (Authorizations (ts s_genesis)) /\
    extent a' = mkExtent 0 2 0 PermanentExtent_default 100.
Proof.
  destruct (authorize (Account acc_b) 2 100 (Some ctx_b) s_genesis) as [[[]|e] s'] eqn:E.
  - destruct (grant_semantics (Account acc_b) 2 100 (Some ctx_b) s_genesis s' E) as (a' & Ha & Hm).
    assert (get_active_authorization s_genesis (Account acc_b) = None) as En by by vm_compute.
    rewrite En in Hm. exists s', a'. split; [done|split; [exact Ha|exact (proj1 Hm)]].
  - exfalso. assert (is_ok (authorize (Account acc_b) 2 100 (Some ctx_b) s_genesis).1 = true) as Hc
      by by vm_compute. rewrite E in Hc. discriminate.
Defined.
