(* ===== verification/ChainTheorems.v ===== *)
(** The properties of whole histories: what holds in every state the chain can
    reach, each with a witness on the short history of [Mock.v]. *)

From S2P Require Import Prelude Slice Primitives Types State Authorizations Blocks Retention Checks Renewal RenewalFacts Hop Extension ExtensionFacts Chain ChainFacts Runtime Presets Mock.

(** ** Helpers *)

Section Helpers.
Context `{HostLaws} `{!Config} `{!ConfigLaws} `{!ChunkCapacity}.

Lemma Transactions_iter_elem s b txs :
  (b, txs) ∈ Transactions_iter s -> Transactions (ts s) !! b = Some (LayoutCurrent txs).
Proof.
  unfold Transactions_iter. intros Hin. apply list_elem_of_omap in Hin as ([b' v] & Hin & Hd).
  apply elem_of_map_to_list in Hin. destruct v; simplify_eq/=. done.
Qed.

Lemma sealed_try_state s :
  Sealed s -> LedgerInv s -> do_try_state (now s) s = true.
Proof.
  intros (I & W & _) (IA & _). unfold do_try_state, retention_period.
  pose proof (bi_period s I) as Hp. destruct (RetentionPeriod (ts s) =? 0) eqn:E; b2p; [lia|].
  simpl. apply andb_true_iff. split; [apply andb_true_iff; split|].
  - apply forallb_forall. intros [b txs] Hin%list_elem_of_In%Transactions_iter_elem.
    destruct (bi_sealed s I b _ Hin) as (_ & txs' & [= <-] & _ & (Hc & _)).
    rewrite Hc. simpl. apply Z.eqb_eq. by apply total_chunks_foldl.
  - apply forallb_forall. intros [b txs] Hin%list_elem_of_In%Transactions_iter_elem.
    destruct (bi_sealed s I b _ Hin) as (Hb & _). specialize (W b _ Hin).
    unfold retention_period, sat_sub. apply andb_true_iff. rewrite !Z.leb_le. lia.
  - apply forallb_forall. intros [sc a] Hin%list_elem_of_In%elem_of_map_to_list.
    destruct (inv_authorizations s IA sc a Hin). apply Z.ltb_lt. lia.
Qed.

Lemma nothing_owed s :
  is_Some (close_block s) <->
  (ProofChecked (ts s) = true \/ now s <= RetentionPeriod (ts s) \/
   Transactions (ts s) !! (now s - RetentionPeriod (ts s)) = None) /\
  PendingRenewals (dr s) = [].
Proof.
  assert (proof_ok (now s) s = true <->
    (ProofChecked (ts s) = true \/ now s <= RetentionPeriod (ts s) \/
     Transactions (ts s) !! (now s - RetentionPeriod (ts s)) = None)) as <-.
  { unfold proof_ok, retention_period, Transactions_contains_key, sat_sub.
    rewrite !orb_true_iff, Z.eqb_eq. apply or_iff_compat_l.
    destruct (decide (now s <= RetentionPeriod (ts s))); [split; lia|].
    rewrite Z.max_r by lia. destruct (Transactions (ts s) !! _); naive_solver lia. }
  unfold is_Some. setoid_rewrite close_block_iff. naive_solver.
Qed.

(** Content [h] is retained: some sealed block or the current one holds it. *)
Definition retained (s : State) (h : ContentHash) : Prop :=
  exists b i info, entry_at s b i info /\ ti_content_hash info = h.

Lemma contains_iff_retained s h : BlockInv s -> contains_transaction s h = true <-> retained s h.
Proof.
  intros I. unfold contains_transaction.
  destruct (TransactionByContentHash (ts s) !! h) as [[b i]|] eqn:E.
  - split; [|done]. intros _. destruct (bi_index s I h b i E) as (_ & info & He & Hh).
    by exists b, (Z.to_nat i), info.
  - split; [done|]. intros (b & i & info & He & Hh).
    destruct (bi_complete s I b i info He) as (b' & i' & Hb' & _). subst h. congruence.
Qed.
End Helpers.

(** ** The inherents of a block *)

(** A proof is due: the block leaving the window holds entries. *)
Definition proof_due (s : State) : option (list TransactionInfoFor) :=
  if RetentionPeriod (ts s) <? now s then transactions_at s (now s - RetentionPeriod (ts s)) else None.

(** The inherent data of an honest author: a proof that verifies when one is due, and
    none otherwise. *)
Definition honest_data `{Host} (s : State) (data : option TransactionStorageProof) : Prop :=
  match proof_due s, data with
  | Some txs, Some proof => verify_chunk_proof proof (parent_hash (sys s)) txs = Ok tt
  | None, None => True
  | _, _ => False
  end.

(** An inherent, when the pallet creates one, is applied with no origin. *)
Definition apply_inherent {A} (run : A -> MD unit) (x : Z) (c : option A) (s : State)
    : result DispatchError unit * State :=
  match c with
  | Some c => dispatch (run c) (set_extrinsic x s)
  | None => (Ok tt, s)
  end.

Section Inherents.
Context `{HostLaws} `{!Config} `{!ConfigLaws} `{!ChunkCapacity} `{!AuthorizerLaws} `{!HopHost}
  `{!RuntimeHost} `{!RuntimeLaws}.

(** What [nothing_owed] asks of a block's proof. *)
Definition proof_settled (s : State) : Prop :=
  ProofChecked (ts s) = true \/ now s <= RetentionPeriod (ts s) \/
  Transactions (ts s) !! (now s - RetentionPeriod (ts s)) = None.

Lemma proof_not_due s : BlockInv s -> proof_due s = None -> proof_settled s.
Proof.
  intros I. unfold proof_due, proof_settled, transactions_at. destruct (_ <? _) eqn:E; b2p; [|by auto].
  destruct (Transactions (ts s) !! _) as [v|] eqn:Ev; [|by auto].
  by destruct (bi_sealed s I _ v Ev) as (_ & txs & -> & _).
Qed.

(** The proof inherent succeeds and settles the proof. *)
Lemma proof_inherent_ok g s x data :
  genesis_ok g -> reachable g (Inherents, s) -> is_u32 x -> ProofChecked (ts s) = false -> honest_data s data ->
  let r := apply_inherent (dispatch_storage (System NoneOrigin)) x (create_inherent data) s in
  r.1 = Ok tt /\ reachable g (Inherents, r.2) /\ proof_settled r.2 /\
  PendingRenewals (dr r.2) = PendingRenewals (dr s).
Proof.
  intros Hg Hr Hx Hpc Hd. unfold honest_data in Hd. pose proof (reachable_block g _ s Hg Hr) as I.
  destruct (proof_due s) as [txs|] eqn:Et, data as [proof|]; try done; simpl.
  2: { split_and!; [done|done|by apply proof_not_due|done]. }
  unfold proof_due in Et. destruct (_ <? _) eqn:Ep; b2p; [|done].
  pose proof (bi_period s I) as Hp.
  assert (apply_block_inherents (System NoneOrigin) (Some proof) (set_extrinsic x s) =
    (Ok tt, deposit_storage_event ProofCheckedEvent (upd_ProofChecked (fun _ => true) (set_extrinsic x s)))) as E.
  { unfold apply_block_inherents, do_check_proof. unfold_M. simpl. rewrite Hpc. simpl.
    change (retention_period (set_extrinsic x s)) with (RetentionPeriod (ts s)).
    change (now (set_extrinsic x s)) with (now s). unfold sat_sub. rewrite Z.max_r by lia.
    rewrite (proj2 (Z.eqb_neq _ _)) by lia. simpl.
    change (transactions_at (set_extrinsic x s)) with (transactions_at s). rewrite Et. simpl. by rewrite Hd. }
  pose proof (step_proof false s x (Some proof) Hx ltac:(by rewrite E)) as Hs.
  unfold dispatch in *. rewrite E in *. split_and!; [done|by eapply reachable_step|by left|done].
Qed.

(** The drain succeeds, leaves nothing pending and keeps the proof settled. *)
Lemma drain_inherent_ok g s x :
  genesis_ok g -> reachable g (Inherents, s) -> is_u32 x -> proof_settled s ->
  let r := apply_inherent (dispatch_renewal (System NoneOrigin)) x (renewal_create_inherent s) s in
  r.1 = Ok tt /\ reachable g (Inherents, r.2) /\ proof_settled r.2 /\ PendingRenewals (dr r.2) = [].
Proof.
  intros Hg Hr Hx Hp. unfold renewal_create_inherent.
  destruct (PendingRenewals (dr s)) eqn:Eq; [by split_and!|]. cbn [apply_inherent]. cbv zeta.
  pose proof (reachable_ledger g _ s Hg Hr) as (_ & _ & P & _).
  assert (PendingInv (set_extrinsic x s)) as P' by exact P.
  destruct (process_pending_frame _ P') as (_ & Es & ER & ET).
  pose proof (process_pending_empties _ P') as He. pose proof (process_pending_proof _ P') as HC.
  assert (forall r, do_process_pending_renewals (set_extrinsic x s) = r ->
    process_pending_renewals (System NoneOrigin) (set_extrinsic x s) = (Ok r.1, r.2)) as E
    by (intros [n s1] Hrun; unfold process_pending_renewals, run; unfold_M; simpl; by rewrite Hrun).
  specialize (E _ eq_refl). pose proof (step_drain false s x Hx ltac:(by rewrite E)) as Hs.
  unfold dispatch, dispatch_renewal, bind in *. rewrite E in *. simpl in *.
  split_and!; [done|by eapply reachable_step| |done].
  unfold proof_settled, now in *. by rewrite HC, Es, ER, ET.
Qed.
End Inherents.

(** ** Every reachable state *)

Section Reachable.
Context `{HostLaws} `{!Config} `{!ConfigLaws} `{!ChunkCapacity} `{!AuthorizerLaws} `{!HopHost}
  `{!RuntimeHost} `{!RuntimeLaws}.

(** C7: In every reachable state, whatever the interleaving of stores, renewals,
    promotions, drains and sweeps, the content-hash index is exact: a hash is
    indexed if and only if some retained block (or the one being built) holds an
    entry with that hash, and the index leads to such an entry. *)
Theorem index_is_exact g ph s h :
  genesis_ok g -> reachable g (ph, s) ->
  (contains_transaction s h = true <-> retained s h) /\
  (forall b i, lookup_by_content_hash s h = Some (b, i) ->
     exists info, entry_at s b (Z.to_nat i) info /\ ti_content_hash info = h).
Proof.
  intros Hg Hr. pose proof (reachable_block g ph s Hg Hr) as I. split.
  - by apply contains_iff_retained.
  - intros b i Hl. by destruct (bi_index s I h b i Hl) as (_ & Hi).
Qed.

(** C8: Retention is a guarantee: once a block is sealed, its entries stay in
    storage, unchanged, for the whole retention period, through every sequence of
    steps from any reachable state; governance calls and full sweeps included. *)
Theorem sealed_blocks_are_retained g ph s ph' s' b v :
  genesis_ok g -> reachable g (ph, s) -> rtc chain_step (ph, s) (ph', s') ->
  Transactions (ts s) !! b = Some v -> now s' <= b + RetentionPeriod (ts s) ->
  Transactions (ts s') !! b = Some v.
Proof.
  intros Hg Hr Hsteps Hb Hw.
  exact (rtc_retains (ph, s) (ph', s') b v (reachable_inv g _ Hg Hr) Hsteps Hb Hw).
Qed.

(** C9: The storage pallet's books are consistent. In every state reachable from a genesis
    that lists each account once, the provider references balance: what an account holds is
    one for its authorization entry, one for its authorizer entry, and one for every time
    [dec_providers] refused to give one back (the pallet warns and leaves the reference
    leaked); no grant, overwrite, consumption or removal leaks or double-frees a reference
    in any other way. Between any two blocks the pallet's own [try_state] check holds: the
    retention period is set, every sealed block's cumulative chunk counts and total are
    consistent, no sealed block is outside the retention window, and every authorization
    has a positive byte cap. *)
Theorem try_state_holds g ph s who :
  genesis_ok g -> reachable g (ph, s) ->
  provider_balance (provider_calls s) who =
    present (Authorizations (ts s) !! Account who) + present (AllowedAuthorizers (ts s) !! who)
    + leaked (provider_calls s) who /\
  (ph = Idle -> do_try_state (now s) s = true).
Proof.
  intros Hg Hr. split.
  - destruct (reachable_ledger g ph s Hg Hr) as (IA & _). by apply inv_providers.
  - intros ->. destruct (reachable_idle g s Hg Hr) as (L & S & _). by apply sealed_try_state.
Qed.

(** C10: The hard caps hold in every reachable state: the chain-wide counter of
    renewed bytes never exceeds [MaxPermanentStorageSize], as the parameters in storage
    set it, and no account has renewed more within its window than its byte allowance.
    Governance may change the parameter at any time, as long as it does not set the cap
    below what is in use. *)
Theorem hard_caps_hold g ph s :
  genesis_ok g -> reachable g (ph, s) ->
  0 <= PermanentStorageUsed (dr s) <= MaxPermanentStorageSize (parameters (sys s)) /\
  (forall who a, Authorizations (ts s) !! Account who = Some a ->
     0 <= bytes_permanent (extra (extent a)) <= bytes_allowance (extent a)).
Proof.
  intros Hg Hr. destruct (reachable_ledger g ph s Hg Hr) as (IA & IC & _). split; [exact IC|].
  intros who a Ha. destruct (inv_authorizations s IA _ a Ha) as [_ _ _ _ Hp _ Hw].
  specialize (Hw who eq_refl). unfold is_u64 in Hp. lia.
Qed.

(** C12: No honest block author is stuck: in any open block whose proof is still to come,
    given inherent data that carries a proof exactly when one is due, and one that then
    verifies against the block leaving the window, the inherents the two pallets create
    (the proof when the data has one, the drain when renewals are pending) both succeed,
    the block closes, and the chain is between two blocks again. *)
Theorem block_can_always_close g s x y data :
  genesis_ok g -> reachable g (Inherents, s) -> ProofChecked (ts s) = false ->
  is_u32 x -> is_u32 y -> honest_data s data ->
  let r1 := apply_inherent (dispatch_storage (System NoneOrigin)) x (create_inherent data) s in
  let r2 := apply_inherent (dispatch_renewal (System NoneOrigin)) y (renewal_create_inherent s) r1.2 in
  r1.1 = Ok tt /\ r2.1 = Ok tt /\
  exists s', close_block r2.2 = Some s' /\ reachable g (Idle, s').
Proof.
  intros Hg Hr Hpc Hx Hy Hd r1 r2.
  destruct (proof_inherent_ok g s x data Hg Hr Hx Hpc Hd) as (E1 & R1 & P1 & Q1). fold r1 in E1, R1, P1, Q1.
  assert (renewal_create_inherent s = renewal_create_inherent r1.2) as Ec
    by (unfold renewal_create_inherent; by rewrite Q1).
  destruct (drain_inherent_ok g r1.2 y Hg R1 Hy P1) as (E2 & R2 & P2 & Q2). rewrite <- Ec in *. fold r2 in E2, R2, P2, Q2.
  split_and!; [done|done|]. destruct (proj2 (nothing_owed r2.2) (conj P2 Q2)) as [s' Hc].
  exists s'. split; [done|]. eapply reachable_step; [|by apply step_close].
  eapply reachable_step; [exact R2|apply step_inherents_done].
Qed.

(** C4: Nothing ever leaves its machine type.  A chain started from any genesis preset
    of either runtime keeps every stored number inside the Rust type that holds it and
    every bounded vector within its bound, in every state it can reach by calls whose
    arguments are of their types: block numbers, extrinsic index and time, fees, retention
    period, authorizations, budgets, all four numbers of every stored, current or pending
    entry, the index and the counter.  So the unbounded integers of the model are the
    program's.  The presets are exactly the
    ones listed; they let Alice store any admissible size and make Eve the only
    authorizer, with 100,000 transactions and 100 GiB to grant. *)
Theorem preset_chains_keep_their_types `{!GenesisHost} id p ph s h n :
  paseo_get_preset id = Some p \/ westend_get_preset id = Some p ->
  reachable (pg_transaction_storage p) (ph, s) ->
  let s0 := genesis_build (pg_transaction_storage p) (empty_state h) in
  ValuesFit s /\ id ∈ preset_names /\
  (can_store s0 (to_account_id Alice) n = true <-> 0 < n <= MaxTransactionSize) /\
  AllowedAuthorizers (ts s0) = {[ to_account_id Eve := mkBudget (Some (mkQuota 100000 107374182400)) None true ]}.
Proof.
  intros Hp Hr s0. pose proof (preset_genesis_ok id p Hp) as Hg. split_and!.
  - apply invariants_fit; [by eapply reachable_ledger|by eapply reachable_block].
  - destruct (preset_listed id) as [E1 E2], Hp as [Hp|Hp]; [apply E1|apply E2]; by eexists.
  - by apply (preset_rights id p h n).
  - by apply (preset_rights id p h n).
Qed.
End Reachable.

(** ** Witnesses *)

Lemma index_is_exact_witness :
  (contains_transaction s_closed4 hash_a = true <-> retained s_closed4 hash_a) /\
  (forall b i, lookup_by_content_hash s_closed4 hash_a = Some (b, i) ->
     exists info, entry_at s_closed4 b (Z.to_nat i) info /\ ti_content_hash info = hash_a).
Proof. exact (index_is_exact mock_genesis Idle s_closed4 hash_a mock_genesis_ok reach_closed4). Defined.

Lemma step_open2 : rtc chain_step (Idle, s_closed1) (Inherents, s_open2).
Proof. apply rtc_once, step_open. vm_compute. discriminate. Qed.

Lemma contains_key_lookup s b :
  Transactions_contains_key s b = true -> is_Some (Transactions (ts s) !! b).
Proof. unfold Transactions_contains_key. by destruct (Transactions (ts s) !! b). Qed.

Lemma closed1_has_1 : Transactions_contains_key s_closed1 1 = true.
Proof. by vm_compute. Qed.

Lemma open2_in_window : now s_open2 <= 1 + RetentionPeriod (ts s_closed1).
Proof. vm_compute. discriminate. Qed.

Lemma sealed_blocks_are_retained_witness :
  exists v, Transactions (ts s_closed1) !! 1 = Some v /\ Transactions (ts s_open2) !! 1 = Some v.
Proof.
  destruct (contains_key_lookup s_closed1 1 closed1_has_1) as [v E].
  exists v. split; [exact E|].
  exact (sealed_blocks_are_retained mock_genesis Idle s_closed1 Inherents s_open2 1 v
    mock_genesis_ok reach_closed1 step_open2 E open2_in_window).
Defined.

Lemma try_state_holds_witness :
  provider_balance (provider_calls s_closed4) acc_a =
    present (Authorizations (ts s_closed4) !! Account acc_a)
    + present (AllowedAuthorizers (ts s_closed4) !! acc_a) + leaked (provider_calls s_closed4) acc_a /\
  do_try_state (now s_closed4) s_closed4 = true.
Proof.
  destruct (try_state_holds mock_genesis Idle s_closed4 acc_a mock_genesis_ok reach_closed4) as [H1 H2].
  exact (conj H1 (H2 eq_refl)).
Defined.

Lemma hard_caps_hold_witness :
  0 <= PermanentStorageUsed (dr s_closed4) <= MaxPermanentStorageSize (parameters (sys s_closed4)).
Proof. exact (proj1 (hard_caps_hold mock_genesis Idle s_closed4 mock_genesis_ok reach_closed4)). Defined.

Lemma reach_open3 : reachable mock_genesis (Inherents, s_open3).
Proof. apply reach_open; [by vm_compute|]. apply reach_closed2. Qed.

Definition honest_datab (s : State) (data : option TransactionStorageProof) : bool :=
  match proof_due s, data with
  | Some txs, Some proof => is_ok (verify_chunk_proof proof (parent_hash (sys s)) txs)
  | None, None => true
  | _, _ => false
  end.

Lemma honest_datab_spec s data : honest_datab s data = true -> honest_data s data.
Proof.
  unfold honest_datab, honest_data. destruct (proof_due s), data; try done.
  by destruct (verify_chunk_proof _ _ _) as [[]|].
Qed.

Lemma open3_unchecked : ProofChecked (ts s_open3) = false.
Proof. by vm_compute. Qed.

Lemma open3_honest : honest_data s_open3 (Some (proof_of data_a)).
Proof. apply honest_datab_spec. by vm_compute. Qed.

(** Block 3, where the proof of block 1 is due. *)
Lemma block_can_always_close_witness :
  let r1 := apply_inherent (dispatch_storage (System NoneOrigin)) 1 (create_inherent (Some (proof_of data_a))) s_open3 in
  let r2 := apply_inherent (dispatch_renewal (System NoneOrigin)) 2 (renewal_create_inherent s_open3) r1.2 in
  r1.1 = Ok tt /\ r2.1 = Ok tt /\ exists s', close_block r2.2 = Some s' /\ reachable mock_genesis (Idle, s').
Proof.
  exact (block_can_always_close mock_genesis s_open3 1 2 (Some (proof_of data_a)) mock_genesis_ok
    reach_open3 open3_unchecked (is_u32b_spec 1 eq_refl) (is_u32b_spec 2 eq_refl) open3_honest).
Defined.

(** ** A chain from a preset *)

#[export] Instance mock_genesis_host : GenesisHost := {|
  to_account_id k := match k with Alice => acc_a | Bob => acc_b | _ => replicate 32 (byte_of_Z 69) end;
  aura_key k := match k with Alice => acc_a | _ => acc_b end;
  well_known := [Alice; Bob; Eve];
  LOCAL_TESTNET_RUNTIME_PRESET := "local_testnet";
  DEV_RUNTIME_PRESET := "development";
  XCM_VERSION := 5;
  WND := 1000000000000;
  westend_EXISTENTIAL_DEPOSIT := 1000000000 |}.

Definition dev_preset : PresetGenesis := default (mkPreset [] 0 [] 0 [] None None GenesisConfig_default)
  (paseo_get_preset "development").

Lemma dev_preset_found : paseo_get_preset "development" = Some dev_preset.
Proof. by vm_compute. Qed.

(** The first block of the development chain. *)
Definition s_dev1 : State :=
  on_initialize 1 (open_block no_hash (genesis_build (pg_transaction_storage dev_preset) (empty_state no_hash))).

Lemma reach_dev1 : reachable (pg_transaction_storage dev_preset) (Inherents, s_dev1).
Proof. eapply reachable_step; [apply (reachable_genesis _ _ no_hash)|]. by apply step_open. Qed.

Lemma preset_chains_keep_their_types_witness :
  ValuesFit s_dev1 /\
  can_store (genesis_build (pg_transaction_storage dev_preset) (empty_state no_hash)) acc_a 2000 = true.
Proof.
  destruct (preset_chains_keep_their_types "development" dev_preset Inherents s_dev1 no_hash 2000
    (or_introl dev_preset_found) reach_dev1) as (Hf & _ & Ha & _).
  split; [exact Hf|]. apply Ha. split; by vm_compute.
Defined.
