(* ===== verification/ExtensionTheorems.v ===== *)
(** The properties of the transaction pipeline: extensions, priorities, HOP
    promotions and the runtimes' pool parameters. *)

From S2P Require Import Prelude Slice Primitives Types State Authorizations Blocks Retention Checks Renewal RenewalFacts Hop Extension ExtensionFacts Chain ChainFacts Runtime Stress Mock.

(** ** Charged calls are delivered *)

Section Delivered.
Context `{HostLaws} `{!Config} `{!ConfigLaws} `{!ChunkCapacity} `{!AuthorizerLaws} `{!HopHost}
  `{!RuntimeHost} `{!RuntimeLaws}.

(** C13: No signer pays for nothing.  In every reachable state, once a direct store
    or renewal call has passed validation and preparation (where its authorization
    is charged), dispatching it with the rewritten origin succeeds: every condition
    the dispatchable checks was already checked before the charge.  Validation itself
    is read only for every call tree, origin and state, and whatever validates can be
    prepared on the same state. *)
Theorem charged_calls_are_delivered g s x who c vt val o s1 s2 :
  genesis_ok g -> reachable g (Extrinsics, s) -> direct_only c = true ->
  validate RuntimeLeaves (System (Signed who)) c (set_extrinsic x s) = (Ok (vt, val, o), s1) ->
  prepare RuntimeLeaves val c s1 = (Ok tt, s2) ->
  is_ok (dispatch_runtime o c s2).1 = true /\ s1 = set_extrinsic x s /\
  (forall o' c' s', (validate RuntimeLeaves o' c' s').2 = s' /\
     (forall vt' val' o'', (validate RuntimeLeaves o' c' s').1 = Ok (vt', val', o'') ->
        (prepare RuntimeLeaves val' c' s').1 = Ok tt)).
Proof.
  intros Hg Hr Hd Hv Hp.
  pose proof (validate_pure RuntimeLeaves _ (System (Signed who)) c (set_extrinsic x s)) as Hpure.
  rewrite Hv in Hpure. simpl in Hpure. subst s1.
  split; [|split; [done|]; intros o' c' s'; split; [apply (validate_pure RuntimeLeaves _)|
    intros vt' val' o''; apply (validate_prepare RuntimeLeaves _)]].
  assert (wf_entries (BlockTransactions (ts (set_extrinsic x s)))) as G by apply (reachable_block g _ s Hg Hr).
  destruct c as [i|i|i|u|e]; try done.
  - rewrite validate_storage_eq in Hv. unfold top_result in Hv.
    destruct (validate_signed who i (set_extrinsic x s)) as [[[vt' sc]|e] s'] eqn:Ev; simplify_eq.
    rewrite prepare_storage_eq in Hp. by eapply stored_after_charge.
  - rewrite validate_renewal_eq in Hv. unfold top_result in Hv.
    destruct (validate_renewal_signed who i (set_extrinsic x s)) as [[[vt' sc]|e] s'] eqn:Ev;
      simplify_eq.
    rewrite prepare_renewal_eq in Hp. by eapply renewed_after_charge.
Qed.
End Delivered.

Lemma reach_extrinsics1 : reachable mock_genesis (Extrinsics, s_open1).
Proof. apply reach_extrinsics, reach_open; [by vm_compute|]. apply reach_genesis. Qed.

(** Both stages of the pipeline pass. *)
Definition pipeline_ok `{Host} `{Config} `{HopHost} (who : AccountId) (c : RuntimeCall) (s : State)
    : bool :=
  match validate RuntimeLeaves (System (Signed who)) c s with
  | (Ok (_, val, _), s1) => is_ok (prepare RuntimeLeaves val c s1).1
  | _ => false
  end.

Lemma pipeline_runs `{Host} `{Config} `{HopHost} who c s :
  pipeline_ok who c s = true ->
  exists vt val o s1 s2,
    validate RuntimeLeaves (System (Signed who)) c s = (Ok (vt, val, o), s1) /\
    prepare RuntimeLeaves val c s1 = (Ok tt, s2).
Proof.
  unfold pipeline_ok. destruct (validate _ _ c s) as [[[[vt val] o]|e] s1]; [|done].
  destruct (prepare _ val c s1) as [[[]|e] s2] eqn:Ep; [|done]. by exists vt, val, o, s1, s2.
Qed.

Lemma pipeline1 : pipeline_ok acc_a (TransactionStorage (CallStore data_a)) (set_extrinsic 1 s_open1) = true.
Proof. by vm_compute. Qed.

Lemma charged_calls_are_delivered_witness :
  exists o s2, is_ok (dispatch_runtime o (TransactionStorage (CallStore data_a)) s2).1 = true.
Proof.
  destruct (pipeline_runs acc_a (TransactionStorage (CallStore data_a)) (set_extrinsic 1 s_open1)
    pipeline1) as (vt & val & o & s1 & s2 & Ev & Ep).
  exists o, s2.
  exact (proj1 (charged_calls_are_delivered mock_genesis s_open1 1 acc_a
    (TransactionStorage (CallStore data_a)) vt val o s1 s2
    mock_genesis_ok reach_extrinsics1 eq_refl Ev Ep)).
Defined.

(** ** Wrappers *)

Section Wrappers.
Context `{HopHost} `{Host} `{Config}.

(** C14: A store or renewal call hidden in wrappers is never accepted, however deep:
    if the call tree the inspector sees contains one below the top, both validation
    and preparation of the signed extrinsic fail.  The depth limit cannot be used to
    slip one through. *)
Theorem wrapped_calls_are_rejected who c n l s :
  inspected c n l -> (0 < n)%nat -> direct_only l = true ->
  is_ok (validate RuntimeLeaves (System (Signed who)) c s).1 = false /\
  is_ok (prepare RuntimeLeaves (Some who) c s).1 = false.
Proof.
  intros Hi Hn Hl. split; [by eapply wrapped_validate_rejected|by eapply wrapped_prepare_rejected].
Qed.

(** Everything about stored data: what is stored where, and for how long. *)
Definition stored_data (s : State) :=
  (RetentionPeriod (ts s), Transactions (ts s), BlockTransactions (ts s), TransactionByContentHash (ts s)).

(** What a foreign origin cannot change, given whether it may grant: an entry it removes
    is an authorizer that is spent or out of date, or an authorization that has expired. *)
Definition foreign_frame (allowed : bool) (s s' : State) : Prop :=
  now s' = now s /\ stored_data s' = stored_data s /\ dr s' = dr s /\
  (AllowedAuthorizers (ts s') ⊆ AllowedAuthorizers (ts s) /\
   forall who b, AllowedAuthorizers (ts s) !! who = Some b -> AllowedAuthorizers (ts s') !! who = None ->
     is_inactive b (now s) = true) /\
  (allowed = false ->
   Authorizations (ts s') ⊆ Authorizations (ts s) /\
   forall scope a, Authorizations (ts s) !! scope = Some a -> Authorizations (ts s') !! scope = None ->
     expired a (now s) = true).

(** Entries only go, and only those a test lets go. *)
Lemma removal_trans {K V} `{Countable K} (P : V -> Prop) (m1 m2 m3 : gmap K V) :
  (m2 ⊆ m1 /\ forall k v, m1 !! k = Some v -> m2 !! k = None -> P v) ->
  (m3 ⊆ m2 /\ forall k v, m2 !! k = Some v -> m3 !! k = None -> P v) ->
  m3 ⊆ m1 /\ forall k v, m1 !! k = Some v -> m3 !! k = None -> P v.
Proof.
  intros [S1 P1] [S2 P2]. split; [by etransitivity|]. intros k v Hk1 Hk3.
  destruct (m2 !! k) as [w|] eqn:E2; [|by eapply P1].
  pose proof (lookup_weaken _ _ _ _ E2 S1) as Hw. assert (w = v) as -> by congruence. by eapply P2.
Qed.

Lemma removal_refl {K V} `{Countable K} (P : V -> Prop) (m : gmap K V) :
  m ⊆ m /\ forall k v, m !! k = Some v -> m !! k = None -> P v.
Proof. split; [done|]. intros k v Hk1 Hk2. congruence. Qed.

Lemma removal_delete {K V} `{Countable K} (P : V -> Prop) (m : gmap K V) k v :
  m !! k = Some v -> P v ->
  delete k m ⊆ m /\ forall k' v', m !! k' = Some v' -> delete k m !! k' = None -> P v'.
Proof.
  intros Hk Hv. split; [apply delete_subseteq|]. intros k' v' Hk1 Hk2.
  destruct (decide (k = k')) as [->|]; [congruence|]. rewrite lookup_delete_ne in Hk2 by done. congruence.
Qed.

Lemma foreign_frame_trans b s1 s2 s3 :
  foreign_frame b s1 s2 -> foreign_frame b s2 s3 -> foreign_frame b s1 s3.
Proof.
  intros (N1 & D1 & R1 & A1 & Z1) (N2 & D2 & R2 & A2 & Z2). rewrite N1 in A2, Z2.
  split; [congruence|]. split; [congruence|]. split; [congruence|]. split; [by eapply removal_trans|].
  intros Hb. by eapply removal_trans; [apply Z1|apply Z2].
Qed.

(** A state that differs in what none of this reads. *)
Lemma foreign_frame_same b s s' : now s' = now s -> ts s' = ts s -> dr s' = dr s -> foreign_frame b s s'.
Proof.
  intros Hn Ht Hd. unfold foreign_frame, stored_data. rewrite Hn, Ht, Hd.
  do 3 (split; [done|]). split; [apply removal_refl|intros _; apply removal_refl].
Qed.

Section Foreign.
Context (allowed : bytes -> bool).
Hypothesis grants : forall s loc, Authorizer s (ForeignOrigin loc) = if allowed loc then Some None else None.
Hypothesis no_registrar : forall loc, AuthorizerRegistrarOrigin (ForeignOrigin loc) = false.

Lemma foreign_storage loc i s :
  foreign_frame (allowed loc) s (dispatch_storage (ForeignOrigin loc) i s).2.
Proof.
  assert (foreign_frame (allowed loc) s s) as Hrefl by by apply foreign_frame_same.
  destruct i; simpl;
    unfold store, store_with_cid_config, authorize_account, authorize_preimage, refresh_account_authorization,
      refresh_preimage_authorization, remove_expired_account_authorization, remove_expired_preimage_authorization,
      apply_block_inherents, add_authorizer, remove_authorizer, remove_exhausted_authorizer, ensure_authorizer;
    unfold authorize, refresh_authorization, remove_expired_authorization, authorization_added,
      authorization_removed, ok_or;
    unfold_M; rewrite ?no_registrar, ?grants; simpl; try done;
    repeat (case_match; simplify_eq/=; try done);
    (split; [done|split; [done|split; [done|split]]]); simpl; try done; try (intros _);
    match goal with |- context [now ?s0] =>
      first [apply (removal_refl (fun b => is_inactive b (now s0) = true))
            |apply (removal_refl (fun a => expired a (now s0) = true))
            |by eapply (removal_delete (fun b => is_inactive b (now s0) = true)); eauto
            |by eapply (removal_delete (fun a => expired a (now s0) = true)); eauto] end.
Qed.

(** Only signers and Root have other origins to dispatch with. *)
Lemma foreign_dispatched loc c o' c' : leads_to (ForeignOrigin loc) c o' c' -> o' = ForeignOrigin loc.
Proof. induction 1 as [|o1 u o2 c2 _ -> Hi]; [done|]. by inversion Hi. Qed.

Lemma foreign_runtime `{!RuntimeHost} `{!RuntimeLaws} loc c s :
  foreign_frame (allowed loc) s (dispatch (dispatch_runtime (ForeignOrigin loc) c) s).2.
Proof.
  assert (forall c s, leaf_call c = true ->
    foreign_frame (allowed loc) s (dispatch (dispatch_runtime (ForeignOrigin loc) c) s).2) as Hleaf.
  { clear c s. intros c s Hl. destruct (dispatch_state (dispatch_runtime (ForeignOrigin loc) c) s) as [[a Ha]|[l ->]];
      [|by apply foreign_frame_same].
    destruct c as [i|i|i|u|e]; simpl in Ha.
    - pose proof (foreign_storage loc i s) as Hf. by rewrite Ha in Hf.
    - by destruct i.
    - by destruct i.
    - done.
    - destruct (other_frame (ForeignOrigin loc) e s) as [d Hd]. rewrite Ha in Hd. simpl in Hd. cbn [dispatch_runtime]. rewrite Hd.
      by apply foreign_frame_same. }
  destruct (leaf_call c) eqn:El; [by apply Hleaf|]. destruct c as [| | |u|]; try done.
  destruct (dispatch_state (dispatch_runtime (ForeignOrigin loc) (Utility u)) s) as [[a Ha]|[l ->]];
    [|by apply foreign_frame_same].
  assert (foreign_frame (allowed loc) s (dispatch_utility (ForeignOrigin loc) u s).2) as Hu;
    [|simpl in Ha; by rewrite Ha in Hu].
  apply utility_invariant; [| |by apply foreign_frame_same].
  - intros s0 l Hf. eapply foreign_frame_trans; [exact Hf|by apply foreign_frame_same].
  - intros s0 o' c ->%foreign_dispatched Hl Hf. eapply foreign_frame_trans; [exact Hf|by apply Hleaf].
Qed.
End Foreign.
End Wrappers.

Section ForeignChains.
Context `{XcmHost} `{HopHost} `{Host} `{!RuntimeHost}.

(** The runtimes with the locations they let grant over XCM. *)
Definition runtimes (ids : list Z) (cap : Z) : list (Config * (bytes -> bool)) :=
  [(paseo_config ids cap, IsAuthorizerParachain ids); (westend_config, IsSiblingParachain)].

(** C15: Other chains can grant at most.  On both runtimes, dispatching any call with
    the origin of a foreign location, wrappers included, changes neither the stored data
    and its index, nor the renewal pallet, and adds no authorizer and removes only spent
    or outdated ones.  Unless the location is one the runtime lets grant (a listed
    parachain on Paseo, any sibling on Westend) no authorization is added or changed, and
    every one that is removed had expired.  And what arrives over XCM is filtered before
    that: a call [contains] lets pass hides no store in its wrappers, at any depth. *)
Theorem foreign_chains_grant_at_most ids cap (C : Config) allowed loc c s :
  (C, allowed) ∈ runtimes ids cap -> RuntimeLaws ->
  foreign_frame (allowed loc) s (dispatch (dispatch_runtime (ForeignOrigin loc) c) s).2 /\
  (contains c = false -> forall n l i,
     inspected c n l -> l = TransactionStorage i -> is_store_call i = false).
Proof.
  intros Hin Hlaws. split.
  - apply foreign_runtime; [| |done]; revert Hin;
      (intros [[= -> ->]|[[= -> ->]|Hn%not_elem_of_nil]%elem_of_cons]%elem_of_cons; [| |done]).
    + intros s0 loc0. simpl. unfold paseo_Authorizer, EitherOf, AsAuthorizer. simpl.
      by destruct (IsAuthorizerParachain ids loc0).
    + intros s0 loc0. simpl. unfold westend_Authorizer, EitherOf, AsAuthorizer. simpl.
      by destruct (IsSiblingParachain loc0).
    + done.
    + done.
  - intros Hc n l i Hi ->. exact (mutating_sound c n _ Hi 0 Hc).
Qed.
End ForeignChains.

Definition wrapped_store : RuntimeCall :=
  Utility (batch_all [OtherPallet []; Utility (as_derivative 1 (TransactionStorage (CallStore data_a)))]).

Lemma wrapped_store_inspected :
  inspected wrapped_store 2 (TransactionStorage (CallStore data_a)).
Proof.
  eapply inspected_inner; [reflexivity| |].
  - right. left.
  - eapply inspected_inner; [reflexivity|left|apply inspected_here].
Qed.

Lemma wrapped_calls_are_rejected_witness :
  is_ok (validate RuntimeLeaves (System (Signed acc_a)) wrapped_store s_open1).1 = false /\
  is_ok (prepare RuntimeLeaves (Some acc_a) wrapped_store s_open1).1 = false.
Proof.
  apply (wrapped_calls_are_rejected acc_a wrapped_store 2 _ s_open1 wrapped_store_inspected).
  - lia.
  - reflexivity.
Defined.

Definition wrapped_grant : RuntimeCall :=
  Utility (batch [TransactionStorage (CallAuthorizeAccount acc_b 1 100)]).

Lemma wrapped_grant_inspected :
  inspected wrapped_grant 1 (TransactionStorage (CallAuthorizeAccount acc_b 1 100)).
Proof. eapply inspected_inner; [reflexivity|left|apply inspected_here]. Qed.

(** Parachain 1503 is not on the list; its attempt to grant leaves no entry behind, and
    none of the live ones goes. *)
Lemma foreign_chains_grant_at_most_witness :
  let s' := (dispatch (dispatch_runtime (ForeignOrigin [byte_of_Z 3]) wrapped_grant) s_open1).2 in
  IsAuthorizerParachain [1502; 5140] [byte_of_Z 3] = false /\
  Authorizations (ts s') ⊆ Authorizations (ts s_open1) /\
  (forall scope a, Authorizations (ts s_open1) !! scope = Some a -> Authorizations (ts s') !! scope = None ->
     expired a (now s_open1) = true) /\
  contains wrapped_store = true /\ contains wrapped_grant = false /\
  is_store_call (CallAuthorizeAccount acc_b 1 100) = false.
Proof.
  intros s'. split; [reflexivity|].
  destruct (foreign_chains_grant_at_most [1502; 5140] mock_cap mock_config (IsAuthorizerParachain [1502; 5140])
    [byte_of_Z 3] wrapped_grant s_open1 ltac:(by left) mock_runtime_laws) as [(_ & _ & _ & _ & Hf) Hc].
  destruct (Hf eq_refl) as [Hs He]. split; [exact Hs|]. split; [exact He|]. do 2 (split; [reflexivity|]).
  exact (Hc eq_refl 1%nat _ _ wrapped_grant_inspected eq_refl).
Defined.

(** ** Priorities *)

Section Priorities.

(** The boost strategies.  The proportional boost never exceeds the flat one,
    both lie between zero and [ALLOWANCE_PRIORITY_BOOST] (the [u128] arithmetic and
    the truncation to [u64] lose nothing), and neither ever rewards consumption: with
    the same caps, having consumed more on both axes never raises the boost, and out
    of budget it is zero. *)
Lemma boosts_bounded_monotone {Extra} (e e' : AuthorizationExtent Extra) :
  extent_ok e -> extent_ok e' ->
  bytes_allowance e' = bytes_allowance e -> transactions_allowance e' = transactions_allowance e ->
  extent_bytes e <= extent_bytes e' -> extent_transactions e <= extent_transactions e' ->
  0 <= ProportionalBoost e <= FlatBoost e /\ FlatBoost e <= ALLOWANCE_PRIORITY_BOOST /\
  ProportionalBoost e' <= ProportionalBoost e /\ FlatBoost e' <= FlatBoost e /\
  (in_budget e = false -> ProportionalBoost e = 0 /\ FlatBoost e = 0).
Proof.
  intros Hok Hok' Hb Ht Hcb Hct. pose proof (proportional_bounds e Hok) as HB.
  assert (in_budget e' = true -> in_budget e = true) as Hin.
  { rewrite !in_budget_spec. lia. }
  assert (FlatBoost e <= ALLOWANCE_PRIORITY_BOOST) as Hf.
  { unfold FlatBoost, ALLOWANCE_PRIORITY_BOOST. destruct (in_budget e); lia. }
  split_and!; [lia|lia|done| | |].
  - destruct (in_budget e') eqn:E'.
    + rewrite !proportional_eq by auto. rewrite Hb, Ht. apply in_budget_spec in E'.
      destruct Hok as (? & ? & ? & ?), Hok' as (? & ? & ? & ?).
      pose proof (share_mono (bytes_allowance e - extent_bytes e')
        (bytes_allowance e - extent_bytes e) (bytes_allowance e) ltac:(lia) ltac:(lia)).
      destruct (transactions_allowance e =? 0) eqn:E0; b2p; [lia|].
      pose proof (share_mono (transactions_allowance e - extent_transactions e')
        (transactions_allowance e - extent_transactions e) (transactions_allowance e)
        ltac:(lia) ltac:(lia)). lia.
    + unfold ProportionalBoost at 1. rewrite E'. simpl. lia.
  - unfold FlatBoost. destruct (in_budget e') eqn:E'; [by rewrite Hin|].
    destruct (in_budget e); unfold ALLOWANCE_PRIORITY_BOOST; lia.
  - intros E. unfold ProportionalBoost, FlatBoost. by rewrite E.
Qed.
End Priorities.

Section StorePriority.
Context `{HostLaws} `{XcmHost} `{HopHost}.
Context (auth : State -> RuntimeOrigin -> option (option AuthorizationOrigin)) (cap : gmap string bytes -> Z).

Local Instance the_config : Config := runtime_config auth cap.

(** C16: The pool order of the runtimes.  The priority a signed [store] ends up with
    is [STORE_PRIORITY] plus the flat boost of the signer's projected extent (zero on
    a preimage grant), with no saturation, so it stays strictly below cleanup calls
    and strictly above HOP promotions, boosted or not.  The proportional boost never
    exceeds the flat one, both lie between zero and [ALLOWANCE_PRIORITY_BOOST] (the
    [u128] arithmetic and the truncation to [u64] lose nothing), and neither rewards
    consumption: with the same caps, having consumed more on both axes never raises
    the boost, and out of budget it is zero. *)
Theorem store_priority_order s who data vt val o :
  (validate RuntimeLeaves (System (Signed who)) (TransactionStorage (CallStore data)) s).1
    = Ok (vt, val, o) ->
  let boost := AllowanceBasedPriority FlatBoost s o (TransactionStorage (CallStore data)) in
  let p := vt_priority (ValidTransaction_combine_with vt boost) in
  p = STORE_PRIORITY +
      (if active s (Preimage (blake2_256 data)) then 0
       else FlatBoost (post_tx_extent (as_u64 (len data)) (account_authorization_extent s who))) /\
  vt_priority (provides PromoteTxParams (blake2_256 data)) < p < CLEANUP_PRIORITY /\
  Forall (fun params => forall tag, p < vt_priority (provides params tag))
    [RemoveExpiredAccountAuthorizationTxParams; RemoveExpiredPreimageAuthorizationTxParams;
     RemoveExhaustedAuthorizerTxParams] /\
  (forall e e' : AuthorizationExtentFor, extent_ok e -> extent_ok e' ->
     bytes_allowance e' = bytes_allowance e -> transactions_allowance e' = transactions_allowance e ->
     extent_bytes e <= extent_bytes e' -> extent_transactions e <= extent_transactions e' ->
     0 <= ProportionalBoost e <= FlatBoost e /\ FlatBoost e <= ALLOWANCE_PRIORITY_BOOST /\
     ProportionalBoost e' <= ProportionalBoost e /\ FlatBoost e' <= FlatBoost e /\
     (in_budget e = false -> ProportionalBoost e = 0 /\ FlatBoost e = 0)).
Proof.
  rewrite validate_storage_eq. intros Hv boost p.
  enough (p = STORE_PRIORITY + (if active s (Preimage (blake2_256 data)) then 0
      else FlatBoost (post_tx_extent (as_u64 (len data)) (account_authorization_extent s who))) /\
    vt_priority (provides PromoteTxParams (blake2_256 data)) < p < CLEANUP_PRIORITY) as [Hp1 Hp2].
  { split; [exact Hp1|]. split; [exact Hp2|]. split; [|exact boosts_bounded_monotone].
    repeat constructor; intros tag; unfold provides; rewrite build_priority; apply Hp2. }
  revert boost p.
  assert (vt_priority vt = STORE_PRIORITY /\
    o = rewritten_origin who (charged_scope s who (blake2_256 data))) as [Hvt ->].
  { revert Hv. unfold validate_signed. unfold_M.
    rewrite (check_signed_store_eq who (CallStore data) Validate _ _ eq_refl),
      check_signed_store_validate.
    destruct (negb _); [done|]. destruct (block_transactions_full s); [done|].
    destruct (charged_scope s who (blake2_256 data)) as [[w|h]|]; [| |done];
      simpl; intros [= <- _ <-]; (split; [|done]); unfold provides;
      rewrite combine_priority, default_priority, build_priority; done. }
  unfold charged_scope in *. simpl. rewrite combine_priority, Hvt. unfold provides.
  rewrite build_priority. clear Hv Hvt.
  assert (forall e : AuthorizationExtentFor, 0 <= FlatBoost e <= ALLOWANCE_PRIORITY_BOOST) as Hb.
  { intros e. unfold FlatBoost, ALLOWANCE_PRIORITY_BOOST. destruct (in_budget e); lia. }
  assert (STORE_PRIORITY = 4611686018427387903) as -> by reflexivity.
  unfold CLEANUP_PRIORITY, sat_add, u64_max, ALLOWANCE_PRIORITY_BOOST in *. simpl.
  destruct (active s (Preimage (blake2_256 data))); simpl; [lia|].
  destruct (active s (Account who)) eqn:Ea; simpl.
  - specialize (Hb (post_tx_extent (as_u64 (len data)) (account_authorization_extent s who))). lia.
  - assert (FlatBoost (post_tx_extent (as_u64 (len data)) (account_authorization_extent s who)) = 0)
      as ->; [|lia].
    unfold account_authorization_extent, authorization_extent.
    unfold active, get_active_authorization in Ea.
    destruct (Authorizations (ts s) !! Account who) as [a|]; [|done].
    by destruct (expired a (now s)).
Qed.
End StorePriority.

Lemma store_priority_order_witness :
  exists vt val o,
    (validate RuntimeLeaves (System (Signed acc_a)) (TransactionStorage (CallStore data_a))
       (set_extrinsic 1 s_open1)).1 = Ok (vt, val, o) /\
    vt_priority (ValidTransaction_combine_with vt
      (AllowanceBasedPriority FlatBoost (set_extrinsic 1 s_open1) o
         (TransactionStorage (CallStore data_a)))) < CLEANUP_PRIORITY /\
    ProportionalBoost (mkExtent 6 10 900 PermanentExtent_default 1000) <= ProportionalBoost (mkExtent 1 10 500 PermanentExtent_default 1000).
Proof.
  destruct (pipeline_runs acc_a (TransactionStorage (CallStore data_a)) (set_extrinsic 1 s_open1)
    pipeline1) as (vt & val & o & s1 & s2 & Ev & _).
  exists vt, val, o. split; [exact (f_equal fst Ev)|].
  destruct (store_priority_order (paseo_Authorizer [1502; 5140]) (storage_u64 "MaxPermanentStorageSize" mock_cap)
    (set_extrinsic 1 s_open1) acc_a data_a vt val o (f_equal fst Ev)) as (_ & [_ Hp] & _ & Hb).
  split; [exact Hp|]. apply Hb; unfold extent_ok; simpl; lia.
Defined.

(** ** HOP promotions *)

Section Promotions.
Context `{HostLaws} `{!Config} `{!ConfigLaws} `{!ChunkCapacity} `{!HopHost}.

(** C17: A promotion is authorized exactly when every condition holds: not from
    the external pool, size in range, a free slot, a submit timestamp within the
    tolerance (in either direction), an active account authorization of the signer,
    and the signer's signature over the payload of its version (for version 2: of
    this chain's genesis and a non-empty recipients list).  It then provides the
    data hash and does not propagate.  And it lands: in any open block it dispatches
    successfully, its data is stored under its Blake2b hash and reported as promoted,
    and neither the signer's nor anybody's authorization is debited. *)
Theorem promotions_land_when_authorized source c s :
  (forall vt, authorize_hop source c s = Ok vt <->
     promotable source c s /\ vt = no_propagate (provides PromoteTxParams (blake2_256 (hop_data c)))) /\
  (forall F x, GoodAt F s -> extrinsic_index (sys s) = Some x -> promotable source c s ->
     let s' := apply_hop source c s in
     is_promoted_on_chain s' (blake2_256 (hop_data c)) = true /\
     Authorizations (ts s') = Authorizations (ts s) /\
     (exists e, BlockTransactions (ts s') = BlockTransactions (ts s) ++ [e] /\
                ti_content_hash e = blake2_256 (hop_data c) /\ ti_size e = len (hop_data c))).
Proof.
  split; [intros vt; apply authorize_hop_ok|]. intros F x G Hx Hp. unfold apply_hop.
  rewrite (proj2 (authorize_hop_ok source c s _) (conj Hp eq_refl)). pose proof Hp as (_ & Hsz & _).
  unfold dispatch. rewrite (promotable_stores source c s x Hp (bi_block s (Good_block s G)) Hx).
  simpl. split; [|split; [done|]].
  - unfold is_promoted_on_chain, contains_transaction. simpl. by rewrite lookup_insert_eq.
  - eexists. split; [done|]. simpl. pose proof MaxTransactionSize_range.
    rewrite as_u32_small by (unfold is_u32; lia). done.
Qed.

(** What a HOP user signs: a submission of either version, or a claim of data. *)
Inductive HopStatement :=
| Submit (data_hash : bytes) (submit_timestamp : Z)
| SubmitV2 (data_hash : bytes) (submit_timestamp : Z) (genesis recipients_hash : bytes)
| Claim (data_hash : bytes).

Definition statement_payload (st : HopStatement) : bytes :=
  match st with
  | Submit h t => signing_payload h t
  | SubmitV2 h t g r => signing_payload_v2 h t g r
  | Claim h => op_signing_payload HOP_CLAIM_CONTEXT h
  end.

(** The bytes that are hashed for it. *)
Definition statement_buf (st : HopStatement) : bytes :=
  match st with
  | Submit h t => payload_buf h t
  | SubmitV2 h t g r => payload_buf_v2 h t g r
  | Claim h => HOP_CLAIM_CONTEXT ++ h
  end.

(** Hashes are 32 bytes long and times are [u64]. *)
Definition statement_ok (st : HopStatement) : Prop :=
  match st with
  | Submit h t => length h = 32%nat /\ is_u64 t
  | SubmitV2 h t g _ => length h = 32%nat /\ is_u64 t /\ length g = 32%nat
  | Claim h => length h = 32%nat
  end.

(** What the pallet takes a promotion to state. *)
Definition promotion_statement (s : State) (c : HopCall) : HopStatement :=
  match c with
  | CallPromote _ _ t data => Submit (blake2_256 data) t
  | CallPromoteV2 _ _ t r data => SubmitV2 (blake2_256 data) t (genesis_hash (sys s)) r
  end.

(** Two given byte strings are a collision of the hash. *)
Definition collides (a b : bytes) : Prop := a <> b /\ blake2_256 a = blake2_256 b.

Lemma statement_payload_eq st : statement_payload st = blake2_256 (statement_buf st).
Proof. by destruct st. Qed.

(** No two statements are hashed from the same bytes. *)
Lemma statement_buf_inj st st' :
  statement_ok st -> statement_ok st' -> statement_buf st = statement_buf st' -> st = st'.
Proof.
  destruct st as [h t|h t g r|h], st' as [h' t'|h' t' g' r'|h']; simpl; intros Hs Hs' E;
    try (apply (f_equal (take 5)) in E; discriminate E).
  - destruct Hs, Hs'. apply payload_buf_inj in E as [-> ->]; [done|congruence|done..].
  - by apply payload_bufs_disjoint in E.
  - symmetry in E. by apply payload_bufs_disjoint in E.
  - destruct Hs as (? & ? & ?), Hs' as (? & ? & ?).
    apply payload_buf_v2_inj in E as (-> & -> & -> & ->); [done|congruence|congruence|done..].
  - by simplify_eq.
Qed.

Lemma payload_eq_iff st st' :
  statement_ok st -> statement_ok st' ->
  (statement_payload st = statement_payload st' <->
   st = st' \/ collides (statement_buf st) (statement_buf st')).
Proof.
  intros Hs Hs'. rewrite !statement_payload_eq. split; [|by intros [->|[_ ?]]].
  intros E. destruct (decide (statement_buf st = statement_buf st')) as [Eb|Nb]; [left|by right].
  by apply statement_buf_inj.
Qed.

Definition hop_signature (c : HopCall) : MultiSignature :=
  match c with CallPromote _ sig _ _ | CallPromoteV2 _ sig _ _ _ => sig end.

Lemma hop_signature_statement s c :
  hop_signature_ok s c = true ->
  signature_verify (hop_signature c) (statement_payload (promotion_statement s c)) (into_account (hop_signer c)) = true.
Proof. destruct c; simpl; intros Hv; by b2p. Qed.

(** C18: A promotion signature binds what it should.  Two signed statements (a submission
    of version 1 with its content and time, one of version 2 with its content, time, chain
    and recipients, a claim of content) have the same payload exactly when they are the
    same statement or the bytes hashed for the two of them, which differ, are a Blake2b
    collision.  So a signature cannot be moved to another promotion: if the signature a
    promotion carries verifies for the payload of one statement only, and the pallet
    accepts the promotion, then version, content, time, chain and recipients are those of
    the statement, or the bytes hashed for the two collide.  The submitter's tool signs the
    very payload the pallet checks. *)
Theorem promotion_payload_binds st st' :
  statement_ok st -> statement_ok st' ->
  (statement_payload st = statement_payload st' <->
   st = st' \/ collides (statement_buf st) (statement_buf st')) /\
  (forall source c s vt,
     authorize_hop source c s = Ok vt -> statement_ok (promotion_statement s c) ->
     (forall payload, signature_verify (hop_signature c) payload (into_account (hop_signer c)) = true ->
        payload = statement_payload st) ->
     promotion_statement s c = st \/ collides (statement_buf (promotion_statement s c)) (statement_buf st)) /\
  (forall data t, submit_signing_payload data t = statement_payload (Submit (blake2_256 data) t)).
Proof.
  intros Hs Hs'. split; [by apply payload_eq_iff|]. split; [|done].
  intros source c s vt [Hp _]%authorize_hop_ok Hok Hsig. apply payload_eq_iff; [done|done|].
  apply Hsig, hop_signature_statement, Hp.
Qed.
End Promotions.

Definition promote_b : HopCall :=
  CallPromote (acc_a : MultiSigner) (signing_payload hash_b 1000 ++ acc_a) 1000 data_b.

Lemma open1_good : GoodAt (frozen s_open1) (set_extrinsic 3 s_open1).
Proof.
  apply Good_set_extrinsic; [by apply is_u32b_spec|]. apply (reachable_good mock_genesis Extrinsics).
  - apply mock_genesis_ok.
  - apply reach_extrinsics1.
  - done.
Qed.

Lemma promote_b_authorized :
  is_ok (authorize_hop SourceLocal promote_b (set_extrinsic 3 s_open1)) = true.
Proof. by vm_compute. Qed.

Lemma promotions_land_when_authorized_witness :
  is_promoted_on_chain (apply_hop SourceLocal promote_b (set_extrinsic 3 s_open1))
    (blake2_256 (hop_data promote_b)) = true.
Proof.
  destruct (promotions_land_when_authorized SourceLocal promote_b (set_extrinsic 3 s_open1)) as [Ha Hl].
  assert (promotable SourceLocal promote_b (set_extrinsic 3 s_open1)) as Hp.
  { pose proof promote_b_authorized as Hok.
    destruct (authorize_hop SourceLocal promote_b (set_extrinsic 3 s_open1)) as [vt|e] eqn:E; [|discriminate Hok].
    exact (proj1 (proj1 (Ha vt) eq_refl)). }
  exact (proj1 (Hl (frozen s_open1) 3 open1_good eq_refl Hp)).
Defined.

Lemma promote_b_signed payload :
  signature_verify (hop_signature promote_b) payload (into_account (hop_signer promote_b)) = true ->
  payload = statement_payload (Submit hash_b 1000).
Proof.
  intros Hv. apply bool_decide_eq_true_1 in Hv. symmetry. exact (app_inv_tail _ _ _ Hv).
Qed.

(** Version 1 and version 2 of the same submission; and the promotion of [data_b], signed
    for its content and time. *)
Lemma promotion_payload_binds_witness :
  let st := Submit hash_b 1000 in let st' := SubmitV2 hash_b 1000 no_hash hash_b in
  (statement_payload st = statement_payload st' <-> st = st' \/ collides (statement_buf st) (statement_buf st')) /\
  (promotion_statement (set_extrinsic 3 s_open1) promote_b = st \/
   collides (statement_buf (promotion_statement (set_extrinsic 3 s_open1) promote_b)) (statement_buf st)).
Proof.
  assert (statement_ok (Submit hash_b 1000)) as Hok by (split; [reflexivity|unfold is_u64, u64_max; lia]).
  destruct (promotion_payload_binds (Submit hash_b 1000) (SubmitV2 hash_b 1000 no_hash hash_b)) as (Hb & Hp & _).
  - exact Hok.
  - split; [reflexivity|split; [unfold is_u64, u64_max; lia|reflexivity]].
  - split; [exact Hb|]. pose proof promote_b_authorized as Ha.
    destruct (authorize_hop SourceLocal promote_b (set_extrinsic 3 s_open1)) as [vt|e] eqn:E; [|discriminate Ha].
    exact (Hp SourceLocal promote_b (set_extrinsic 3 s_open1) vt E Hok promote_b_signed).
Defined.

(** ** Pool families *)

Section Families.
Context `{HostLaws}.

(** The tagged families of a runtime. *)
Definition tagged_families (C : Config) : list ValidTransactionParams :=
  [@StoreTxParams C; @RenewTxParams C; @PromoteTxParams C;
   @RemoveExpiredAccountAuthorizationTxParams C; @RemoveExpiredPreimageAuthorizationTxParams C;
   @RemoveExhaustedAuthorizerTxParams C].

(** C19: Both runtimes pass the three pallets' [integrity_test]s, and transactions
    of different families never replace one another in the pool: no tag of one
    family is a tag of another, whatever they are built from (renewals and
    promotions included, which no integrity test compares). *)
Theorem pool_families_never_collide auth cap :
  (let C := runtime_config auth cap in
   @integrity_test C && @renewal_integrity_test C && @hop_integrity_test C) = true /\
  (forall i j p q a b,
     tagged_families (runtime_config auth cap) !! i = Some p ->
     tagged_families (runtime_config auth cap) !! j = Some q -> i <> j ->
     forall t, t ∈ vt_provides (provides p a) -> t ∉ vt_provides (provides q b)).
Proof.
  split; [by vm_compute|]. intros i j p q a b Hi Hj Hne t. unfold provides.
  rewrite !build_provides, !list_elem_of_singleton. intros -> [= Heq _].
  assert (NoDup (map tag_prefix (tagged_families (runtime_config auth cap)))) as Hnd.
  { apply (bool_decide_unpack _). by vm_compute. }
  apply Hne. eapply (NoDup_lookup (map tag_prefix (tagged_families (runtime_config auth cap)))).
  - exact Hnd.
  - rewrite list_lookup_fmap, Hi. reflexivity.
  - rewrite list_lookup_fmap, Hj. simpl. by rewrite Heq.
Qed.
End Families.

Lemma pool_families_never_collide_witness :
  Forall (fun t => t ∉ vt_provides (provides runtime_PromoteTxParams hash_a))
    (vt_provides (provides runtime_RenewTxParams hash_a)).
Proof.
  apply list.Forall_forall.
  exact (proj2 (pool_families_never_collide (paseo_Authorizer [1502; 5140]) (fun _ => mock_cap)) 1%nat 2%nat
    runtime_RenewTxParams runtime_PromoteTxParams hash_a hash_a eq_refl eq_refl ltac:(discriminate)).
Defined.
