(* ===== verification/RenewalTheorems.v ===== *)
(** The properties of the renewal pallet, each with a witness on the history of
    [Mock.v]. *)

From S2P Require Import Prelude Slice Primitives Types State Authorizations Blocks Retention Checks Renewal RenewalFacts Hop Extension ExtensionFacts Chain ChainFacts Runtime Mock.

(** ** The near-cap event *)

Section NearCap.
Context `{Config}.

(** A sequence of updates of the counter. *)
Definition run_updates (fs : list (Z -> Z)) (s : State) : State :=
  foldl (fun s f => update_permanent_storage_used f s) s fs.

Definition near_cap_of (e : RuntimeEvent) : option (Z * Z) :=
  match e with RenewalEv (PermanentStorageNearCap used cap) => Some (used, cap) | _ => None end.

(** The rising edges across a threshold, along the values the counter takes. *)
Fixpoint rising_edges (threshold cap old : Z) (fs : list (Z -> Z)) : list (Z * Z) :=
  match fs with
  | [] => []
  | f :: fs' =>
      (if decide (old < threshold <= f old) then [(f old, cap)] else [])
      ++ rising_edges threshold cap (f old) fs'
  end.

(** C20: [PermanentStorageNearCap] is emitted once per crossing: along any sequence
    of updates the events are exactly the rising edges across the threshold, in
    order; and the threshold is 80% of the cap in force up to 80 bytes below, with no
    overflow. *)
Theorem near_cap_once_per_crossing fs s :
  let cap := MaxPermanentStorageSize (parameters (sys s)) in
  is_u64 cap ->
  omap near_cap_of (events (run_updates fs s)) =
    omap near_cap_of (events s) ++ rising_edges (near_cap_threshold s) cap (PermanentStorageUsed (dr s)) fs /\
  0 <= cap * 80 - near_cap_threshold s * 100 < 80 * 100.
Proof.
  intros cap Hcap. split.
  - clear Hcap. subst cap. revert s. induction fs as [|f fs IH]; intros s; simpl; [by rewrite app_nil_r|].
    rewrite IH, update_used_eq. unfold near_cap_threshold, permanent_cap. simpl.
    rewrite omap_app, <- app_assoc. f_equal. unfold used_events, near_cap_threshold, permanent_cap.
    destruct (decide _) as [Hd|Hd]; destruct (_ && _) eqn:E; b2p; simpl; try done.
    + exfalso. destruct E; b2p; lia.
    + exfalso. lia.
  - unfold near_cap_threshold, permanent_cap. fold cap. clearbody cap.
    unfold sat_mul, PERMANENT_STORAGE_NEAR_CAP_PERCENT, is_u64, u64_max in *.
    pose proof (Z.div_mod cap 100 ltac:(lia)). pose proof (Z.mod_pos_bound cap 100 ltac:(lia)). lia.
Qed.
End NearCap.

Lemma near_cap_once_per_crossing_witness :
  let fs := [Z.add 5000; Z.add 3500; Z.add 100; (fun u => u - 2000); Z.add 1500] in
  omap near_cap_of (events (run_updates fs s_genesis)) = [(8500, 10000); (8100, 10000)].
Proof.
  intros fs. rewrite (proj1 (near_cap_once_per_crossing (H := mock_config) fs s_genesis
    (storage_u64_range _ _ _ mock_cap_u64))). by vm_compute.
Defined.

(** ** The drain *)

Section Drain.
Context `{HostLaws} `{!Config} `{!ConfigLaws} `{!ChunkCapacity} `{!AuthorizerLaws} `{!HopHost} `{!RuntimeHost} `{!RuntimeLaws}.

(** The drain inherent settles every queued renewal exactly once, in queue
    order, as [DataRenewed] or [RenewalFailed] for its owner; it reports the number
    settled and leaves the queue empty, whatever the state of the grants, the caps
    and the block. *)
Lemma drain_settles s :
  PendingInv s ->
  let s' := (do_process_pending_renewals s).2 in
  (do_process_pending_renewals s).1 = len (PendingRenewals (dr s)) /\
  PendingRenewals (dr s') = [] /\
  outcomes s' = outcomes s ++ map (fun p => (item_hash p, item_owner p)) (PendingRenewals (dr s)).
Proof.
  intros P s'. split; [by rewrite (process_pending_eq s P)|].
  split; [by apply process_pending_empties|]. unfold s'. rewrite (process_pending_eq s P). simpl.
  destruct (extrinsic_index (sys s)) as [x|].
  - etransitivity; [apply outcomes_drain|done].
  - etransitivity; [apply outcomes_fail|done].
Qed.

(** A prepaid renewal is always delivered.  From any reachable chain state,
    when the next block opens and its drain inherent runs, every queued registration
    that was paid for at registration is renewed: the block holds a [Renew] entry
    with the same content hash, size and chunk root, [DataRenewed] names its owner
    and position, and the node is told to renew it.  No grant can have expired and no
    block can be too full to prevent it. *)
Lemma prepaid_delivered g s parent x p :
  genesis_ok g -> reachable g (Idle, s) -> now s + 1 <= u32_max ->
  let s1 := set_extrinsic x (on_initialize (now s + 1) (open_block parent s)) in
  p ∈ PendingRenewals (dr s1) -> paid (item_data p) = true ->
  let s2 := (do_process_pending_renewals s1).2 in
  delivered_in x p (BlockTransactions (ts s2), s2).
Proof.
  intros Hg Hr Hn s1 Hin Hp s2. destruct (reachable_idle g s Hg Hr) as (L & S & _).
  destruct (open_block_good parent s L S Hn) as ((_ & _ & P & _) & _).
  assert (PendingInv s1) as P1 by exact P. clear P.
  assert (BlockTransactions (ts s1) = []) as Hb.
  { unfold s1. simpl. rewrite on_initialize_block. destruct S as (_ & _ & E). exact E. }
  unfold s2. rewrite (process_pending_eq s1 P1). cbn [snd].
  change (extrinsic_index (sys s1)) with (Some x). cbn beta iota.
  rewrite Hb.
  apply (delivered_in_grows x p (foldl (drain_one x)
    ([], upd_PendingRenewals (fun _ => []) s1) (PendingRenewals (dr s1)))).
  - unfold with_entries. split_and!; reflexivity.
  - apply drain_delivers; [unfold len at 1; simpl; apply P1|exact Hin|exact Hp].
Qed.

(** C21: Queued renewals are settled, and prepaid ones delivered.  The drain inherent
    settles every queued renewal exactly once, in queue order, as [DataRenewed] or
    [RenewalFailed] for its owner; it reports the number settled and leaves the queue
    empty, whatever the state of the grants, the caps and the block.  And from any
    reachable chain state, when the next block opens and its drain runs, every queued
    registration that was paid for at registration is renewed: the block holds a
    [Renew] entry with the same content hash, size and chunk root, [DataRenewed] names
    its owner and position, and the node is told to renew it.  No grant can have
    expired and no block can be too full to prevent it. *)
Theorem prepaid_renewals_are_delivered :
  (forall s, PendingInv s ->
     let s' := (do_process_pending_renewals s).2 in
     (do_process_pending_renewals s).1 = len (PendingRenewals (dr s)) /\
     PendingRenewals (dr s') = [] /\
     outcomes s' = outcomes s ++ map (fun p => (item_hash p, item_owner p)) (PendingRenewals (dr s))) /\
  (forall g s parent x p,
     genesis_ok g -> reachable g (Idle, s) -> now s + 1 <= u32_max ->
     let s1 := set_extrinsic x (on_initialize (now s + 1) (open_block parent s)) in
     p ∈ PendingRenewals (dr s1) -> paid (item_data p) = true ->
     let s2 := (do_process_pending_renewals s1).2 in
     delivered_in x p (BlockTransactions (ts s2), s2)).
Proof. split; [exact drain_settles|exact prepaid_delivered]. Qed.
End Drain.

Lemma open4_pending : PendingInv s_open4.
Proof.
  apply (reachable_ledger mock_genesis Inherents s_open4 mock_genesis_ok reach_open4).
Qed.

Lemma open4_one_pending : len (PendingRenewals (dr s_open4)) = 1.
Proof. by vm_compute. Qed.

Lemma pending_paid_elem (l : list PendingItem) h :
  existsb (fun p => paid (item_data p) && bool_decide (item_hash p = h)) l = true ->
  exists p, p ∈ l /\ paid (item_data p) = true /\ item_hash p = h.
Proof.
  intros (p & Hin & Hp)%existsb_exists. b2p. exists p. split; [by apply list_elem_of_In|done].
Qed.

Lemma pending4 : exists p, p ∈ PendingRenewals (dr (set_extrinsic 1 (on_initialize (now s_closed3 + 1) (open_block no_hash s_closed3)))) /\
  paid (item_data p) = true /\ item_hash p = hash_a.
Proof. apply pending_paid_elem. vm_compute. reflexivity. Qed.

Lemma closed3_room : now s_closed3 + 1 <= u32_max.
Proof. vm_compute. discriminate. Qed.

Lemma prepaid_renewals_are_delivered_witness :
  outcomes (do_process_pending_renewals s_open4).2 = outcomes s_open4
    ++ map (fun p => (item_hash p, item_owner p)) (PendingRenewals (dr s_open4)) /\
  (do_process_pending_renewals s_open4).1 = 1 /\
  exists p, item_hash p = hash_a /\
    let s2 := (do_process_pending_renewals (set_extrinsic 1 (on_initialize (now s_closed3 + 1) (open_block no_hash s_closed3)))).2 in
    delivered_in 1 p (BlockTransactions (ts s2), s2).
Proof.
  destruct prepaid_renewals_are_delivered as [Hs Hd].
  destruct (Hs s_open4 open4_pending) as (Hn & _ & Ho). split; [exact Ho|]. split; [exact (eq_trans Hn open4_one_pending)|].
  destruct pending4 as (p & Hin & Hpaid & Hh). exists p. split; [exact Hh|].
  exact (Hd mock_genesis s_closed3 no_hash 1 p mock_genesis_ok reach_closed3 closed3_room Hin Hpaid).
Defined.

(** ** The sweep *)

Section Sweep.
Context `{HostLaws} `{!Config} `{!ConfigLaws} `{!ChunkCapacity} `{!AuthorizerLaws} `{!HopHost} `{!RuntimeHost} `{!RuntimeLaws}.

(** C22: Opening a block queues exactly the registered content that is about to be
    lost: a hash is queued for renewal if and only if it has a registration and the
    block leaving the retention window holds its latest copy.  Content that was
    stored or renewed again later is not queued, and no registration is overlooked. *)
Theorem sweep_queues_exactly_expiring_registrations g s parent h :
  genesis_ok g -> reachable g (Idle, s) -> now s + 1 <= u32_max ->
  let s1 := on_initialize (now s + 1) (open_block parent s) in
  let o := now s - RetentionPeriod (ts s) in
  (exists p, p ∈ PendingRenewals (dr s1) /\ item_hash p = h) <->
  is_Some (Renewals (dr s) !! h) /\ exists i, lookup_by_content_hash s h = Some (o, i).
Proof.
  intros Hg Hr Hn s1 o. destruct (reachable_idle g s Hg Hr) as (L & (I & W & Hb) & Hp).
  pose proof (bi_period s I) as Hper. pose proof (bi_now s I) as Hnow. unfold is_u32 in Hnow.
  assert (forall i, lookup_by_content_hash s h = Some (o, i) ->
    0 < o /\ exists txs, Transactions (ts s) !! o = Some (LayoutCurrent txs) /\
                        h ∈ map ti_content_hash txs) as Hidx.
  { intros i Hi. destruct (bi_index s I h o i Hi) as (_ & info & [(txs & Ht & Hin)|[? _]] & Hh);
      [|unfold o in *; lia].
    destruct (bi_sealed s I o _ Ht) as [? _]. split; [lia|]. exists txs. split; [done|].
    subst h. apply list_elem_of_In, in_map, list_elem_of_In. by eapply list_elem_of_lookup_2. }
  unfold s1, on_initialize, retention_period. simpl RetentionPeriod.
  set (ob := sat_sub (now s + 1) (sat_add_u32 (RetentionPeriod (ts s)) 1)).
  assert (0 < o -> ob = o) as Ho by (unfold ob, o, sat_sub, sat_add in *; lia).
  assert (0 < ob -> ob = o) as Ho' by (unfold ob, o, sat_sub, sat_add in *; lia).
  destruct (0 <? ob) eqn:Eo; b2p.
  2: { simpl. rewrite Hp. split; [intros (p & Hin & _); by apply not_elem_of_nil in Hin|].
       intros (_ & i & Hi). destruct (Hidx i Hi) as [? _]. lia. }
  rewrite (Ho' Eo). unfold Transactions_take, Transactions_get. simpl Transactions.
  destruct (Transactions (ts s) !! o) as [v|] eqn:Ev.
  2: { simpl. rewrite Hp. split; [intros (p & Hin & _); by apply not_elem_of_nil in Hin|].
       intros (_ & i & Hi). destruct (Hidx i Hi) as (_ & txs & Ht & _). congruence. }
  destruct (bi_sealed s I o v Ev) as (_ & txs & -> & _ & (_ & _ & Hlen)). simpl decode_current.
  cbn beta iota.
  set (s2 := upd_Transactions (delete o) (open_block parent s)).
  destruct (sweep_pairs o txs s2 Hlen) as [Hf Hl].
  destruct (sweep_state o txs s2) as (m & Hm & _).
  destruct (sweep o txs s2) as [pairs s3]. simpl in Hf, Hl, Hm. subst s3.
  change (handle_obsolete o pairs) with (renewal_handle_obsolete o pairs).
  rewrite handle_obsolete_queue; [|done|].
  2: { replace (len pairs) with (len txs); [done|]. rewrite <- Hf. unfold len. by rewrite length_map. }
  rewrite elem_of_queued, Hl. simpl. unfold lookup_by_content_hash. split.
  - by intros (? & _ & ?).
  - intros (? & i & Hi). split; [done|]. split; [|by exists i].
    destruct (Hidx i Hi) as (_ & txs' & Ht & Hin). by simplify_eq.
Qed.
End Sweep.

Lemma closed3_due : is_Some (Renewals (dr s_closed3) !! hash_a) /\
  exists i, lookup_by_content_hash s_closed3 hash_a =
              Some (now s_closed3 - RetentionPeriod (ts s_closed3), i).
Proof.
  split.
  - apply bool_decide_unpack with (dec := is_Some_dec _). vm_compute. exact Logic.I.
  - exists 0. vm_compute. reflexivity.
Qed.

Lemma sweep_queues_exactly_expiring_registrations_witness :
  exists p, p ∈ PendingRenewals (dr (on_initialize (now s_closed3 + 1) (open_block no_hash s_closed3)))
    /\ item_hash p = hash_a.
Proof.
  exact (proj2 (sweep_queues_exactly_expiring_registrations mock_genesis s_closed3 no_hash hash_a
    mock_genesis_ok reach_closed3 closed3_room) closed3_due).
Defined.
