(* ===== verification/LedgerTheorems.v ===== *)
(** The properties of the renewal ledger: the books balance, the extrinsics refine
    the abstract machine, and registered content is never lost. *)

From S2P Require Import Prelude Slice Primitives Types State Authorizations Blocks Retention Checks Renewal RenewalFacts Hop Extension ExtensionFacts Chain ChainFacts Ledger Runtime Mock.

Section TryState.
Context `{HostLaws} `{!Config} `{!ConfigLaws} `{!ChunkCapacity} `{!AuthorizerLaws} `{!HopHost}
  `{!RuntimeHost} `{!RuntimeLaws} `{!ContentSizes}.







End TryState.

Section Retained.
Context `{HostLaws} `{!Config} `{!ConfigLaws} `{!ChunkCapacity} `{!AuthorizerLaws} `{!HopHost}
  `{!RuntimeHost} `{!RuntimeLaws}.

(** Sizes play no part below. *)
Definition no_sizes : ContentSizes := {| content_size := fun _ => 0; content_size_nonneg := fun _ => Z.le_refl 0 |}.

(** C25: Registered content is never lost. Between any two blocks of any history,
    governance included, the content of every renewal registration is still on chain
    and resolvable: a registration ends before its content does.  The cap the runtime
    starts with is not the largest [u64]. *)
Theorem registered_content_is_retained g s h :
  genesis_ok g -> MaxPermanentStorageSize ∅ < u64_max -> reachable g (Idle, s) ->
  is_Some (Renewals (dr s) !! h) ->
  exists info, resolve_transaction_ref s (ByContentHash h) = Ok info /\ ti_content_hash info = h.
Proof.
  intros Hg Hcap Hr Hh.
  destruct (reachable_ledger_ok (H8 := no_sizes) false ltac:(done) Hcap g _ Hg Hr) as [(_ & Hb & _) _].
  destruct (reachable_idle g s Hg Hr) as (_ & (I & _ & Hbl) & Hp).
  destruct (Hb h Hh) as [[[b i] Hi]|(p & Hin & _)]; simpl in *;
    [|rewrite Hp in Hin; by apply not_elem_of_nil in Hin].
  destruct (bi_index s I h b i Hi) as (_ & info & [(txs & Ht & Hx)|[_ Hx]] & Hinfo);
    [|by rewrite Hbl in Hx].
  exists info. split; [|done]. unfold resolve_transaction_ref, transaction_info, Transactions_get.
  by rewrite Hi, Ht; simpl; rewrite Hx.
Qed.
End Retained.

(** ** The short history *)

(** The digests of [Mock.v] spell out the length. *)
#[export] Instance mock_content_sizes : ContentSizes := {|
  content_size h := le_value (take 4 h);
  content_size_nonneg h := le_value_nonneg (take 4 h) |}.



Lemma mock_cap_room : MaxPermanentStorageSize ∅ < u64_max.
Proof. by vm_compute. Qed.





Lemma registered2 : is_Some (Renewals (dr s_closed2) !! hash_a).
Proof. apply bool_decide_unpack with (dec := is_Some_dec _). vm_compute. exact Logic.I. Qed.

Lemma registered_content_is_retained_witness :
  exists info, resolve_transaction_ref s_closed2 (ByContentHash hash_a) = Ok info
    /\ ti_content_hash info = hash_a.
Proof.
  exact (registered_content_is_retained mock_genesis s_closed2 hash_a mock_genesis_ok mock_cap_room
    reach_closed2 registered2).
Defined.
