(* ===== verification/MigrationTheorems.v ===== *)
(** The properties of the storage upgrades: layouts are never mistaken for one
    another, the stepped migration ends and can be interrupted by blocks, and every
    rewrite keeps what it should. *)

From S2P Require Import Prelude Primitives Types State Authorizations Blocks Codec Weights Migrations MigrationFacts DryRuns Runtime Mock.

Section Layouts.
Context `{WeightHost} `{ScaleLaws} `{!Config} `{!ConfigLaws}.

(** C26: Stored layouts are never confused. A vector written in the current layout
    reads back as itself; one written in the layout before the v2 to v3 migration is
    never taken for the current one and reads as its conversion, entry by entry; and
    the layouts the model keeps for [Transactions] are exactly what
    [transactions_at] finds in the bytes. *)
Theorem stored_layouts_never_confused l v :
  (infos_ok l -> transactions_at_raw (Some (enc info_vec_codec l)) = Some l /\
     layout_of (enc info_vec_codec l) = LayoutCurrent l) /\
  (v2s_ok v -> transactions_at_raw (Some (enc v2_vec_codec v)) = Some (map materialize_v2 v) /\
     (v <> [] -> layout_of (enc v2_vec_codec v) = LayoutV2 v)) /\
  (forall s raws b, Transactions (ts s) = layout_of <$> raws ->
     transactions_at s b = transactions_at_raw (raws !! b)).
Proof.
  split_and!.
  - intros Hl. rewrite transactions_at_layout. by rewrite layout_of_current.
  - intros Hv. split; [by apply read_v2|by intros Hne; apply layout_of_v2].
  - intros s raws b Hs. unfold transactions_at. rewrite Hs, lookup_fmap.
    destruct (raws !! b) as [raw|]; [|done]. simpl fmap. rewrite transactions_at_layout.
    by destruct (layout_of raw).
Qed.

(** C27: The first migration loses nothing it can read. On a chain at version 0 every
    vector of the first layout is rewritten so that [transactions_at] returns the
    same entries with Blake2b-256 and the raw codec, and the v2 to v3 migration later
    turns it into the current layout with the same entries; vectors already in the
    current layout are left alone and bytes no layout reads are removed. On any other
    version nothing happens. The dry run's check passes, but it only bounds the
    number of entries from above: it would pass with every entry lost. *)
Theorem first_layout_is_carried_over s b l :
  olds_ok l -> raw_Transactions s !! b = Some (enc old_vec_codec l) ->
  let s' := MigrateV0ToV1 s in
  v1_post_upgrade (v1_pre_upgrade s) s' = true /\
  v1_post_upgrade (v1_pre_upgrade s) (set_transactions ∅ s) = true /\
  (storage_version s <> 0 -> s' = s) /\
  (storage_version s = 0 ->
    storage_version s' = 1 /\ maybe_migrate_v0_to_v1 s = s' /\
    (forall c raw, raw_Transactions s !! c = Some raw -> decodes info_vec_codec raw = true ->
       raw_Transactions s' !! c = Some raw) /\
    (forall c raw, raw_Transactions s !! c = Some raw -> decodes info_vec_codec raw = false ->
       decodes old_vec_codec raw = false -> raw_Transactions s' !! c = None) /\
    exists raw, raw_Transactions s' !! b = Some raw /\
      transactions_at_raw (Some raw) = Some (map (fun t => materialize_v2 (to_v1_info t)) l) /\
      (oldest_valid s <= b -> exists raw', v2_to_v3_entry (oldest_valid s) b raw = Ok (Some raw') /\
         decode_ok info_vec_codec raw' = Some (map (fun t => materialize_v2 (to_v1_info t)) l))).
Proof.
  intros Hl Hb s'. split; [apply v1_post_accepts|]. split; [apply v1_post_empty|].
  unfold s', MigrateV0ToV1, versioned. split.
  { intros Hv. destruct (_ =? 0) eqn:E; b2p; done. }
  intros Hv. unfold maybe_migrate_v0_to_v1. rewrite Hv. simpl.
  split_and!; [done|done|..]; [| |exists (enc v2_vec_codec (map to_v1_info l))].
  - intros c raw Hc Hd. rewrite lookup_omap, Hc. simpl. unfold v0_to_v1_entry. by rewrite Hd.
  - intros c raw Hc Hd Ho. rewrite lookup_omap, Hc. simpl. unfold v0_to_v1_entry. rewrite Hd.
    unfold decodes in Ho. by destruct (decode_ok old_vec_codec raw).
  - pose proof (read_v2 _ (map_ok _ _ _ _ to_v1_ok Hl)) as Hr. rewrite map_map in Hr.
    split_and!; [rewrite lookup_omap, Hb; exact (v0_to_v1_entry_old l Hl)|done|].
    intros Ho. destruct (v2_to_v3_entry_total (oldest_valid s) b (enc v2_vec_codec (map to_v1_info l)))
      as [[raw'|] Hx]; [by rewrite Hr|exists raw'|by apply v2_to_v3_entry_kept in Hx].
    split; [done|]. apply v2_to_v3_entry_read in Hx as [Hr' Hd]. rewrite Hr in Hr'.
    unfold transactions_at_raw in Hr'. unfold decodes in Hd.
    by destruct (decode_ok info_vec_codec raw').
Qed.
End Layouts.

Section Stepped.
Context `{StorageKeys} `{WeightLaws} `{ScaleLaws} `{!Config} `{!ConfigLaws} (required : Weight).

(** The stepped v2 to v3 migration ends. Whatever weight each block leaves for
    it, as long as one visit fits, one more step than there are entries is always
    enough; and however the visits were spread over the steps, the result is that of
    a single pass over the map: stale blocks gone, current ones untouched, earlier
    ones converted, nothing else changed and the version never lowered. The dry
    run's check accepts that result. *)
Lemma stepped_finishes s meters :
  readable s -> Forall (allows required) meters -> (size (raw_Transactions s) < length meters)%nat ->
  exists v, let s' := set_version v (set_transactions (one_pass s) s) in
    run_steps required meters None s = Some (true, s') /\ 3 <= v /\
    v3_post_upgrade (v3_pre_upgrade s) s' = true.
Proof.
  intros Hr Ha Hl. destruct (run_steps_finish required s meters None s Hr) as (v & m & Hrun & Hv & Hp).
  - split; [exists (storage_version s), (raw_Transactions s); split; [by destruct s|done]|done].
  - done.
  - eapply Nat.le_lt_trans; [apply todo_le|exact Hl].
  - exists v. rewrite Hrun. split; [|split; [done|by apply v3_post_accepts]]. do 4 f_equal. apply map_eq. intros b.
    specialize (Hp b). unfold processed in Hp. unfold one_pass. rewrite map_lookup_imap.
    destruct (raw_Transactions s !! b); simpl in *; [by rewrite Hp|done].
Qed.

(** The stepped migration can be interrupted anywhere. Between its steps blocks
    go on being produced, swept and sealed; still no step fails, every block inside
    the retention window reads through [transactions_at] as it did when the migration
    started, so proofs keep verifying, and when the last step returns every entry is
    in the current layout and the version is bumped. *)
Lemma stepped_survives_blocks s0 cursor s meter :
  readable s0 -> migration_run required s0 cursor s -> allows required meter ->
  exists r meter' s', step required cursor meter s = Some (Ok r, meter', s') /\
    (forall b raw, oldest_valid s' <= b -> raw_Transactions s0 !! b = Some raw ->
       transactions_at_raw (raw_Transactions s' !! b) = transactions_at_raw (Some raw)) /\
    (r = None -> 3 <= storage_version s' /\
       map_Forall (fun _ raw => decodes info_vec_codec raw = true) (raw_Transactions s')).
Proof.
  intros H0' Hrun Ha. destruct (run_inv required s0 cursor s H0' Hrun) as (Hr & Hm & Hk).
  destruct (step_spec required cursor meter s Ha) as (r & meter' & s' & Hs & Hp & _).
  destruct (readable_ok _ _ _ _ Hr Hp) as [o ->]. exists o, meter', s'. split_and!; [done|..].
  - intros b raw Hb Hraw. destruct (transitivity Hk (step_reads_kept _ _ _ _ Hp)) as [_ Hreads].
    by destruct (Hreads b raw Hb Hraw) as (raw' & -> & ->).
  - intros ->. split; [apply Hp|]. intros b raw Hraw.
    by eapply (step_migrated _ _ _ _ Hm Hp b raw Hraw).
Qed.

(** C28: The stepped v2 to v3 migration ends, and can be interrupted anywhere. It starts
    from a map whose entries are all readable in one of the layouts. Whatever weight each block leaves for it, as long as one visit fits, one more step than
    there are entries is always enough; and however the visits were spread over the
    steps, the result is that of a single pass over the map: stale blocks gone, current
    ones untouched, earlier ones converted, nothing else changed and the version never
    lowered. The dry run's check accepts that result. Between its steps blocks go on
    being produced, swept and sealed; still no step fails, every block inside the
    retention window reads through [transactions_at] as it did when the migration
    started, so proofs keep verifying, and when the last step returns every entry is
    in the current layout and the version is bumped. *)
Theorem stepped_migration_finishes s0 :
  readable s0 ->
  (forall meters, Forall (allows required) meters -> (size (raw_Transactions s0) < length meters)%nat ->
     exists v, let s' := set_version v (set_transactions (one_pass s0) s0) in
       run_steps required meters None s0 = Some (true, s') /\ 3 <= v /\
       v3_post_upgrade (v3_pre_upgrade s0) s' = true) /\
  (forall cursor s meter, migration_run required s0 cursor s -> allows required meter ->
     exists r meter' s', step required cursor meter s = Some (Ok r, meter', s') /\
       (forall b raw, oldest_valid s' <= b -> raw_Transactions s0 !! b = Some raw ->
          transactions_at_raw (raw_Transactions s' !! b) = transactions_at_raw (Some raw)) /\
       (r = None -> 3 <= storage_version s' /\
          map_Forall (fun _ raw => decodes info_vec_codec raw = true) (raw_Transactions s'))).
Proof.
  intros Hr. split; [by intros meters; apply stepped_finishes|].
  intros cursor s meter. by apply stepped_survives_blocks.
Qed.
End Stepped.

Section Others.
Context `{ScaleLaws} `{!Config} `{!ConfigLaws}.

(** C29: The split of the renewal pallet keeps every registration. Under each content
    hash a registration in the current layout is moved as it is and a bare account
    becomes a recurring registration still to be paid for; bytes too short to be
    either stay where they were, and registrations already under the new prefix are
    kept where the old one has nothing; the queue and the counter move verbatim.
    Nothing else is touched and a second run changes nothing. The dry run's check
    accepts the result exactly when every old entry can be read, no content hash is
    registered on both sides, the new side reads already, and its queue is empty
    unless the old one replaces it. *)
Theorem relocation_keeps_registrations s h :
  let s' := RelocateFromTransactionStorage s in
  (forall d, length (rd_account d) = 32%nat ->
     old_AutoRenewals s !! h = Some (enc renewal_data_codec d) ->
     old_AutoRenewals s' !! h = None /\ raw_Renewals s' !! h ≫= decode_ok renewal_data_codec = Some d) /\
  (forall who, length who = 32%nat -> old_AutoRenewals s !! h = Some who ->
     old_AutoRenewals s' !! h = None /\
     raw_Renewals s' !! h ≫= decode_ok renewal_data_codec = Some (mkRenewalData who true false)) /\
  (forall raw, old_AutoRenewals s' !! h = Some raw <->
     old_AutoRenewals s !! h = Some raw /\ (length raw < 32)%nat) /\
  (old_AutoRenewals s !! h = None -> raw_Renewals s' !! h = raw_Renewals s !! h) /\
  (forall raw, old_PendingAutoRenewals s = Some raw -> raw_PendingRenewals s' = Some raw) /\
  (forall raw, old_PermanentStorageUsed s = Some raw -> raw_PermanentStorageUsed s' = Some raw) /\
  old_PendingAutoRenewals s' = None /\ old_PermanentStorageUsed s' = None /\
  storage_version s' = storage_version s /\ raw_Transactions s' = raw_Transactions s /\
  raw_Authorizations s' = raw_Authorizations s /\ raw_AllowedAuthorizers s' = raw_AllowedAuthorizers s /\
  RelocateFromTransactionStorage s' = s' /\
  (forall pre, relocate_pre_upgrade s = Some pre ->
     Z.of_nat (size (old_AutoRenewals s)) + Z.of_nat (size (raw_Renewals s)) <= u64_max ->
     relocate_post_upgrade pre s' = true <->
     map_Forall (fun _ raw => (32 <= length raw)%nat) (old_AutoRenewals s) /\
     old_AutoRenewals s ##ₘ raw_Renewals s /\
     map_Forall (fun _ raw => decodes renewal_data_codec raw = true) (raw_Renewals s) /\
     (old_PendingAutoRenewals s = None -> raw_PendingRenewals s = None)).
Proof.
  cbv zeta. destruct (relocate_frame s) as (o & n & E). cbv zeta in E.
  split_and!; [..|apply relocate_idempotent|intros pre; apply relocate_post_iff]; try (rewrite E; done).
  - intros d Hd Ho. destruct (relocate_moved s h _ _ Ho (relocated_current d Hd)) as [-> ->].
    split; [done|]. by apply (decode_ok_enc _ _ _ renewal_data_round).
  - intros who Hw Ho. destruct (relocate_moved s h _ _ Ho (relocated_account who Hw)) as [-> ->].
    split; [done|]. by apply (decode_ok_enc _ _ (mkRenewalData who true false) renewal_data_round).
  - intros raw. destruct (old_AutoRenewals s !! h ≫= relocated_value) as [v|] eqn:Ev.
    + destruct (old_AutoRenewals s !! h) as [raw0|] eqn:Ho; [|done].
      destruct (relocate_moved s h raw0 v Ho Ev) as [-> _]. split; [done|].
      intros [[= ->] Hlt%relocated_none]. cbn in Ev. congruence.
    + destruct (relocate_left s h Ev) as [-> _]. split; [|by intros [-> _]].
      intros Hr. split; [done|]. rewrite Hr in Ev. by apply relocated_none.
  - intros Ho. apply relocate_left. by rewrite Ho.
  - intros raw Hp. rewrite E. simpl. by rewrite Hp.
  - intros raw Hp. rewrite E. simpl. by rewrite Hp.
  - rewrite E. simpl. by destruct (old_PendingAutoRenewals s).
  - rewrite E. simpl. by destruct (old_PermanentStorageUsed s).
Qed.

(** C30: The upgrades of the Westend runtime, run in its order. From version 1 the
    first upgrade reaches version 2 only (the gates of the later migrations are
    closed until the stepped one has set version 3): live grants keep what remained
    of their quota as a fresh allowance with the same expiry, empty or expired ones
    are dropped, and authorizers are not touched. From version 3 the next upgrade
    reaches version 5: every budget keeps its quota and deadline, becomes feeless and
    gains one provider reference, and the dry run's check accepts. At version 5 an
    upgrade changes none of these, and after any upgrade the retention period is set. *)
Theorem westend_upgrades_in_order s :
  let s' := westend_SingleBlockMigrations s in
  st_retention_period s' <> 0 /\ retention_post_upgrade s' = true /\
  (storage_version s = 1 ->
    storage_version s' = 2 /\ raw_Transactions s' = raw_Transactions s /\
    raw_AllowedAuthorizers s' = raw_AllowedAuthorizers s /\
    st_provider_calls s' = st_provider_calls s /\
    forall scope a, v1_authorization_ok a ->
      raw_Authorizations s !! scope = Some (enc v1_authorization_codec a) ->
      raw_Authorizations s' !! scope ≫= decode_ok authorization_codec =
        if (v1_bytes a =? 0) || v1_expired a (st_now s) then None
        else Some (mkAuthorization (mkExtent 0 (v1_transactions a) 0 PermanentExtent_default (v1_bytes a))
          (v1_expiration a))) /\
  (storage_version s = 3 ->
    storage_version s' = 5 /\ raw_Transactions s' = raw_Transactions s /\
    raw_Authorizations s' = raw_Authorizations s /\
    (map_Forall (fun _ raw => exists b, v4_budget_ok b /\ raw = enc v4_budget_codec b) (raw_AllowedAuthorizers s) ->
       v5_post_upgrade (v5_pre_upgrade s) s' = true) /\
    forall who b, v4_budget_ok b -> raw_AllowedAuthorizers s !! who = Some (enc v4_budget_codec b) ->
      raw_AllowedAuthorizers s' !! who ≫= decode_ok budget_codec
        = Some (mkBudget (v4_quota b) (v4_valid_until b) true) /\
      provider_balance (st_provider_calls s') who = provider_balance (st_provider_calls s) who + 1) /\
  (storage_version s = 5 ->
    storage_version s' = 5 /\ raw_Transactions s' = raw_Transactions s /\
    raw_Authorizations s' = raw_Authorizations s /\
    raw_AllowedAuthorizers s' = raw_AllowedAuthorizers s /\ westend_SingleBlockMigrations s' = s').
Proof.
  cbv zeta. unfold westend_SingleBlockMigrations.
  split; [apply after_versioned|].
  split; [apply negb_true_iff, Z.eqb_neq, after_versioned|]. split; [|split].
  - intros Hv. unfold MigrateV0ToV1, MigrateV1ToV2, MigrateV3ToV4, MigrateV4ToV5.
    rewrite (versioned_skip 0) by lia. rewrite (versioned_run 1) by done.
    rewrite (versioned_skip 3), (versioned_skip 4) by done.
    set (t := set_version 2 (VersionUncheckedMigrateV1ToV2 s)).
    destruct (after_versioned t) as (-> & -> & -> & -> & -> & _). split_and!; try done.
    intros scope a Ha Hs. unfold t. simpl raw_Authorizations.
    rewrite (translate_decodes _ _ v1_authorization_ok authorization_ok _ _ scope a _ _ Ha); [done| |done].
    unfold v1_to_v2_authorization, v1_authorization_ok in *. intros b. destruct (_ || _); [done|].
    intros [= <-]. unfold authorization_ok, is_u32, is_u64. simpl. unfold u32_max, u64_max. unfold is_u32, is_u64, u32_max, u64_max in Ha. lia.
  - intros Hv. unfold MigrateV0ToV1, MigrateV1ToV2, MigrateV3ToV4, MigrateV4ToV5.
    rewrite (versioned_skip 0), (versioned_skip 1), (versioned_run 3), (versioned_run 4) by (done || lia).
    set (t := set_version 5 _).
    pose proof (v5_post_accepts s (SetRetentionPeriodIfZero DEFAULT_RETENTION_PERIOD
      (RelocateFromTransactionStorage t))) as Hdry.
    destruct (after_versioned t) as (-> & -> & -> & Ea & -> & _). rewrite Ea in Hdry |- *.
    split_and!; try done; [by apply Hdry|].
    intros who b Hb Hw. unfold t. simpl raw_AllowedAuthorizers. simpl st_provider_calls. split.
    + erewrite (translate_decodes _ _ v4_budget_ok budget_ok _ _ who b _ _ Hb); [done| |done].
      intros b' [= <-]. unfold budget_ok, v4_budget_ok in *. simpl. tauto.
    + rewrite provider_balance_app. f_equal. by eapply v4_authorizers_providers.
  - intros Hv. unfold MigrateV0ToV1, MigrateV1ToV2, MigrateV3ToV4, MigrateV4ToV5.
    rewrite !(versioned_skip _ _ _ s) by lia.
    destruct (after_versioned s) as (E1 & E2 & E3 & E4 & E5 & _).
    split_and!; try (congruence || done).
    rewrite !(versioned_skip _ _ _ (SetRetentionPeriodIfZero _ _)) by lia.
    by apply after_versioned_twice.
Qed.
End Others.

(** ** A concrete store *)

(** Fixed-width little-endian integers; the length prefix is kept at four bytes. *)
Definition le_codec (n : nat) : Codec Z := {|
  enc := le_bytes n;
  dec raw := if (n <=? length raw)%nat then Some (le_value (take n raw), drop n raw) else None |}.

#[export] Instance mock_scale : ScaleHost := {|
  u32_codec := le_codec 4; u64_codec := le_codec 8; compact_codec := le_codec 4 |}.

Lemma le_codec_round n : RoundTrip (le_codec n) (fun x => 0 <= x < 256 ^ Z.of_nat n).
Proof.
  intros x rest Hx. cbn [dec enc le_codec]. rewrite length_app, length_le_bytes.
  rewrite (proj2 (Nat.leb_le _ _)) by lia. rewrite <-(length_le_bytes n x) at 1 3.
  rewrite take_app_length, drop_app_length, le_value_bytes. by rewrite Z.mod_small.
Qed.

Lemma le_codec_size n : FixedSize (le_codec n) (fun x => 0 <= x < 256 ^ Z.of_nat n) n.
Proof.
  constructor; [intros; apply length_le_bytes|]. intros raw x rest. cbn [dec le_codec].
  destruct (n <=? length raw)%nat eqn:E; [|done]. apply Nat.leb_le in E. intros [= _ <-].
  rewrite length_drop. lia.
Qed.

Lemma le_codec_range n : InRange (le_codec n) (fun x => 0 <= x < 256 ^ Z.of_nat n).
Proof.
  intros raw x rest. cbn [dec le_codec]. destruct (n <=? length raw)%nat eqn:E; [|done].
  apply Nat.leb_le in E. intros [= <- _]. split; [apply le_value_nonneg|].
  pose proof (le_value_bound (take n raw)) as Hb. rewrite length_take, Nat.min_l in Hb by lia. done.
Qed.

#[export] Instance mock_scale_laws : ScaleLaws.
Proof.
  constructor.
  - intros x rest Hx. apply le_codec_round. unfold is_u32, u32_max in Hx. lia.
  - destruct (le_codec_size 4) as [He Hd]. constructor; [|exact Hd]. intros x Hx. apply He.
    unfold is_u32, u32_max in Hx. lia.
  - intros x rest Hx. apply le_codec_round. unfold is_u64, u64_max in Hx. lia.
  - destruct (le_codec_size 8) as [He Hd]. constructor; [|exact Hd]. intros x Hx. apply He.
    unfold is_u64, u64_max in Hx. lia.
  - intros raw x rest Hx. apply le_codec_range in Hx. unfold is_u32, u32_max. lia.
  - intros raw x rest Hx. apply le_codec_range in Hx. unfold is_u64, u64_max. lia.
  - intros x rest Hx. apply le_codec_round. unfold is_u32, u32_max in Hx. lia.
Qed.

(** Keys listed in descending block order. *)
#[export] Instance mock_keys : StorageKeys.
Proof. refine {| key_pos := Z.opp |}. intros x y. lia. Defined.

Definition unit_weight : Weight := from_parts 1 1.

(** A block with room for one visit. *)
Definition unit_meter : WeightMeter := (from_parts 0 0, unit_weight).

Definition old_entry : OldTransactionInfo := mkOldInfo no_hash hash_a 2000 8.
Definition v2_entry : V2TransactionInfo := to_v1_info old_entry.
Definition new_entry : TransactionInfoFor := materialize_v2 v2_entry.

(** Block 10 has left the window, block 25 is in the earlier layout, block 30 in the
    current one. *)
Definition mock_stored (version : Z) : Stored :=
  mkStored version 50 30
    (<[10 := enc v2_vec_codec [v2_entry]]> (<[25 := enc v2_vec_codec [v2_entry]]>
      {[30 := enc info_vec_codec [new_entry; new_entry]]}))
    None
    (<[Account acc_a := enc v1_authorization_codec (mkV1Authorization 3 1000 90)]> ∅)
    (<[acc_b := enc v4_budget_codec (mkV4Budget (Some (mkQuota 5 5000)) (Some 100) None)]> ∅)
    (<[hash_a := acc_a]> ∅) None (Some (u64_to_le_bytes 7)) ∅ None None [].

Lemma old_entry_ok : olds_ok [old_entry].
Proof.
  split; [by vm_compute|]. apply Forall_singleton. unfold old_info_ok, is_u32. split_and!; by vm_compute.
Qed.

Lemma mock_readable version : readable (mock_stored version).
Proof.
  assert (map_Forall (fun _ raw => transactions_at_raw (Some raw) <> None)
    (raw_Transactions (mock_stored version))) as Hm.
  { repeat apply map_Forall_insert_2; [..|apply map_Forall_empty];
      intros H; vm_compute in H; discriminate H. }
  intros b raw Hb. apply not_eq_None_Some, (Hm b raw Hb).
Qed.

Lemma v2_entry_ok : v2s_ok [v2_entry].
Proof. apply (map_ok to_v1_info _ _ [old_entry] to_v1_ok old_entry_ok). Qed.

Lemma new_entry_ok : infos_ok [new_entry; new_entry].
Proof.
  split; [by vm_compute|]. pose proof (map_ok _ _ _ _ materialize_ok v2_entry_ok) as [_ Hm].
  apply Forall_singleton in Hm. by repeat constructor.
Qed.

Lemma stored_layouts_never_confused_witness :
  transactions_at_raw (Some (enc info_vec_codec [new_entry; new_entry])) = Some [new_entry; new_entry] /\
  layout_of (enc v2_vec_codec [v2_entry]) = LayoutV2 [v2_entry].
Proof.
  pose proof (stored_layouts_never_confused [new_entry; new_entry] [v2_entry]) as [H1 [H2 _]].
  split; [apply H1, new_entry_ok|]. apply (proj2 (H2 v2_entry_ok)). done.
Defined.

(** A chain at version 0 with one block in the first layout. *)
Definition mock_stored0 : Stored :=
  set_transactions {[25 := enc old_vec_codec [old_entry]]} (mock_stored 0).

Lemma mock_stored0_at_25 : raw_Transactions mock_stored0 !! 25 = Some (enc old_vec_codec [old_entry]).
Proof. by vm_compute. Qed.

Lemma first_layout_is_carried_over_witness :
  exists raw, raw_Transactions (MigrateV0ToV1 mock_stored0) !! 25 = Some raw /\
    transactions_at_raw (Some raw) = Some [new_entry].
Proof.
  destruct (proj2 (proj2 (proj2 (first_layout_is_carried_over mock_stored0 25 [old_entry] old_entry_ok
    mock_stored0_at_25))) eq_refl) as (_ & _ & _ & _ & raw & Hr & Ht & _).
  exists raw. split; [exact Hr|exact Ht].
Defined.

Lemma unit_meter_allows : allows unit_weight unit_meter.
Proof. by vm_compute. Qed.

Lemma unit_meters_allow n : Forall (allows unit_weight) (replicate n unit_meter).
Proof. induction n; constructor; [apply unit_meter_allows|done]. Qed.

Lemma mock_stored_size : (size (raw_Transactions (mock_stored 2)) < length (replicate 4 unit_meter))%nat.
Proof. vm_compute. lia. Qed.

(** One step, then a block that removes the stale entry and seals block 51. *)
Definition mock_after_block : Stored :=
  mkStored 2 51 30
    (<[51 := enc info_vec_codec [new_entry; new_entry]]> (delete 10 (raw_Transactions (mock_stored 2))))
    None (raw_Authorizations (mock_stored 2)) (raw_AllowedAuthorizers (mock_stored 2))
    (old_AutoRenewals (mock_stored 2)) None (old_PermanentStorageUsed (mock_stored 2)) ∅ None None [].

Lemma mock_block_between : block_between (mock_stored 2) mock_after_block.
Proof.
  split; [by vm_compute|]. split; [done|]. split; [done|]. intros b. cbn [raw_Transactions mock_after_block].
  destruct (decide (b = 51)) as [->|H1].
  - right. right. split; [by vm_compute|]. exists [new_entry; new_entry].
    split; [apply new_entry_ok|]. by rewrite lookup_insert_eq.
  - rewrite lookup_insert_ne by done. destruct (decide (b = 10)) as [->|H2].
    + right. left. split; [by vm_compute|]. by rewrite lookup_delete_eq.
    + left. by rewrite lookup_delete_ne.
Qed.

Lemma first_step : exists meter' s',
  step unit_weight None unit_meter (mock_stored 2) = Some (Ok (Some 30), meter', s') /\ s' = mock_stored 2.
Proof. eexists _, _. split; vm_compute; reflexivity. Qed.

Lemma mock_run : migration_run unit_weight (mock_stored 2) (Some 30) mock_after_block.
Proof.
  destruct first_step as (meter' & s' & Hs & ->).
  eapply run_block; [|apply mock_block_between].
  eapply run_step; [apply run_start|apply unit_meter_allows|exact Hs].
Qed.

Lemma stepped_migration_finishes_witness :
  (exists v, let s' := set_version v (set_transactions (one_pass (mock_stored 2)) (mock_stored 2)) in
    run_steps unit_weight (replicate 4 unit_meter) None (mock_stored 2) = Some (true, s') /\ 3 <= v /\
    v3_post_upgrade (v3_pre_upgrade (mock_stored 2)) s' = true) /\
  exists r meter' s', step unit_weight (Some 30) unit_meter mock_after_block = Some (Ok r, meter', s').
Proof.
  destruct (stepped_migration_finishes unit_weight (mock_stored 2) (mock_readable 2)) as [Hf Hs].
  split; [exact (Hf (replicate 4 unit_meter) (unit_meters_allow 4) mock_stored_size)|].
  destruct (Hs (Some 30) mock_after_block unit_meter mock_run unit_meter_allows) as (r & meter' & s' & He & _).
  exists r, meter', s'. exact He.
Defined.

Lemma relocation_keeps_registrations_witness :
  raw_Renewals (RelocateFromTransactionStorage (mock_stored 2)) !! hash_a ≫= decode_ok renewal_data_codec
    = Some (mkRenewalData acc_a true false).
Proof.
  destruct (relocation_keeps_registrations (mock_stored 2) hash_a) as (_ & H & _).
  apply (H acc_a); by vm_compute.
Defined.

Lemma westend_upgrades_in_order_witness :
  raw_Authorizations (westend_SingleBlockMigrations (mock_stored 1)) !! Account acc_a
    ≫= decode_ok authorization_codec
    = Some (mkAuthorization (mkExtent 0 3 0 PermanentExtent_default 1000) 90) /\
  provider_balance (st_provider_calls (westend_SingleBlockMigrations (mock_stored 3))) acc_b = 1.
Proof.
  split.
  - destruct (westend_upgrades_in_order (mock_stored 1)) as (_ & _ & H & _).
    destruct (H eq_refl) as (_ & _ & _ & _ & Ha).
    apply (Ha (Account acc_a) (mkV1Authorization 3 1000 90)); [split_and!; by vm_compute|by vm_compute].
  - destruct (westend_upgrades_in_order (mock_stored 3)) as (_ & _ & _ & H & _).
    destruct (H eq_refl) as (_ & _ & _ & _ & Ha).
    apply (Ha acc_b (mkV4Budget (Some (mkQuota 5 5000)) (Some 100) None)); [split_and!; by vm_compute|by vm_compute].
Defined.

(** Entries already at version 1 are not recognised by a second run of the first
    migration: the shorter decoder accepts them and they are rewritten with sizes
    read from other fields.  Only the version gate prevents it. *)
Lemma v0_to_v1_rewrites_v1_entries :
  let raw := enc v2_vec_codec [v2_entry] in
  v0_to_v1_entry raw <> Some raw /\
  (v0_to_v1_entry raw ≫= decode_ok v2_vec_codec) = Some [mkV2Info no_hash hash_a Blake2b256 RAW_CODEC 21760 0].
Proof. split; [intros H; vm_compute in H; discriminate H|vm_compute; reflexivity]. Qed.

(** A budget of version 4 read at the current type, before it is translated: the
    removed field is taken for the deadline. *)
Lemma untranslated_budget_is_misread :
  decode_ok budget_codec (enc v4_budget_codec (mkV4Budget None (Some 100) (Some 200)))
    = Some (mkBudget None (Some 100) true).
Proof. by vm_compute. Qed.
