(* ===== verification/SdkTheorems.v ===== *)
(** The properties of the Rust SDK: a chunked upload is the file, its manifest
    describes it, the estimates, what a confirmation means, and how the client's
    requests meet the chain. *)

From S2P Require Import Prelude Slice Primitives Types State Authorizations Blocks Retention Checks Renewal RenewalFacts Hop Extension ExtensionFacts Chain ChainFacts Codec Migrations MigrationFacts Sdk SdkFacts SdkClient Runtime Mock MigrationTheorems.

(** ** Uploads *)

(** The refusals of a chunked upload, in order. *)
Definition upload_error (c : ChunkerConfig) (size : Z) : option SdkError :=
  if size =? 0 then Some EmptyData
  else if chunk_size c =? 0 then Some InvalidChunkSize
  else if MAX_CHUNK_SIZE <? chunk_size c then Some (ChunkTooLarge (chunk_size c))
  else if MAX_FILE_SIZE <? size then Some (FileTooLarge size)
  else if create_manifest c && (MAX_MANIFEST_CHUNKS <? div_ceil size (chunk_size c))
  then Some DagEncodingFailed
  else None.

(** The configuration an upload runs with. *)
Definition upload_config (client : ClientConfig) (config : option ChunkerConfig) : ChunkerConfig :=
  default (mkChunkerConfig (default_chunk_size client) (cl_max_parallel client)
    (cl_create_manifest client)) config.

Section Uploads.
Context `{HostLaws} `{!CidLayout}.

(** What an upload prepares. *)
Definition upload_pieces (c : ChunkerConfig) (data : bytes) : list bytes :=
  chunks (Z.to_nat (chunk_size c)) data.

Lemma pieces_ok c data : config_ok c -> Forall size_ok (upload_pieces c data).
Proof.
  unfold config_ok, upload_pieces. intros Hc.
  pose proof (chunks_bounds (Z.to_nat (chunk_size c)) data ltac:(lia)) as Hb.
  eapply Forall_impl; [exact Hb|]. unfold size_ok. intros d Hd. simpl. lia.
Qed.

Lemma prepare_store_chunked_spec client data config options cb :
  let c := upload_config client config in
  0 <= chunk_size c ->
  prepare_store_chunked client data config options cb =
    match upload_error c (len data) with
    | Some e => Err e
    | None =>
        let pieces := upload_pieces c data in
        let started := if cb then [ChunkStarted 0 (as_u32 (len pieces))] else [] in
        let batch := mkBatch (map (operation options) pieces) (wait_for options) in
        if create_manifest c then
          let m := manifest_bytes (hash_algorithm options) pieces in
          Ok (batch, Some m, started ++ if cb then
            [ManifestStarted; ManifestCreated (cid_bytes_of DagPb (hash_algorithm options) m)] else [])
        else Ok (batch, None, started)
    end.
Proof.
  intros c Hc. unfold prepare_store_chunked, upload_error. fold (upload_config client config). fold c.
  destruct (len data =? 0) eqn:E0; [done|]. unfold FixedSizeChunker_new. change (as_u32 MAX_CHUNK_SIZE) with MAX_CHUNK_SIZE.
  destruct (chunk_size c =? 0) eqn:E1; [done|].
  destruct (MAX_CHUNK_SIZE <? chunk_size c) eqn:E2; [done|]. cbn [bind_ok]. b2p.
  assert (config_ok c) as Hok by (unfold config_ok; lia).
  destruct (chunker_chunk c data) as [cs|e] eqn:Ec.
  - destruct (chunker_chunk_spec c Hok data cs Ec) as (Hd & Hp & Hl & Hn & _).
    rewrite (proj2 (Z.ltb_ge _ _)) by lia. cbn [bind_ok]. fold (upload_pieces c data) in Hp.
    assert (len cs = len (upload_pieces c data)) as Hlen by (rewrite <-Hp; unfold len; by rewrite length_map).
    rewrite <-Hlen, <-Hl. destruct (create_manifest c); cbn [andb].
    + destruct (MAX_MANIFEST_CHUNKS <? len cs) eqn:E3; b2p; [by rewrite dag_build_err|].
      rewrite dag_build_ok by lia. cbn [bind_ok root_cid dag_bytes]. rewrite Hp.
      destruct cb; rewrite ?to_bytes_of; cbn [bind_ok ok_or];
        rewrite Batch_from_chunks_ok by (by apply pieces_ok); done.
    + cbn [bind_ok]. by rewrite Hp, Batch_from_chunks_ok by (by apply pieces_ok).
  - cbn [bind_ok]. unfold chunker_chunk in Ec. rewrite (proj2 (Z.eqb_neq _ _)) in Ec by done.
    destruct (MAX_FILE_SIZE <? len data); [by simplify_eq|done].
Qed.

(** C31: A chunked upload is the file. [prepare_store_chunked] refuses exactly the
    empty file, an invalid chunk size, a file over 64 MiB and, when a manifest is
    asked for, more than a million chunks, each with its own error; otherwise the
    operations hold the file's bytes in order, in pieces both runtimes accept, and
    the manifest, read as DAG-PB, is a UnixFS file of the right size whose links are,
    in order, the sizes of the pieces and, under the default codec, the CIDs of the
    operations. *)
Theorem chunked_upload_is_the_file client data config options cb auth cap :
  let c := upload_config client config in
  0 <= chunk_size c ->
  match prepare_store_chunked client data config options cb with
  | Err e => upload_error c (len data) = Some e
  | Ok (prepared, manifest, _) =>
      upload_error c (len data) = None /\
      concat (map op_data (operations prepared)) = data /\
      batch_len prepared = div_ceil (len data) (chunk_size c) /\
      Forall (fun op => @data_size_ok (runtime_config auth cap) (len (op_data op)) = true) (operations prepared) /\
      match manifest with
      | None => create_manifest c = false
      | Some m => create_manifest c = true /\ exists view, read_manifest m = Some view /\
          fv_type view = Some 2 /\ fv_filesize view = Some (len data) /\
          fv_blocksizes view = map (fun op => len (op_data op)) (operations prepared) /\
          map snd (fv_links view) = fv_blocksizes view /\
          (cid_codec options = Raw ->
            Forall2 (fun op link => bind_ok (op_calculate_cid op) cid_to_bytes = Ok link.1)
              (operations prepared) (fv_links view))
      end
  end.
Proof.
  intros c Hc. rewrite (prepare_store_chunked_spec client data config options cb Hc). fold c.
  destruct (upload_error c (len data)) as [e|] eqn:Eu; [done|]. cbv zeta.
  unfold upload_error in Eu. destruct (len data =? 0) eqn:E0; [done|].
  destruct (chunk_size c =? 0) eqn:E1; [done|]. destruct (MAX_CHUNK_SIZE <? _) eqn:E2; [done|].
  destruct (MAX_FILE_SIZE <? _) eqn:E3; [done|]. b2p.
  assert (config_ok c) as Hok by (unfold config_ok; lia). pose proof (pieces_ok c data Hok) as Hp.
  unfold config_ok in Hok. assert (0 < Z.to_nat (chunk_size c))%nat as Hz by lia.
  set (pieces := upload_pieces c data) in *.
  assert (map op_data (map (operation options) pieces) = pieces) as Hops
    by (rewrite map_map; apply map_id).
  assert (concat pieces = data) as Hcat by (by apply concat_chunks).
  assert (len pieces = div_ceil (len data) (chunk_size c)) as Hn
    by (unfold pieces, upload_pieces; rewrite len_chunks, Z2Nat.id by lia; done).
  assert (len (map (operation options) pieces) = len pieces) as Hlen by (unfold len; by rewrite length_map).
  assert (Forall (fun op => @data_size_ok (runtime_config auth cap) (len (op_data op)) = true)
    (map (operation options) pieces)) as Hsize.
  { apply Forall_map. eapply Forall_impl; [exact Hp|]. intros d [H1' H2']. simpl. unfold data_size_ok.
    apply andb_true_iff. split; [by apply Z.ltb_lt|]. apply Z.leb_le. exact H2'. }
  assert (concat (map op_data (map (operation options) pieces)) = data) as Hdata by (by rewrite Hops).
  rewrite <-Hlen in Hn.
  destruct (create_manifest c); cbn [andb] in Eu; [|by split_and!].
  do 5 (split; [done|]). destruct (MAX_MANIFEST_CHUNKS <? _) eqn:E4; [done|b2p].
  assert (pieces <> []) as Hne by (intros E; rewrite E in Hcat; simpl in Hcat; subst data; done).
  rewrite (read_manifest_bytes (hash_algorithm options) pieces Hne Hp) by lia.
  eexists. split; [done|]. cbn [fv_type fv_filesize fv_blocksizes fv_links operations].
  rewrite <-concat_len, Hcat, !map_map. split_and!; try done.
  intros Hraw. apply Forall2_fmap, Forall_Forall2_diag, Forall_true. intros d.
  unfold op_calculate_cid, operation. cbn [op_data op_cid_config]. rewrite Hraw.
  rewrite calculate_cid_of. cbn [bind_ok]. unfold cid_to_bytes. by rewrite to_bytes_of.
Qed.
End Uploads.

(** ** Estimates *)

Section Estimates.
Context `{HostLaws} `{!CidLayout}.

Lemma upload_size options (pieces : list bytes) w :
  batch_total_size (mkBatch (map (operation options) pieces) w) = len (concat pieces).
Proof. unfold batch_total_size. cbn [operations]. rewrite lsum_map, concat_len. done. Qed.

Lemma pieces_count (data : bytes) :
  0 < len data <= MAX_FILE_SIZE -> 1 <= div_ceil (len data) DEFAULT_CHUNK_SIZE <= 64.
Proof.
  unfold MAX_FILE_SIZE, div_ceil, DEFAULT_CHUNK_SIZE. intros Hd.
  split; [apply Z.div_le_lower_bound|apply Z.lt_succ_r, Z.div_lt_upper_bound]; lia.
Qed.

Lemma default_estimate (data : bytes) :
  0 < len data <= MAX_FILE_SIZE ->
  let n := div_ceil (len data) DEFAULT_CHUNK_SIZE in
  client_estimate_authorization ClientConfig_default (len data) = (n + 1, len data + 10 * n + 1000).
Proof.
  intros Hd n. pose proof (pieces_count data Hd) as Hn. fold n in Hn. unfold MAX_FILE_SIZE in Hd.
  unfold client_estimate_authorization, estimate_authorization, calculate_requirements. simpl.
  rewrite (proj2 (Z.eqb_neq _ _)) by lia. fold n. unfold sat_add_u32, sat_add_u64, sat_add, sat_mul, u32_max, u64_max.
  rewrite (proj2 (Z.leb_le _ _)) by lia. f_equal; lia.
Qed.

(** C32: The estimate of a default upload covers what the upload submits exactly up
    to 24 MiB.  For a file of 1 byte to 64 MiB the default client's estimate counts
    the transactions right (the chunks and the manifest), but a manifest takes fifty
    bytes a chunk where the estimate adds ten and a thousand in all, so the bytes
    suffice if and only if there are at most 24 chunks. *)
Theorem estimate_covers_upload_iff data cb :
  0 < len data <= MAX_FILE_SIZE ->
  exists prepared manifest events,
    prepare_store_chunked ClientConfig_default data None StoreOptions_default cb
      = Ok (prepared, Some manifest, events) /\
    let '(transactions, bytes) := client_estimate_authorization ClientConfig_default (len data) in
    transactions = batch_len prepared + 1 /\
    (batch_total_size prepared + len manifest <= bytes <-> batch_len prepared <= 24).
Proof.
  intros Hd. set (c := upload_config ClientConfig_default None).
  assert (chunk_size c = DEFAULT_CHUNK_SIZE) as Hc by done.
  pose proof (pieces_count data Hd) as Hn.
  rewrite prepare_store_chunked_spec by (fold c; rewrite Hc; done). fold c. unfold upload_error.
  rewrite Hc. change (DEFAULT_CHUNK_SIZE =? 0) with false. change (MAX_CHUNK_SIZE <? DEFAULT_CHUNK_SIZE) with false.
  rewrite (proj2 (Z.eqb_neq _ _)), (proj2 (Z.ltb_ge MAX_FILE_SIZE _)) by lia. 
  change (create_manifest c) with true. cbn [andb].
  rewrite (proj2 (Z.ltb_ge MAX_MANIFEST_CHUNKS _)) by (unfold MAX_MANIFEST_CHUNKS; lia).
  change (hash_algorithm StoreOptions_default) with Blake2b256.
  eexists _, _, _. split; [reflexivity|]. rewrite default_estimate by done.
  unfold upload_pieces.
  assert (Z.of_nat (Z.to_nat (chunk_size c)) = DEFAULT_CHUNK_SIZE) as Hz by (rewrite Hc; by apply Z2Nat.id).
  revert Hz. generalize (Z.to_nat (chunk_size c)) as k. clear c Hc. intros k Hz.
  assert (0 < k)%nat as Hp by (unfold DEFAULT_CHUNK_SIZE in Hz; lia).
  pose proof (manifest_len k data Hz Hd) as Hm. cbv zeta in Hm.
  pose proof (len_chunks k data Hp) as Hl. rewrite Hz in Hl.
  rewrite upload_size, (concat_chunks k data Hp). unfold batch_len. cbn [operations].
  assert (len (map (operation StoreOptions_default) (chunks k data)) = len (chunks k data)) as ->
    by (unfold len; by rewrite length_map).
  rewrite <-Hl. lia.
Qed.
End Estimates.

(** ** Confirmations *)

Definition submitted_in (b : TxInBlock) : SubmitResult :=
  mkSubmitResult (ib_block_hash b) (ib_extrinsic_hash b).

(** The block a status settles the submission in, for a target. *)
Definition settling_block (target : WaitFor) (st : TxStatus) : option TxInBlock :=
  match st, target with
  | TxInBestBlock b, InBlock => Some b
  | TxInFinalizedBlock b, _ => Some b
  | _, _ => None
  end.

Definition is_failure (st : TxStatus) : bool :=
  match st with TxInvalid | TxDropped | TxError | TxStreamError => true | _ => false end.

(** A status after which the loop goes on. *)
Definition undecided (target : WaitFor) (st : TxStatus) : Prop :=
  settling_block target st = None /\ is_failure st = false.

(** The last best block of a list of statuses. *)
Definition last_best_block (progress : list TxStatus) : option TxInBlock :=
  last (omap (fun st => match st with TxInBestBlock b => Some b | _ => None end) progress).

(** Why a stream confirms: the first decisive status names a block whose dispatch
    succeeded, or the stream ends undecided after a best block. *)
Inductive confirmed (target : WaitFor) (progress : list TxStatus) (b : TxInBlock) : Prop :=
| confirmed_settled before st after :
    progress = before ++ st :: after -> Forall (undecided target) before ->
    settling_block target st = Some b -> ib_success b = true -> confirmed target progress b
| confirmed_unsettled :
    Forall (undecided target) progress -> last_best_block progress = Some b ->
    confirmed target progress b.

Definition best_or (d : option TxInBlock) (progress : list TxStatus) : option TxInBlock :=
  match last_best_block progress with Some b => Some b | None => d end.

Lemma best_or_cons d st l :
  best_or d (st :: l) = best_or (match st with TxInBestBlock b => Some b | _ => d end) l.
Proof.
  unfold best_or, last_best_block. destruct st; try done. cbn [omap list_omap]. rewrite last_cons.
  by destruct (last _).
Qed.

Lemma watch_ok target error progress : forall (seen : option TxInBlock) (r : SubmitResult),
  (watch target error (submitted_in <$> seen) progress).1 = Ok r <->
  exists b, r = submitted_in b /\
    ((exists before st after, progress = before ++ st :: after /\ Forall (undecided target) before /\
        settling_block target st = Some b /\ ib_success b = true) \/
     (Forall (undecided target) progress /\ best_or seen progress = Some b)).
Proof.
  induction progress as [|st progress IH]; intros seen r.
  { cbn [watch fst]. split.
    - destruct seen as [b|]; [|done]. intros [= <-]. exists b. split; [done|]. right. by split.
    - intros (b & -> & [(before & st & after & E & _)|[_ E]]); [by destruct before|].
      unfold best_or in E. simpl in E. by subst seen. }
  set (seen' := match st with TxInBestBlock b => Some b | _ => seen end).
  assert (undecided target st ->
    (watch target error (submitted_in <$> seen) (st :: progress)).1 =
    (watch target error (submitted_in <$> seen') progress).1) as Hgo.
  { unfold seen'. intros [Hs Hf]. destruct st; simpl in *; try done; try (by destruct (watch _ _ _ _)).
    destruct target; [done|]. rewrite bool_decide_eq_false_2 by done. simpl. by destruct (watch _ _ _ _). }
  destruct (settling_block target st) as [b|] eqn:Es.
  - assert ((watch target error (submitted_in <$> seen) (st :: progress)).1 =
      if ib_success b then Ok (submitted_in b) else Err error) as ->.
    { destruct st, target; simplify_eq/=; done. }
    split.
    + destruct (ib_success b) eqn:Eb; [|done]. intros [= <-]. exists b. split; [done|]. left.
      exists [], st, progress. split_and!; [done|constructor|done|done].
    + intros (b' & -> & [(before & st' & after & E & Hb & Hs & Hok)|[Hf _]]).
      * destruct before; simplify_eq/=; [by rewrite Hok|]. apply Forall_cons in Hb as [[? _] _]. congruence.
      * apply Forall_cons in Hf as [[? _] _]. congruence.
  - destruct (is_failure st) eqn:Ef.
    + assert ((watch target error (submitted_in <$> seen) (st :: progress)).1 = Err error) as ->
        by (by destruct st). split; [done|].
      intros (b & -> & [(before & st' & after & E & Hb & Hs & _)|[Hf _]]).
      * destruct before; simplify_eq/=. apply Forall_cons in Hb as [[_ ?] _]. congruence.
      * apply Forall_cons in Hf as [[_ ?] _]. congruence.
    + rewrite Hgo by done. rewrite IH, best_or_cons. fold seen'. clear Hgo IH.
      assert (undecided target st) as Hu by done.
      split; intros (b & -> & [(before & st' & after & E & Hb & Hs & Hok)|[Hf Hl]]); exists b; (split; [done|]).
      * left. exists (st :: before), st', after. rewrite E. split_and!; try done. by constructor.
      * right. split; [by constructor|done].
      * left. destruct before as [|x before]; simplify_eq/=. apply Forall_cons in Hb as [_ Hb].
        by exists before, st', after.
      * right. apply Forall_cons in Hf as [_ Hf]. done.
Qed.

Lemma watch_err target error progress : forall seen e,
  (watch target error seen progress).1 = Err e -> e = error.
Proof.
  induction progress as [|st progress IH]; intros seen e; cbn [watch].
  { destruct seen; [done|by intros [= <-]]. }
  assert (forall seen' ev, (let '(r, evs) := watch target error seen' progress in (r, ev :: evs)).1 = Err e -> e = error) as Hgo.
  { intros seen' ev. specialize (IH seen' e). by destruct (watch _ _ _ _). }
  destruct st; try (by apply Hgo); try (by intros [= <-]); simpl; try case_bool_decide; simpl;
    try apply Hgo; by destruct (ib_success b); [|intros [= <-]].
Qed.

Lemma unsettled_in_block progress b :
  Forall (undecided InBlock) progress -> last_best_block progress = Some b -> False.
Proof.
  intros Hf Hl. unfold last_best_block in Hl. apply last_Some in Hl as [k Hk].
  assert (b ∈ omap (fun st => match st with TxInBestBlock b => Some b | _ => None end) progress) as Hin
    by (rewrite Hk; set_solver).
  apply list_elem_of_omap in Hin as (st & Hst & Hb).
  rewrite Forall_forall in Hf. destruct (Hf st Hst) as [Hs _].
  by destruct st.
Qed.

Section Confirmations.
Context `{HopHost} (node : Node).

(** C33: What a submission's result means.  Every failure is reported as the
    method's own error.  A success names a block for one of two reasons: the first
    decisive status of the stream settles in that block and the dispatch succeeded
    there, or the stream ended with nothing decided after the transaction was last
    seen in that block.  Waiting for a block rules the second reason out, so success
    then implies a successful dispatch; waiting for finality does not, and a stream
    that stops after any best block is a success whatever its dispatch did. *)
Theorem confirmation_outcome signer tx target error :
  let r := (submit_and_watch node signer tx target error).1 in
  (forall e, r = Err e -> e = error) /\
  (forall res, r = Ok res <-> exists progress b,
     node_submit node signer tx = Some progress /\ res = submitted_in b /\ confirmed target progress b) /\
  (target = InBlock -> forall progress b, confirmed target progress b -> ib_success b = true) /\
  (target = FinalizedBlock -> forall progress b, Forall (undecided target) progress ->
     node_submit node signer tx = Some (progress ++ [TxInBestBlock b]) -> r = Ok (submitted_in b)).
Proof.
  cbv zeta. unfold submit_and_watch.
  assert (forall progress res, (watch target error None progress).1 = Ok res <->
    exists b, res = submitted_in b /\ confirmed target progress b) as Hw.
  { intros progress res. pose proof (watch_ok target error progress None res) as Hok. cbn in Hok.
    rewrite Hok. split.
    - intros (b & -> & [(bef & st & aft & ? & ? & ? & ?)|[? Hl]]); exists b; (split; [done|]).
      + by eapply confirmed_settled.
      + apply confirmed_unsettled; [done|]. unfold best_or in Hl. by destruct (last_best_block progress).
    - intros (b & -> & [bef st aft ? ? ? ?|? Hl]); exists b; (split; [done|]); [left; by exists bef, st, aft|].
      right. split; [done|]. unfold best_or. by rewrite Hl. }
  split_and!.
  - intros e. destruct (node_submit node signer tx); [apply watch_err|by intros [= <-]].
  - intros res. destruct (node_submit node signer tx) as [progress|].
    + rewrite Hw. split; [intros (b & ? & ?); by exists progress, b|].
      intros (p & b & [= <-] & ? & ?). by exists b.
    + split; [done|by intros (p & b & ? & _)].
  - intros -> progress b [bef st aft _ _ _ Hok|Hf Hl]; [done|]. destruct (unsettled_in_block _ _ Hf Hl).
  - intros -> progress b Hf ->. apply Hw. exists b. split; [done|]. apply confirmed_unsettled.
    + apply Forall_app. split; [done|]. by repeat constructor.
    + unfold last_best_block. rewrite omap_app. cbn [omap list_omap]. by rewrite last_snoc.
Qed.
End Confirmations.

(** ** The client and the chain *)

(** A node that answers from a state: its latest block is the state's, and the value
    of an authorization is the stored bytes. *)
Record serves `{ScaleHost} `{HopHost} (node : Node) (s : State) : Prop := {
  serves_latest : node_latest node = Some (now s);
  serves_authorization who :
    node_fetch_authorization node who =
      Some (enc authorization_codec <$> Authorizations (ts s) !! Account who) }.

Section Preflight.
Context `{HostLaws} `{ScaleLaws} `{HopHost} `{!RuntimeHost} `{!Config} `{!ConfigLaws} `{!ChunkCapacity} `{!AuthorizerLaws} `{!RuntimeLaws}.
Context (node : Node).

Definition stored_ok (a : StoredAuthorization) : Prop :=
  is_u32 (st_transactions a) /\ is_u32 (st_transactions_allowance a) /\ is_u64 (st_bytes a) /\
  is_u64 (st_extra a) /\ is_u64 (st_bytes_allowance a) /\ is_u32 (st_expiration a).

#[local] Instance stored_authorization_round : RoundTrip stored_authorization_codec stored_ok.
Proof.
  unfold stored_ok. intros t rest Ht. refine (struct_round _ _ _ _ _ _ t rest _);
  [by intros []|simpl in *; tauto].
Qed.

(** The client's positional struct reads the pallet's layout. *)
Lemma stored_authorization_reads scope a :
  wf_authorization scope a ->
  decode_ok stored_authorization_codec (enc authorization_codec a) =
    Some (mkStoredAuthorization (extent_transactions (extent a)) (transactions_allowance (extent a))
      (extent_bytes (extent a)) (bytes_permanent (extra (extent a))) (bytes_allowance (extent a))
      (expiration a)).
Proof.
  intros [? ? ? [] ? ? _]. set (sa := mkStoredAuthorization _ _ _ _ _ _).
  assert (enc authorization_codec a = enc stored_authorization_codec sa) as ->
    by (unfold authorization_codec, stored_authorization_codec, sa; simpl; by rewrite <-!(assoc_L (++))).
  apply (decode_ok_enc _ stored_ok); [apply _|]. unfold stored_ok, sa. simpl. split_and!; try done. unfold is_u64. lia.
Qed.

Lemma query_answers s who :
  AuthInv s -> serves node s ->
  query_account_authorization node who =
    Ok ((fun a => (sat_sub (transactions_allowance (extent a)) (extent_transactions (extent a)),
                   sat_sub (bytes_allowance (extent a)) (extent_bytes (extent a))))
        <$> get_active_authorization s (Account who)).
Proof.
  intros HA [Hl Hf]. unfold query_account_authorization, get_active_authorization. rewrite Hl, Hf.
  destruct (Authorizations (ts s) !! Account who) as [a|] eqn:Ea; [|done]. cbn [fmap option_fmap option_map].
  rewrite (stored_authorization_reads (Account who)) by (by eapply inv_authorizations).
  cbn [st_expiration]. unfold expired. by destruct (expiration a <=? now s).
Qed.

(** C34: The client's preflight of a store agrees with the chain.  Against a node
    serving a reachable state, the check for one transaction and a positive number of bytes
    fails as not found exactly when the account has no active authorization, and,
    away from the top of the counters' ranges, passes exactly when the flat strategy
    would boost the store.  The cleanup calls the client signs are a different
    matter: the chain refuses them from every signed origin in every state. *)
Theorem preflight_agrees_with_chain g ph s who n :
  genesis_ok g -> reachable g (ph, s) -> serves node s -> 0 < n ->
  (check_authorization_for_store node who 1 n = Err SdkAuthorizationNotFound <->
     account_has_active_authorization s who = false) /\
  (let e := account_authorization_extent s who in
   extent_transactions e < u32_max -> extent_bytes e + n <= u64_max ->
   check_authorization_for_store node who 1 n = Ok tt <->
     FlatBoost (post_tx_extent n e) = ALLOWANCE_PRIORITY_BOOST) /\
  (forall other h t, validate RuntimeLeaves (System (Signed who)) (TransactionStorage
       (CallRemoveExpiredAccountAuthorization other)) t = (Err InvalidCall, t) /\
     validate RuntimeLeaves (System (Signed who)) (TransactionStorage
       (CallRemoveExpiredPreimageAuthorization h)) t = (Err InvalidCall, t)).
Proof.
  intros Hg Hr Hs Hn. destruct (reachable_ledger g ph s Hg Hr) as [HA _].
  unfold check_authorization_for_store. rewrite (query_answers s who HA Hs). cbn [bind_ok].
  unfold account_has_active_authorization, account_authorization_extent, authorization_extent,
    get_active_authorization.
  split_and!; [| |intros other h t; by rewrite !validate_storage_eq].
  - destruct (Authorizations (ts s) !! Account who) as [a|]; [|done].
    destruct (expired a (now s)); [done|]. simpl. unfold manager_check_authorization. simpl.
    split; [|done]. destr_match; [done|]. by destr_match.
  - cbv zeta. unfold FlatBoost, ALLOWANCE_PRIORITY_BOOST. destruct (Authorizations (ts s) !! Account who) as [a|] eqn:Ea; [|done].
    destruct (inv_authorizations s HA _ _ Ea) as [Ht Hta Hb Hba _ _ _].
    destruct (expired a (now s)); [done|]. simpl. unfold manager_check_authorization. cbn [sa_transactions sa_max_size].
    intros Hc1 Hc2. unfold is_u32, is_u64, u32_max, u64_max in *.
    assert (in_budget (post_tx_extent n (extent a)) = true <->
      extent_bytes (extent a) + n <= bytes_allowance (extent a) /\
      extent_transactions (extent a) + 1 <= transactions_allowance (extent a)) as Hin.
    { rewrite in_budget_spec. unfold post_tx_extent, sat_add_u32, sat_add_u64, sat_add, u32_max, u64_max. simpl. lia. }
    unfold sat_sub. destruct (in_budget _).
    + rewrite !(proj2 (Z.ltb_ge _ _)) by lia. done.
    + split; [|done]. destr_match; b2p; [done|]. destr_match; b2p; [done|].
      intros _. exfalso. assert (false = true) by (apply Hin; lia). done.
Qed.
End Preflight.

(** ** Concrete runs *)

(** The 300 bytes of [data_a] in chunks of 128, with a manifest. *)
Definition small_config : ChunkerConfig := mkChunkerConfig 128 8 true.

Definition small_upload : SdkResult (BatchStorageOperation * option bytes * list ChunkProgressEvent) :=
  prepare_store_chunked ClientConfig_default data_a (Some small_config) StoreOptions_default true.

Lemma chunked_upload_is_the_file_witness :
  match small_upload with
  | Ok (prepared, Some m, events) =>
      concat (map op_data (operations prepared)) = data_a /\ batch_len prepared = 3 /\
      len events = 3 /\
      (fv_blocksizes <$> read_manifest m) = Some [128; 128; 44] /\
      (fv_filesize <$> read_manifest m) = Some (Some 300)
  | _ => False
  end.
Proof.
  pose proof (chunked_upload_is_the_file ClientConfig_default data_a (Some small_config) StoreOptions_default true
    (@Authorizer mock_config) (storage_u64 "MaxPermanentStorageSize" mock_cap) ltac:(done)) as H.
  unfold small_upload. destruct (prepare_store_chunked _ _ _ _ _) as [[[prepared [m|]] events]|e] eqn:E;
    [|vm_compute in E; discriminate E..].
  destruct H as (_ & Hd & Hn & _ & _ & view & Hv & _ & Hs & Hb & _).
  split; [exact Hd|]. split; [rewrite Hn; reflexivity|]. rewrite Hv. cbn [fmap option_fmap option_map].
  rewrite Hs, Hb. vm_compute in E. injection E as <- <- <-. repeat split; reflexivity.
Defined.

Lemma estimate_covers_upload_iff_witness :
  exists prepared manifest events,
    prepare_store_chunked ClientConfig_default data_a None StoreOptions_default false
      = Ok (prepared, Some manifest, events) /\
    batch_total_size prepared + len manifest <= (client_estimate_authorization ClientConfig_default 300).2.
Proof.
  destruct (estimate_covers_upload_iff data_a false ltac:(by vm_compute)) as (p & m & evs & E & H).
  exists p, m, evs. split; [exact E|].
  replace (client_estimate_authorization ClientConfig_default (len data_a)) with (2, 1310) in H
    by (by vm_compute).
  replace (client_estimate_authorization ClientConfig_default 300) with (2, 1310) by (by vm_compute).
  destruct H as [Ht Hiff]. apply Hiff. lia.
Defined.

(** A node on the first open block that reports a transaction in a best block where
    its dispatch failed, and then goes silent. *)
Definition failed_in : TxInBlock := mkTxInBlock no_hash hash_a (Some 1) false.

Definition mock_node (progress : list TxStatus) (s : State) : Node := {|
  node_submit _ _ := Some progress;
  node_latest := Some (now s);
  node_fetch_authorization who := Some (enc authorization_codec <$> Authorizations (ts s) !! Account who) |}.

Lemma confirmation_outcome_witness :
  let silent := mock_node [TxValidated; TxBroadcasted; TxInBestBlock failed_in] s_open1 in
  let tx := TransactionStorage (CallStore data_a) in
  (submit_and_watch silent acc_a tx FinalizedBlock StorageFailed).1 = Ok (submitted_in failed_in) /\
  (submit_and_watch silent acc_a tx InBlock StorageFailed).1 = Err StorageFailed.
Proof.
  intros silent tx. split; [|reflexivity].
  destruct (confirmation_outcome silent acc_a tx FinalizedBlock StorageFailed) as (_ & _ & _ & H).
  apply (H eq_refl [TxValidated; TxBroadcasted] failed_in); [|reflexivity].
  repeat constructor.
Defined.

Lemma preflight_agrees_with_chain_witness :
  let node := mock_node [] s_open1 in
  check_authorization_for_store node acc_a 1 2000 = Ok tt /\
  FlatBoost (post_tx_extent 2000 (account_authorization_extent s_open1 acc_a)) = ALLOWANCE_PRIORITY_BOOST /\
  check_authorization_for_store node acc_b 1 1 = Err SdkAuthorizationNotFound.
Proof.
  intros node. assert (reachable mock_genesis (Inherents, s_open1)) as Hr
    by (apply reach_open; [by vm_compute|apply reach_genesis]).
  assert (serves node s_open1) as Hs by done.
  destruct (preflight_agrees_with_chain node mock_genesis Inherents s_open1 acc_a 2000 mock_genesis_ok Hr Hs
    ltac:(lia)) as (_ & Ha & _).
  destruct (preflight_agrees_with_chain node mock_genesis Inherents s_open1 acc_b 1 mock_genesis_ok Hr Hs
    ltac:(lia)) as (Hb & _).
  assert (FlatBoost (post_tx_extent 2000 (account_authorization_extent s_open1 acc_a))
    = ALLOWANCE_PRIORITY_BOOST) as Hf by (by vm_compute).
  split_and!; [apply Ha; [by vm_compute|by vm_compute|exact Hf]|exact Hf|].
  apply Hb. by vm_compute.
Defined.
