(* ===== verification/WeightTheorems.v ===== *)
(** The properties of weights: the runtimes' tables pass the pallets' sanity checks,
    and the mandatory work of every reachable block fits the block. *)

From S2P Require Import Prelude Slice Primitives Types State Authorizations Blocks Retention Checks Renewal RenewalFacts Hop Extension Chain ChainFacts Weights Runtime BlockLimits Mock.

(** ** Evaluating weights *)

Lemma nanos_value `{WeightLaws} : WEIGHT_REF_TIME_PER_NANOS = 1000.
Proof. exact nanos_spec. Qed.

(** Both axes of a weight, as saturating arithmetic on integers. *)
Ltac weigh :=
  rewrite ?all_lte_spec; autorewrite with weight;
  rewrite ?ref_time_parts, ?proof_size_parts by (unfold is_u64, u64_max; lia);
  unfold RocksDbWeight; cbn [db_read db_write]; rewrite ?nanos_value.

Lemma sat_add_upper max a b : sat_add max a b <= a + b.
Proof. apply Z.le_min_r. Qed.

Lemma sat_mul_upper max a b : sat_mul max a b <= a * b.
Proof. apply Z.le_min_r. Qed.

Lemma sat_add_mono max a b c d : a <= c -> b <= d -> sat_add max a b <= sat_add max c d.
Proof. unfold sat_add. lia. Qed.

Lemma sat_mul_mono max a b c d : 0 <= a <= c -> 0 <= b <= d -> sat_mul max a b <= sat_mul max c d.
Proof. unfold sat_mul. intros. assert (a * b <= c * d) by nia. lia. Qed.

Lemma sat_mul_nonneg max a b : 0 <= max -> 0 <= a -> 0 <= b -> 0 <= sat_mul max a b.
Proof. unfold sat_mul. intros. nia. Qed.

(** A saturated sum from above, by its terms. *)
Ltac bound_sats :=
  repeat match goal with
  | |- context [sat_add ?m ?a ?b] =>
      lazymatch constr:((a, b)) with
      | context [sat_add] => fail
      | context [sat_mul] => fail
      | _ => generalize (sat_add_upper m a b); generalize (sat_add m a b); intros ? ?
      end
  | |- context [sat_mul ?m ?a ?b] =>
      lazymatch constr:((a, b)) with
      | context [sat_mul] => fail
      | _ => generalize (sat_mul_upper m a b); generalize (sat_mul m a b); intros ? ?
      end
  end.

(** Saturated sums term by term. *)
Ltac mono_sats :=
  lazymatch goal with
  | |- _ /\ _ => split; mono_sats
  | |- sat_add _ _ _ <= sat_add _ _ _ => apply sat_add_mono; mono_sats
  | |- sat_mul _ _ _ <= sat_mul _ _ _ => apply sat_mul_mono; mono_sats
  | |- 0 <= sat_mul _ _ _ => apply sat_mul_nonneg; unfold u64_max; lia
  | |- _ => lia
  end.

Section Tables.
Context `{WeightLaws}.

(** The two runtimes' tables. *)
Definition runtime_tables : list (StorageWeightInfo * RenewalWeightInfo) :=
  [(paseo_storage_weights, paseo_renewal_weights);
   (westend_storage_weights, westend_renewal_weights)].

Lemma base_weight : ref_time ExtrinsicBaseWeight = 125000000 /\ proof_size ExtrinsicBaseWeight = 0.
Proof. unfold ExtrinsicBaseWeight. rewrite nanos_value. change (sat_mul u64_max 1000 125000) with 125000000. weigh. done. Qed.

(** A bound on what the tables give for a full block. *)
Record TableBounds (SW : StorageWeightInfo) (RW : RenewalWeightInfo) : Prop := {
  tb_store n : 0 <= n <= 2 * 1024 * 1024 ->
    ref_time (w_store SW n) <= 300000000 + 7000 * n /\ proof_size (w_store SW n) <= 50000;
  tb_inherents :
    ref_time (w_apply_block_inherents SW) <= 10 ^ 9 /\ proof_size (w_apply_block_inherents SW) <= 50000;
  tb_expiry : forall n m, 0 <= n <= m ->
    ref_time (w_on_initialize_with_expiry SW n) <= ref_time (w_on_initialize_with_expiry SW m) /\
    proof_size (w_on_initialize_with_expiry SW n) <= proof_size (w_on_initialize_with_expiry SW m);
  tb_expiry_full : ref_time (w_on_initialize_with_expiry SW 512) <= 10 ^ 11 /\
    proof_size (w_on_initialize_with_expiry SW 512) <= 1500000;
  tb_renew : ref_time (w_renew RW) <= 10 ^ 9;
  tb_drain : forall n m, 0 <= n <= m ->
    ref_time (w_process_pending_renewals RW n) <= ref_time (w_process_pending_renewals RW m) /\
    proof_size (w_process_pending_renewals RW n) <= proof_size (w_process_pending_renewals RW m);
  tb_drain_full : ref_time (w_process_pending_renewals RW 512) <= 2 * 10 ^ 11 /\
    proof_size (w_process_pending_renewals RW 512) <= 1500000 }.

Lemma tables_bounded SW RW : (SW, RW) ∈ runtime_tables -> TableBounds SW RW.
Proof.
  intros [[= -> ->]|[[= -> ->]|Hn%not_elem_of_nil]%elem_of_cons]%elem_of_cons; [| |done];
    (constructor; intros;
      cbn [w_store w_apply_block_inherents w_on_initialize_with_expiry w_renew w_process_pending_renewals
        paseo_storage_weights paseo_renewal_weights westend_storage_weights westend_renewal_weights];
      weigh;
      lazymatch goal with
      | |- sat_add _ _ _ <= sat_add _ _ _ /\ _ => mono_sats
      | |- _ => bound_sats; lia
      end).
Qed.
End Tables.

(** ** The sanity checks *)

Section Sanity.
Context `{WeightLaws} `{Config}.
Hypothesis max_transactions : MaxBlockTransactions = DEFAULT_MAX_BLOCK_TRANSACTIONS.
Hypothesis max_size : MaxTransactionSize = DEFAULT_MAX_TRANSACTION_SIZE.
Context (maximum : Weight) (limits : BlockLimits).
Hypothesis framed : FrameLimits maximum limits.
Hypothesis seconds : TwoSeconds maximum.

(** Nine tenths, and a twentieth, of two seconds; the length left to normal calls. *)
Lemma shares :
  17 * 10 ^ 11 <= ref_time (percent_of_weight 90 maximum) <= 19 * 10 ^ 11 /\
  0 <= ref_time (percent_of_weight 5 maximum) <= 11 * 10 ^ 10 /\
  47 * 10 ^ 5 <= proof_size (percent_of_weight 90 maximum) /\
  10 * proof_size (percent_of_weight 5 maximum) <= proof_size (percent_of_weight 90 maximum) /\
  9437183 <= normal_length limits <= 9437185.
Proof.
  destruct seconds as [Ht Hp]. pose proof (ref_time_percent 90 maximum ltac:(lia)).
  pose proof (ref_time_percent 5 maximum ltac:(lia)). pose proof (proof_size_percent 90 maximum ltac:(lia)).
  pose proof (proof_size_percent 5 maximum ltac:(lia)).
  pose proof (percent_of_u32_spec 90 MAX_BLOCK_LENGTH ltac:(lia) ltac:(unfold is_u32, u32_max, MAX_BLOCK_LENGTH; lia)).
  rewrite (limits_length _ _ framed). unfold NORMAL_DISPATCH_RATIO, MAX_BLOCK_LENGTH in *. lia.
Qed.

(** Most of a second and a half is left to the extrinsics of a block. *)
Lemma budget_room pov :
  exists budget extrinsic, effective_normal_budget limits pov = Some budget /\
    max_extrinsic limits = Some extrinsic /\
    15 * 10 ^ 11 <= ref_time budget /\ 15 * 10 ^ 11 <= ref_time extrinsic /\ 10 ^ 6 <= proof_size extrinsic.
Proof.
  destruct shares as (Ht & Hi & Hp & Hq & _), base_weight as [Bt Bp].
  unfold effective_normal_budget. rewrite (limits_max_total _ _ framed), (limits_max_extrinsic _ _ framed).
  eexists _, _. split; [reflexivity|]. split; [reflexivity|]. rewrite (limits_base _ _ framed).
  change NORMAL_DISPATCH_RATIO with 90. set (total := percent_of_weight 90 maximum) in *. set (init := percent_of_weight 5 maximum) in *.
  set (left := saturating_sub total _).
  assert (15 * 10 ^ 11 <= ref_time left <= u64_max) as Hl
    by (unfold left; autorewrite with weight; rewrite Bt; unfold sat_sub, u64_max; lia).
  assert (ref_time (saturating_sub (saturating_sub total init) ExtrinsicBaseWeight) >= 15 * 10 ^ 11 /\
    proof_size (saturating_sub (saturating_sub total init) ExtrinsicBaseWeight) >= 10 ^ 6) as [Hx1 Hx2]
    by (autorewrite with weight; rewrite Bt, Bp; unfold sat_sub; lia).
  split_and!; [|lia..]. destruct pov; [|lia]. rewrite ref_time_parts; [lia|unfold is_u64; lia].
Qed.

Lemma full_block : MaxBlockTransactions = 512.
Proof. rewrite max_transactions. reflexivity. Qed.

(** The mandatory work of the fullest block. *)
Lemma floor_fits SW RW :
  TableBounds SW RW ->
  all_lte (w_on_initialize_with_expiry SW 512 ⊕ w_apply_block_inherents SW ⊕ w_process_pending_renewals RW 512)
    maximum = true.
Proof.
  intros [_ [I1 I2] _ [E1 E2] _ _ [D1 D2]]. destruct seconds as [Ht Hp].
  rewrite all_lte_spec, andb_true_iff, !Z.leb_le. autorewrite with weight. rewrite Ht. bound_sats. lia.
Qed.

Lemma sanity_holds SW RW pov :
  TableBounds SW RW ->
  ensure_weight_sanity limits SW pov (w_process_pending_renewals RW MaxBlockTransactions) = true /\
  renewal_ensure_weight_sanity limits RW pov = true.
Proof.
  intros TB. pose proof (floor_fits SW RW TB) as Hf.
  destruct (budget_room pov) as (budget & ext & Eb & Ee & Hb & He & Hq), shares as (_ & _ & _ & _ & Hl), base_weight as [Bt Bp].
  destruct TB as [St [I1 I2] _ _ Rn _ [D1 D2]], seconds as [Ht Hp].
  unfold ensure_weight_sanity, renewal_ensure_weight_sanity. rewrite Eb, Ee, (limits_max_block _ _ framed), (limits_base _ _ framed).
  rewrite full_block, max_size, Hf. unfold DEFAULT_MAX_TRANSACTION_SIZE.
  rewrite !andb_true_iff, !all_lte_spec, !andb_true_iff, !Z.leb_le, Z.ltb_lt.
  assert (0 <= normal_length limits / 512 <= 20000) as Hn
    by (split; [apply Z.div_le_lower_bound|apply Z.div_le_upper_bound]; lia).
  destruct (St (2 * 1024 * 1024) ltac:(lia)) as [S1 S2]. destruct (St (normal_length limits / 512) ltac:(lia)) as [S3 _].
  autorewrite with weight. rewrite Bt. split_and!; try lia; bound_sats; lia.
Qed.
End Sanity.

(** ** Mandatory work *)

Section Mandatory.
Context `{WeightLaws} `{HostLaws} `{HopHost} `{!RuntimeHost} `{!Config} `{!ConfigLaws} `{!ChunkCapacity} `{!AuthorizerLaws} `{!RuntimeLaws}.

Lemma expiring_count s s' b txs :
  BlockInv s -> Transactions (ts s') = Transactions (ts s) -> (Transactions_take b s').1 = Some txs ->
  0 <= as_u32 (len txs) <= MaxBlockTransactions.
Proof.
  intros HB Es Ht. unfold Transactions_take, Transactions_get in Ht. rewrite Es in Ht.
  destruct (Transactions (ts s) !! b) as [v|] eqn:E; [|done].
  destruct (bi_sealed s HB b v E) as (_ & l & -> & _ & Hw). simpl in Ht. simplify_eq.
  destruct Hw as (_ & _ & Hlen). pose proof (len_nonneg txs). pose proof MaxBlockTransactions_range.
  rewrite as_u32_small by (unfold is_u32; lia). lia.
Qed.

(** Opening a block costs no more than sweeping a full one. *)
Lemma on_initialize_weight_le SW RW s s' n :
  TableBounds SW RW -> BlockInv s -> Transactions (ts s') = Transactions (ts s) ->
  ref_time (on_initialize_weight SW n s') <= ref_time (w_on_initialize_with_expiry SW MaxBlockTransactions) /\
  proof_size (on_initialize_weight SW n s') <= proof_size (w_on_initialize_with_expiry SW MaxBlockTransactions).
Proof.
  intros TB HB Es. unfold on_initialize_weight. set (num := if 0 <? _ then _ else _).
  assert (0 <= num <= MaxBlockTransactions) as Hn.
  { pose proof MaxBlockTransactions_range. unfold num. destruct (0 <? _); [|lia].
    destruct (Transactions_take _ s').1 as [txs|] eqn:E; [|lia]. by eapply expiring_count. }
  destruct (tb_expiry _ _ TB num MaxBlockTransactions Hn). weigh. bound_sats. lia.
Qed.

(** C11: The work no block may refuse fits every block.  With either runtime's weight
    tables and the limits [frame_system] derives from its settings, the pallets'
    sanity checks pass; and whatever the chain went through, the weight of opening the
    next block with its expiry sweep, of the storage-proof inherent and of the renewal
    drain stay within the block together, in time and in proof size, and the drain of
    any state reports no more than it declared. *)
Theorem mandatory_work_fits_every_block SW RW g s parent maximum limits :
  (SW, RW) ∈ runtime_tables ->
  MaxBlockTransactions = DEFAULT_MAX_BLOCK_TRANSACTIONS ->
  MaxTransactionSize = DEFAULT_MAX_TRANSACTION_SIZE ->
  FrameLimits maximum limits -> TwoSeconds maximum ->
  genesis_ok g -> reachable g (Idle, s) ->
  let drain := (renewal_call_weight RW CallProcessPendingRenewals).1 in
  ensure_weight_sanity limits SW (Some 85) drain = true /\
  renewal_ensure_weight_sanity limits RW (Some 85) = true /\
  all_lte (on_initialize_weight SW (now s + 1) (open_block parent s)
             ⊕ (storage_call_weight SW (CallApplyBlockInherents None)).1 ⊕ drain) (max_block limits) = true /\
  (forall ph t, reachable g (ph, t) ->
     all_lte (process_pending_renewals_actual_weight RW t) drain = true).
Proof.
  intros Hin Hmt Hms Hfr Hsec Hg Hr drain. pose proof (tables_bounded SW RW Hin) as TB.
  destruct (sanity_holds Hmt Hms maximum limits Hfr Hsec SW RW (Some 85) TB) as [Hs1 Hs2].
  split; [exact Hs1|]. split; [exact Hs2|]. split.
  - pose proof (floor_fits maximum Hsec SW RW TB) as Hf. rewrite (limits_max_block _ _ Hfr).
    pose proof (on_initialize_weight_le SW RW s (open_block parent s) (now s + 1) TB
      (reachable_block g Idle s Hg Hr) eq_refl) as [Ht Hp].
    revert Hf Ht Hp. unfold drain. cbn [renewal_call_weight storage_call_weight fst].
    rewrite (full_block Hmt), !all_lte_spec, !andb_true_iff, !Z.leb_le. autorewrite with weight.
    unfold sat_add. lia.
  - intros ph t Ht. unfold process_pending_renewals_actual_weight, drain. cbn [renewal_call_weight fst].
    destruct (reachable_ledger g ph t Hg Ht) as (_ & _ & HP & _).
    pose proof (pending_count t HP) as Hc.
    assert ((do_process_pending_renewals t).1 = len (PendingRenewals (dr t))) as ->.
    { unfold do_process_pending_renewals. rewrite Hc.
      destruct (_ =? 0) eqn:E; [by b2p|]. destruct (extrinsic_index _); [|done].
      by destruct (with_block_transactions _ _). }
    destruct (tb_drain _ _ TB (len (PendingRenewals (dr t))) MaxBlockTransactions) as [D1 D2].
    { split; [apply len_nonneg|apply HP]. }
    rewrite all_lte_spec, andb_true_iff, !Z.leb_le. done.
Qed.
End Mandatory.

(** Paseo's own block weight is of this size. *)
Lemma paseo_two_seconds `{WeightLaws} : TwoSeconds paseo_MAXIMUM_BLOCK_WEIGHT.
Proof.
  unfold paseo_MAXIMUM_BLOCK_WEIGHT. rewrite second_spec. change (sat_mul u64_max (10 ^ 12) 2) with 2000000000000.
  pose proof pov_spec. unfold u32_max in *.
  constructor; rewrite ?ref_time_parts, ?proof_size_parts by (unfold is_u64, u64_max; lia); unfold u32_max; lia.
Qed.

(** ** A concrete block *)

Definition mock_limits : BlockLimits :=
  let maximum := paseo_MAXIMUM_BLOCK_WEIGHT in
  mkBlockLimits _ maximum ExtrinsicBaseWeight (Some (percent_of_weight NORMAL_DISPATCH_RATIO maximum))
    (Some (saturating_sub (saturating_sub (percent_of_weight NORMAL_DISPATCH_RATIO maximum)
       (percent_of_weight 5 maximum)) ExtrinsicBaseWeight))
    (percent_of_u32 NORMAL_DISPATCH_RATIO MAX_BLOCK_LENGTH).

(** After three blocks the sweep of block 1 is due. *)
Lemma mandatory_work_fits_every_block_witness :
  all_lte (on_initialize_weight paseo_storage_weights 4 (open_block no_hash s_closed3)
             ⊕ w_apply_block_inherents paseo_storage_weights ⊕ w_process_pending_renewals paseo_renewal_weights 512)
    (max_block mock_limits) = true /\
  ref_time (on_initialize_weight paseo_storage_weights 4 (open_block no_hash s_closed3)) = 753970478.
Proof.
  split; [|by vm_compute].
  destruct (mandatory_work_fits_every_block paseo_storage_weights paseo_renewal_weights mock_genesis s_closed3 no_hash
    paseo_MAXIMUM_BLOCK_WEIGHT mock_limits ltac:(by left) eq_refl eq_refl ltac:(done) paseo_two_seconds
    mock_genesis_ok reach_closed3) as (_ & _ & H & _).
  exact H.
Defined.
