(* ===== verification/DefaultWeights.v ===== *)
(** The weight tables the pallets ship with ([weights.rs]): [SubstrateWeight], generic in
    the database's costs, and the implementations for [()], which mocks use.  The storage
    pallet's two are the same table; the numbers of the other two pallets live in the
    runtimes, and their defaults are zero. *)

From S2P Require Import Prelude Slice Primitives Types State Authorizations Blocks Checks Renewal Hop Extension Weights Runtime BlockLimits WeightTheorems.

Section DefaultTables.
Context `{WeightHost}.

(** [SubstrateWeight<T>], where [db] is [T::DbWeight]. *)
Definition SubstrateWeight (db : RuntimeDbWeight) : StorageWeightInfo := {|
  w_store l :=
    from_parts 16556000 0 ⊕ from_parts 0 45519 ⊕ saturating_mul (from_parts 6132 0) l
      ⊕ reads db 1 ⊕ writes db 2;
  w_store_with_cid_config l :=
    from_parts 32860948 0 ⊕ from_parts 0 45519 ⊕ saturating_mul (from_parts 3992 0) l
      ⊕ reads db 1 ⊕ writes db 2;
  w_authorize_account :=
    from_parts 18097000 0 ⊕ from_parts 0 3550 ⊕ reads db 1 ⊕ writes db 1;
  w_add_authorizer :=
    from_parts 7919000 0 ⊕ from_parts 0 0 ⊕ writes db 1;
  w_remove_authorizer :=
    from_parts 14054000 0 ⊕ from_parts 0 3536 ⊕ reads db 1 ⊕ writes db 1;
  w_refresh_account_authorization :=
    from_parts 14315000 0 ⊕ from_parts 0 3550 ⊕ reads db 1 ⊕ writes db 1;
  w_authorize_preimage :=
    from_parts 13240000 0 ⊕ from_parts 0 3550 ⊕ reads db 1 ⊕ writes db 1;
  w_refresh_preimage_authorization :=
    from_parts 14054000 0 ⊕ from_parts 0 3550 ⊕ reads db 1 ⊕ writes db 1;
  w_remove_expired_account_authorization :=
    from_parts 20142000 0 ⊕ from_parts 0 3550 ⊕ reads db 1 ⊕ writes db 1;
  w_remove_expired_preimage_authorization :=
    from_parts 15276000 0 ⊕ from_parts 0 3550 ⊕ reads db 1 ⊕ writes db 1;
  w_remove_exhausted_authorizer :=
    from_parts 14449000 0 ⊕ from_parts 0 3536 ⊕ reads db 1 ⊕ writes db 1;
  w_validate_store l :=
    from_parts 23874000 0 ⊕ from_parts 0 45519 ⊕ saturating_mul (from_parts 2727 0) l
      ⊕ reads db 5 ⊕ writes db 2;
  w_apply_block_inherents :=
    from_parts 7899049016 0 ⊕ from_parts 0 1390031 ⊕ reads db 520 ⊕ writes db 1028;
  w_on_initialize_with_expiry n :=
    from_parts 7640000 0 ⊕ from_parts 0 79311 ⊕ saturating_mul (from_parts 10958277 0) n
      ⊕ reads db 6 ⊕ reads db (sat_mul u64_max 2 n) ⊕ writes db 3
      ⊕ writes db (sat_mul u64_max 1 n) ⊕ saturating_mul (from_parts 0 2557) n;
  w_migrate_v2_to_v3_step :=
    from_parts 144128000 0 ⊕ from_parts 0 94048 ⊕ reads db 3 ⊕ writes db 2 |}.

(** [WeightInfo for ()]. *)
Definition default_storage_weights : StorageWeightInfo := {|
  w_store l :=
    from_parts 16556000 0 ⊕ from_parts 0 45519 ⊕ saturating_mul (from_parts 6132 0) l
      ⊕ reads RocksDbWeight 1 ⊕ writes RocksDbWeight 2;
  w_store_with_cid_config l :=
    from_parts 32860948 0 ⊕ from_parts 0 45519 ⊕ saturating_mul (from_parts 3992 0) l
      ⊕ reads RocksDbWeight 1 ⊕ writes RocksDbWeight 2;
  w_authorize_account :=
    from_parts 18097000 0 ⊕ from_parts 0 3550 ⊕ reads RocksDbWeight 1
      ⊕ writes RocksDbWeight 1;
  w_add_authorizer :=
    from_parts 7919000 0 ⊕ from_parts 0 0 ⊕ writes RocksDbWeight 1;
  w_remove_authorizer :=
    from_parts 14054000 0 ⊕ from_parts 0 3536 ⊕ reads RocksDbWeight 1
      ⊕ writes RocksDbWeight 1;
  w_refresh_account_authorization :=
    from_parts 14315000 0 ⊕ from_parts 0 3550 ⊕ reads RocksDbWeight 1
      ⊕ writes RocksDbWeight 1;
  w_authorize_preimage :=
    from_parts 13240000 0 ⊕ from_parts 0 3550 ⊕ reads RocksDbWeight 1
      ⊕ writes RocksDbWeight 1;
  w_refresh_preimage_authorization :=
    from_parts 14054000 0 ⊕ from_parts 0 3550 ⊕ reads RocksDbWeight 1
      ⊕ writes RocksDbWeight 1;
  w_remove_expired_account_authorization :=
    from_parts 20142000 0 ⊕ from_parts 0 3550 ⊕ reads RocksDbWeight 1
      ⊕ writes RocksDbWeight 1;
  w_remove_expired_preimage_authorization :=
    from_parts 15276000 0 ⊕ from_parts 0 3550 ⊕ reads RocksDbWeight 1
      ⊕ writes RocksDbWeight 1;
  w_remove_exhausted_authorizer :=
    from_parts 14449000 0 ⊕ from_parts 0 3536 ⊕ reads RocksDbWeight 1
      ⊕ writes RocksDbWeight 1;
  w_validate_store l :=
    from_parts 23874000 0 ⊕ from_parts 0 45519 ⊕ saturating_mul (from_parts 2727 0) l
      ⊕ reads RocksDbWeight 5 ⊕ writes RocksDbWeight 2;
  w_apply_block_inherents :=
    from_parts 7899049016 0 ⊕ from_parts 0 1390031 ⊕ reads RocksDbWeight 520
      ⊕ writes RocksDbWeight 1028;
  w_on_initialize_with_expiry n :=
    from_parts 7640000 0 ⊕ from_parts 0 79311 ⊕ saturating_mul (from_parts 10958277 0) n
      ⊕ reads RocksDbWeight 6 ⊕ reads RocksDbWeight (sat_mul u64_max 2 n)
      ⊕ writes RocksDbWeight 3 ⊕ writes RocksDbWeight (sat_mul u64_max 1 n)
      ⊕ saturating_mul (from_parts 0 2557) n;
  w_migrate_v2_to_v3_step :=
    from_parts 144128000 0 ⊕ from_parts 0 94048 ⊕ reads RocksDbWeight 3
      ⊕ writes RocksDbWeight 2 |}.

(** [Weight::zero()]. *)
Definition no_weight : Weight := from_parts 0 0.

Definition default_renewal_weights : RenewalWeightInfo := {|
  w_renew := no_weight;
  w_force_renew := no_weight;
  w_enable_auto_renew := no_weight;
  w_disable_auto_renew := no_weight;
  w_validate_renew := no_weight;
  w_process_pending_renewals _ := no_weight |}.

Definition default_hop_weights : HopWeightInfo := {|
  w_authorize_promote _ := no_weight;
  w_authorize_promote_v2 _ := no_weight |}.
End DefaultTables.

(** ** Facts *)

Section DefaultFacts.
Context `{WeightLaws}.

(** The table spelled out for [()] is the generic one on RocksDB. *)
Lemma default_is_substrate : default_storage_weights = SubstrateWeight RocksDbWeight.
Proof. reflexivity. Qed.

(** What the defaults charge for a store, the inherent and a full sweep. *)
Lemma default_bounds :
  (forall n, 0 <= n <= 2 * 1024 * 1024 ->
    ref_time (w_store default_storage_weights n) <= 300000000 + 7000 * n /\
    proof_size (w_store default_storage_weights n) <= 50000) /\
  ref_time (w_apply_block_inherents default_storage_weights) <= 13 * 10 ^ 10 /\
  proof_size (w_apply_block_inherents default_storage_weights) <= 1400000 /\
  ref_time (w_on_initialize_with_expiry default_storage_weights 512) <= 10 ^ 11 /\
  proof_size (w_on_initialize_with_expiry default_storage_weights 512) <= 1500000.
Proof.
  cbn [w_store w_apply_block_inherents w_on_initialize_with_expiry default_storage_weights].
  split_and!; intros; weigh; bound_sats; lia.
Qed.

(** The placeholder of the inherent covers what the runtimes charge for it since the drain
    has a weight of its own. *)
Lemma placeholder_covers_inherent SW RW :
  (SW, RW) ∈ runtime_tables ->
  ref_time (w_apply_block_inherents SW) <= ref_time (w_apply_block_inherents default_storage_weights) /\
  proof_size (w_apply_block_inherents SW) <= proof_size (w_apply_block_inherents default_storage_weights).
Proof.
  intros [Ht Hp]%tables_bounded%tb_inherents. revert Ht Hp.
  assert (10 ^ 9 <= ref_time (w_apply_block_inherents default_storage_weights) /\
    50000 <= proof_size (w_apply_block_inherents default_storage_weights)) as [? ?]; [|lia].
  cbn [w_apply_block_inherents default_storage_weights]. weigh. done.
Qed.

Context `{Config}.
Hypothesis max_transactions : MaxBlockTransactions = DEFAULT_MAX_BLOCK_TRANSACTIONS.
Hypothesis max_size : MaxTransactionSize = DEFAULT_MAX_TRANSACTION_SIZE.

(** The storage pallet's defaults pass its sanity check within the runtimes' limits, with
    or without a renewal pallet beside it; the other pallet's, being zero, pass too. *)
Lemma defaults_are_sane maximum limits pov RW :
  FrameLimits maximum limits -> TwoSeconds maximum ->
  RW = default_renewal_weights \/ (exists SW, (SW, RW) ∈ runtime_tables) ->
  ensure_weight_sanity limits default_storage_weights pov (w_process_pending_renewals RW MaxBlockTransactions) = true.
Proof.
  intros framed seconds HRW. destruct default_bounds as (St & I1 & I2 & E1 & E2).
  assert (ref_time (w_process_pending_renewals RW 512) <= 2 * 10 ^ 11 /\
    proof_size (w_process_pending_renewals RW 512) <= 1500000) as [D1 D2].
  { destruct HRW as [->|[SW [_ _ _ _ _ _ HD]%tables_bounded]]; [|done].
    cbn [w_process_pending_renewals default_renewal_weights]. unfold no_weight. weigh. lia. }
  destruct (budget_room maximum limits framed seconds pov) as (budget & ext & Eb & Ee & Hb & He & Hq).
  destruct (shares maximum limits framed seconds) as (_ & _ & _ & _ & Hl), base_weight as [Bt Bp], seconds as [Ht Hp].
  unfold ensure_weight_sanity. rewrite Eb, Ee, (limits_max_block _ _ framed), (limits_base _ _ framed).
  rewrite (full_block max_transactions), max_size. unfold DEFAULT_MAX_TRANSACTION_SIZE.
  rewrite !andb_true_iff, !all_lte_spec, !andb_true_iff, !Z.leb_le, Z.ltb_lt.
  assert (0 <= normal_length limits / 512 <= 20000) as Hn
    by (split; [apply Z.div_le_lower_bound|apply Z.div_le_upper_bound]; lia).
  destruct (St (2 * 1024 * 1024) ltac:(lia)) as [S1 S2]. destruct (St (normal_length limits / 512) ltac:(lia)) as [S3 _].
  autorewrite with weight. rewrite Bt. split_and!; try lia; bound_sats; lia.
Qed.
End DefaultFacts.
