(* ===== verification/Fees.v ===== *)
(** What Paseo charges and reserves ([paseo_constants.rs], [lib.rs] of the runtime): the
    maps from weight and length to a fee, the deposit rate, the times of sessions and
    slots, and the shares of a block set aside for messages.  The polynomials' evaluation,
    [Perbill] and FRAME's base weight are parameters with their documented behaviour. *)

From S2P Require Import Prelude Slice Primitives Types State Authorizations Blocks Checks Renewal Hop Extension Weights Runtime Presets BlockLimits WeightTheorems.

(** [WeightToFeeCoefficient]; the fraction in parts of a billion. *)
Record WeightToFeeCoefficient := mkCoefficient {
  degree : Z;
  negative : bool;
  coeff_frac : Z;
  coeff_integer : Z }.

Class FeeHost := {
  (* [Perbill::from_rational], as parts of a billion *)
  from_rational : Z -> Z -> Z;
  (* [FeePolynomial::from(..).eval(..)] *)
  polynomial_eval : list WeightToFeeCoefficient -> Z -> Z;
  (* [ConstantMultiplier<Balance, M>] on a length *)
  constant_multiplier : Z -> Z -> Z;
  (* the reference time of [frame_support]'s [ExtrinsicBaseWeight] *)
  frame_ExtrinsicBaseWeight : Z }.

(** "Approximate the fraction [p/q] into a per-thing fraction", rounding down; a linear
    polynomial is its integer part times the argument plus the fraction of the argument,
    rounded, and saturates; so does the multiplier. *)
Class FeeLaws `{FeeHost} : Prop := {
  from_rational_down p q : 0 <= p < q -> from_rational p q * q <= p * 10 ^ 9 < (from_rational p q + 1) * q;
  eval_linear frac int x : 0 <= frac <= 10 ^ 9 -> 0 <= int -> 0 <= x ->
    exists r, polynomial_eval [mkCoefficient 1 false frac int] x = Z.min u128_max (int * x + r) /\
      Z.abs (10 ^ 9 * r - frac * x) < 10 ^ 9 /\ 0 <= r;
  multiplier_saturates c x : 0 <= c -> 0 <= x -> constant_multiplier c x = Z.min u128_max (c * x);
  base_weight_range : 0 < frame_ExtrinsicBaseWeight <= 10 ^ 9 }.

(** ** Currency *)

(** [currency::{CENTS, MILLICENTS}] ([UNITS] is in [Presets]) and the relay chain's [deposit]. *)
Definition CENTS : Z := UNITS / 100.
Definition MILLICENTS : Z := CENTS / 1000.
Definition relay_MILLICENTS : Z := relay_CENTS / 1000.
Definition relay_deposit (items bytes : Z) : Z := items * 20 * relay_DOLLARS + bytes * 100 * relay_MILLICENTS.
Definition deposit (items bytes : Z) : Z := relay_deposit items bytes / 100.

Definition TRANSACTION_BYTE_FEE : Z := MILLICENTS / 2.
Definition BaseDeliveryFee : Z := sat_mul u128_max CENTS 3.

(** ** Time *)

Definition RELAY_CHAIN_SLOT_DURATION_MILLIS : Z := 6000.
Definition BLOCK_PROCESSING_VELOCITY : Z := 1.
Definition UNINCLUDED_SEGMENT_CAPACITY : Z := 3.
Definition SLOT_DURATION : Z := 24000.
Definition PERIOD : BlockNumber := 6 * HOURS.
Definition SessionLength : BlockNumber := 6 * HOURS.
Definition KickThreshold : BlockNumber := PERIOD.

Section Fees.
Context `{FeeHost}.

(** ** Fees *)

(** [RefTimeToFee::polynomial] and [ProofSizeToFee::polynomial]. *)
Definition ref_time_polynomial : list WeightToFeeCoefficient :=
  let p := CENTS in
  let q := 100 * frame_ExtrinsicBaseWeight in
  [mkCoefficient 1 false (from_rational (p mod q) q) (p / q)].

Definition proof_size_polynomial : list WeightToFeeCoefficient :=
  let p := CENTS in
  let q := 10000 in
  [mkCoefficient 1 false (from_rational (p mod q) q) (p / q)].

(** [WeightToFee::weight_to_fee]. *)
Definition weight_to_fee `{WeightHost} (w : Weight) : Z :=
  Z.max (polynomial_eval ref_time_polynomial (ref_time w)) (polynomial_eval proof_size_polynomial (proof_size w)).

(** [LengthToFee]. *)
Definition length_to_fee (length : Z) : Z := constant_multiplier TRANSACTION_BYTE_FEE length.
End Fees.

(** ** Shares of a block *)

Section Shares.
Context `{WeightHost}.

(** [saturating_div] of both parts. *)
Definition weight_div (w : Weight) (n : Z) : Weight := from_parts (ref_time w / n) (proof_size w / n).

Definition ReservedXcmpWeight (maximum : Weight) : Weight := weight_div maximum 4.
Definition ReservedDmpWeight (maximum : Weight) : Weight := weight_div maximum 4.
Definition MessageQueueServiceWeight (max_block : Weight) : Weight := percent_of_weight 35 max_block.
Definition MbmServiceWeight (max_block : Weight) : Weight := percent_of_weight 50 max_block.
End Shares.

(** ** Facts *)

(** A slot is four blocks of the pallets' clock and a whole number of relay chain slots; a
    session, and what a silent collator is kicked after, is one length of 3600 blocks; the
    authorization and the default retention period are fourteen days. *)
Lemma times :
  SLOT_DURATION = 4 * MILLISECS_PER_BLOCK /\ SLOT_DURATION = 4 * RELAY_CHAIN_SLOT_DURATION_MILLIS /\
  PERIOD = 3600 /\ SessionLength = PERIOD /\ KickThreshold mod PERIOD = 0 /\
  DEFAULT_RETENTION_PERIOD = 14 * DAYS /\ DAYS * MILLISECS_PER_BLOCK = 24 * 60 * 60 * 1000.
Proof. done. Qed.

(** Deposits fit the balance type, cost more for more, and are a hundredth of the relay
    chain's without a remainder. *)
Lemma deposit_exact items bytes : deposit items bytes * 100 = relay_deposit items bytes.
Proof.
  unfold deposit, relay_deposit. change relay_DOLLARS with 10000000000. change relay_MILLICENTS with 100000.
  rewrite Z.mul_comm. symmetry. apply Z.div_exact; [done|].
  replace (items * 20 * 10000000000 + bytes * 100 * 100000) with ((items * 2000000000 + bytes * 100000) * 100) by lia.
  apply Z.mod_mul. done.
Qed.

Lemma deposit_fits items bytes :
  is_u32 items -> is_u32 bytes -> 0 <= relay_deposit items bytes <= u128_max.
Proof.
  unfold relay_deposit, is_u32, u32_max, u128_max. change relay_DOLLARS with 10000000000.
  change relay_MILLICENTS with 100000. lia.
Qed.

Lemma deposit_monotone i b i' b' : i <= i' -> b <= b' -> deposit i b <= deposit i' b'.
Proof.
  intros Hi Hb. pose proof (deposit_exact i b). pose proof (deposit_exact i' b'). unfold relay_deposit in *.
  change relay_DOLLARS with 10000000000 in *. change relay_MILLICENTS with 100000 in *. lia.
Qed.

Section FeeFacts.
Context `{FeeLaws}.

(** Ten kilobytes of proof are a cent, exactly, and every size is charged at that rate. *)
Lemma proof_fee_exact n :
  0 <= n <= u64_max -> polynomial_eval proof_size_polynomial n = 10000 * n.
Proof.
  intros Hn. unfold proof_size_polynomial. change (CENTS mod 10000) with 0. change (CENTS / 10000) with 10000.
  pose proof (from_rational_down 0 10000 ltac:(lia)). assert (from_rational 0 10000 = 0) as -> by lia.
  destruct (eval_linear 0 10000 n) as (r & -> & Hr & Hr0); [lia..|]. unfold u64_max, u128_max in *. lia.
Qed.

Corollary cent_of_proof : polynomial_eval proof_size_polynomial 10000 = CENTS.
Proof. by rewrite proof_fee_exact by (unfold u64_max; lia). Qed.

(** FRAME's base weight costs a hundredth of a cent, up to rounding: a tenth of the relay
    chain's tenth of a cent, not a hundredth of it. *)
Lemma base_fee :
  let fee := polynomial_eval ref_time_polynomial frame_ExtrinsicBaseWeight in
  Z.abs (fee - CENTS / 100) <= 2 /\ 9 * (CENTS / 1000) < fee.
Proof.
  pose proof base_weight_range as Hb. set (b := frame_ExtrinsicBaseWeight) in *. cbv zeta. unfold ref_time_polynomial. fold b.
  set (p := CENTS mod (100 * b)). set (i := CENTS / (100 * b)).
  pose proof (Z.div_mod CENTS (100 * b) ltac:(lia)) as Hd. fold p i in Hd.
  pose proof (Z.mod_pos_bound CENTS (100 * b) ltac:(lia)) as Hm. fold p in Hm.
  pose proof (from_rational_down p (100 * b) ltac:(lia)) as Hf. set (f := from_rational p (100 * b)) in *.
  assert (0 <= f <= 10 ^ 9) as Hf0 by nia.
  assert (0 <= i) as Hi by (apply Z.div_pos; [done|lia]).
  destruct (eval_linear f i b) as (r & -> & Hr & Hr0); [lia..|].
  assert (100 * (f * b) <= p * 10 ^ 9 < 100 * (f * b) + 100 * b) as Hfb by lia.
  assert (100 * (i * b) + p = CENTS) as Hc by lia. change CENTS with 100000000 in *.
  change (100000000 / 100) with 1000000. change (100000000 / 1000) with 100000.
  set (x := i * b) in *. set (y := f * b) in *. unfold u128_max. lia.
Qed.

(** The fee of a weight covers both of its parts. *)
Lemma weight_fee_covers `{WeightHost} w :
  polynomial_eval ref_time_polynomial (ref_time w) <= weight_to_fee w /\
  polynomial_eval proof_size_polynomial (proof_size w) <= weight_to_fee w.
Proof. unfold weight_to_fee. lia. Qed.

(** The length of the largest store costs about ten units when it is not feeless. *)
Lemma largest_store_length_fee :
  length_to_fee DEFAULT_MAX_TRANSACTION_SIZE = 104857600000 /\
  10 * UNITS < length_to_fee DEFAULT_MAX_TRANSACTION_SIZE < 11 * UNITS.
Proof.
  unfold length_to_fee, DEFAULT_MAX_TRANSACTION_SIZE. rewrite multiplier_saturates by (vm_compute; done).
  unfold TRANSACTION_BYTE_FEE, MILLICENTS, CENTS, UNITS, u128_max. vm_compute. done.
Qed.
End FeeFacts.

Section MessageRoom.
Context `{WeightLaws} `{Config}.
Hypothesis max_transactions : MaxBlockTransactions = DEFAULT_MAX_BLOCK_TRANSACTIONS.

(** The mandatory work of the fullest block and all the message queue may use fit a
    block together. *)
Lemma mandatory_work_leaves_room_for_messages SW RW maximum :
  TwoSeconds maximum -> (SW, RW) ∈ runtime_tables ->
  all_lte (w_on_initialize_with_expiry SW MaxBlockTransactions ⊕ w_apply_block_inherents SW
           ⊕ w_process_pending_renewals RW MaxBlockTransactions ⊕ MessageQueueServiceWeight maximum) maximum = true.
Proof.
  intros seconds [_ [I1 I2] _ [E1 E2] _ _ [D1 D2]]%tables_bounded. destruct seconds as [Ht Hp].
  rewrite (full_block max_transactions). unfold MessageQueueServiceWeight.
  pose proof (ref_time_percent 35 maximum ltac:(lia)). pose proof (proof_size_percent 35 maximum ltac:(lia)).
  rewrite all_lte_spec, andb_true_iff, !Z.leb_le. autorewrite with weight. rewrite Ht in *. bound_sats. lia.
Qed.
End MessageRoom.

(** The laws can hold: exact evaluation, rounding down. *)
Definition exact_fees : FeeHost := {|
  from_rational p q := p * 10 ^ 9 / q;
  polynomial_eval cs x :=
    Z.min u128_max (foldr (fun c acc => coeff_integer c * x + coeff_frac c * x / 10 ^ 9 + acc) 0 cs);
  constant_multiplier c x := Z.min u128_max (c * x);
  frame_ExtrinsicBaseWeight := 10 ^ 8 |}.

Lemma exact_fees_lawful : FeeLaws (H := exact_fees).
Proof.
  split; simpl.
  - intros p q Hq. pose proof (Z.div_mod (p * 10 ^ 9) q ltac:(lia)).
    pose proof (Z.mod_pos_bound (p * 10 ^ 9) q ltac:(lia)). lia.
  - intros frac int x Hf Hi Hx. exists (frac * x / 10 ^ 9). split; [by rewrite Z.add_0_r|].
    pose proof (Z.div_mod (frac * x) (10 ^ 9) ltac:(lia)). pose proof (Z.mod_pos_bound (frac * x) (10 ^ 9) ltac:(lia)).
    split; [lia|]. apply Z.div_pos; nia.
  - done.
  - lia.
Qed.
