(* ===== verification/StressTheorems.v ===== *)
(** The property of the stress-test tool's reader: it finds what the pallet stores. *)

From S2P Require Import Prelude Slice Primitives Types State Authorizations Blocks Hop Codec Stress Runtime Mock MigrationTheorems.

Section Reader.
Context `{HostLaws} `{ScaleLaws} `{!ReaderHost} `{!ReaderLaws} `{!Config} `{!ConfigLaws}.

(** A sealed block as the storage iterator yields it: the key ends in the block number,
    the value is the encoded vector. *)
Definition storage_entry (e : bytes * BlockNumber * list TransactionInfoFor) : option (bytes * bytes) :=
  Some (e.1.1 ++ le_bytes 4 e.1.2, enc info_vec_codec e.2).

Definition entry_ok (e : bytes * BlockNumber * list TransactionInfoFor) : Prop :=
  (32 <= length e.1.1)%nat /\ is_u32 e.1.2 /\ infos_ok e.2.

(** Every entry of the blocks, with its block number. *)
Definition numbered (blocks : list (bytes * BlockNumber * list TransactionInfoFor)) : list (BlockNumber * TransactionInfoFor) :=
  concat (map (fun e => map (pair e.1.2) e.2) blocks).

Lemma read_blocks blocks :
  Forall entry_ok blocks ->
  Forall2 (fun p => describes p.1 p.2) (numbered blocks) (concat (map read_entry (map storage_entry blocks))).
Proof.
  induction 1 as [|[[prefix b] l] blocks (Hp & Hb & Hl) Hr IH]; [constructor|]. simpl in Hp, Hb, Hl.
  cbn [numbered map concat storage_entry read_entry fst snd]. apply Forall2_app; [|exact IH].
  rewrite key_block_number_suffix by done. destruct (decode_infos b l Hl) as (items & Hd & -> & _).
  by apply Forall2_fmap_l.
Qed.

(** C35: The bulk reader finds what the chain stores.  It decodes raw storage with a
    decoder of its own; scanning sealed blocks it returns, in order, exactly the
    entries of the blocks it read whose size is in the range asked for, each with the
    block number of its key, its fields and the CID the pallet's own types give it; it
    reads every block unless the bytes found have reached the target, and reports an
    error exactly when nothing matches.  A value cut short yields the entries that are
    complete and nothing else. *)
Theorem reader_finds_what_the_chain_stores target lo hi blocks :
  Forall entry_ok blocks ->
  (exists n read, Forall2 (fun p => describes p.1 p.2) (numbered (take n blocks)) read /\
     let found := List.filter (size_matches lo hi) read in
     discover_cids target lo hi (map storage_entry blocks) = (if decide (found = []) then None else Some found) /\
     ((length blocks <= n)%nat \/ target <= size_sum found)) /\
  (forall e k, e ∈ blocks ->
     decode_transaction_infos (enc compact_codec (len e.2) ++ take k (concat (map (enc info_codec) e.2))) e.1.2
       = take (k / 86)%nat (decode_transaction_infos (enc info_vec_codec e.2) e.1.2)).
Proof.
  intros Hok. split.
  - destruct (discover_loop_spec target lo hi (map storage_entry blocks) [] 0 0) as [n Hn]. cbv zeta in Hn.
    rewrite firstn_map in Hn.
    exists n, (concat (map read_entry (map storage_entry (take n blocks)))).
    split; [by apply read_blocks, Forall_take|]. cbv zeta. unfold discover_cids.
    set (found := List.filter _ _) in *.
    destruct (discover_loop _ _ _ _ _) as [[items total] skipped]. destruct Hn as (-> & -> & Hn). simpl app.
    rewrite length_map in Hn. split; [|destruct Hn; [by left|right; lia]].
    destruct found; [by rewrite decide_True|by rewrite decide_False].
  - intros e k He. rewrite Forall_forall in Hok. destruct (Hok e He) as (_ & _ & Hl).
    destruct (decode_infos e.1.2 e.2 Hl) as (items & _ & -> & Hk). apply Hk.
Qed.
End Reader.

(** ** A concrete reader *)

#[export] Instance mock_reader : ReaderHost := {|
  compact_u64 := le_codec 4;
  Multihash64 := Z * bytes;
  Multihash64_wrap code digest := if bool_decide (length digest <= 64)%nat then Some (code, digest) else None;
  LongCid := Z * (Z * bytes);
  LongCid_new_v1 codec mh := (codec, mh);
  LongCid_to_bytes := CidGeneric_to_bytes |}.

#[export] Instance mock_reader_laws : ReaderLaws.
Proof.
  constructor.
  - intros n rest Hn. apply le_codec_round. unfold is_u32, u32_max in Hn. lia.
  - intros code digest Hd. simpl. rewrite bool_decide_eq_true_2 by done. by eexists.
  - intros codec code digest mh mh'. simpl. repeat case_bool_decide; try done. by intros [= <-] [= <-].
Qed.

Definition mock_blocks : list (bytes * BlockNumber * list TransactionInfoFor) :=
  [(replicate 48 (byte_of_Z 7), 30, [new_entry; new_entry])].

Lemma mock_blocks_ok : Forall entry_ok mock_blocks.
Proof. apply Forall_singleton. split; [simpl; lia|]. split; [by vm_compute|apply new_entry_ok]. Qed.

Lemma reader_finds_what_the_chain_stores_witness :
  (exists n read, Forall2 (fun p => describes p.1 p.2) (numbered (take n mock_blocks)) read /\
     let found := List.filter (size_matches 1 4096) read in
     discover_cids 10000 1 4096 (map storage_entry mock_blocks) = (if decide (found = []) then None else Some found) /\
     ((length mock_blocks <= n)%nat \/ 10000 <= size_sum found)) /\
  discover_cids 10000 2001 4096 (map storage_entry mock_blocks) = None.
Proof.
  split; [|by vm_compute].
  exact (proj1 (reader_finds_what_the_chain_stores 10000 1 4096 mock_blocks mock_blocks_ok)).
Defined.
