(* ===== verification/LoadTheorems.v ===== *)
(** Properties of the stress-test tool's load generation: the authorized work stream,
    the concurrent one-shot uploader and its monitors, the sequential uploader. *)

From Stdlib Require Import Ascii.
From stdpp Require Import pretty.
From S2P Require Import Prelude Slice Primitives Types StressPlan Submission Upload BulkStore.

Section Stream.
Context `{KeyHost}.
Context (generate_payload : Keypair -> Z -> bytes) (blake2b_256 : bytes -> bytes).
Context (sign_store : Keypair -> bytes -> option bytes) (draws : Z -> nat -> Z).
Context (arrival : list StressWorkItem -> list StressWorkItem).

(** The secret URIs of a run's accounts. *)
Definition run_uris (total max : Z) (seed : string) : list string :=
  concat (map plan_uris (build_iteration_plans total max seed)).

(** What the work of one item is. *)
Definition item_well_formed (mode : StorePayloadMode) (i : StressWorkItem) : Prop :=
  match i with
  | Authorize batches => exists b, batches = [b] /\ 0 < len b <= AUTHORIZE_BATCH_SIZE
  | AwaitPendingAuth => True
  | StoreItem account encoded hash =>
      exists kp size, account = to_account_id32 kp /\ size <= authorize_bytes_per_account mode /\
        sign_store kp (generate_payload kp size) = Some encoded /\ hash = blake2b_256 (generate_payload kp size)
  end.

Lemma item_ok_well_formed mode i :
  mode_ok mode -> item_ok generate_payload blake2b_256 sign_store mode i -> item_well_formed mode i.
Proof.
  intros Hm. destruct i as [bs| |a x h]; simpl; [done..|]. intros (kp & s & Hs & Hi).
  exists kp, s. unfold store_work_item in Hi. destruct (sign_store kp _) eqn:E; simplify_eq/=.
  split_and!; [done|by apply authorized_covers|done|done].
Qed.

Lemma run_uris_spec total max seed :
  0 <= total -> 
  NoDup (run_uris total max seed) /\ len (run_uris total max seed) = total.
Proof.
  intros Ht. unfold run_uris, build_iteration_plans.
  destruct (plans_loop_spec (Z.to_nat total) (Z.max max 1) seed 0 total) as [Hc Hs]; [lia..|].
  destruct (plans_loop _ _ _ _ _) as [|p plans] eqn:E; [split; [constructor|done]|].
  split; [by apply (uris_nodup (Z.max max 1) seed 0)|]. rewrite <-Hs. clear -Hc. revert Hc. generalize 0 as offset. generalize (p :: plans) as l.
  induction l as [|q l IH]; intros offset; [done|]. intros (_ & Hn & Hc). cbn [map concat count_sum foldr].
  specialize (IH _ Hc). unfold len in *. unfold count_sum in IH. rewrite length_app, <-IH. unfold plan_uris at 1. rewrite length_map, length_seqZ. lia.
Qed.

Lemma work_spec total max seed mode items ok :
  (forall l, arrival l ≡ₚ l) -> 0 <= total -> max <= u32_max -> mode_ok mode ->
  generate_block_capacity_work generate_payload blake2b_256 sign_store draws arrival
    (build_iteration_plans total max seed) mode = (items, ok) ->
  exists done rest, run_uris total max seed = done ++ rest /\ (ok = true -> rest = []) /\
    accounts_of items ≡ₚ map account_of_uri done /\ Forall (item_well_formed mode) items /\
    forall k, exists st, read_items reader_start (take k items) = Some st /\ dispatched st ⊆ awaited st.
Proof.
  intros Hp Ht Hmax Hm. unfold generate_block_capacity_work, run_uris, build_iteration_plans.
  destruct (plans_loop_spec (Z.to_nat total) (Z.max max 1) seed 0 total) as [Hc Hs]; [lia..|].
  destruct (plans_loop _ _ _ _ _) as [|p plans] eqn:E.
  { intros [= <- <-]. exists [], []. split_and!; try done. intros k. exists reader_start. by rewrite take_nil. }
  destruct (forallb _ _) eqn:Ef.
  { simpl in Ef. apply andb_true_iff in Ef as [Ef _]. destruct Hc as (_ & Hn & _). b2p. lia. }
  intros Hg. destruct (plan_batches_cover (Z.max max 1) seed 0 (p :: plans)) as [Hcat Hall]; [done|unfold u32_max in *; lia|].
  destruct (generate_ok _ _ _ _ _ Hp mode 0 _ items ok Hm Hall Hg) as (pre & post & Hb & Hok & Hacc & Hit & Hread).
  exists (concat (map batch_uris pre)), (concat (map batch_uris post)). split_and!.
  - rewrite <-Hcat, Hb, map_app, concat_app. done.
  - intros ->%Hok. done.
  - done.
  - eapply Forall_impl; [exact Hit|]. intros i. by apply item_ok_well_formed.
  - intros k. by apply Hread.
Qed.

(** Every beginning of the work is read with each store behind its authorization. *)
Lemma stream_authorized_first total max seed mode items ok :
  (forall l, arrival l ≡ₚ l) ->
  0 <= total -> max <= u32_max -> mode_ok mode ->
  (forall u u', u ∈ run_uris total max seed -> u' ∈ run_uris total max seed -> account_of_uri u = account_of_uri u' -> u = u') ->
  generate_block_capacity_work generate_payload blake2b_256 sign_store draws arrival
    (build_iteration_plans total max seed) mode = (items, ok) ->
  (forall k, exists st, read_items reader_start (take k items) = Some st /\
     dispatched st ⊆ awaited st /\ NoDup (dispatched st)) /\
  Forall (item_well_formed mode) items /\
  (ok = true -> accounts_of items ≡ₚ map account_of_uri (run_uris total max seed) /\ len (accounts_of items) = total).
Proof.
  intros Hp Ht Hmax Hm Hinj Hg.
  destruct (run_uris_spec total max seed Ht) as [Hnd Hlen].
  destruct (work_spec _ _ _ _ _ _ Hp Ht Hmax Hm Hg) as (dn & rest & Hu & Hok & Hacc & Hit & Hread).
  assert (NoDup (accounts_of items)) as Hna.
  { rewrite Hacc. apply (NoDup_fmap_2_strong account_of_uri).
    - intros x y Hx Hy. apply Hinj; rewrite Hu; apply elem_of_app; by left.
    - rewrite Hu in Hnd. by apply NoDup_app in Hnd as [? _]. }
  split_and!.
  - intros k. destruct (Hread k) as (st & Hr & Hd). exists st. split_and!; [done|done|].
    rewrite (read_items_dispatched _ _ _ Hr). cbn [reader_start dispatched app].
    rewrite <-(take_drop k items), accounts_of_app in Hna. by apply NoDup_app in Hna as [? _].
  - done.
  - intros ->%Hok. rewrite app_nil_r in Hu. rewrite Hu. split; [done|].
    unfold len. rewrite (Permutation_length Hacc), length_map, <-Hu. exact Hlen.
Qed.
End Stream.

(** ** The sequential upload *)

Section Sequential.
Context (sign_store_at : Z -> bytes -> Z * bytes -> option bytes) (hasher : bytes -> bytes).
Context (finalized_anchor : option (Z * bytes)) (limits : ChainLimits) (payloads : list bytes) (start_nonce : Z).

(** Every wave signed so far starts at the start nonce or a reported one, in the order of
    the reports, and carries each payload at its own nonce, as many as fit a block; no
    more is counted as submitted than was signed. *)
Definition uploads_in_order (fed : list Z) (s : SeqState) : Prop :=
  start_nonce <= finalized_nonce s /\ start_nonce <= best_nonce s /\ waves_submitted s <= len fed /\
  exists ns, ns `sublist_of` fed /\
    Forall2 (wave_from sign_store_at hasher limits payloads start_nonce) ns (sq_waves s) /\
    0 <= total_submitted s <= wave_total (sq_waves s).

(** The blocks' counts and bytes are those of the payloads between two nonces. *)
Definition scan_adds_up (scan : Z -> ScanAnswer) (numbers : list Z) (blocks : list BlockStats) : Prop :=
  map bs_number blocks `sublist_of` numbers /\ 0 <= tx_sum blocks /\
  bytes_sum blocks = bytes_until payloads (Z.min (tx_sum blocks) (len payloads)) /\
  (Exists (fun b => usable (scan b) = true /\ exists n, sc_nonce (scan b) = Some n /\ start_nonce + len payloads <= n) numbers ->
   len payloads <= tx_sum blocks /\ bytes_sum blocks = bytes_until payloads (len payloads)).

Lemma scan_range_adds_up scan numbers :
  payloads <> [] -> nonces_grow scan numbers start_nonce ->
  exists blocks, scan_loop payloads start_nonce scan numbers start_nonce = Some blocks /\ scan_adds_up scan numbers blocks.
Proof.
  intros Hne Hg. assert (0 < len payloads) by (unfold len; destruct payloads; [done|cbn; lia]).
  destruct (scan_spec payloads start_nonce scan numbers start_nonce Hg) as (bs & last & -> & Hl & Ht & Hb & Hs & He); [lia|].
  exists bs. split; [done|]. assert (bytes_until payloads (start_nonce - start_nonce) = 0) as Hz
    by (rewrite Z.sub_diag; done).
  rewrite Hz, Z.sub_0_r, <-Ht in Hb. split_and!; [done|lia|done|]. intros Hx. specialize (He Hx).
  split; [lia|]. by rewrite Hb, Z.min_r by lia.
Qed.

(** C38: The sequential upload keeps nonces and payloads together.  As long as
    there are payloads, every one fits a block on its own, the limits and sums are within
    their machine types, no reported nonce is below the first and the nonces of the scanned
    blocks do not fall, the upload never panics: waves start at the first nonce and then at reported ones, in
    order; the transaction at nonce [n] always carries payload [n - start], and a wave
    is never empty and is the longest run that fits the block limits.  No more is counted
    as submitted than was signed, a finalized nonce at the end stops the loop, and the
    scan of the finalized blocks attributes to them the counts and bytes of exactly the
    payloads up to the last nonce seen.  On payloads of one size a wave is the estimated
    block capacity.  A node that reports a nonce below the first one makes the upload
    panic. *)
Theorem sequential_upload_keeps_its_order io events start_fin scan :
  payloads <> [] -> limits_ok limits payloads -> Forall (fun p => fits limits [p]) payloads ->
  0 <= start_nonce -> start_nonce + len payloads <= u64_max ->
  (forall l, wave_arrival io l ≡ₚ l) -> Forall (event_ok start_nonce) events ->
  (forall last, nonces_grow scan (seqZ start_fin (last - start_fin + 1)) start_nonce) ->
  let fed := start_nonce :: omap (fed_nonce payloads start_nonce) events in
  match sequential_nonce_upload sign_store_at hasher finalized_anchor limits payloads start_nonce io events start_fin scan with
  | Panicked => False
  | SigningFailed => True
  | StillRunning s => uploads_in_order fed s /\ ~ Exists (completes payloads start_nonce) events
  | Uploaded r => exists s, uploads_in_order fed s /\
      sr_total_submitted r = total_submitted s /\ sr_waves_submitted r = waves_submitted s /\
      sr_total_confirmed r = Z.max (finalized_nonce s) (best_nonce s) - start_nonce /\
      (if start_fin <? end_finalized_block s
       then scan_adds_up scan (seqZ start_fin (end_finalized_block s - start_fin + 1)) (sr_blocks r)
       else sr_blocks r = [])
  end /\
  (forall n p cap from, payloads = replicate n p -> 0 <= from < Z.of_nat n -> estimate_block_capacity limits (len p) = Some cap ->
     compute_batch_end limits payloads from = Some (Z.min (Z.of_nat n) (from + cap))) /\
  (forall s now number hash n io', n < start_nonce ->
     best_step sign_store_at hasher finalized_anchor limits payloads start_nonce s now number hash (Some n) io' = Panic).
Proof.
  intros Hne Hlim Halone Hs0 Hend Hperm Hev Hscan fed. split_and!.
  - unfold sequential_nonce_upload.
    destruct (initial_ok sign_store_at hasher finalized_anchor limits payloads start_nonce Hlim Halone Hs0 Hend io Hne Hperm)
      as (b & s0 & -> & Hf0 & Hb0 & Ha0 & _). destruct b; [|done].
    destruct (loop_ok sign_store_at hasher finalized_anchor limits payloads start_nonce Hlim Halone Hs0 Hend events s0 Hev)
      as (s & Hs & Ha & Hc).
    assert (uploads_in_order fed s) as Hord.
    { pose proof (advances_trans _ _ _ _ _ _ _ _ _ _ Ha0 Ha) as (Hf & Hb & Hw & ns & ws & Hsub & Hn & Hq & Ht).
      cbn in Hf, Hb, Hw, Hq, Ht. split_and!; [done|by apply Hb|done|].
      exists ns. rewrite Hq. split_and!; [done|done|lia|lia]. }
    destruct Hs as [Hs|Hs].
    + rewrite Hs. split; [done|]. intros Hx%Hc. congruence.
    + rewrite Hs. unfold seq_finish. destruct Hord as (Hf & Hb & Hrest).
      destruct (start_fin <? end_finalized_block s) eqn:E; cbn [mbind option_bind].
      * destruct (scan_range_adds_up scan (seqZ start_fin (end_finalized_block s - start_fin + 1)) Hne) as (bs & -> & Hbs);
          [apply Hscan|]. cbn [mbind option_bind]. exists s. rewrite E. cbn. split_and!; try done. unfold sat_sub. lia.
      * exists s. rewrite E. cbn. split_and!; try done. unfold sat_sub. lia.
  - intros n p cap from -> Hfrom He. by apply uniform_batches.
  - intros s now number hash n io' Hn. unfold best_step, expected_final.
    rewrite (proj2 (Z.leb_gt _ n)) by (pose proof (len_nonneg payloads); lia).
    unfold checked_sub. rewrite (proj2 (Z.leb_gt start_nonce n)) by lia. done.
Qed.
End Sequential.

(** ** The one-shot uploader *)

Section OneShot.
Context `{KeyHost}.

Lemma ends_total s :
  ends is_stored s + ends is_stale s + ends is_error s + ends is_dropped s + ends is_imported s
    + ends is_abandoned s + ends is_retriable_end s = len (finished s).
Proof.
  unfold ends, len. induction (finished s) as [|[it e] l IH]; [done|]. cbn [List.filter snd length].
  destruct e as [|[]|]; cbn [is_stored is_stale is_error is_dropped is_imported is_abandoned is_retriable_end retriable length]; lia.
Qed.

(** C36: The one-shot uploader accounts for every item, when every item has an account of
    its own, as the one-shot mode has it.  In every interleaving of
    submitters, monitor and main task, with whatever answers and reconnects, each item is
    in the queue, with one submitter, or has left once; accounts are only used at the
    nonce read at the start, retries included; the counters of submissions, stale nonces
    and errors match what happened; submitters are stopped early only after the target
    number of measured blocks.  When all have ended, queue and finished items make up the
    work, and unless stopped early or one gave up on its connection the queue is empty
    and the result's counters, with dropped and already imported transactions, add up to
    the work. *)
Theorem one_shot_items_are_accounted_for account_nonce target submitters items st :
  NoDup (map item_account items) -> (forall a n, account_nonce a = Some n -> 0 <= n) ->
  rtc (bulk_step target) (bulk_start account_nonce target submitters items) st ->
  let s := shared st in
  items ≡ₚ account_queue s ++ map fst (omap holding (workers st)) ++ map fst (finished s) /\
  Forall (fun p => p.2 = first_nonce account_nonce p.1) (attempts s) /\
  submitted s = ends is_stored s /\ stale_nonces s = ends is_stale s /\ errors s = ends is_error s + gave_up s /\
  (stop s = true -> forallb exited (workers st) = true \/ exists limit, target = Some limit /\ limit <= measured s) /\
  (forallb exited (workers st) = true ->
     let r := bulk_result (batch_init_nonces account_nonce ∅ (map item_account items)).2 s in
     br_nonces_initialized r + br_nonces_failed r = len items /\
     br_remaining_in_queue r + len (finished s) = len items /\
     (stop s = false -> gave_up s = 0 ->
        items ≡ₚ map fst (finished s) /\ br_remaining_in_queue r = 0 /\
        br_total_submitted r + br_stale_nonces r + br_total_errors r + ends is_dropped s + ends is_imported s = len items)).
Proof.
  intros Hnd Hpos Hr s.
  assert (forall a, 0 <= first_nonce account_nonce a) as Hfirst.
  { intros a. unfold first_nonce. destruct (account_nonce a) eqn:E; cbn; [by eapply Hpos|lia]. }
  pose proof (inv_reachable _ _ _ Hnd Hfirst _ _ (inv_start account_nonce target submitters items) Hr) as
    [[Hp Hn] Ha Hsub Hst Her Hre Hrun Hal Hg Ht Hb].
  fold s in Hp, Ha, Hsub, Hst, Her, Hre, Hrun, Hal, Hg, Ht. unfold owned in Hp. rewrite map_app, map_map, map_id, <-(assoc_L (++)) in Hp.
  split_and!; try done. intros Hall. rewrite (all_exited_idle _ Hall) in Hp. cbn in Hp.
  assert (len (account_queue s) + len (finished s) = len items) as Hlen
    by (unfold len; rewrite (Permutation_length Hp), length_app, length_map; lia).
  split_and!; [|done|].
  - destruct (batch_init_spec account_nonce (map item_account items) ∅ 0 0) as [_ H2]. etrans; [exact H2|].
    unfold len. rewrite length_map. lia.
  - intros Hs Hg0. assert (account_queue s = []) as Hq.
    { destruct (account_queue s) eqn:E; [done|]. rewrite (Hal Hs Hg0) in Hall by done. done. }
    rewrite Hq in Hp, Hlen. cbn. rewrite Hq. split_and!; [done|done|].
    pose proof (ends_total s). specialize (Hrun Hs). unfold len in Hlen. cbn in Hlen. unfold len in *. lia.
Qed.
End OneShot.

(** ** Concrete runs *)

#[export] Instance mock_keys : KeyHost := {|
  Keypair := string;
  from_uri := fun u => u;
  to_account_id32 := String.list_byte_of_string |}.

Lemma mock_account_inj u u' : account_of_uri u = account_of_uri u' -> u = u'.
Proof.
  unfold account_of_uri, to_account_id32, from_uri, mock_keys. intros E%(f_equal String.string_of_list_byte).
  by rewrite !String.string_of_list_byte_of_string in E.
Qed.

Definition mock_payload (kp : string) (n : Z) : bytes := replicate (Z.to_nat n) Byte.x01.

Definition mock_work : list StressWorkItem * bool :=
  @generate_block_capacity_work mock_keys mock_payload (fun d => d) (fun kp d => Some (Byte.x02 :: d)) (fun _ _ => 0) (@reverse _)
    (build_iteration_plans 3 2 "seed") (FixedPayload 4).

Definition mock_limits : ChainLimits := mkLimits 100 1 1000 512 1000 10 5 20.

Definition mock_payloads : list bytes := replicate 3 (replicate 8 Byte.x01).

Definition mock_wave : WaveIO := mkWave 1 (fun _ _ => None) (fun l => l).

Definition mock_scan (b : Z) : ScanAnswer := mkScan (Some [Byte.x01]) (Some (7 + Z.min 3 (Z.max 0 (b - 10)))) None 0.

Definition mock_events : list SeqEvent :=
  [BestBlock 1 11 [Byte.x01] (Some 9) mock_wave; NoEvents; FinalizedBlock 13 (Some 10)].

(** Three payloads of which two fit a block, from nonce 7: two waves, all finalized. *)
Lemma sequential_upload_keeps_its_order_witness :
  match sequential_nonce_upload (fun n p _ => Some (byte_of_Z n :: p)) (fun d => d) (Some (1, [])) mock_limits mock_payloads 7
          mock_wave mock_events 10 mock_scan with
  | Uploaded r => sr_total_submitted r = 3 /\ sr_total_confirmed r = 3 /\ sr_waves_submitted r = 2 /\
                  tx_sum (sr_blocks r) = 3 /\ bytes_sum (sr_blocks r) = 24
  | _ => False
  end /\ compute_batch_end mock_limits mock_payloads 1 = Some 3.
Proof.
  destruct (sequential_upload_keeps_its_order (fun n p _ => Some (byte_of_Z n :: p)) (fun d => d) (Some (1, []))
    mock_limits mock_payloads 7 mock_wave mock_events 10 mock_scan) as (_ & H2 & _).
  - done.
  - unfold limits_ok. split_and!; [vm_compute; done..|]. repeat (constructor; [vm_compute; done|]). constructor.
  - repeat (constructor; [vm_compute; done|]). constructor.
  - lia.
  - vm_compute. done.
  - done.
  - repeat constructor; try done. intros n [= <-]. lia.
  - intros last. assert (forall l prev, (forall b, b ∈ l -> prev <= 7 + Z.min 3 (Z.max 0 (b - 10))) ->
      (forall i j a b, l !! i = Some a -> l !! j = Some b -> (i <= j)%nat -> a <= b) -> nonces_grow mock_scan l prev) as Hg.
    { induction l as [|x l IH]; intros prev Hp Ho; [done|]. cbn. split; [apply Hp; by left|]. apply IH.
      - intros b Hb. apply list_elem_of_lookup in Hb as [j Hj]. specialize (Ho 0%nat (S j) x b eq_refl Hj ltac:(lia)). lia.
      - intros i j a b Hi Hj Hij. apply (Ho (S i) (S j) a b); [done|done|lia]. }
    apply Hg.
    + intros b _. lia.
    + intros i j a b Hi Hj Hij. apply lookup_seqZ in Hi as [-> _], Hj as [-> _]. lia.
  - split; [vm_compute; done|]. apply (H2 3%nat (replicate 8 Byte.x01) 2 1); [done|lia|vm_compute; done].
Defined.

(** Running submitter steps from a schedule of choices. *)
Fixpoint run_schedule (target : option Z) (st : Bulk) (schedule : list (nat * Choice)) : option Bulk :=
  match schedule with
  | [] => Some st
  | (i, c) :: schedule' =>
      w ← workers st !! i;
      r ← worker_step (bool_decide (is_Some target)) c (shared st) w;
      run_schedule target (mkBulk r.1 (<[i := r.2]> (workers st)) (monitor st)) schedule'
  end.

Lemma run_schedule_rtc target schedule st st' :
  run_schedule target st schedule = Some st' -> rtc (bulk_step target) st st'.
Proof.
  revert st. induction schedule as [|[i c] schedule IH]; intros st; cbn; [intros [= ->]; constructor|].
  destruct (workers st !! i) as [w|] eqn:Ew; cbn; [|done].
  destruct (worker_step _ c (shared st) w) as [[s' w']|] eqn:Es; cbn; [|done]. intros Hr.
  eapply rtc_l; [by eapply step_worker|]. by apply IH.
Qed.

Definition mock_items : list (WorkItem (H := mock_keys)) := [("a"%string, [Byte.x01]); ("b"%string, [Byte.x02])].

(** The first item meets a full pool and is retried; both are accepted in the end. *)
Definition mock_schedule : list (nat * Choice) :=
  map (pair 0%nat)
    [Go; Go; Go; Answer (Some PoolFull); Go; Go; Go; Go;
     Go; Go; Go; Answer None; Go; Go; Go; Go; Answer None; Go; Go; Go].

Definition mock_final : Bulk :=
  default (bulk_start (fun _ => Some 4) None 1 mock_items)
    (run_schedule None (bulk_start (fun _ => Some 4) None 1 mock_items) mock_schedule).

Lemma one_shot_items_are_accounted_for_witness :
  submitted (shared mock_final) = 2 /\ mock_items ≡ₚ map fst (finished (shared mock_final)) /\
  map snd (attempts (shared mock_final)) = [4; 4; 4].
Proof.
  destruct (one_shot_items_are_accounted_for (fun _ => Some 4) None 1 mock_items mock_final) as (_ & _ & _ & _ & _ & _ & Hdone).
  - apply NoDup_cons_2; [intros Hin%list_elem_of_singleton; vm_compute in Hin; discriminate Hin|apply NoDup_singleton].
  - intros a n [= <-]. lia.
  - apply (run_schedule_rtc None mock_schedule). vm_compute. reflexivity.
  - split_and!; [vm_compute; reflexivity| |vm_compute; reflexivity].
    destruct Hdone as (_ & _ & Hdone); [vm_compute; reflexivity|].
    destruct Hdone as (Hp & _); [vm_compute; reflexivity|vm_compute; reflexivity|]. exact Hp.
Defined.
