(* ===== verification/MonitorTheorems.v ===== *)
(** The property of the pipeline's monitor: finalized blocks are counted once. *)

From S2P Require Import Prelude Slice Primitives Types StressPlan Submission Monitor.

(** C39: The pipeline's monitor counts finalized blocks once.  For every sequence
    of best blocks, finalized numbers and submissions the confirmed count is that of the
    recorded blocks, the numbers of recorded blocks are final and those of pending ones
    above the last final number (hashes are not compared), and the target is only reached
    after as many blocks with stores.  When no best block arrives again once its number is
    final, the recorded numbers are distinct and recorded and pending blocks have the
    number and store count of the last block seen under each number, so when nothing is
    pending the confirmed count is that of exactly those blocks.  Bytes are never counted twice: those found in blocks and those still awaited are at most the
    bytes submitted, and equal to them when no pending number and no content hash
    repeats. *)
Theorem finalized_blocks_are_counted_once target events :
  let st := pipe_run target events in
  confirmed_count st = tx_sum (block_stats st) /\
  (forall n pb, pending st !! n = Some pb -> pb_number pb = n /\ max_finalized st < n) /\
  (forall b, b ∈ block_stats st -> bs_number b <= max_finalized st) /\
  (target_reached st = true -> exists t, target = Some t /\ t <= best_measured_blocks st) /\
  (no_late_repeats target [] events ->
     NoDup (map bs_number (block_stats st)) /\
     map (fun b => (bs_number b, bs_tx_count b)) (block_stats st) ++ map_to_list (pb_tx_count <$> pending st)
       ≡ₚ map_to_list (delivered events target) /\
     (pending st = ∅ -> confirmed_count st = map_sum (delivered events target))) /\
  bytes_sum (block_stats st) + map_sum (pb_payload_bytes <$> pending st) + map_sum (content_hash_map st)
    <= c_submitted_bytes (counters st) /\
  (no_repeats target [] events ->
     bytes_sum (block_stats st) + map_sum (pb_payload_bytes <$> pending st) + map_sum (content_hash_map st)
       = c_submitted_bytes (counters st)).
Proof.
  intros st. destruct (pipe_inv target events) as [[Hk Ha Hc Hb _ _ Ht] Hs]. fold st in Hk, Ha, Hc, Hb, Ht, Hs.
  split_and!; [done| | |done| |exact Hb|].
  - intros n pb Hp. split; [by apply Hk|]. apply Ha. by eexists.
  - intros b Hin. unfold stats_final in Hs. rewrite Forall_forall in Hs. by apply Hs.
  - intros Hl. assert (view st ≡ₚ map_to_list (delivered events target)) as Hv by (by apply (run_view target [] events)).
    split_and!; [by apply view_fst_nodup|exact Hv|]. intros He.
    rewrite Hc, map_sum_list, <-(pair_sum_perm _ _ Hv). unfold view. rewrite He, fmap_empty, map_to_list_empty, app_nil_r.
    apply tx_sum_pairs.
  - intros Hr. by apply (run_bytes target [] events).
Qed.

(** ** Repeats *)

(** The events of a block with one store of the given content hash. *)
Definition stored_event (h : bytes) : option (list (option (string * string * bytes))) :=
  Some [Some ("TransactionStorage", "Stored", replicate 4 Byte.x00 ++ h)].

Definition best_with (n : Z) (hash : bytes) (h : bytes) : PipeEvent :=
  BestArrives (mkBest n hash (stored_event h) (Some (6000 * n)) true None 0).

Definition some_hash : bytes := replicate 32 Byte.x07.

(** A best block that arrives again after its number is final, as a new subscription
    delivers the current best block, is counted twice. *)
Example redelivered_block_counts_twice :
  let st := pipe_run None [best_with 5 [Byte.x01] some_hash; FinalizedArrives 5; best_with 5 [Byte.x01] some_hash] in
  map bs_number (block_stats st) = [5; 5] /\ confirmed_count st = 2 /\
  map_sum (delivered [best_with 5 [Byte.x01] some_hash; FinalizedArrives 5; best_with 5 [Byte.x01] some_hash] None) = 1.
Proof. vm_compute. done. Qed.

(** A store included again by the block that replaces a best block in a reorganization
    has its transaction counted and its bytes lost. *)
Example reorganized_block_loses_bytes :
  let st := pipe_run None [WorkerSubmits 0 (replicate 200 Byte.x01) some_hash [Accepted];
                           best_with 5 [Byte.x01] some_hash; best_with 5 [Byte.x02] some_hash; FinalizedArrives 5] in
  confirmed_count st = 1 /\ c_submitted_bytes (counters st) = 200 /\ bytes_sum (block_stats st) = 0.
Proof. vm_compute. done. Qed.
