(* ===== verification/ToolTheorems.v ===== *)
(** What the stress-test tool's grants do on the chain: the stores it sends find them. *)

From Stdlib Require Import Ascii.
From S2P Require Import Prelude Slice Primitives Types State Authorizations Blocks Retention Checks Renewal RenewalFacts Hop Extension ExtensionFacts Chain ChainFacts Runtime Mock StorageTheorems StressPlan Submission Upload BulkStore AuthorizeTool LoadTheorems.

(** A grantor that passes the authorizer check is not past its own validity. *)
Class AuthorizersCurrent `{Config} : Prop :=
  authorizer_current s o ctx vu : Authorizer s o = Some (Some ctx) -> ao_valid_until ctx = Some vu -> now s < vu.

Lemma allowed_authorizers_current s o ctx vu :
  EnsureAllowedAuthorizers s o = Some (Some ctx) -> ao_valid_until ctx = Some vu -> now s < vu.
Proof.
  unfold EnsureAllowedAuthorizers. destruct o as [[]| |]; try done.
  destruct (AllowedAuthorizers (ts s) !! who) as [b|]; [|done].
  unfold is_expired. destruct (valid_until b) as [t|] eqn:E; [|by intros [= <-]].
  destruct (t <=? now s) eqn:El; [done|]. intros [= <-] [= ->]. b2p. lia.
Qed.

#[export] Instance paseo_authorizers_current `{XcmHost} `{Host} ids cap : @AuthorizersCurrent (paseo_config ids cap).
Proof.
  intros s o ctx vu. cbn. unfold paseo_Authorizer, EitherOf, AsAuthorizer.
  destruct (EnsureRoot o); [done|]. destruct (EnsureXcm _ o); [done|]. apply allowed_authorizers_current.
Qed.

#[export] Instance westend_authorizers_current `{XcmHost} `{Host} : @AuthorizersCurrent westend_config.
Proof.
  intros s o ctx vu. cbn. unfold westend_Authorizer, EitherOf, AsAuthorizer.
  destruct (EnsureRoot o); [done|]. destruct (EnsureXcm _ o); [done|].
  destruct (EnsureSignedBy _ o); [done|]. apply allowed_authorizers_current.
Qed.

Section Grants.
Context `{HostLaws} `{!Config} `{!ConfigLaws} `{!ChunkCapacity} `{!AuthorizerLaws} `{!AuthorizersCurrent} `{!HopHost} `{!RuntimeHost} `{!RuntimeLaws}.

(** An account with a live window for at least [t] transactions and [b] bytes. *)
Definition covered (t b : Z) (s : State) (a : AccountId) : Prop :=
  exists x, get_active_authorization s (Account a) = Some x /\
    t <= transactions_allowance (extent x) /\ b <= bytes_allowance (extent x).

Definition caps_nonneg (s : State) : Prop :=
  forall scope x, Authorizations (ts s) !! scope = Some x ->
    0 <= transactions_allowance (extent x) /\ 0 <= bytes_allowance (extent x).

(** One grant. *)
Lemma one_grant o a t b s s' :
  is_u32 t -> is_u64 b -> 0 <= now s < u32_max -> caps_nonneg s ->
  authorize_account o a t b s = (Ok tt, s') ->
  sys s' = sys s /\ BlockTransactions (ts s') = BlockTransactions (ts s) /\
  exists x, Authorizations (ts s') = <[Account a := x]> (Authorizations (ts s)) /\ expired x (now s) = false /\
    t <= transactions_allowance (extent x) /\ b <= bytes_allowance (extent x) /\
    (Authorizations (ts s) !! Account a = None -> extent x = mkExtent 0 t 0 PermanentExtent_default b).
Proof.
  intros Ht Hb Hn Hc. unfold authorize_account, ensure_authorizer, bind, ensure, ok_or.
  destruct (Authorizer s o) as [auth|] eqn:Ea; [|done]. destruct (0 <? b); [|done]. unfold ret, modify. destruct (authorize (Account a) t b auth s) as [[[]|e] s1] eqn:E; [|done].
  intros [= <-]. pose proof (authorize_frame (Account a) t b auth s) as (A & B & ev & pr & Hs1). rewrite E in Hs1. cbn in Hs1.
  apply authorize_ok_entry in E. subst s1. split_and!; [done|done|].
  eexists. split; [exact E|]. clear E.
  assert (now s < requested_expiry auth s) as Hexp.
  { unfold requested_expiry, grant_expiration, sat_add. pose proof AuthorizationPeriod_range as Hp.
    destruct auth as [ctx|]; [|lia]. destruct (ao_valid_until ctx) as [vu|] eqn:Ev; [|lia].
    pose proof (authorizer_current s o ctx vu Ea Ev). lia. }
  unfold is_u32, is_u64, u32_max, u64_max in *. unfold granted.
  destruct (Authorizations (ts s) !! Account a) as [x|] eqn:Ex.
  - destruct (Hc _ _ Ex) as [Hc1 Hc2]. destruct (expired x (now s)) eqn:Exp; cbn.
    + unfold expired. cbn. split_and!; [|lia|lia|done]. apply Z.leb_gt. lia.
    + split_and!; [|unfold sat_add, u32_max, u64_max; lia..|done]. exact Exp.
  - cbn. unfold expired. cbn. split_and!; [apply Z.leb_gt; lia|lia|lia|done].
Qed.

Lemma caps_nonneg_insert s s' scope x :
  caps_nonneg s -> Authorizations (ts s') = <[scope := x]> (Authorizations (ts s)) ->
  0 <= transactions_allowance (extent x) -> 0 <= bytes_allowance (extent x) -> caps_nonneg s'.
Proof.
  intros Hc He Ht Hb k y. rewrite He, lookup_insert_Some. intros [[<- <-]|[_ Hk]]; [done|by eapply Hc].
Qed.

(** A batch of grants that goes through covers every account of it. *)
Lemma batch_grants o t b accounts s s' :
  is_u32 t -> is_u64 b -> 0 <= now s < u32_max -> caps_nonneg s ->
  mfor (map (fun a => CallAuthorizeAccount a t b) accounts) (dispatch_storage o) s = (Ok tt, s') ->
  now s' = now s /\ BlockTransactions (ts s') = BlockTransactions (ts s) /\
  (forall scope, (forall a, scope = Account a -> a ∉ accounts) ->
     Authorizations (ts s') !! scope = Authorizations (ts s) !! scope) /\
  (forall a, a ∈ accounts -> covered t b s' a) /\
  (NoDup accounts -> forall a, a ∈ accounts -> Authorizations (ts s) !! Account a = None ->
     exists x, Authorizations (ts s') !! Account a = Some x /\ extent x = mkExtent 0 t 0 PermanentExtent_default b).
Proof.
  intros Ht Hb. revert s. induction accounts as [|a accounts IH]; intros s Hn Hc.
  { intros [= <-]. split_and!; try done; [intros a Ha|intros _ a Ha]; by apply elem_of_nil in Ha. }
  cbn [map mfor dispatch_storage]. unfold bind. destruct (authorize_account o a t b s) as [[[]|e] s1] eqn:E; [|done]. intros Hr.
  destruct (one_grant o a t b s s1 Ht Hb Hn Hc E) as (Hsys & Hbt & x & Hx & Hexp & Htx & Hby & Hfresh).
  assert (now s1 = now s) as Hnow by (unfold now; by rewrite Hsys).
  destruct (IH s1) as (Hn' & Hbt' & Hother & Hcov & Hnew); [lia| |done|].
  { apply (caps_nonneg_insert s s1 (Account a) x); [done|done|unfold is_u32, is_u64 in *; lia..]. }
  assert (a ∉ accounts -> Authorizations (ts s') !! Account a = Some x) as Hkeep.
  { intros Hnot. rewrite Hother; [by rewrite Hx, lookup_insert_eq|]. by intros a' [= <-]. }
  split_and!; [congruence|congruence|..].
  - intros scope Hsc. rewrite Hother.
    + rewrite Hx, lookup_insert_ne; [done|]. intros <-. apply (Hsc a eq_refl). by left.
    + intros a' ->. intros Hin. apply (Hsc a' eq_refl). by right.
  - intros a' [->|Hin]%elem_of_cons; [|by apply Hcov]. destruct (decide (a ∈ accounts)) as [Hin|Hnot]; [by apply Hcov|].
    exists x. split; [|done]. unfold get_active_authorization. rewrite (Hkeep Hnot), Hn', Hnow, Hexp. done.
  - intros [Hnot Hnd]%NoDup_cons a' [->|Hin]%elem_of_cons Hnone.
    + exists x. split; [by apply Hkeep|by apply Hfresh].
    + apply Hnew; [done|done|]. rewrite Hx, lookup_insert_ne; [done|]. intros [= ->]. done.
Qed.

(** Grants of the tool's size admit the stores it sends. *)
Lemma grants_admit g s o accounts mode s' :
  genesis_ok g -> reachable g (Extrinsics, s) -> now s < u32_max -> mode_ok mode ->
  mfor (leaf_calls (build_authorize_call accounts 1 (authorize_bytes_per_account mode))) (dispatch_storage o) s = (Ok tt, s') ->
  (forall a data, a ∈ accounts -> data_size_ok (len data) = true -> block_transactions_full s = false ->
     is_ok (validate_signed a (CallStore data) s').1 = true) /\
  (NoDup accounts -> forall a size, a ∈ accounts -> Authorizations (ts s) !! Account a = None -> mode_size mode size ->
     in_budget (post_tx_extent size (account_authorization_extent s' a)) = true).
Proof.
  intros Hg Hr Hn Hm. rewrite build_authorize_call_leaves. intros Hf.
  destruct (reachable_good g Extrinsics s Hg Hr ltac:(done)) as (L & _ & Hpos & _).
  assert (caps_nonneg s) as Hc.
  { intros scope x Hx. destruct L as [[Hi _] _]. destruct (Hi scope x Hx). unfold is_u32, is_u64 in *. lia. }
  assert (is_u64 (authorize_bytes_per_account mode)) as Hb.
  { unfold authorize_bytes_per_account, as_u64, is_u64, u64_max. pose proof (Z.mod_pos_bound
      (sat_add usize_max match mode with FixedPayload n => n | MixedPayload m => max_payload_bytes m end 1024)
      18446744073709551616 ltac:(lia)). lia. }
  destruct (batch_grants o 1 _ accounts s s' ltac:(unfold is_u32, u32_max; lia) Hb ltac:(lia) Hc Hf)
    as (Hnow & Hbt & _ & Hcov & Hfresh). split.
  - intros a data Ha Hd Hbf. destruct (Hcov a Ha) as (x & Hx & _).
    assert (active s' (Account a) = true) as Hact by (unfold active; by rewrite Hx).
    assert (block_transactions_full s' = false) as Hbf' by (unfold block_transactions_full, block_transactions_count in *; by rewrite Hbt).
    unfold validate_signed, bind. rewrite (check_signed_store_eq a (CallStore data) Validate _ _ eq_refl),
      check_signed_store_validate. rewrite Hd, Hbf'. cbn [negb]. unfold charged_scope.
    destruct (active s' (Preimage _)); [done|]. by rewrite Hact.
  - intros Hnd a size Ha Hnone Hs. destruct (Hfresh Hnd a Ha Hnone) as (x & Hx & He).
    destruct (Hcov a Ha) as (x' & Hx' & _). unfold get_active_authorization in Hx'. rewrite Hx in Hx'.
    unfold account_authorization_extent, authorization_extent, get_active_authorization. rewrite Hx.
    destruct (expired x (now s')); [done|]. rewrite He.
    pose proof (authorized_covers mode size Hm Hs) as Hle. pose proof (authorized_positive mode size Hm Hs). destruct Hm as [Hm _]. pose proof (Hm size Hs).
    generalize dependent (authorize_bytes_per_account mode). intros B. intros. apply in_budget_spec.
    cbn. unfold sat_add, usize_max, u32_max, u64_max, is_u64 in *. lia.
Qed.
End Grants.

Section EndToEnd.
Context `{HostLaws} `{!Config} `{!ConfigLaws} `{!ChunkCapacity} `{!AuthorizerLaws} `{!AuthorizersCurrent} `{!HopHost} `{!RuntimeHost} `{!RuntimeLaws} `{!KeyHost}.
Context (generate_payload : Keypair -> Z -> bytes) (blake2b_256 : bytes -> bytes).
Context (sign_store : Keypair -> bytes -> option bytes) (draws : Z -> nat -> Z).
Context (arrival : list StressWorkItem -> list StressWorkItem).

(** C37: Every store is authorized first, with a grant that admits it.  Whatever number
    of accounts, size of iterations, payload mode, signing failures and completion order
    of the signing tasks, every beginning of the generated work is read without the
    reader's assertion failing, and each account it has handed to a worker is one whose
    authorization attempt has ended (a failed one is logged and the stores go out all the
    same), handed out once.  Authorizations come in single batches of 1 to 2048 accounts,
    every store is signed over the payload its content hash names, of a size the grant
    covers, and when signing does not fail every account of the plan gets its store.  An
    attempt ends after eleven submissions at most.  And if the calls of a batch go
    through on the chain, in any reachable state, then every signed store of an account
    of the batch passes validation as long as its size is valid and the block has a slot,
    and a first store of a size of the mode is within the grant, so it keeps its priority
    boost.  The accounts of a run are assumed to differ where their secret URIs do; that
    the URIs differ is proved. *)
Theorem every_store_is_authorized_first total max seed mode items ok :
  (forall l, arrival l ≡ₚ l) ->
  0 <= total -> max <= u32_max -> mode_ok mode ->
  (forall u u', u ∈ run_uris total max seed -> u' ∈ run_uris total max seed -> account_of_uri u = account_of_uri u' -> u = u') ->
  generate_block_capacity_work generate_payload blake2b_256 sign_store draws arrival
    (build_iteration_plans total max seed) mode = (items, ok) ->
  (forall k, exists st, read_items reader_start (take k items) = Some st /\
     dispatched st ⊆ awaited st /\ NoDup (dispatched st)) /\
  Forall (item_well_formed generate_payload blake2b_256 sign_store mode) items /\
  (ok = true -> accounts_of items ≡ₚ map account_of_uri (run_uris total max seed) /\ len (accounts_of items) = total) /\
  (forall authorizer_id accounts answers nonces, MAX_NONCE_RETRIES < len answers ->
     exists b nonces' used, authorize_account_batch authorizer_id accounts answers nonces = (Some b, nonces', used) /\
       len used <= MAX_NONCE_RETRIES + 1) /\
  (forall g s o accounts s',
     genesis_ok g -> reachable g (Extrinsics, s) -> now s < u32_max ->
     mfor (leaf_calls (build_authorize_call accounts 1 (authorize_bytes_per_account mode))) (dispatch_storage o) s = (Ok tt, s') ->
     (forall a data, a ∈ accounts -> data_size_ok (len data) = true -> block_transactions_full s = false ->
        is_ok (validate_signed a (CallStore data) s').1 = true) /\
     (NoDup accounts -> forall a size, a ∈ accounts -> Authorizations (ts s) !! Account a = None -> mode_size mode size ->
        in_budget (post_tx_extent size (account_authorization_extent s' a)) = true)).
Proof.
  intros Hp Ht Hmax Hm Hinj Hg.
  destruct (stream_authorized_first _ _ _ _ _ _ _ _ _ _ _ Hp Ht Hmax Hm Hinj Hg) as (Hread & Hitems & Hall).
  split_and!; [done|done|done| |].
  - intros authorizer_id accounts answers nonces Hl. unfold authorize_account_batch.
    destruct accounts; [exists true, nonces, []; split; [done|vm_compute; done]|].
    destruct (authorize_loop_bound authorizer_id answers 0 nonces) as (b & tr & used & -> & Hu);
      [vm_compute; done|lia|]. exists b, tr, used. split; [done|lia].
  - intros g s o accounts s' Hgen Hr Hnow Hf. by apply (grants_admit g s o accounts mode s').
Qed.
End EndToEnd.

(** ** A concrete run *)

Lemma reach_open1_extrinsics : reachable mock_genesis (Extrinsics, s_open1).
Proof. apply reach_extrinsics, reach_open; [by vm_compute|]. apply reach_genesis. Qed.

Lemma mock_now_small : now s_open1 < u32_max.
Proof. by vm_compute. Qed.

Definition mock_granted : State :=
  (mfor (leaf_calls (build_authorize_call [acc_b; no_hash] 1 (authorize_bytes_per_account (FixedPayload 4))))
     (dispatch_storage (System Root)) s_open1).2.

Lemma mock_granted_ok :
  mfor (leaf_calls (build_authorize_call [acc_b; no_hash] 1 (authorize_bytes_per_account (FixedPayload 4))))
    (dispatch_storage (System Root)) s_open1 = (Ok tt, mock_granted).
Proof. vm_compute. reflexivity. Qed.

(** Three accounts in plans of two; and the grants of two accounts admit a store. *)
Lemma every_store_is_authorized_first_witness :
  len (accounts_of mock_work.1) = 3 /\
  (forall k, exists st, read_items reader_start (take k mock_work.1) = Some st /\ dispatched st ⊆ awaited st /\ NoDup (dispatched st)) /\
  is_ok (validate_signed acc_b (CallStore data_a) mock_granted).1 = true /\
  in_budget (post_tx_extent 4 (account_authorization_extent mock_granted acc_b)) = true.
Proof.
  assert (mock_work = (mock_work.1, true)) as E by (vm_compute; reflexivity).
  destruct (every_store_is_authorized_first (H9 := mock_keys) mock_payload (fun d => d) (fun kp d => Some (Byte.x02 :: d))
    (fun _ _ => 0) (@reverse _) 3 2 "seed" (FixedPayload 4) mock_work.1 true) as (H1 & _ & H3 & _ & H5).
  - intros l. apply reverse_Permutation.
  - lia.
  - unfold u32_max. lia.
  - split; [|done]. intros s ->. unfold usize_max, u64_max. lia.
  - intros u u' _ _. apply mock_account_inj.
  - exact E.
  - destruct (H5 mock_genesis s_open1 (System Root) [acc_b; no_hash] mock_granted mock_genesis_ok reach_open1_extrinsics
      mock_now_small mock_granted_ok) as [Ha Hb].
    split_and!; [by apply H3|exact H1|..].
    + apply Ha; [by left|vm_compute; reflexivity|vm_compute; reflexivity].
    + apply Hb; [|by left|vm_compute; reflexivity|done].
      apply NoDup_cons_2; [intros Hin%list_elem_of_singleton; discriminate Hin|apply NoDup_singleton].
Defined.
