(* ===== verification/BitswapTheorems.v ===== *)
(** Properties of the Bitswap client: every request is answered once, responses are
    matched in the order of the requests, and what a lost response does. *)

From S2P Require Import Prelude Slice Primitives Types Bitswap.

Section Rounds.
Context {PeerId : Type} `{Countable PeerId}.

Lemma healthy_answers (peer : PeerId) h rounds :
  peer ∈ connected_peers h -> waiting_for peer h = [] ->
  Forall (fun r => pending_outbound h !! rd_substream r = None) rounds ->
  Forall (fun r => is_Some (rd_response r)) rounds ->
  answers (run_rounds peer h rounds) = answers h ++ map own_answer rounds.
Proof.
  intros Hc Hw Hs Hr. destruct (run_rounds_queue peer rounds h Hc Hs) as (_ & _ & Hq).
  rewrite Hw, queue_healthy in Hq by done. by injection Hq.
Qed.

Lemma lost_answers (peer : PeerId) h healthy lost later :
  peer ∈ connected_peers h -> waiting_for peer h = [] ->
  Forall (fun r => pending_outbound h !! rd_substream r = None) (healthy ++ lost :: later) ->
  Forall (fun r => is_Some (rd_response r)) healthy -> rd_response lost = None ->
  Forall (fun r => is_Some (rd_response r)) later ->
  answers (run_rounds peer h (healthy ++ lost :: later)) = answers h ++ map own_answer healthy ++ shifted_answers lost later.
Proof.
  intros Hc Hw Hs Hh Hl Hr. destruct (run_rounds_queue peer _ h Hc Hs) as (_ & _ & Hq).
  rewrite Hw, foldl_app, queue_healthy in Hq by done. cbn [foldl] in Hq.
  unfold queue_round at 2 in Hq. cbn [fst snd app] in Hq. rewrite Hl, queue_shifted, <-(assoc_L (++)) in Hq by done. by injection Hq.
Qed.

Lemma find_own (l : list (Z * FetchAnswer)) tx a :
  NoDup (map fst l) -> (tx, a) ∈ l -> List.find (fun p => p.1 =? tx) l = Some (tx, a).
Proof.
  induction l as [|[t b] l IH]; [by intros _ ?%elem_of_nil|]. cbn. rewrite NoDup_cons, elem_of_cons. intros [Ht Hn] [[= <- <-]|Hin].
  - by rewrite Z.eqb_refl.
  - rewrite (proj2 (Z.eqb_neq t tx)); [by apply IH|]. intros ->. apply Ht. change (tx ∈ fst <$> l).
    apply list_elem_of_fmap. by exists (tx, a).
Qed.

Lemma sublist_fmap_take k (rounds : list Round) : sublist (map rd_tx (take k rounds)) (map rd_tx rounds).
Proof.
  rewrite <-(take_drop k rounds) at 2. rewrite map_app. apply sublist_inserts_r. done.
Qed.

(** C40: The Bitswap client answers every request, and matches responses in request
    order. Whatever the commands and transport events, once the handler has ended each
    request has been answered exactly once. Over an open connection with nothing waiting,
    as long as every request gets its response each [fetch_blocks] returns the blocks of
    its own response. But a request whose response never comes keeps its place in the
    queue after its caller's time is over: every later response is then delivered to the
    request before it, and every later fetch times out although the node answered it,
    until the connection closes. *)
Theorem bitswap_answers_in_request_order (peer : PeerId) events h healthy lost later :
  peer ∈ connected_peers h -> waiting_for peer h = [] ->
  Forall (fun r => pending_outbound h !! rd_substream r = None) (healthy ++ lost :: later) ->
  Forall (fun r => is_Some (rd_response r)) healthy -> rd_response lost = None ->
  Forall (fun r => is_Some (rd_response r)) later ->
  NoDup (map fst (answers h) ++ map rd_tx (healthy ++ lost :: later)) ->
  map fst (answers (on_exit (handle_all (handler_start (PeerId := PeerId)) events))) ≡ₚ omap event_request events /\
  (forall k r, healthy !! k = Some r ->
     fetch_blocks (rd_tx r) (run_rounds peer h (take (S k) healthy)) =
       Some (response_answer (length (rd_cids r)) (frames_of r))) /\
  answers (run_rounds peer h (healthy ++ lost :: later)) =
    answers h ++ map own_answer healthy ++ shifted_answers lost later /\
  (forall k r, later !! k = Some r ->
     fetch_blocks (rd_tx r) (run_rounds peer h (healthy ++ lost :: take (S k) later)) = None) /\
  waiting_for peer (on_closed peer (run_rounds peer h (healthy ++ lost :: later))) = [].
Proof.
  intros Hc Hw Hs Hh Hl Hr Hn. split_and!.
  - destruct (accounted_exit (handle_all (handler_start (PeerId := PeerId)) events)) as [-> _].
    rewrite accounted_all. unfold accounted, held. cbn. by rewrite map_to_list_empty, !app_nil_r.
  - intros k r Hk. unfold fetch_blocks. apply Forall_app in Hs as [Hs _].
    rewrite healthy_answers by (try done; by apply Forall_take).
    rewrite (find_own _ (rd_tx r) (own_answer r).2); [done| |].
    + rewrite map_app, map_map. cbn [own_answer fst]. eapply sublist_NoDup; [exact Hn|].
      apply sublist_app; [done|]. rewrite map_app. apply sublist_inserts_r. apply (sublist_fmap_take (S k) healthy).
    + apply elem_of_app. right. apply list_elem_of_fmap. exists r. split; [done|].
      apply (list_elem_of_lookup_2 _ k). by rewrite lookup_take_lt by lia.
  - by apply lost_answers.
  - intros k r Hk. unfold fetch_blocks. rewrite lost_answers; try done.
    + rewrite find_None; [done|]. rewrite !map_app, map_map. cbn [own_answer fst].
      rewrite map_app, (assoc_L (++)) in Hn. apply NoDup_app in Hn as (_ & Hd & Hn).
      assert (rd_tx r ∈ map rd_tx (lost :: later)) as Hin
        by (apply list_elem_of_fmap; exists r; split; [done|right; by eapply list_elem_of_lookup_2]).
      rewrite (assoc_L (++)), elem_of_app. intros [Hx|Hx]; [by apply (Hd _ Hx)|]. by apply (shifted_txs lost later k r).
    + apply Forall_app in Hs as [Hs1 Hs2]. apply Forall_app. split; [done|].
      apply Forall_cons in Hs2 as [? ?]. constructor; [done|]. by apply Forall_take.
    + by apply Forall_take.
  - apply closed_waiting.
Qed.
End Rounds.

(** A connection of peer 7: two answered rounds, one lost, two more answered by the node. *)
Definition one_block (x : byte) : option (list Frame) :=
  Some [Decoded (mkMessage None [] [([], [x])] [] 0)].

Definition connected_handler : Handler Z := handle_all handler_start [ConnectionEstablished 7 (fun _ => None)].

Lemma bitswap_answers_in_request_order_witness :
  let round tx x := mkRound tx [[x]] tx (one_block x) in
  let a := byte_of_Z 1 in let b := byte_of_Z 2 in let c := byte_of_Z 3 in let d := byte_of_Z 4 in
  let lost := mkRound 2 [[a]] 2 None in
  answers (run_rounds 7 connected_handler ([round 0 a; round 1 b] ++ lost :: [round 3 c; round 4 d])) =
    [(0, Blocks [[a]]); (1, Blocks [[b]]); (2, Blocks [[c]]); (3, Blocks [[d]])].
Proof.
  intros round a b c d lost.
  edestruct (bitswap_answers_in_request_order 7 [] connected_handler [round 0 a; round 1 b] lost [round 3 c; round 4 d])
    as (_ & _ & He & _); [..|rewrite He; by vm_compute].
  - by vm_compute.
  - by vm_compute.
  - repeat constructor.
  - repeat constructor; by eexists.
  - done.
  - repeat constructor; by eexists.
  - apply (bool_decide_unpack _). by vm_compute.
Defined.
